(* ===== verification/_CoqProject ===== *)
-Q . S2P
Prelude.v
Geth.v
Erc20.v
ChainStore.v
ChainStorePg.v
ChainStoreRefine.v
Events.v
Monitor.v
MonitorSafety.v
ChainSchema.v
MonitorReorg.v
Rat.v
Margin.v
MarginRisk.v
Http.v
Middleware.v
Mux.v
Auth.v
Float64.v
RateLimit.v
RedisLimit.v
Proxy.v
Gateway.v
User.v
UserService.v
Wallet.v
WalletConc.v
Notification.v
EventFlow.v
GatewaySecurity.v
MarginService.v
Startup.v
Process.v
Entry.v
GatewayLimit.v
LoadTest.v
