(* ===== verification/Prelude.v ===== *)
(** * Web3 event platform: a verification development

    The platform is a set of Go services around an Ethereum node.

    - The gateway (src/internal/gateway, src/cmd/gateway) is the public edge:
      it grants tokens to registered clients, verifies bearer tokens, limits
      the request rate per client address and proxies /api/v1 to the internal
      services with the verified identity in two headers.
    - The user and wallet services (src/internal/user, src/internal/wallet)
      trust those headers, keep users and keystore accounts, and publish a
      domain event for each one created.
    - The chain monitor (src/internal/chainmonitor) polls the node, indexes
      blocks and ERC-20 transfers into a store (in memory or Postgres), undoes
      reorganisations, confirms transfers at a depth and publishes what it did.
    - The margin service (src/internal/margin, src/cmd/margin) reads balances
      and oracle prices from the chain and classifies an account.
    - The notification consumer (src/internal/notification) logs the events
      the others publish over NATS (src/pkg/events).
    - src/pkg/auth, src/pkg/httpx and src/pkg/server are shared by all of them.

    ** How Go is modelled

    An effectful Go function is a value of the monad [go S A] of this file: a
    function from the state it can change to an outcome and a new state.  The
    outcome is [Ok v], [Err e] for a returned error, [Panic m] for a panic, or
    [Diverge] for a loop that was cut.  An effect made before an error or a
    panic stays in the state, as it does in Go.  [error] keeps sentinels,
    texts and [%w] wrapping apart, so that [errors_Is] is the one of Go.  A
    [uint64] is an [N] with its wrap-around written out (scope [u64_scope]), a
    [time.Duration] a [Z] of nanoseconds, a [big.Rat] a reduced [Q], a
    [float64] the rational it denotes with every operation rounded.

    [triple] and the lemmas on it in this file are the program logic of the
    development: the specification of an operation is a triple, which covers
    its errors and says whether it may panic, and triples compose along the
    code.

    ** The files

    - [Prelude]: the monad, errors, machine integers, shared lemmas, tactics
      and hint databases.
    - [Geth]: the go-ethereum functions the platform calls, as a class with
      the laws it relies on, and a concrete instance [Toy].
    - [Erc20]: internal/chainmonitor/erc20.go.
    - [ChainStore]: internal/chainmonitor/store.go: the [Store] interface, the
      abstract index each store stands for, the contract [StoreLaws], and
      [MemStore] with its proof of the contract.
    - [ChainStorePg]: internal/chainmonitor/store_postgres.go and the tables
      of migrations/001_init.sql: each SQL text as a function on tables, with
      connection faults at every round trip, and the same contract.
    - [ChainStoreRefine]: sequences of store calls; the stores agree.
    - [Events]: pkg/events/events.go.
    - [Monitor]: internal/chainmonitor/monitor.go and backend.go: [Sync],
      [rollback], the publications and [Run] over any node and any store.
    - [MonitorSafety]: what holds whatever the node answers and however the
      store fails.
    - [ChainSchema]: the declared types and constraints of the tables, and
      that every run keeps them.
    - [MonitorReorg]: what holds when the node serves one consistent chain.
    - [Rat]: the part of math/big the engine uses, with the rendering of
      [FloatString] and which number its digits are.
    - [Margin]: internal/margin: engine.go, oracle.go, reader.go.
    - [MarginRisk]: a reference valuation, [Evaluate] equals it, and the risk
      properties that follow.
    - [Http], [Middleware]: the parts of net/http the services use,
      pkg/httpx/httpx.go, and what the middleware stack guarantees.
    - [Mux]: [http.ServeMux] routing for the patterns the services register.
    - [Auth]: pkg/auth/auth.go, over golang-jwt as a class with laws and a
      concrete instance [ToyJWT].
    - [Float64], [RateLimit]: binary64 rounding and
      internal/gateway/ratelimit.go.
    - [RedisLimit]: internal/gateway/ratelimit_redis.go.
    - [Proxy]: net/http/httputil.ReverseProxy as the gateway sets it up.
    - [Gateway]: internal/gateway/gateway.go.
    - [GatewaySecurity]: what the gateway lets through, alone and composed
      with the user service behind it.
    - [User], [UserService]: internal/user/user.go and store_postgres.go.
    - [Wallet]: internal/wallet/wallet.go, one request at a time;
      [WalletConc]: its requests interleaved.
    - [Notification]: internal/notification/notification.go;
      [EventFlow]: the pipeline from [Publish] over a broker to its log.
    - [MarginService]: the handler, the routes and the registry of
      cmd/margin/main.go.
    - [Startup]: the readers of the environment and the configuration that
      cmd/gateway and cmd/chainmonitor make of it.
    - [Process]: pkg/server/server.go, [events.Connect] and the
      [NewPostgresStore] functions: a process as what it opens, serves and
      closes, with [defer] and [os.Exit].
    - [Entry]: the [main] functions of cmd/ as processes, and what is true of
      the services they end up serving.
    - [GatewayLimit]: the gateway of [Entry] with its in-process limiter, from
      the configuration to what it sends.
    - [LoadTest]: loadtest/main.go: its workers as a concurrent program, and
      the figures it reports.

    ** What the theorems show

    - Chain monitor.  Whatever the node answers and however store calls fail,
      the index stays a gap-free, hash-linked run of blocks and nothing is
      confirmed above the confirmation depth ([run_keeps_index_sound],
      [postgres_confirms_only_deep]).  A call always returns ([sync_returns]),
      and one that returns nil has done its work ([sync_nil_is_complete]).
      Against a consistent node the index converges to the canonical chain in
      one call per stale block and one more ([sync_converges]); the single
      steps of that are [sync_rolls_back_stale_tip], [sync_indexes_canonical]
      and [sync_idempotent].  Rollback is not bounded by the confirmation
      depth ([deep_reorg_deletes_confirmed]).
    - Stores.  Both keep [StoreLaws], so the monitor's theorems hold on each;
      they give the same answers ([postgres_refines_memory]) and a Postgres
      save is atomic under faults ([postgres_save_atomic]).  The tables stay
      within their schema in every run ([run_keeps_schema]).
    - Gateway.  What is sent upstream carries a verified identity or none
      ([forwarded_identity_is_verified]), administrator routes need an
      administrator token end to end ([user_list_needs_admin_token]), tokens
      need credentials ([token_only_for_credentials]), and both limiters bound
      what they let through: the one in Redis across replicas
      ([redis_window_limit]), the one in the process from the configuration
      of [main] to the requests on the network ([deployed_gateway_limit]).
    - Tokens.  Issue and verify round-trip until expiry, and only HS256 under
      the configured secret and issuer is accepted.
    - Margin.  [Evaluate] computes exactly the reference sums; the deployed
      engine neither panics nor reports from bad inputs; more debt is never
      safer; too little collateral is always flagged.
    - Services.  Every branch of registration, wallet creation, the margin
      handler, the middleware and the consumer; uniqueness of emails across
      any requests and faults; wallets under concurrent requests
      ([concurrent_wallets]).
    - Events.  The consumer's log against what was published, whatever is
      dropped or delayed ([notices_are_publications]).
    - Deployment.  What the mains serve, for every environment: the gateway's
      secret, clients and limiter ([deployed_gateway]), the monitor's depth
      ([deployed_monitor_confirms]), the stores, keys and engine of the other
      services, and that resources are released on the way out.
    - Load generator.  Its report tells what happened, for every schedule of
      its workers ([report_matches_requests]), and it ends
      ([load_test_ends]).

    ** Bounds and fuel

    [loop_fuel] gives the block loop of [Sync] one iteration per block from
    the first missing one to the head, and one more to leave; [sync_returns]
    proves that it suffices whenever the head is below the largest [uint64],
    where the counter of the source would wrap and the loop not end.  [Run] is
    indexed by the number of ticks before its context is cancelled and
    the theorem on it is for every number.  Nothing else needs fuel: the
    concurrent models ([WalletConc], [EventFlow], [LoadTest]) are step
    relations or step functions over schedules of any length.

    ** Parameters

    Code outside the repository is an argument of the definitions that use
    it, with the documented facts as classes or hypotheses and a concrete
    instance for the witnesses: go-ethereum ([Geth], [GethLaws], [Toy]), its
    keystore ([KeyStore], [KeyStoreLaws]), golang-jwt ([JWTLib], [JWTLaws]),
    Redis ([RedisClient], [RedisLaws]), the JSON codec and connection of NATS
    ([Codec], [Conn], [ConnLaws]) with its delivery ([Delivery]), the uuid
    generator, the clock, [mail.ParseAddress], [big.Rat.SetString],
    [time.ParseDuration] and [url.Parse]; and, for a process, the outcomes of
    dialling, of opening a pool, of the schema statement and of listening
    ([outside]).

    ** What is not modelled

    - JSON text of requests: a body is the value it spells, with the offset at
      which that value ends.
    - Log lines, except the ones a property is about (access log, panic log,
      the consumer's notices).
    - What a connection pool, a time-out or the draining of a shutdown does:
      their settings are data of the process model, their working is the
      library's.
    - Contexts: cancellation is an error a call may return.
    - Data races: a mutex-protected call or an atomic operation is one step.
      Where code holds no lock across its accesses (wallets, load generator)
      each access is a step of its own; elsewhere the theorems on histories
      quantify over every order of the calls.
    - src/pkg/logging (constructs a logger), the flag parsing and line layout
      of the load generator, deployment files and scripts. *)

From stdpp Require Export base gmap list strings numbers fin_maps sorting pretty.
From Stdlib Require Export Lia.
From Stdlib Require Strings.Byte.
From Stdlib Require Import Ascii.

#[export] Set Warnings "-register-all,-clear-no-such-hyp".

(** ** Go errors *)

(** A Go [error] value.  [ErrSentinel] is a package-level variable compared
    by identity ([ErrNotFound], [ErrConflict], ...), [ErrorString] is an
    anonymous [errors.New]/driver error, and [WrapError m e] is
    [fmt.Errorf("m: %w", e)]. *)
Inductive error :=
  | ErrSentinel (name : string)
  | ErrorString (msg : string)
  | WrapError (msg : string) (inner : error).

#[export] Instance error_eq_dec : EqDecision error.
Proof. solve_decision. Defined.

#[export] Instance byte_eq_dec : EqDecision Byte.byte := Byte.byte_eq_dec.

(** [err.Error()]. *)
Fixpoint error_Error (e : error) : string :=
  match e with
  | ErrSentinel n => n
  | ErrorString m => m
  | WrapError m e' => m +:+ ": " +:+ error_Error e'
  end.

(** [errors.Is(err, target)] for a sentinel target: walk the [%w] chain. *)
Fixpoint errors_Is (e : error) (target : string) : bool :=
  match e with
  | ErrSentinel n => bool_decide (n = target)
  | ErrorString _ => false
  | WrapError _ e' => errors_Is e' target
  end.

(** A Go raw string literal: written here with single quotation marks where
    the source has double ones. *)
Fixpoint raw_text (s : string) : string :=
  match s with
  | EmptyString => EmptyString
  | String c s' => String (if bool_decide (c = Ascii.ascii_of_nat 39) then Ascii.ascii_of_nat 34 else c) (raw_text s')
  end.

(** ** Results of Go calls

    [Ok a] is a normal return with a nil error, [Err e] a return with a
    non-nil error, [Panic] a run-time panic that unwinds the goroutine, and
    [Diverge] a loop that did not finish within the fuel it was given. *)
Inductive res (A : Type) :=
  | Ok (a : A)
  | Err (e : error)
  | Panic (msg : string)
  | Diverge.
Arguments Ok {A} a.
Arguments Err {A} e.
Arguments Panic {A} msg.
Arguments Diverge {A}.

Definition res_bind {A B} (r : res A) (k : A → res B) : res B :=
  match r with
  | Ok a => k a
  | Err e => Err e
  | Panic m => Panic m
  | Diverge => Diverge
  end.

Definition is_Ok {A} (r : res A) : bool := match r with Ok _ => true | _ => false end.

(** ** The state monad of Go code

    [go S A] is code that runs on a state of type [S]: it returns a result and
    the state it leaves behind.  Writes made before an error, a panic or a
    non-terminating loop are kept, as in the program. *)
Definition go (S A : Type) : Type := S → res A * S.

Definition go_ret {S A} (a : A) : go S A := λ s, (Ok a, s).
Definition go_err {S A} (e : error) : go S A := λ s, (Err e, s).
Definition go_panic {S A} (m : string) : go S A := λ s, (Panic m, s).
Definition go_bind {S A B} (c : go S A) (k : A → go S B) : go S B := λ s,
  match c s with
  | (Ok a, s') => k a s'
  | (Err e, s') => (Err e, s')
  | (Panic m, s') => (Panic m, s')
  | (Diverge, s') => (Diverge, s')
  end.
(** Pure code lifted into the state. *)
Definition go_res {S A} (r : res A) : go S A := λ s, (r, s).
(** [v, err := c]: the error becomes a value the caller inspects. *)
Definition go_try {S A} (c : go S A) : go S (error + A) := λ s,
  match c s with
  | (Ok a, s') => (Ok (inr a), s')
  | (Err e, s') => (Ok (inl e), s')
  | (Panic m, s') => (Panic m, s')
  | (Diverge, s') => (Diverge, s')
  end.
(** Run code of a sub-component on its part of the state. *)
Definition go_zoom {S T A} (get : S → T) (put : T → S → S) (c : go T A) : go S A := λ s,
  match c (get s) with (r, t) => (r, put t s) end.
Definition go_modify {S} (f : S → S) : go S unit := λ s, (Ok tt, f s).

(** [fmt.Errorf("m: %w", err)] around a call. *)
Definition wrap_err {S A} (m : string) (c : go S A) : go S A := λ s,
  match c s with
  | (Err e, s') => (Err (WrapError m e), s')
  | r => r
  end.

(** What can happen to one round trip to a database server: the statement is
    refused, or it is executed and the reply is lost. *)
Inductive fault :=
  | NoFault
  | Refused (e : error)
  | ReplyLost (e : error).

Declare Scope go_scope.
Delimit Scope go_scope with go.
Notation "'let!' x := c 'in' k" := (go_bind c (λ x, k))
  (at level 10, x binder, c at level 100, k at level 200) : go_scope.
Notation "'do!' c 'in' k" := (go_bind c (λ _ : unit, k))
  (at level 10, c at level 100, k at level 200) : go_scope.
Open Scope go_scope.

(** A Go [for _, x := range l] loop whose body can return an error. *)
Fixpoint go_for {S A} (l : list A) (body : A → go S unit) : go S unit :=
  match l with
  | [] => go_ret tt
  | x :: l' => do! body x in go_for l' body
  end.

(** ** Hoare triples for [go]

    [triple bad P c Q E]: from a state satisfying [P], a normal return satisfies
    [Q] and any other outcome leaves a state satisfying [E]; a panic or a
    loop without end happens only if [bad] holds.  With [bad := False] the
    triple says that the code returns, with [bad := True] it does not care. *)
Definition triple (bad : Prop) {S A} (P : S → Prop) (c : go S A) (Q : A → S → Prop)
    (E : S → Prop) : Prop :=
  ∀ s, P s → match c s with
             | (Ok a, s') => Q a s'
             | (Err _, s') => E s'
             | (_, s') => bad ∧ E s'
             end.

(** The call came back, with a value or an error. *)
Definition returns {A} (r : res A) : Prop :=
  match r with Ok _ | Err _ => True | _ => False end.

Section triples.
Context (bad : Prop) {S : Type}.
Implicit Types (P E : S → Prop).

Lemma triple_ret {A} (a : A) P Q E : (∀ s, P s → Q a s) → triple bad P (go_ret a) Q E.
Proof. intros H s Hs. apply H, Hs. Qed.

Lemma triple_err {A} (e : error) P (Q : A → S → Prop) E :
  (∀ s, P s → E s) → triple bad P (go_err e) Q E.
Proof. intros H s Hs. apply H, Hs. Qed.

Lemma triple_bind {A B} (c : go S A) (k : A → go S B) P R Q E :
  triple bad P c R E → (∀ a, triple bad (R a) (k a) Q E) → triple bad P (go_bind c k) Q E.
Proof.
  intros Hc Hk s Hs. specialize (Hc s Hs). unfold go_bind.
  destruct (c s) as [[a|e|m|] s']; try exact Hc. exact (Hk a s' Hc).
Qed.

Lemma triple_conseq {A} (c : go S A) P P' Q Q' E E' :
  triple bad P' c Q' E' → (∀ s, P s → P' s) → (∀ a s, Q' a s → Q a s) → (∀ s, E' s → E s) →
  triple bad P c Q E.
Proof.
  intros Hc HP HQ HE s Hs. specialize (Hc s (HP s Hs)).
  destruct (c s) as [[a|e|m|] s']; naive_solver.
Qed.

Lemma triple_pre {A} (c : go S A) P P' Q E :
  triple bad P' c Q E → (∀ s, P s → P' s) → triple bad P c Q E.
Proof. intros Hc HP s Hs. exact (Hc s (HP s Hs)). Qed.

Lemma triple_try {A} (c : go S A) P (Q : error + A → S → Prop) E :
  triple bad P c (λ a s, Q (inr a) s) (λ s, E s ∧ ∀ e, Q (inl e) s) →
  triple bad P (go_try c) Q E.
Proof.
  intros Hc s Hs. specialize (Hc s Hs). unfold go_try.
  destruct (c s) as [[a|e|m|] s']; [exact Hc|apply Hc|split; apply Hc|split; apply Hc].
Qed.

Lemma triple_for {A} (body : A → go S unit) P E l :
  (∀ x, x ∈ l → triple bad P (body x) (λ _, P) E) → triple bad P (go_for l body) (λ _, P) E.
Proof.
  induction l as [|x l IH]; intros Hb; simpl.
  - by apply triple_ret.
  - eapply triple_bind; [apply Hb; set_solver|]. intros ?. simpl. apply IH. set_solver.
Qed.

(** Reading a triple at one run. *)
Lemma triple_Ok {A} (c : go S A) P Q E s a s' :
  triple bad P c Q E → P s → c s = (Ok a, s') → Q a s'.
Proof. intros Hc Hs Heq. specialize (Hc s Hs). by rewrite Heq in Hc. Qed.

Lemma triple_returns {A} (c : go S A) P Q E s :
  (bad → False) → triple bad P c Q E → P s → returns (c s).1.
Proof.
  intros Hbad Hc Hs. specialize (Hc s Hs). destruct (c s) as [[] s']; simpl; try done; by apply Hbad, Hc.
Qed.

Lemma triple_any {A} (c : go S A) P I s :
  triple bad P c (λ _, I) I → P s → I (c s).2.
Proof. intros Hc Hs. specialize (Hc s Hs). destruct (c s) as [[]]; try exact Hc; apply Hc. Qed.
End triples.

Lemma go_bind_Ok {S A B} (c : go S A) (k : A → go S B) s b s'' :
  go_bind c k s = (Ok b, s'') ↔ ∃ a s', c s = (Ok a, s') ∧ k a s' = (Ok b, s'').
Proof.
  unfold go_bind. destruct (c s) as [[a|e|m|] s'] eqn:Hc; split.
  1: intros H; exists a, s'; auto.
  all: intros H; try discriminate; destruct H as (a0 & s0 & Heq & H); congruence.
Qed.

Lemma go_bind_run {S A B} (c : go S A) (k : A → go S B) s a s' :
  c s = (Ok a, s') → go_bind c k s = k a s'.
Proof. intros H. unfold go_bind. by rewrite H. Qed.

Lemma go_bind_assoc {S A B C} (c : go S A) (k : A → go S B) (k' : B → go S C) s :
  go_bind (go_bind c k) k' s = go_bind c (λ a, go_bind (k a) k') s.
Proof. unfold go_bind. by destruct (c s) as [[] s']. Qed.

Lemma go_bind_ext {S A B} (c : go S A) (k k' : A → go S B) s :
  (∀ a s', k a s' = k' a s') → go_bind c k s = go_bind c k' s.
Proof. intros Hk. unfold go_bind. destruct (c s) as [[] s']; done. Qed.

(** Replacing one element changes what is collected in that place only. *)
Lemma bind_insert {A B} (f : A → list B) (l : list A) i x y :
  l !! i = Some x → ∃ rest, l ≫= f ≡ₚ f x ++ rest ∧ <[i := y]> l ≫= f ≡ₚ f y ++ rest.
Proof.
  intros Hi. exists ((take i l ++ drop (S i) l) ≫= f). rewrite insert_take_drop by (by eapply lookup_lt_Some).
  rewrite <-(take_drop_middle l i x Hi) at 1. rewrite !bind_app, !bind_cons. split; solve_Permutation.
Qed.

Lemma lookup_snoc_cases {A} (l : list A) x i y :
  (l ++ [x]) !! i = Some y → l !! i = Some y ∨ i = length l ∧ y = x.
Proof.
  intros Hi. apply lookup_app_Some in Hi as [Hi|[Hle Hi]]; [by left|right].
  apply list_lookup_singleton_Some in Hi as [? ->]. split; [lia|done].
Qed.

Lemma lookup_insert_cases {A} (l : list A) i x j y :
  <[i := x]> l !! j = Some y → i = j ∧ y = x ∨ i ≠ j ∧ l !! j = Some y.
Proof.
  intros Hj. destruct (decide (i = j)) as [<-|Hne]; [left|right; by rewrite list_lookup_insert_ne in Hj].
  apply list_lookup_insert_Some in Hj as [(? & ? & ?)|[? ?]]; done.
Qed.

(** ** Fixed-width integers *)

(** An [int64] is a [Z] in two's-complement range; [i64] is the wrap-around. *)
Definition i64 (z : Z) : Z := ((z + 2 ^ 63) mod 2 ^ 64 - 2 ^ 63)%Z.

Lemma i64_id z : (- 2 ^ 63 ≤ z < 2 ^ 63)%Z → i64 z = z.
Proof. intros Hz. unfold i64. rewrite Z.mod_small; lia. Qed.

Lemma i64_add_l a b : i64 (i64 a + b) = i64 (a + b).
Proof.
  unfold i64. f_equal. replace ((a + 2 ^ 63) mod 2 ^ 64 - 2 ^ 63 + b + 2 ^ 63)%Z with ((a + 2 ^ 63) mod 2 ^ 64 + b)%Z by lia.
  rewrite Z.add_mod_idemp_l by lia. f_equal. lia.
Qed.

Declare Scope u64_scope.
Delimit Scope u64_scope with u64.

(** A Go [uint64] is an [N] below [2^64]; arithmetic wraps around. *)
Definition two64 : N := 18446744073709551616%N.
Definition u64 (n : N) : N := (n mod two64)%N.
Definition u64_add (a b : N) : N := u64 (a + b).
Definition u64_sub (a b : N) : N := u64 (a + (two64 - b mod two64)).
Notation "a +64 b" := (u64_add a b) (at level 50, left associativity) : u64_scope.
Notation "a -64 b" := (u64_sub a b) (at level 50, left associativity) : u64_scope.

(** [big.Int.Uint64]: the low 64 bits of the absolute value. *)
Definition bigint_Uint64 (z : Z) : N := u64 (Z.abs_N z).

Lemma u64_small n : (n < two64)%N → u64 n = n.
Proof. intros. by apply N.mod_small. Qed.

Lemma u64_bound n : (u64 n < two64)%N.
Proof. unfold u64. apply N.mod_lt. done. Qed.

Lemma u64_add_small a b : (a + b < two64)%N → u64_add a b = (a + b)%N.
Proof. apply u64_small. Qed.

Lemma u64_sub_small a b : (a < two64)%N → (b ≤ a)%N → u64_sub a b = (a - b)%N.
Proof.
  intros Ha Hb. unfold u64_sub. rewrite (N.mod_small b) by lia.
  replace (a + (two64 - b))%N with ((a - b) + 1 * two64)%N by lia.
  unfold u64. rewrite N.Div0.mod_add. apply N.mod_small. lia.
Qed.

Lemma u64_succ_bound n : (n < two64 - 1)%N → u64_add n 1 = (n + 1)%N.
Proof. intros. apply u64_add_small. unfold two64 in *. lia. Qed.

(** ** Lists *)

(** Filtering a mapped list filters the source by the composed predicate, as
    long as the two predicates agree on its elements. *)
Lemma filter_fmap_iff {A B} (f : A → B) (P : B → Prop) (Q : A → Prop)
    `{∀ x, Decision (P x), ∀ x, Decision (Q x)} (l : list A) :
  (∀ x, x ∈ l → P (f x) ↔ Q x) → filter P (f <$> l) = f <$> filter Q l.
Proof.
  induction l as [|x l IH]; intros Hiff; [done|].
  rewrite fmap_cons, !filter_cons, IH by (intros; apply Hiff; set_solver).
  specialize (Hiff x ltac:(set_solver)). do 2 case_decide; tauto || done.
Qed.

Lemma filter_nothing {A} (P : A → Prop) `{∀ x, Decision (P x)} (l : list A) :
  (∀ x, x ∈ l → ¬ P x) → filter P l = [].
Proof.
  induction l as [|x l IH]; intros Hn; [done|]. rewrite filter_cons, decide_False by (apply Hn; left).
  apply IH. intros y Hy. apply Hn. by right.
Qed.

Lemma sublist_fmap {A B} (f : A → B) (l k : list A) : sublist l k → sublist (f <$> l) (f <$> k).
Proof. induction 1; simpl; by constructor. Qed.

Create HintDb platform discriminated.
Create Rewrite HintDb u64.
#[export] Hint Resolve u64_bound triple_ret triple_err : platform.
#[export] Hint Rewrite u64_succ_bound using lia : u64.

(** ** Tactics *)

(** Split a run of monadic code that returned normally. *)
Ltac go_inv :=
  repeat match goal with
  | H : go_bind _ _ _ = (Ok _, _) |- _ =>
      let a := fresh "a" in let s := fresh "s" in let H1 := fresh "Hrun" in
      apply go_bind_Ok in H as (a & s & H1 & H)
  | H : go_ret _ _ = _ |- _ => unfold go_ret in H; simplify_eq
  end.

(** One step of a triple proof over the monad's constructors. *)
Ltac triple_step :=
  match goal with
  | |- triple _ _ (go_ret _) _ _ => apply triple_ret
  | |- triple _ _ (go_err _) _ _ => apply triple_err
  | |- triple _ _ (go_bind _ _) _ _ => eapply triple_bind
  | |- triple _ _ (if ?b then _ else _) _ _ => destruct b eqn:?
  | |- triple _ _ (match ?x with _ => _ end) _ _ => destruct x eqn:?
  end.

(** ** JSON-shaped values published on the bus and returned over HTTP *)
Inductive json :=
  | JNull
  | JBool (b : bool)
  | JNum (z : Z)
  | JStr (s : string)
  | JArr (l : list json)
  | JObj (fields : list (string * json)).

Definition lower_char (c : ascii) : ascii :=
  let n := N_of_ascii c in
  if ((65 <=? n) && (n <=? 90))%N then ascii_of_N (n + 32) else c.

Fixpoint to_lower (s : string) : string :=
  match s with
  | EmptyString => EmptyString
  | String c s' => String (lower_char c) (to_lower s')
  end.

(** The struct field that an object member names when encoding/json fills a
    struct: exactly, or else ignoring (ASCII) case. *)
Definition match_field (fields : list string) (k : string) : option string :=
  if bool_decide (k ∈ fields) then Some k
  else match list_find (λ f, to_lower f = to_lower k) fields with
       | Some (_, f) => Some f
       | None => None
       end.
