(* ===== verification/Geth.v ===== *)
(** * The go-ethereum surface the platform calls

    go-ethereum is a third-party module: its types and functions are the
    fields of the classes below, so every definition that uses them takes them
    as arguments.  [GethLaws] names the documented facts the theorems rely on,
    and [Toy] is one concrete instance of both classes, used by the witnesses. *)

From S2P Require Import Prelude.
From Stdlib Require Import Strings.HexString.

(** [common.Hash] and [common.Address]: comparable with [==], usable as map
    keys; [Hash_zero] is [common.Hash{}]. *)
Class GethTypes := {
  Hash : Type;
  Hash_eq_dec :: EqDecision Hash;
  Hash_zero : Hash;
  Address : Type;
  Address_eq_dec :: EqDecision Address;
  Address_countable :: Countable Address;
}.

Section records.
Context `{GethTypes}.

(** The fields of [types.Header] the program (and its tests) read. *)
Record Header := mkHeader {
Header_Number : Z;
Header_ParentHash : Hash;
Header_Time : N;
Header_Extra : list Byte.byte;
}.

(** [types.Log]. *)
Record Log := mkLog {
Log_Address : Address;
Log_Topics : list Hash;
Log_Data : list Byte.byte;
Log_TxHash : Hash;
Log_Index : N;
}.

#[export] Instance Header_eq_dec : EqDecision Header.
Proof. solve_decision. Defined.
End records.

(** A value returned by [abi.ABI.Unpack], as far as the code looks at it. *)
Inductive abi_val :=
  | AbiBigInt (z : Z)
  | AbiOther.

Class Geth `{GethTypes} := {
  Hash_Hex : Hash → string;
  HexToHash : string → Hash;
  Address_Hex : Address → string;
  HexToAddress : string → Address;
  IsHexAddress : string → bool;
  (** [common.BytesToHash(a.Bytes())], how an indexed address is stored in a
      topic. *)
  Address_topic : Address → Hash;
  (** [(h *types.Header).Hash] *)
  Header_Hash : Header → Hash;
  (** [abi.ABI] and the calls made on it. *)
  ABI : Type;
  abi_JSON : string → res ABI;
  abi_EventID : ABI → string → Hash;
  (** [UnpackIntoInterface] into a struct with the one field [Value]. *)
  abi_UnpackValue : ABI → string → list Byte.byte → res Z;
  abi_Pack : ABI → string → list Address → res (list Byte.byte);
  abi_Unpack : ABI → string → list Byte.byte → res (list abi_val);
  (** The 32-byte ABI encoding of a uint256. *)
  abi_uint256 : Z → list Byte.byte;
}.

(** Documented behaviour of the calls above. *)
Class GethLaws `{Geth} := {
  HexToHash_Hex : ∀ h, HexToHash (Hash_Hex h) = h;
  HexToAddress_Hex : ∀ a, HexToAddress (Address_Hex a) = a;
  IsHexAddress_Hex : ∀ a, IsHexAddress (Address_Hex a) = true;
  HexToAddress_topic : ∀ a, HexToAddress (Hash_Hex (Address_topic a)) = a;
  abi_UnpackValue_uint256 : ∀ s abi ev v, abi_JSON s = Ok abi →
    (0 ≤ v < 2 ^ 256)%Z → abi_UnpackValue abi ev (abi_uint256 v) = Ok v;
}.

#[export] Hint Rewrite @HexToHash_Hex @HexToAddress_Hex @HexToAddress_topic
  using (typeclasses eauto) : u64.

(** ** A concrete instance *)
Module Toy.
#[export] Instance toy_types : GethTypes := {| Hash := N; Hash_zero := 0%N; Address := N |}.

Definition byte_of_Z (z : Z) : Byte.byte :=
  default Byte.x00 (Byte.of_N (Z.to_N (z mod 256))).

(** Big-endian encoding on [n] bytes, least significant byte last. *)
Fixpoint be_encode (n : nat) (v : Z) : list Byte.byte :=
  match n with
  | O => []
  | S n' => be_encode n' (v / 256) ++ [byte_of_Z v]
  end.

Definition be_decode (l : list Byte.byte) : Z :=
  foldl (λ acc b, acc * 256 + Z.of_N (Byte.to_N b))%Z 0%Z l.

Lemma byte_of_Z_spec z : Z.of_N (Byte.to_N (byte_of_Z z)) = (z mod 256)%Z.
Proof.
  unfold byte_of_Z. pose proof (Z.mod_pos_bound z 256 eq_refl) as Hb.
  destruct (Byte.of_N _) as [b|] eqn:Hof; simpl.
  - apply Byte.to_of_N in Hof. rewrite Hof. lia.
  - apply Byte.of_N_None_iff in Hof. lia.
Qed.

Lemma be_encode_length n v : length (be_encode n v) = n.
Proof. revert v; induction n; intros v; simpl; [done|]. rewrite length_app, IHn. simpl. lia. Qed.

Lemma be_decode_encode n v :
  (0 ≤ v < 256 ^ Z.of_nat n)%Z → be_decode (be_encode n v) = v.
Proof.
  revert v; induction n as [|n IH]; intros v Hv; simpl.
  - change (256 ^ Z.of_nat 0)%Z with 1%Z in Hv. unfold be_decode; simpl. lia.
  - unfold be_decode. rewrite foldl_app. simpl. fold (be_decode (be_encode n (v / 256))).
    rewrite IH, byte_of_Z_spec.
    + pose proof (Z.div_mod v 256). lia.
    + rewrite Nat2Z.inj_succ, Z.pow_succ_r in Hv by lia.
      split; [apply Z.div_pos; lia|apply Z.div_lt_upper_bound; lia].
Qed.

(** A chaining hash: it determines the parent hash. *)
Definition toy_hash (h : Header) : N :=
  (Header_ParentHash h * 256 + (Byte.to_N (default Byte.x00 (head (Header_Extra h))) mod 255) + 1)%N.

#[export] Instance toy_geth : Geth := {|
  Hash_Hex := HexString.of_N;
  HexToHash := HexString.to_N;
  Address_Hex := HexString.of_N;
  HexToAddress := HexString.to_N;
  IsHexAddress := λ s, String.prefix "0x" s;
  Address_topic := λ a : N, (a : N);
  Header_Hash := toy_hash;
  ABI := string;
  abi_JSON := λ s, Ok s;
  abi_EventID := λ _ name, if bool_decide (name = "Transfer") then 221%N else 0%N;
  abi_UnpackValue := λ _ _ d,
    if bool_decide (length d = 32) then Ok (be_decode d) else Err (ErrorString "abi: bad length");
  abi_Pack := λ _ _ args, Ok (be_encode 4 7 ++ mjoin ((λ a : N, be_encode 32 (Z.of_N a)) <$> args));
  abi_Unpack := λ _ name d,
    let words := if bool_decide (name = "latestRoundData") then 5 else 1 in
    if bool_decide (length d = 32 * words) then
      Ok ((λ i, AbiBigInt (be_decode (take 32 (drop (32 * i) d)))) <$> seq 0 words)
    else Err (ErrorString "abi: cannot unmarshal");
  abi_uint256 := be_encode 32;
|}.

#[export] Instance toy_laws : GethLaws.
Proof.
  split.
  - exact HexString.to_N_of_N.
  - exact HexString.to_N_of_N.
  - intros a. simpl. destruct a as [|p]; [reflexivity|]. unfold HexString.of_N, HexString.of_pos.
    generalize (HexString.Raw.of_pos p ""). by intros [].
  - exact HexString.to_N_of_N.
  - intros s abi ev v _ Hv.
    change (abi_UnpackValue abi ev (abi_uint256 v)) with
      (if bool_decide (length (be_encode 32 v) = 32) then Ok (be_decode (be_encode 32 v))
       else Err (ErrorString "abi: bad length")).
    rewrite bool_decide_true by apply be_encode_length.
    f_equal. apply be_decode_encode. exact Hv.
Qed.

Lemma toy_hash_parent h1 h2 :
  toy_hash h1 = toy_hash h2 → Header_ParentHash h1 = Header_ParentHash h2.
Proof.
  unfold toy_hash. simpl.
  set (x := (Byte.to_N _ mod 255)%N). set (y := (Byte.to_N (default _ (head (Header_Extra h2))) mod 255)%N).
  assert (x < 255)%N by (apply N.mod_lt; done). assert (y < 255)%N by (apply N.mod_lt; done).
  generalize dependent x. generalize dependent y. generalize (Header_ParentHash h1) (Header_ParentHash h2).
  simpl. intros p1 p2 y Hy x Hx Heq. lia.
Qed.
End Toy.
