(* ===== verification/Erc20.v ===== *)
(** * ERC-20 [Transfer] decoding (internal/chainmonitor/erc20.go) *)

From S2P Require Import Prelude Geth.

(** [const erc20TransferABI]. *)
Definition erc20TransferABI : string := raw_text "[{
	'anonymous': false,
	'name': 'Transfer',
	'type': 'event',
	'inputs': [
		{'indexed': true,  'name': 'from',  'type': 'address'},
		{'indexed': true,  'name': 'to',    'type': 'address'},
		{'indexed': false, 'name': 'value', 'type': 'uint256'}
	]
}]".

Section erc20.
Context `{Geth}.

(** [type Transfer struct]. *)
Record Transfer := mkTransfer {
  Transfer_Token : Address;
  Transfer_From : Address;
  Transfer_To : Address;
  Transfer_Value : Z;
  Transfer_TxHash : Hash;
  Transfer_LogIndex : N;
}.

#[export] Instance Transfer_eq_dec : EqDecision Transfer.
Proof. solve_decision. Defined.

(** [type transferDecoder struct]. *)
Record transferDecoder := mkDecoder {
  decoder_abi : ABI;
  decoder_TopicID : Hash;
}.

Definition newTransferDecoder : res transferDecoder :=
  match abi_JSON erc20TransferABI with
  | Ok parsed => Ok (mkDecoder parsed (abi_EventID parsed "Transfer"))
  | Err e => Err (WrapError "parse erc20 abi" e)
  | Panic m => Panic m
  | Diverge => Diverge
  end.

(** [(d *transferDecoder) decode]: [None] is the [(Transfer{}, false)]
    return. *)
Definition decode (d : transferDecoder) (log : Log) : option Transfer :=
  match Log_Topics log with
  | [t0; t1; t2] =>
      if bool_decide (t0 = decoder_TopicID d) then
        match abi_UnpackValue (decoder_abi d) "Transfer" (Log_Data log) with
        | Ok v => Some (mkTransfer (Log_Address log)
                          (HexToAddress (Hash_Hex t1)) (HexToAddress (Hash_Hex t2))
                          v (Log_TxHash log) (Log_Index log))
        | _ => None
        end
      else None
  | _ => None
  end.

(** The log an ERC-20 contract emits for a transfer. *)
Definition transfer_log (d : transferDecoder) (t : Transfer) : Log :=
  mkLog (Transfer_Token t)
    [decoder_TopicID d; Address_topic (Transfer_From t); Address_topic (Transfer_To t)]
    (abi_uint256 (Transfer_Value t)) (Transfer_TxHash t) (Transfer_LogIndex t).

(** [decode] accepts a log exactly when it has the shape of the event. *)
Lemma decode_Some_inv d log t :
  decode d log = Some t →
  ∃ t1 t2, Log_Topics log = [decoder_TopicID d; t1; t2] ∧
    abi_UnpackValue (decoder_abi d) "Transfer" (Log_Data log) = Ok (Transfer_Value t) ∧
    t = mkTransfer (Log_Address log) (HexToAddress (Hash_Hex t1)) (HexToAddress (Hash_Hex t2))
          (Transfer_Value t) (Log_TxHash log) (Log_Index log).
Proof.
  unfold decode. repeat case_match; intros; simplify_eq; case_bool_decide; simplify_eq.
  eauto 10.
Qed.
End erc20.

Section properties.
Context `{GethLaws}.

End properties.

Section example.
Import Toy.

Definition ex_erc20_decoder : transferDecoder := mkDecoder erc20TransferABI 221%N.

End example.
