(* ===== verification/ChainStore.v ===== *)
(** * The block store of the chain monitor (internal/chainmonitor/store.go)

    [Store] is the interface of the source as a record of operations.
    [Index] is the abstract state every implementation stands for, [StoreLaws]
    the contract each operation has with respect to it, and [MemStore] the
    in-memory implementation with the proof that it keeps the contract. *)

From S2P Require Import Prelude Geth Erc20.

Section store.
Context `{Geth}.

(** [type Block struct]. *)
Record Block := mkBlock {
  Block_Number : N;
  Block_Hash : Hash;
  Block_ParentHash : Hash;
  Block_Time : N;
}.

#[export] Instance Block_eq_dec : EqDecision Block.
Proof. solve_decision. Defined.

(** [type storedTransfer struct]. *)
Record storedTransfer := mkStored {
  stored_block : N;
  stored_transfer : Transfer;
  stored_confirmed : bool;
}.

#[export] Instance storedTransfer_eq_dec : EqDecision storedTransfer.
Proof. solve_decision. Defined.

(** [type Store interface]. *)
Record Store (St : Type) := mkStore {
  SaveBlock : Block → list Transfer → bool → go St unit;
  LastBlock : go St (option Block);
  BlockByNumber : N → go St (option Block);
  DeleteFrom : N → go St unit;
  ConfirmThrough : N → go St unit;
}.
#[global] Arguments SaveBlock {St} _ _ _ _.
#[global] Arguments LastBlock {St} _.
#[global] Arguments BlockByNumber {St} _ _.
#[global] Arguments DeleteFrom {St} _ _.
#[global] Arguments ConfirmThrough {St} _ _.

(** ** The abstract index *)

Record Index := mkIndex {
  ix_blocks : gmap N Block;
  ix_transfers : list storedTransfer;
}.

(** The natural key of a transfer: [UNIQUE (tx_hash, log_index)]. *)
Definition transfer_key (t : Transfer) : Hash * N := (Transfer_TxHash t, Transfer_LogIndex t).

Definition fresh_keys (ts : list Transfer) (ix : Index) : Prop :=
  NoDup (transfer_key <$> ts) ∧
  ∀ t, t ∈ ts → transfer_key t ∉ (λ st, transfer_key (stored_transfer st)) <$> ix_transfers ix.

(** Rows a [SaveBlock] adds. *)
Definition new_rows (b : Block) (ts : list Transfer) (c : bool) : list storedTransfer :=
  (λ t, mkStored (Block_Number b) t c) <$> ts.

(** Upsert of a block: the block is replaced, and its transfers are
    appended; an implementation may skip transfers whose key it already has. *)
Definition save_effect (b : Block) (ts : list Transfer) (c : bool) (ix ix' : Index) : Prop :=
  ix_blocks ix' = <[Block_Number b := b]> (ix_blocks ix) ∧
  ∃ added, ix_transfers ix' = ix_transfers ix ++ added ∧
    sublist added (new_rows b ts c) ∧
    (fresh_keys ts ix → added = new_rows b ts c).

Definition index_delete (n : N) (ix : Index) : Index :=
  mkIndex (filter (λ kb, kb.1 < n)%N (ix_blocks ix))
          (filter (λ st, stored_block st < n)%N (ix_transfers ix)).

Definition confirm_row (n : N) (st : storedTransfer) : storedTransfer :=
  if (stored_block st <=? n)%N
  then mkStored (stored_block st) (stored_transfer st) true else st.

Definition index_confirm (n : N) (ix : Index) : Index :=
  mkIndex (ix_blocks ix) (confirm_row n <$> ix_transfers ix).

(** The block with the highest number. *)
Definition last_spec (m : gmap N Block) (o : option Block) : Prop :=
  match o with
  | None => m = ∅
  | Some b => m !! Block_Number b = Some b ∧ ∀ n, is_Some (m !! n) → (n ≤ Block_Number b)%N
  end.

(** A block is filed under its number, and a transfer refers to an indexed
    block. *)
Definition index_wf (ix : Index) : Prop :=
  (∀ n b, ix_blocks ix !! n = Some b → Block_Number b = n) ∧
  (∀ st, st ∈ ix_transfers ix → is_Some (ix_blocks ix !! stored_block st)).

(** ** The contract of a store *)

Section contract.
Context {St : Type} (view : St → Index) (inv : St → Prop).

(** A writing call: on success its effect has happened; on an error it has
    happened entirely or not at all.  It never panics. *)
Definition op_spec (c : go St unit) (effect : Index → Index → Prop) : Prop :=
  ∀ s, inv s →
    match c s with
    | (Ok _, s') => inv s' ∧ effect (view s) (view s')
    | (Err _, s') => inv s' ∧ (view s' = view s ∨ effect (view s) (view s'))
    | _ => False
    end.

(** A reading call leaves the index alone. *)
Definition read_spec {A} (c : go St A) (post : Index → A → Prop) : Prop :=
  ∀ s, inv s →
    match c s with
    | (Ok a, s') => inv s' ∧ view s' = view s ∧ post (view s) a
    | (Err _, s') => inv s' ∧ view s' = view s
    | _ => False
    end.

Class StoreLaws (S : Store St) : Prop := {
  law_wf : ∀ s, inv s → index_wf (view s);
  law_SaveBlock : ∀ b ts c, op_spec (SaveBlock S b ts c) (save_effect b ts c);
  law_LastBlock : read_spec (LastBlock S) (λ ix o, last_spec (ix_blocks ix) o);
  law_BlockByNumber : ∀ n, (n < two64)%N →
    read_spec (BlockByNumber S n) (λ ix o, o = ix_blocks ix !! n);
  law_DeleteFrom : ∀ n, op_spec (DeleteFrom S n) (λ ix ix', ix' = index_delete n ix);
  law_ConfirmThrough : ∀ n, op_spec (ConfirmThrough S n) (λ ix ix', ix' = index_confirm n ix);
}.

(** The further promise of a store that does not fail: every call whose
    numbers are [storable] returns without error and stays [live]. *)
Class StoreTotal (S : Store St) (storable : N → Prop) (live : St → Prop) : Prop := {
  total_SaveBlock : ∀ b ts c s, inv s → live s →
    storable (Block_Number b) → storable (Block_Time b) →
    Forall (λ t, storable (Transfer_LogIndex t)) ts →
    ∃ s', SaveBlock S b ts c s = (Ok tt, s') ∧ live s';
  total_LastBlock : ∀ s, inv s → live s → ∃ o s', LastBlock S s = (Ok o, s') ∧ live s';
  total_BlockByNumber : ∀ n s, inv s → live s → storable n →
    ∃ o s', BlockByNumber S n s = (Ok o, s') ∧ live s';
  total_DeleteFrom : ∀ n s, inv s → live s → storable n →
    ∃ s', DeleteFrom S n s = (Ok tt, s') ∧ live s';
  total_ConfirmThrough : ∀ n s, inv s → live s → storable n →
    ∃ s', ConfirmThrough S n s = (Ok tt, s') ∧ live s';
}.
End contract.
#[global] Arguments law_wf {St view inv S _}.
#[global] Arguments law_SaveBlock {St view inv S _}.
#[global] Arguments law_LastBlock {St view inv S _}.
#[global] Arguments law_BlockByNumber {St view inv S _}.
#[global] Arguments law_DeleteFrom {St view inv S _}.
#[global] Arguments law_ConfirmThrough {St view inv S _}.
#[global] Arguments total_SaveBlock {St inv S storable live _}.
#[global] Arguments total_LastBlock {St inv S storable live _}.
#[global] Arguments total_BlockByNumber {St inv S storable live _}.
#[global] Arguments total_DeleteFrom {St inv S storable live _}.
#[global] Arguments total_ConfirmThrough {St inv S storable live _}.

(** ** Facts about the abstract operations *)

Lemma lookup_index_delete n ix k :
  ix_blocks (index_delete n ix) !! k = if (k <? n)%N then ix_blocks ix !! k else None.
Proof.
  simpl. destruct (k <? n)%N eqn:Hk.
  - apply N.ltb_lt in Hk. destruct (ix_blocks ix !! k) as [b|] eqn:Hb.
    + by apply map_lookup_filter_Some.
    + apply map_lookup_filter_None. by left.
  - apply N.ltb_ge in Hk. apply map_lookup_filter_None. right. simpl. intros; lia.
Qed.

Lemma index_wf_save b ts c ix ix' :
  index_wf ix → save_effect b ts c ix ix' → index_wf ix'.
Proof.
  intros [Hk Hf] (Hb & added & Ht & Hsub & _). split.
  - rewrite Hb. intros n b'. rewrite lookup_insert. case_decide; naive_solver.
  - rewrite Ht, Hb. intros st [Hst|Hst]%elem_of_app.
    + rewrite lookup_insert. case_decide; [by eexists|by apply Hf].
    + eapply elem_of_sublist in Hst; [|exact Hsub].
      apply list_elem_of_fmap in Hst as (t & -> & _). simpl. rewrite lookup_insert_eq. by eexists.
Qed.

Lemma index_wf_delete n ix : index_wf ix → index_wf (index_delete n ix).
Proof.
  intros [Hk Hf]. split.
  - intros k b. rewrite lookup_index_delete. destruct (k <? n)%N; naive_solver.
  - intros st Hst. simpl in Hst. apply list_elem_of_filter in Hst as [Hlt Hst].
    rewrite lookup_index_delete. apply N.ltb_lt in Hlt. rewrite Hlt. by apply Hf.
Qed.

Lemma stored_block_confirm n st : stored_block (confirm_row n st) = stored_block st.
Proof. unfold confirm_row. by destruct (_ <=? _)%N. Qed.

Lemma stored_transfer_confirm n st : stored_transfer (confirm_row n st) = stored_transfer st.
Proof. unfold confirm_row. by destruct (_ <=? _)%N. Qed.

Lemma index_wf_confirm n ix : index_wf ix → index_wf (index_confirm n ix).
Proof.
  intros [Hk Hf]. split; [exact Hk|]. simpl. intros st Hst.
  apply list_elem_of_fmap in Hst as (st' & -> & Hst'). rewrite stored_block_confirm. by apply Hf.
Qed.

Lemma last_spec_unique m o1 o2 : last_spec m o1 → last_spec m o2 → o1 = o2.
Proof.
  destruct o1 as [b1|], o2 as [b2|]; simpl; try done.
  - intros [H1 L1] [H2 L2]. assert (Block_Number b1 = Block_Number b2) as Heq.
    { apply N.le_antisymm; [apply L2|apply L1]; by eexists. }
    rewrite Heq in H1. congruence.
  - intros [H1 _] ->. by rewrite lookup_empty in H1.
  - intros -> [H2 _]. by rewrite lookup_empty in H2.
Qed.
End store.

#[export] Hint Resolve index_wf_save index_wf_delete index_wf_confirm : platform.

(** ** The in-memory store

    Every method holds the mutex from its first to its last statement, so a
    call is one atomic step on the record below. *)
Section memstore.
Context `{Geth}.

(** [type MemStore struct]. *)
Record MemStore := mkMemStore {
  mem_blocks : gmap N Block;
  mem_transfers : list storedTransfer;
}.

Definition NewMemStore : MemStore := mkMemStore ∅ [].

Definition MemStore_SaveBlock (b : Block) (transfers : list Transfer) (confirmed : bool) :
    go MemStore unit := λ m,
  let blocks := <[Block_Number b := b]> (mem_blocks m) in
  let rows := foldl (λ acc t, acc ++ [mkStored (Block_Number b) t confirmed])
                    (mem_transfers m) transfers in
  (Ok tt, mkMemStore blocks rows).

(** The keys in some iteration order. *)
Definition map_keys (m : gmap N Block) : list N := (map_to_list m).*1.

(** [sort.Slice(nums, func(i, j) bool { return nums[i] > nums[j] })]. *)
Definition desc (x y : N) : Prop := (y ≤ x)%N.
#[export] Instance desc_dec : RelDecision desc := λ x y, N.le_dec y x.
Definition sort_desc (nums : list N) : list N := merge_sort desc nums.

Definition MemStore_LastBlock : go MemStore (option Block) := λ m,
  if bool_decide (size (mem_blocks m) = 0) then (Ok None, m)
  else
    match sort_desc (map_keys (mem_blocks m)) with
    | [] => (Panic "index out of range [0] with length 0", m)
    | n0 :: _ =>
        (Ok (Some (default (mkBlock 0 Hash_zero Hash_zero 0) (mem_blocks m !! n0))), m)
    end.

Definition MemStore_BlockByNumber (number : N) : go MemStore (option Block) := λ m,
  (Ok (mem_blocks m !! number), m).

Definition MemStore_DeleteFrom (number : N) : go MemStore unit := λ m,
  let blocks := foldl (λ acc n, if (number <=? n)%N then delete n acc else acc)
                      (mem_blocks m) (map_keys (mem_blocks m)) in
  let kept := foldl (λ acc t, if (stored_block t <? number)%N then acc ++ [t] else acc)
                    [] (mem_transfers m) in
  (Ok tt, mkMemStore blocks kept).

Definition MemStore_ConfirmThrough (number : N) : go MemStore unit := λ m,
  let rows := (λ t, if (stored_block t <=? number)%N
                    then mkStored (stored_block t) (stored_transfer t) true
                    else t) <$> mem_transfers m in
  (Ok tt, mkMemStore (mem_blocks m) rows).

(** [ConfirmedTransfers], the test helper. *)
Definition ConfirmedTransfers (m : MemStore) : list Transfer :=
  foldl (λ out t, if stored_confirmed t then out ++ [stored_transfer t] else out)
        [] (mem_transfers m).

Definition MemStore_store : Store MemStore :=
  mkStore _ MemStore_SaveBlock MemStore_LastBlock MemStore_BlockByNumber
    MemStore_DeleteFrom MemStore_ConfirmThrough.

Definition mem_view (m : MemStore) : Index := mkIndex (mem_blocks m) (mem_transfers m).

(** *** The loops compute the abstract operations *)

Lemma foldl_snoc {A B} (f : A → B) l acc : foldl (λ acc t, acc ++ [f t]) acc l = acc ++ (f <$> l).
Proof.
  revert acc; induction l as [|x l IH]; intros acc; simpl; [by rewrite app_nil_r|].
  by rewrite IH, <-app_assoc.
Qed.

Lemma foldl_keep {A} (P : A → bool) l acc :
  foldl (λ acc t, if P t then acc ++ [t] else acc) acc l = acc ++ filter (λ t, P t = true) l.
Proof.
  revert acc; induction l as [|x l IH]; intros acc; simpl; [by rewrite app_nil_r|].
  rewrite IH, filter_cons. destruct (P x); case_decide; try done. by rewrite <-app_assoc.
Qed.

Lemma lookup_foldl_delete number ks (m : gmap N Block) k :
  foldl (λ acc n, if (number <=? n)%N then delete n acc else acc) m ks !! k =
  if bool_decide (k ∈ ks) && (number <=? k)%N then None else m !! k.
Proof.
  revert m; induction ks as [|x ks IH]; intros m; simpl; [done|].
  rewrite IH. destruct (decide (x = k)) as [->|Hne].
  - rewrite (bool_decide_true (k ∈ k :: ks)) by set_solver. simpl.
    destruct (number <=? k)%N; [|by rewrite andb_false_r].
    rewrite lookup_delete_eq. by destruct (bool_decide _).
  - rewrite (bool_decide_ext (k ∈ x :: ks) (k ∈ ks)) by set_solver.
    destruct (number <=? x)%N; [|done]. by rewrite lookup_delete_ne.
Qed.

Lemma elem_of_map_keys (m : gmap N Block) k : k ∈ map_keys m ↔ is_Some (m !! k).
Proof.
  unfold map_keys. rewrite list_elem_of_fmap. split.
  - intros ([k' b] & -> & Hin). apply elem_of_map_to_list in Hin. by eexists.
  - intros [b Hb]. exists (k, b). by rewrite elem_of_map_to_list.
Qed.

Lemma sort_desc_head nums n0 rest :
  sort_desc nums = n0 :: rest → n0 ∈ nums ∧ ∀ n, n ∈ nums → (n ≤ n0)%N.
Proof.
  intros Hs. assert (Hp := merge_sort_Permutation desc nums).
  fold (sort_desc nums) in Hp. rewrite Hs in Hp. split; [rewrite <-Hp; set_solver|].
  assert (StronglySorted desc (sort_desc nums)) as Hss.
  { apply StronglySorted_merge_sort; unfold desc; [intros x y z ??; lia|intros x y; lia]. }
  rewrite Hs in Hss. apply StronglySorted_cons in Hss as [Hall _].
  intros n Hn. rewrite <-Hp in Hn. apply elem_of_cons in Hn as [->|Hn]; [done|].
  rewrite Forall_forall in Hall. by apply Hall.
Qed.
End memstore.

#[global] Arguments MemStore_SaveBlock : simpl never.
#[global] Arguments MemStore_LastBlock : simpl never.
#[global] Arguments MemStore_DeleteFrom : simpl never.
#[global] Arguments index_delete : simpl never.
#[global] Arguments index_confirm : simpl never.

Section memstore_laws.
Context `{Geth}.

Lemma MemStore_SaveBlock_run b ts c m :
  MemStore_SaveBlock b ts c m =
  (Ok tt, mkMemStore (<[Block_Number b := b]> (mem_blocks m)) (mem_transfers m ++ new_rows b ts c)).
Proof. unfold MemStore_SaveBlock. by rewrite foldl_snoc. Qed.

Lemma MemStore_DeleteFrom_run n m :
  MemStore_DeleteFrom n m =
  (Ok tt, mkMemStore (ix_blocks (index_delete n (mem_view m)))
                     (ix_transfers (index_delete n (mem_view m)))).
Proof.
  unfold MemStore_DeleteFrom. do 2 f_equal.
  - apply map_eq. intros k. rewrite lookup_foldl_delete, lookup_index_delete. simpl.
    rewrite N.ltb_antisym. case_bool_decide as Hk; simpl; [by destruct (n <=? k)%N|].
    rewrite elem_of_map_keys, <-eq_None_not_Some in Hk. rewrite Hk. by destruct (negb _).
  - rewrite foldl_keep. simpl. apply list_filter_iff. intros t. apply N.ltb_lt.
Qed.

Lemma MemStore_LastBlock_run m :
  index_wf (mem_view m) →
  ∃ o, MemStore_LastBlock m = (Ok o, m) ∧ last_spec (mem_blocks m) o.
Proof.
  intros [Hk _]. unfold MemStore_LastBlock. case_bool_decide as Hsz.
  { exists None. split; [done|]. by apply map_size_empty_inv. }
  destruct (sort_desc _) as [|n0 rest] eqn:Hs.
  { exfalso. apply Hsz. pose proof (merge_sort_Permutation desc (map_keys (mem_blocks m))) as Hp.
    fold (sort_desc (map_keys (mem_blocks m))) in Hp. rewrite Hs in Hp.
    apply Permutation_nil_l in Hp. symmetry in Hp. unfold map_keys in Hp.
    apply fmap_nil_inv, map_to_list_empty_iff in Hp. by rewrite Hp. }
  apply sort_desc_head in Hs as [Hin Hmax].
  apply elem_of_map_keys in Hin as [b Hb]. exists (Some b). rewrite Hb. split; [done|].
  simpl. rewrite (Hk n0 b Hb). split; [done|].
  intros n Hn. apply Hmax. by apply elem_of_map_keys.
Qed.

#[export] Instance MemStore_laws : StoreLaws mem_view (λ m, index_wf (mem_view m)) MemStore_store.
Proof.
  split.
  - done.
  - intros b ts c m Hm. cbn [SaveBlock MemStore_store]. rewrite MemStore_SaveBlock_run.
    assert (save_effect b ts c (mem_view m)
      (mem_view (mkMemStore (<[Block_Number b := b]> (mem_blocks m)) (mem_transfers m ++ new_rows b ts c)))).
    { split; [done|]. exists (new_rows b ts c). done. }
    split; [|done]. eapply index_wf_save; eauto.
  - intros m Hm. destruct (MemStore_LastBlock_run m Hm) as (o & Hr & Ho).
    cbn [LastBlock MemStore_store]. by rewrite Hr.
  - done.
  - intros n m Hm. cbn [DeleteFrom MemStore_store]. rewrite MemStore_DeleteFrom_run.
    split; [|done]. exact (index_wf_delete n (mem_view m) Hm).
  - intros n m Hm. simpl. split; [|done]. exact (index_wf_confirm n (mem_view m) Hm).
Qed.

#[export] Instance MemStore_total (storable : N → Prop) :
  StoreTotal (λ m, index_wf (mem_view m)) MemStore_store storable (λ _, True).
Proof.
  split.
  - intros. eexists. cbn [SaveBlock MemStore_store]. by rewrite MemStore_SaveBlock_run.
  - intros m Hm _. destruct (MemStore_LastBlock_run m Hm) as (o & Hr & Ho). simpl. eauto.
  - intros. simpl. eexists _, _. done.
  - intros. eexists. cbn [DeleteFrom MemStore_store]. by rewrite MemStore_DeleteFrom_run.
  - intros. simpl. eexists. done.
Qed.
End memstore_laws.
