(* ===== verification/ChainStorePg.v ===== *)
(** * The Postgres block store (internal/chainmonitor/store_postgres.go)

    The two tables of the schema are finite relations, and each SQL text of
    the source is the function on tables that SQL gives it: primary key and
    [ON CONFLICT DO UPDATE] for [blocks], [UNIQUE (tx_hash, log_index)] with
    [ON CONFLICT DO NOTHING] and the cascading foreign key for [transfers].
    A [uint64] argument that does not fit a [BIGINT] is refused by the driver.

    The connection can fail at any round trip.  [pg_faults] is the script of
    what happens to the next round trips: the server may refuse the statement,
    or execute it and lose the reply; an exhausted script means no fault. *)

From S2P Require Import Prelude Geth Erc20 ChainStore.

Definition bigint_max : N := 9223372036854775807%N.
Definition fits_bigint (n : N) : bool := (n <=? bigint_max)%N.

Section pg.
Context `{Geth}.

(** A row of [blocks] (its primary key [number] is the map key). *)
Record block_row := mkBlockRow {
  row_hash : string;
  row_parent_hash : string;
  row_block_time : N;
}.

(** A row of [transfers]; the list is in [id] order. *)
Record transfer_row := mkTransferRow {
  row_block_number : N;
  row_token : string;
  row_from_addr : string;
  row_to_addr : string;
  row_value : Z;
  row_tx_hash : string;
  row_log_index : N;
  row_confirmed : bool;
}.

(** [const schema]. *)
Record tables := mkTables {
  t_blocks : gmap N block_row;
  t_transfers : list transfer_row;
}.

(** [type PostgresStore struct]: the database behind the pool. *)
Record PostgresStore := mkPg {
  pg_tables : tables;
  pg_faults : list fault;
}.

Definition errOutOfRange : error := ErrorString "value is greater than maximum value for int8".
Definition errForeignKey : error := ErrorString "violates foreign key constraint".

(** One round trip to the server. *)
Definition pg_next : go PostgresStore fault := λ s,
  match pg_faults s with
  | [] => (Ok NoFault, s)
  | f :: fs => (Ok f, mkPg (pg_tables s) fs)
  end.

Definition pg_set_tables (t : tables) : go PostgresStore unit := λ s,
  (Ok tt, mkPg t (pg_faults s)).

(** [pool.Exec] of one auto-committed statement with integer arguments
    [args]. *)
Definition pool_Exec (args : list N) (stmt : tables → tables) : go PostgresStore unit :=
  if forallb fits_bigint args then
    let! f := pg_next in
    match f with
    | NoFault => λ s, (Ok tt, mkPg (stmt (pg_tables s)) (pg_faults s))
    | Refused e => go_err e
    | ReplyLost e => λ s, (Err e, mkPg (stmt (pg_tables s)) (pg_faults s))
    end
  else go_err errOutOfRange.

(** [pool.QueryRow]. *)
Definition pool_QueryRow {A} (args : list N) (query : tables → A) : go PostgresStore A :=
  if forallb fits_bigint args then
    let! f := pg_next in
    match f with
    | NoFault => λ s, (Ok (query (pg_tables s)), s)
    | Refused e | ReplyLost e => go_err e
    end
  else go_err errOutOfRange.

(** [pool.Begin]: the transaction works on a snapshot. *)
Definition pool_Begin : go PostgresStore tables := pool_QueryRow [] (λ t, t).

(** [tx.Exec]: on an error the transaction is lost. *)
Definition tx_Exec (args : list N) (stmt : tables → error + tables) (tx : tables) :
    go PostgresStore tables :=
  if forallb fits_bigint args then
    let! f := pg_next in
    match f with
    | NoFault => match stmt tx with inl e => go_err e | inr tx' => go_ret tx' end
    | Refused e | ReplyLost e => go_err e
    end
  else go_err errOutOfRange.

(** [tx.Commit]: the snapshot becomes the database. *)
Definition tx_Commit (tx : tables) : go PostgresStore unit := pool_Exec [] (λ _, tx).

(** [INSERT INTO blocks ... ON CONFLICT (number) DO UPDATE]. *)
Definition sql_upsert_block (b : Block) (t : tables) : error + tables :=
  inr (mkTables (<[Block_Number b := mkBlockRow (Hash_Hex (Block_Hash b))
                      (Hash_Hex (Block_ParentHash b)) (Block_Time b)]> (t_blocks t))
                (t_transfers t)).

Definition row_of (b : Block) (confirmed : bool) (t : Transfer) : transfer_row :=
  mkTransferRow (Block_Number b) (Address_Hex (Transfer_Token t)) (Address_Hex (Transfer_From t))
    (Address_Hex (Transfer_To t)) (Transfer_Value t) (Hash_Hex (Transfer_TxHash t))
    (Transfer_LogIndex t) confirmed.

Definition row_conflicts (r r' : transfer_row) : bool :=
  bool_decide (row_tx_hash r = row_tx_hash r') && (row_log_index r =? row_log_index r')%N.

(** [INSERT INTO transfers ... ON CONFLICT (tx_hash, log_index) DO NOTHING]. *)
Definition sql_insert_transfer (r : transfer_row) (t : tables) : error + tables :=
  if existsb (row_conflicts r) (t_transfers t) then inr t
  else match t_blocks t !! row_block_number r with
       | None => inl errForeignKey
       | Some _ => inr (mkTables (t_blocks t) (t_transfers t ++ [r]))
       end.

Fixpoint tx_insert_transfers (b : Block) (confirmed : bool) (ts : list Transfer) (tx : tables) :
    go PostgresStore tables :=
  match ts with
  | [] => go_ret tx
  | t :: ts' =>
      let! tx' := wrap_err "insert transfer"
        (tx_Exec [Block_Number b; Transfer_LogIndex t]
           (sql_insert_transfer (row_of b confirmed t)) tx) in
      tx_insert_transfers b confirmed ts' tx'
  end.

(** [(s *PostgresStore) SaveBlock].  The deferred [tx.Rollback] is a no-op:
    until the commit the database is untouched. *)
Definition PostgresStore_SaveBlock (b : Block) (transfers : list Transfer) (confirmed : bool) :
    go PostgresStore unit :=
  let! tx := pool_Begin in
  let! tx := wrap_err "upsert block"
    (tx_Exec [Block_Number b; Block_Time b] (sql_upsert_block b) tx) in
  let! tx := tx_insert_transfers b confirmed transfers tx in
  tx_Commit tx.

Definition scanBlock (number : N) (r : block_row) : Block :=
  mkBlock number (HexToHash (row_hash r)) (HexToHash (row_parent_hash r)) (row_block_time r).

(** [SELECT ... FROM blocks ORDER BY number DESC LIMIT 1]. *)
Definition sql_last_block (t : tables) : option (N * block_row) :=
  n ← head (sort_desc ((map_to_list (t_blocks t)).*1));
  r ← t_blocks t !! n;
  Some (n, r).

Definition PostgresStore_LastBlock : go PostgresStore (option Block) :=
  let! row := pool_QueryRow [] sql_last_block in
  match row with
  | None => go_ret None (* pgx.ErrNoRows *)
  | Some (n, r) => go_ret (Some (scanBlock n r))
  end.

(** [SELECT ... FROM blocks WHERE number = $1]. *)
Definition PostgresStore_BlockByNumber (number : N) : go PostgresStore (option Block) :=
  let! row := pool_QueryRow [number] (λ t, t_blocks t !! number) in
  match row with
  | None => go_ret None
  | Some r => go_ret (Some (scanBlock number r))
  end.

(** [DELETE FROM blocks WHERE number >= $1], with [ON DELETE CASCADE]. *)
Definition sql_delete_from (number : N) (t : tables) : tables :=
  let blocks := filter (λ kr, kr.1 < number)%N (t_blocks t) in
  mkTables blocks (filter (λ r, is_Some (blocks !! row_block_number r)) (t_transfers t)).

Definition PostgresStore_DeleteFrom (number : N) : go PostgresStore unit :=
  pool_Exec [number] (sql_delete_from number).

(** [UPDATE transfers SET confirmed = TRUE WHERE block_number <= $1 AND
    confirmed = FALSE]. *)
Definition sql_confirm_row (number : N) (r : transfer_row) : transfer_row :=
  if (row_block_number r <=? number)%N && negb (row_confirmed r) then
    mkTransferRow (row_block_number r) (row_token r) (row_from_addr r) (row_to_addr r)
      (row_value r) (row_tx_hash r) (row_log_index r) true
  else r.

Definition PostgresStore_ConfirmThrough (number : N) : go PostgresStore unit :=
  pool_Exec [number] (λ t, mkTables (t_blocks t) (sql_confirm_row number <$> t_transfers t)).

Definition PostgresStore_store : Store PostgresStore :=
  mkStore _ PostgresStore_SaveBlock PostgresStore_LastBlock PostgresStore_BlockByNumber
    PostgresStore_DeleteFrom PostgresStore_ConfirmThrough.

(** The tables after the schema was applied to an empty database. *)
Definition pg_empty (faults : list fault) : PostgresStore := mkPg (mkTables ∅ []) faults.

(** ** What the tables stand for *)

Definition view_row (r : transfer_row) : storedTransfer :=
  mkStored (row_block_number r)
    (mkTransfer (HexToAddress (row_token r)) (HexToAddress (row_from_addr r))
       (HexToAddress (row_to_addr r)) (row_value r) (HexToHash (row_tx_hash r)) (row_log_index r))
    (row_confirmed r).

Definition tables_view (t : tables) : Index :=
  mkIndex (map_imap (λ n r, Some (scanBlock n r)) (t_blocks t)) (view_row <$> t_transfers t).

Definition pg_view (s : PostgresStore) : Index := tables_view (pg_tables s).

(** The constraints Postgres enforces: [BIGINT] keys and the foreign key. *)
Definition tables_ok (t : tables) : Prop :=
  (∀ n, is_Some (t_blocks t !! n) → (n ≤ bigint_max)%N) ∧
  (∀ r, r ∈ t_transfers t → is_Some (t_blocks t !! row_block_number r)).

Definition pg_inv (s : PostgresStore) : Prop := tables_ok (pg_tables s).
End pg.

Section pg_laws.
Context `{GethLaws}.

Lemma lookup_tables_view t n :
  ix_blocks (tables_view t) !! n = scanBlock n <$> t_blocks t !! n.
Proof. simpl. rewrite map_lookup_imap. by destruct (t_blocks t !! n). Qed.

Lemma view_row_of b c t : view_row (row_of b c t) = mkStored (Block_Number b) t c.
Proof.
  unfold view_row, row_of; simpl. rewrite !HexToAddress_Hex, HexToHash_Hex. by destruct t.
Qed.

Lemma tables_view_wf t : tables_ok t → index_wf (tables_view t).
Proof.
  intros [_ Hfk]. split.
  - intros n b. rewrite lookup_tables_view, fmap_Some. by intros (r & _ & ->).
  - simpl. intros st Hst. apply list_elem_of_fmap in Hst as (r & -> & Hr).
    specialize (Hfk r Hr). rewrite map_lookup_imap. destruct Hfk as [br Hbr]. simpl.
    rewrite Hbr. by eexists.
Qed.

(** *** The statements and the abstract operations *)

Lemma sql_delete_from_ok n t :
  tables_ok t → tables_ok (sql_delete_from n t) ∧
  tables_view (sql_delete_from n t) = index_delete n (tables_view t).
Proof.
  intros [Hb Hfk]. split; [split|].
  - simpl. intros k [r Hr]. apply map_lookup_filter_Some in Hr as [Hr _]. apply Hb. by eexists.
  - simpl. intros r Hr. by apply list_elem_of_filter in Hr as [Hr _].
  - unfold index_delete, tables_view. f_equal.
    + apply map_eq. intros k. simpl. rewrite map_lookup_imap, !map_lookup_filter, map_lookup_imap.
      destruct (t_blocks t !! k); simpl; [|done]. by case_guard.
    + simpl. symmetry. apply filter_fmap_iff.
      intros r Hr. specialize (Hfk r Hr) as [br Hbr]. simpl.
      rewrite map_lookup_filter, Hbr. simpl. case_guard; split; [by eexists|done|done|by intros []].
Qed.

Lemma view_sql_confirm_row n r : view_row (sql_confirm_row n r) = confirm_row n (view_row r).
Proof.
  destruct r as [bn tk fr to v tx li [|]]; unfold sql_confirm_row, confirm_row, view_row; simpl;
    by destruct (bn <=? n)%N.
Qed.

Lemma row_block_number_confirm n r : row_block_number (sql_confirm_row n r) = row_block_number r.
Proof. unfold sql_confirm_row. by destruct (_ && _). Qed.

Lemma sql_confirm_ok n t :
  tables_ok t →
  let t' := mkTables (t_blocks t) (sql_confirm_row n <$> t_transfers t) in
  tables_ok t' ∧ tables_view t' = index_confirm n (tables_view t).
Proof.
  intros [Hb Hfk]. split; [split; [done|]|].
  - simpl. intros r Hr. apply list_elem_of_fmap in Hr as (r' & -> & Hr').
    rewrite row_block_number_confirm. by apply Hfk.
  - unfold index_confirm, tables_view. f_equal. simpl. rewrite <-!list_fmap_compose.
    apply list_fmap_ext. intros i r _. simpl. apply view_sql_confirm_row.
Qed.

Lemma pool_Exec_spec args stmt effect :
  (∀ t, forallb fits_bigint args = true → tables_ok t →
        tables_ok (stmt t) ∧ effect (tables_view t) (tables_view (stmt t))) →
  op_spec pg_view pg_inv (pool_Exec args stmt) effect.
Proof.
  intros Hst [t fs] Hinv. unfold pool_Exec. destruct (forallb _ _) eqn:Ha; simpl; [|by auto].
  specialize (Hst t eq_refl Hinv) as [Hok Heff]. unfold go_bind, pg_next.
  destruct fs as [|[|e|e] fs]; simpl; unfold pg_inv, pg_view; simpl; auto.
Qed.

Lemma pool_QueryRow_spec {A} args (query : tables → A) s :
  match pool_QueryRow args query s with
  | (Ok a, s') => pg_tables s' = pg_tables s ∧ a = query (pg_tables s)
  | (Err _, s') => pg_tables s' = pg_tables s
  | _ => False
  end.
Proof.
  unfold pool_QueryRow. destruct (forallb _ _); simpl; [|done].
  unfold go_bind, pg_next. destruct s as [t [|[] fs]]; simpl; auto.
Qed.

Lemma tx_Exec_spec args stmt tx s :
  match tx_Exec args stmt tx s with
  | (Ok tx', s') => pg_tables s' = pg_tables s ∧ stmt tx = inr tx' ∧ forallb fits_bigint args = true
  | (Err _, s') => pg_tables s' = pg_tables s
  | _ => False
  end.
Proof.
  unfold tx_Exec. destruct (forallb _ _); simpl; [|done].
  unfold go_bind, pg_next. destruct s as [t [|[] fs]]; simpl; destruct (stmt tx); simpl; auto.
Qed.

Lemma existsb_conflict_false b c t tx :
  transfer_key t ∉ (λ st, transfer_key (stored_transfer st)) <$> ix_transfers (tables_view tx) →
  existsb (row_conflicts (row_of b c t)) (t_transfers tx) = false.
Proof.
  intros Hni. apply not_true_iff_false. rewrite existsb_exists. intros (r & Hin & Hc).
  unfold row_conflicts in Hc. apply andb_true_iff in Hc as [Ht Hl].
  apply bool_decide_eq_true in Ht. apply N.eqb_eq in Hl. simpl in Ht, Hl.
  apply Hni. simpl. rewrite <-list_fmap_compose. apply list_elem_of_fmap.
  exists r. rewrite list_elem_of_In. split; [|done].
  unfold transfer_key; simpl. by rewrite <-Ht, <-Hl, HexToHash_Hex.
Qed.

(** The rows one transaction adds. *)
Definition tx_added (b : Block) (c : bool) (ts : list Transfer) (tx tx' : tables) : Prop :=
  t_blocks tx' = t_blocks tx ∧
  ∃ added, t_transfers tx' = t_transfers tx ++ (row_of b c <$> added) ∧ sublist added ts ∧
    (fresh_keys ts (tables_view tx) → added = ts).

Lemma tx_added_insert b c t ts tx tx1 tx' :
  is_Some (t_blocks tx !! Block_Number b) →
  sql_insert_transfer (row_of b c t) tx = inr tx1 →
  tx_added b c ts tx1 tx' → tx_added b c (t :: ts) tx tx'.
Proof.
  intros [br Hbr] Hins (Hb & added & Ht & Hsub & Hfr).
  unfold sql_insert_transfer in Hins. destruct (existsb _ _) eqn:Hex; simplify_eq.
  { split; [done|]. exists added. repeat split; [done|by apply sublist_cons|].
    intros [Hnd Hni]. rewrite existsb_conflict_false in Hex; [done|]. apply Hni. set_solver. }
  simpl in Hins. rewrite Hbr in Hins. simplify_eq. simpl in *.
  split; [done|]. exists (t :: added). repeat split.
  - by rewrite Ht, <-app_assoc.
  - by apply sublist_skip.
  - intros [Hnd Hni]. f_equal. apply Hfr. rewrite fmap_cons, NoDup_cons in Hnd.
    destruct Hnd as [Hnt Hnd]. split; [done|]. intros t' Ht'.
    cbn [tables_view ix_transfers t_transfers]. rewrite !fmap_app, elem_of_app.
    intros [Hin|Hin]; [by apply (Hni t'); [set_solver|]|].
    apply list_elem_of_singleton in Hin. rewrite view_row_of in Hin.
    apply Hnt. simpl in Hin. rewrite <-Hin. by apply list_elem_of_fmap_2.
Qed.

Lemma tx_insert_transfers_spec b c ts tx s :
  is_Some (t_blocks tx !! Block_Number b) →
  match tx_insert_transfers b c ts tx s with
  | (Ok tx', s') => pg_tables s' = pg_tables s ∧ tx_added b c ts tx tx'
  | (Err _, s') => pg_tables s' = pg_tables s
  | _ => False
  end.
Proof.
  revert tx s. induction ts as [|t ts IH]; intros tx s Hb; simpl.
  - split; [done|]. split; [done|]. exists []. by rewrite app_nil_r.
  - unfold go_bind, wrap_err.
    pose proof (tx_Exec_spec [Block_Number b; Transfer_LogIndex t]
                  (sql_insert_transfer (row_of b c t)) tx s) as Hx.
    destruct (tx_Exec _ _ tx s) as [[tx1|e|m|] s1]; [|done..].
    destruct Hx as (Hs1 & Hins & _).
    assert (t_blocks tx1 = t_blocks tx) as Hb1.
    { unfold sql_insert_transfer in Hins. repeat case_match; by simplify_eq. }
    specialize (IH tx1 s1). rewrite Hb1, <-Hs1 in *. specialize (IH Hb).
    destruct (tx_insert_transfers _ _ ts tx1 s1) as [[tx'|e|m|] s']; try done.
    destruct IH as [Hs' Hadd]. split; [done|]. eapply tx_added_insert; eauto.
Qed.
End pg_laws.

Section pg_contract.
Context `{GethLaws}.

Lemma save_effect_tx b c ts t tx' :
  tx_added b c ts (mkTables (<[Block_Number b := mkBlockRow (Hash_Hex (Block_Hash b))
     (Hash_Hex (Block_ParentHash b)) (Block_Time b)]> (t_blocks t)) (t_transfers t)) tx' →
  save_effect b ts c (tables_view t) (tables_view tx').
Proof.
  intros (Hb & added & Ht & Hsub & Hfr). simpl in *. split.
  - simpl. rewrite Hb. erewrite map_imap_insert_Some by done. f_equal.
    unfold scanBlock; simpl. rewrite !HexToHash_Hex. by destruct b.
  - exists (new_rows b added c). simpl. rewrite Ht, fmap_app. repeat split.
    + f_equal. unfold new_rows. rewrite <-list_fmap_compose. apply list_fmap_ext.
      intros i t' _. simpl. apply view_row_of.
    + by apply sublist_fmap.
    + intros Hf. f_equal. by apply Hfr.
Qed.

Lemma tables_ok_tx b c ts t tx' :
  tables_ok t → (Block_Number b ≤ bigint_max)%N →
  tx_added b c ts (mkTables (<[Block_Number b := mkBlockRow (Hash_Hex (Block_Hash b))
     (Hash_Hex (Block_ParentHash b)) (Block_Time b)]> (t_blocks t)) (t_transfers t)) tx' →
  tables_ok tx'.
Proof.
  intros [Hk Hfk] Hmax (Hb & added & Ht & _). simpl in *. split; rewrite Hb.
  - intros n. rewrite lookup_insert. case_decide; subst; [done|apply Hk].
  - rewrite Ht. intros r [Hr|Hr]%elem_of_app.
    + rewrite lookup_insert. case_decide; [by eexists|by apply Hfk].
    + apply list_elem_of_fmap in Hr as (t' & -> & _). simpl. rewrite lookup_insert_eq. by eexists.
Qed.

Lemma PostgresStore_SaveBlock_spec b ts c :
  op_spec pg_view pg_inv (PostgresStore_SaveBlock b ts c) (save_effect b ts c).
Proof.
  intros s Hinv. unfold PostgresStore_SaveBlock. unfold go_bind at 1.
  pose proof (pool_QueryRow_spec [] (λ t, t) s) as Hbegin. fold pool_Begin in Hbegin.
  destruct (pool_Begin s) as [[t|e|m|] s0]; [|by unfold pg_inv, pg_view; rewrite Hbegin; auto|done..].
  destruct Hbegin as [Hs0 ->]. unfold go_bind at 1, wrap_err at 1.
  pose proof (tx_Exec_spec [Block_Number b; Block_Time b] (sql_upsert_block b) (pg_tables s) s0) as Hup.
  destruct (tx_Exec _ _ _ s0) as [[tx1|e|m|] s1];
    [|unfold pg_inv, pg_view; rewrite Hup, Hs0; auto|done..].
  destruct Hup as (Hs1 & Htx1 & Hfits). unfold sql_upsert_block in Htx1. simplify_eq.
  simpl in Hfits. apply andb_true_iff in Hfits as [Hnum _]. apply N.leb_le in Hnum.
  unfold go_bind at 1.
  match goal with |- context [tx_insert_transfers b c ts ?tx s1] =>
    pose proof (tx_insert_transfers_spec b c ts tx s1) as Hins end.
  specialize (Hins ltac:(simpl; rewrite lookup_insert_eq; by eexists)).
  destruct (tx_insert_transfers b c ts _ s1) as [[tx2|e|m|] s2];
    [|unfold pg_inv, pg_view; rewrite Hins, Hs1, Hs0; auto|done..].
  destruct Hins as [Hs2 Hadd].
  assert (pg_tables s2 = pg_tables s) as Hs by congruence.
  pose proof (pool_Exec_spec [] (λ _, tx2) (λ _ ix', ix' = tables_view tx2)) as Hcommit.
  specialize (Hcommit ltac:(intros; split; [exact (tables_ok_tx b c ts _ tx2 Hinv Hnum Hadd)|done]) s2).
  unfold pg_inv, pg_view in *. rewrite Hs in Hcommit. specialize (Hcommit Hinv).
  unfold tx_Commit. destruct (pool_Exec _ _ s2) as [[[]|e|m|] s3]; try done.
  - destruct Hcommit as [? ->]. split; [done|]. by apply save_effect_tx.
  - destruct Hcommit as [? [->| ->]]; split; auto. right. by apply save_effect_tx.
Qed.

Lemma sql_last_block_spec t :
  last_spec (ix_blocks (tables_view t)) ((λ nr, scanBlock nr.1 nr.2) <$> sql_last_block t).
Proof.
  unfold sql_last_block.
  destruct (sort_desc _) as [|n0 rest] eqn:Hs; simpl.
  { pose proof (merge_sort_Permutation desc ((map_to_list (t_blocks t)).*1)) as Hp.
    change (sort_desc ((map_to_list (t_blocks t)).*1) ≡ₚ (map_to_list (t_blocks t)).*1) in Hp.
    rewrite Hs in Hp. apply Permutation_nil_l in Hp. symmetry in Hp.
    apply fmap_nil_inv, map_to_list_empty_iff in Hp. by rewrite Hp. }
  apply sort_desc_head in Hs as [Hin Hmax].
  apply list_elem_of_fmap in Hin as ([n r] & -> & Hin). simpl in *.
  apply elem_of_map_to_list in Hin. rewrite Hin. simpl. split.
  - rewrite map_lookup_imap, Hin. done.
  - intros k Hk. apply Hmax. rewrite map_lookup_imap in Hk.
    destruct (t_blocks t !! k) as [rk|] eqn:Hrk; [|by destruct Hk].
    apply list_elem_of_fmap. exists (k, rk). by rewrite elem_of_map_to_list.
Qed.

#[export] Instance PostgresStore_laws : StoreLaws pg_view pg_inv PostgresStore_store.
Proof.
  split.
  - intros s Hinv. by apply tables_view_wf.
  - exact PostgresStore_SaveBlock_spec.
  - intros s Hinv. cbn [LastBlock PostgresStore_store]. unfold PostgresStore_LastBlock, go_bind.
    pose proof (pool_QueryRow_spec [] sql_last_block s) as Hq.
    pose proof (sql_last_block_spec (pg_tables s)) as Hl.
    destruct (pool_QueryRow _ _ s) as [[o|e|m|] s']; unfold pg_inv, pg_view; [|by rewrite Hq|done..].
    destruct Hq as [Hs ->]. destruct (sql_last_block _) as [[n r]|]; simpl in *; by rewrite Hs.
  - intros n _ s Hinv. cbn [BlockByNumber PostgresStore_store].
    unfold PostgresStore_BlockByNumber, go_bind.
    pose proof (pool_QueryRow_spec [n] (λ t, t_blocks t !! n) s) as Hq.
    destruct (pool_QueryRow _ _ s) as [[o|e|m|] s']; unfold pg_inv, pg_view; [|by rewrite Hq|done..].
    destruct Hq as [Hs ->]. rewrite lookup_tables_view.
    destruct (t_blocks _ !! n); simpl; by rewrite Hs.
  - intros n. apply pool_Exec_spec. intros t _ Hok. apply (sql_delete_from_ok n t Hok).
  - intros n. apply pool_Exec_spec. intros t _ Hok. apply (sql_confirm_ok n t Hok).
Qed.

(** With no fault pending, a call with storable numbers succeeds. *)
Lemma tx_insert_transfers_total b c ts tx s :
  pg_faults s = [] → is_Some (t_blocks tx !! Block_Number b) →
  fits_bigint (Block_Number b) = true → Forall (λ t, fits_bigint (Transfer_LogIndex t) = true) ts →
  ∃ tx', tx_insert_transfers b c ts tx s = (Ok tx', s).
Proof.
  intros Hf. revert tx. induction ts as [|t ts IH]; intros tx [r Hr] Hb Hts; simpl; [eauto|].
  apply Forall_cons in Hts as [Ht Hts]. unfold go_bind, wrap_err, tx_Exec, pg_next, go_bind.
  simpl. rewrite Hb, Ht. simpl. rewrite Hf. unfold sql_insert_transfer.
  destruct (existsb _ _); simpl; [apply IH; eauto|]. rewrite Hr. simpl. apply IH; simpl; eauto.
Qed.

#[export] Instance PostgresStore_total :
  StoreTotal pg_inv PostgresStore_store (λ n, fits_bigint n = true) (λ s, pg_faults s = []).
Proof.
  split.
  - intros b ts c [t fs] _ Hl Hn Ht Hts. simpl in Hl. subst fs.
    cbn [SaveBlock PostgresStore_store].
    unfold PostgresStore_SaveBlock, pool_Begin, pool_QueryRow, wrap_err, tx_Exec, go_bind, pg_next.
    simpl. rewrite Hn, Ht. simpl.
    edestruct (tx_insert_transfers_total b c ts) as [tx' ->]; [done| |done|done|by eexists].
    simpl. rewrite lookup_insert_eq. by eexists.
  - intros [t fs] _ Hl. simpl in Hl. subst fs. cbn [LastBlock PostgresStore_store].
    unfold PostgresStore_LastBlock, pool_QueryRow, go_bind, pg_next. simpl.
    destruct (sql_last_block t) as [[]|]; eexists _, _; done.
  - intros n [t fs] _ Hl Hn. simpl in Hl. subst fs. cbn [BlockByNumber PostgresStore_store].
    unfold PostgresStore_BlockByNumber, pool_QueryRow, go_bind, pg_next. simpl. rewrite Hn. simpl.
    destruct (t_blocks t !! n); eexists _, _; done.
  - intros n [t fs] _ Hl Hn. simpl in Hl. subst fs. cbn [DeleteFrom PostgresStore_store].
    unfold PostgresStore_DeleteFrom, pool_Exec, go_bind, pg_next. simpl. rewrite Hn. by eexists.
  - intros n [t fs] _ Hl Hn. simpl in Hl. subst fs. cbn [ConfirmThrough PostgresStore_store].
    unfold PostgresStore_ConfirmThrough, pool_Exec, go_bind, pg_next. simpl. rewrite Hn. by eexists.
Qed.
End pg_contract.
