(* ===== verification/ChainStoreRefine.v ===== *)
(** * The two block stores agree

    Sequences of [Store] calls are run against an implementation; the
    Postgres store and the in-memory store give the same answers on every
    sequence that a fault-free database can take and whose saved transfers
    have fresh [(tx_hash, log_index)] keys. *)

From S2P Require Import Prelude Geth Erc20 ChainStore ChainStorePg.

Section traces.
Context `{Geth}.

(** One call on a [Store], and what the caller sees. *)
Inductive store_op :=
  | OpSaveBlock (b : Block) (ts : list Transfer) (confirmed : bool)
  | OpLastBlock
  | OpBlockByNumber (n : N)
  | OpDeleteFrom (n : N)
  | OpConfirmThrough (n : N).

Inductive store_obs :=
  | ObsDone
  | ObsBlock (o : option Block).

Section run.
Context {St : Type} (S : Store St).

Definition run_op (op : store_op) : go St store_obs :=
  match op with
  | OpSaveBlock b ts c => do! SaveBlock S b ts c in go_ret ObsDone
  | OpLastBlock => let! o := LastBlock S in go_ret (ObsBlock o)
  | OpBlockByNumber n => let! o := BlockByNumber S n in go_ret (ObsBlock o)
  | OpDeleteFrom n => do! DeleteFrom S n in go_ret ObsDone
  | OpConfirmThrough n => do! ConfirmThrough S n in go_ret ObsDone
  end.

Fixpoint run_ops (ops : list store_op) : go St (list store_obs) :=
  match ops with
  | [] => go_ret []
  | op :: ops' =>
      let! o := run_op op in
      let! os := run_ops ops' in
      go_ret (o :: os)
  end.
End run.

(** The abstract effect of a call. *)
Definition index_step (op : store_op) (ix : Index) : Index :=
  match op with
  | OpSaveBlock b ts c =>
      mkIndex (<[Block_Number b := b]> (ix_blocks ix)) (ix_transfers ix ++ new_rows b ts c)
  | OpLastBlock | OpBlockByNumber _ => ix
  | OpDeleteFrom n => index_delete n ix
  | OpConfirmThrough n => index_confirm n ix
  end.

(** Saved transfers have keys the index does not hold yet. *)
Fixpoint trace_fresh (ops : list store_op) (ix : Index) : Prop :=
  match ops with
  | [] => True
  | op :: ops' =>
      match op with OpSaveBlock _ ts _ => fresh_keys ts ix | _ => True end ∧
      trace_fresh ops' (index_step op ix)
  end.

Definition op_storable (storable : N → Prop) (op : store_op) : Prop :=
  match op with
  | OpSaveBlock b ts _ =>
      storable (Block_Number b) ∧ storable (Block_Time b) ∧
      Forall (λ t, storable (Transfer_LogIndex t)) ts
  | OpLastBlock => True
  | OpBlockByNumber n | OpDeleteFrom n | OpConfirmThrough n => storable n
  end.

(** What the caller of an operation may see, given the abstract index. *)
Definition obs_spec (op : store_op) (ix : Index) (o : store_obs) : Prop :=
  match op with
  | OpLastBlock => ∃ b, o = ObsBlock b ∧ last_spec (ix_blocks ix) b
  | OpBlockByNumber n => o = ObsBlock (ix_blocks ix !! n)
  | _ => o = ObsDone
  end.

Lemma obs_spec_unique op ix o1 o2 : obs_spec op ix o1 → obs_spec op ix o2 → o1 = o2.
Proof.
  destruct op; simpl; try congruence. intros (b1 & -> & H1) (b2 & -> & H2).
  f_equal. by eapply last_spec_unique.
Qed.

Section one.
Context {St : Type} (S : Store St) (view : St → Index) (inv : St → Prop).
Context (storable : N → Prop) (live : St → Prop).
Context {HL : StoreLaws view inv S} {HT : StoreTotal inv S storable live}.
Hypothesis storable_u64 : ∀ n, storable n → (n < two64)%N.

(** One call on a live, lawful store computes the abstract step. *)
Lemma run_op_refines op s :
  inv s → live s → op_storable storable op →
  match op with OpSaveBlock _ ts _ => fresh_keys ts (view s) | _ => True end →
  ∃ o s', run_op S op s = (Ok o, s') ∧ inv s' ∧ live s' ∧
    view s' = index_step op (view s) ∧ obs_spec op (view s) o.
Proof.
  intros Hi Hl Hs Hf. destruct op as [b ts c| |n|n|n]; simpl in Hs; simpl run_op; unfold go_bind.
  - destruct Hs as (H1 & H2 & H3).
    destruct (total_SaveBlock (live:=live) b ts c s Hi Hl H1 H2 H3) as (s' & Hr & Hl').
    pose proof (law_SaveBlock (view:=view) b ts c s Hi) as Hsp. rewrite Hr in Hsp |- *.
    destruct Hsp as (Hi' & Hb & added & Ht & _ & Hall). rewrite (Hall Hf) in Ht.
    exists ObsDone, s'. repeat split; [done..|]. simpl. rewrite <-Hb, <-Ht. by destruct (view s').
  - destruct (total_LastBlock (live:=live) s Hi Hl) as (o & s' & Hr & Hl').
    pose proof (law_LastBlock (view:=view) s Hi) as Hsp. rewrite Hr in Hsp |- *.
    destruct Hsp as (Hi' & Hv & Ho). exists (ObsBlock o), s'. simpl. eauto 10.
  - destruct (total_BlockByNumber (live:=live) n s Hi Hl Hs) as (o & s' & Hr & Hl').
    pose proof (law_BlockByNumber (view:=view) n (storable_u64 n Hs) s Hi) as Hsp. rewrite Hr in Hsp |- *.
    destruct Hsp as (Hi' & Hv & ->). eexists _, s'. simpl. eauto 10.
  - destruct (total_DeleteFrom (live:=live) n s Hi Hl Hs) as (s' & Hr & Hl').
    pose proof (law_DeleteFrom (view:=view) n s Hi) as Hsp. rewrite Hr in Hsp |- *.
    destruct Hsp as (Hi' & Hv). exists ObsDone, s'. simpl. eauto 10.
  - destruct (total_ConfirmThrough (live:=live) n s Hi Hl Hs) as (s' & Hr & Hl').
    pose proof (law_ConfirmThrough (view:=view) n s Hi) as Hsp. rewrite Hr in Hsp |- *.
    destruct Hsp as (Hi' & Hv). exists ObsDone, s'. simpl. eauto 10.
Qed.
End one.
End traces.

Section refinement.
Context `{GethLaws}.

(** Two lawful, live stores with the same abstract index give the same
    answers and keep the same abstract index. *)
Lemma run_ops_agree {S1 S2} (st1 : Store S1) (st2 : Store S2) v1 i1 v2 i2 sb1 l1 sb2 l2
    `{!StoreLaws v1 i1 st1, !StoreTotal i1 st1 sb1 l1,
      !StoreLaws v2 i2 st2, !StoreTotal i2 st2 sb2 l2} ops s1 s2 :
  (∀ n, sb1 n → (n < two64)%N) → (∀ n, sb2 n → (n < two64)%N) →
  i1 s1 → l1 s1 → i2 s2 → l2 s2 → v1 s1 = v2 s2 →
  Forall (op_storable sb1) ops → Forall (op_storable sb2) ops → trace_fresh ops (v1 s1) →
  ∃ obs s1' s2', run_ops st1 ops s1 = (Ok obs, s1') ∧ run_ops st2 ops s2 = (Ok obs, s2') ∧
    v1 s1' = v2 s2'.
Proof.
  intros Hu1 Hu2. revert s1 s2. induction ops as [|op ops IH];
    intros s1 s2 Hi1 Hl1 Hi2 Hl2 Hv Hs1 Hs2 Hf.
  { exists [], s1, s2. done. }
  apply Forall_cons in Hs1 as [Ho1 Hs1]. apply Forall_cons in Hs2 as [Ho2 Hs2].
  destruct Hf as [Hf1 Hf].
  destruct (run_op_refines st1 v1 i1 sb1 l1 Hu1 op s1 Hi1 Hl1 Ho1 Hf1)
    as (o1 & s1' & Hr1 & Hi1' & Hl1' & Hv1 & Hob1).
  rewrite Hv in Hf1.
  destruct (run_op_refines st2 v2 i2 sb2 l2 Hu2 op s2 Hi2 Hl2 Ho2 Hf1)
    as (o2 & s2' & Hr2 & Hi2' & Hl2' & Hv2 & Hob2).
  rewrite <-Hv in Hob2. rewrite (obs_spec_unique _ _ _ _ Hob2 Hob1) in Hr2.
  rewrite <-Hv1 in Hf.
  destruct (IH s1' s2') as (obs & s1'' & s2'' & Hrs1 & Hrs2 & Hv''); try done; [congruence|].
  exists (o1 :: obs), s1'', s2''. simpl. unfold go_bind. by rewrite Hr1, Hr2, Hrs1, Hrs2.
Qed.

(** C9: on a database that does not fail, every sequence of [Store] calls
    with BIGINT-sized numbers and fresh transfer keys gets the same answers
    from the Postgres store as from the in-memory store, and leaves the same
    blocks and transfers behind. *)
Theorem postgres_refines_memory (s : PostgresStore) (m : MemStore) ops :
  pg_inv s → pg_faults s = [] → pg_view s = mem_view m →
  Forall (op_storable (λ n, fits_bigint n = true)) ops → trace_fresh ops (mem_view m) →
  ∃ obs s' m', run_ops PostgresStore_store ops s = (Ok obs, s') ∧
    run_ops MemStore_store ops m = (Ok obs, m') ∧ pg_view s' = mem_view m'.
Proof.
  intros Hi Hl Hv Hs Hf.
  eapply (run_ops_agree PostgresStore_store MemStore_store pg_view pg_inv mem_view
            (λ m, index_wf (mem_view m)) (λ n, fits_bigint n = true) (λ s, pg_faults s = [])
            (λ n, (n < two64)%N) (λ _, True)); try done.
  - intros n Hn. apply N.leb_le in Hn. unfold bigint_max, two64 in *. lia.
  - rewrite <-Hv. apply (law_wf (view:=pg_view)). done.
  - eapply Forall_impl; [exact Hs|]. intros op.
    assert (∀ n, fits_bigint n = true → (n < two64)%N) as Hfit.
    { intros n Hn. apply N.leb_le in Hn. unfold bigint_max, two64 in *. lia. }
    destruct op; simpl; auto. intros (? & ? & Hall). repeat split; auto.
    eapply Forall_impl; [exact Hall|]. simpl. auto.
  - by rewrite Hv.
Qed.

End refinement.

(** ** Witnesses *)
Section witnesses.
Import Toy.

Definition ex_block (n : N) : Block := mkBlock n (n + 100)%N (n + 99)%N 1700000000%N.
Definition ex_transfer (i : N) : Transfer := mkTransfer 7%N 8%N 9%N 4242%Z (1000 + i)%N 0%N.
Definition ex_ops : list store_op :=
  [OpSaveBlock (ex_block 1) [ex_transfer 1; ex_transfer 2] false; OpLastBlock;
   OpSaveBlock (ex_block 2) [ex_transfer 3] false; OpConfirmThrough 1; OpDeleteFrom 2;
   OpLastBlock; OpBlockByNumber 2].

Lemma ex_ops_fresh : trace_fresh ex_ops (mem_view NewMemStore).
Proof.
  simpl; unfold fresh_keys; repeat split; simpl; try done.
  all: try (apply (bool_decide_unpack _); vm_compute; exact I).
  all: intros t Ht; set_unfold; repeat (destruct Ht as [-> | Ht]; [vm_compute; set_solver|]); done.
Qed.

Lemma postgres_refines_memory_witness :
  ∃ obs s' m', run_ops PostgresStore_store ex_ops (pg_empty []) = (Ok obs, s') ∧
    run_ops MemStore_store ex_ops NewMemStore = (Ok obs, m') ∧ pg_view s' = mem_view m'.
Proof.
  apply (postgres_refines_memory (pg_empty []) NewMemStore ex_ops).
  - split; simpl; [intros n [? Hn]; by rewrite lookup_empty in Hn|intros r Hr; inversion Hr].
  - reflexivity.
  - unfold pg_view, pg_empty, tables_view, mem_view. simpl. f_equal.
  - repeat constructor.
  - exact ex_ops_fresh.
Defined.


(** Saving the same block twice: the in-memory store keeps its transfers
    twice, the Postgres store once. *)
Theorem save_twice_differs_by_store :
  let ops := [OpSaveBlock (ex_block 1) [ex_transfer 1] false; OpSaveBlock (ex_block 1) [ex_transfer 1] false] in
  length (mem_transfers (run_ops MemStore_store ops NewMemStore).2) = 2 ∧
  length (t_transfers (pg_tables (run_ops PostgresStore_store ops (pg_empty [])).2)) = 1.
Proof. split; vm_compute; reflexivity. Qed.
End witnesses.
