(* ===== verification/Events.v ===== *)
(** * Domain events and the message bus (pkg/events/events.go) *)

From S2P Require Import Prelude.
From Stdlib Require Import Ascii.

Definition SubjectUserCreated : string := "user.created".
Definition SubjectWalletCreated : string := "wallet.created".
Definition SubjectTxSubmitted : string := "transaction.submitted".
Definition SubjectPaymentMade : string := "payment.made".
Definition SubjectChainBlock : string := "chain.block".
Definition SubjectChainTransfer : string := "chain.transfer".
Definition SubjectChainReorg : string := "chain.reorg".

(** One call of [Bus.Publish] as a producer makes it: the subject and the
    payload.  Producers discard the error [Publish] returns, so the sequence
    of these calls is all that producer code determines. *)
Definition publication : Type := string * json.

(** ** The NATS bus

    A message on the wire is text; [Codec] is the pair of encoding/json
    functions, which read back what they write.  The connection is a state
    [B] with the calls of nats.go. *)

(** [type Event struct]. *)
Record Event := mkEvent {
  Event_Subject : string;
  Event_Time : Z;
  Event_Data : json;
}.

Definition Event_json (e : Event) : json :=
  JObj [("subject", JStr (Event_Subject e)); ("time", JNum (Event_Time e)); ("data", Event_Data e)].

Class Codec := {
  json_Marshal : json → string;
  json_Unmarshal : string → option json;
  json_Unmarshal_Marshal : ∀ v, json_Unmarshal (json_Marshal v) = Some v;
}.

(** Reading an envelope: fields in any order and in any case, unknown ones
    ignored, missing ones zero; a field of the wrong type is an error. *)
Fixpoint event_fields (ms : list (string * json)) (e : Event) : option Event :=
  match ms with
  | [] => Some e
  | (k, v) :: ms' =>
      match match_field ["subject"; "time"; "data"] k, v with
      | Some "subject", JStr s => event_fields ms' (mkEvent s (Event_Time e) (Event_Data e))
      | Some "time", JNum t => event_fields ms' (mkEvent (Event_Subject e) t (Event_Data e))
      | Some "data", _ => event_fields ms' (mkEvent (Event_Subject e) (Event_Time e) v)
      | Some _, JNull => event_fields ms' e
      | Some _, _ => None
      | None, _ => event_fields ms' e
      end
  end.
Definition event_of_json (v : json) : option Event :=
  match v with
  | JObj ms => event_fields ms (mkEvent "" 0 JNull)
  | JNull => Some (mkEvent "" 0 JNull)
  | _ => None
  end.

(** [nats.Conn]: the calls the bus makes. *)
Record Conn (B : Type) := mkConn {
  nc_Publish : string → string → go B unit;
  nc_Subscribe : string → go B N;
  nc_Unsubscribe : N → go B unit;
}.
Arguments nc_Publish {B}.
Arguments nc_Subscribe {B}.
Arguments nc_Unsubscribe {B}.

(** [%q] on text without special characters. *)
Definition quoted (s : string) : string := String "034"%char (s +:+ String "034"%char EmptyString).

Section bus.
Context `{Codec} {B : Type} (nc : Conn B) (time_Now : go B Z).

(** [json.Marshal] does not fail on what the services publish: structs and
    maps of strings, numbers and booleans. *)
Definition NATSBus_Publish (subject : string) (data : json) : go B unit :=
  let! now := time_Now in
  wrap_err ("publish " +:+ quoted subject) (nc_Publish nc subject (json_Marshal (Event_json (mkEvent subject now data)))).

(** The callback registered by [Subscribe]: what the handler is given, if
    anything. *)
Definition on_message (msg : string) : option Event :=
  match json_Unmarshal msg with
  | None => None
  | Some v => event_of_json v
  end.

Definition NATSBus_Subscribe (subject : string) : go B N :=
  wrap_err ("subscribe " +:+ quoted subject) (nc_Subscribe nc subject).
End bus.
