(* ===== verification/Monitor.v ===== *)
(** * The chain monitor (internal/chainmonitor/monitor.go)

    [Sync] and its helpers over an arbitrary [ChainBackend] and an arbitrary
    [Store]: the backend is stateful, so every call may see a different chain.
    A backend served from memory, the one of the source's tests, is at the
    end. *)

From S2P Require Import Prelude Geth Erc20 ChainStore Events.
#[local] Open Scope u64_scope.

Section backend.
Context `{Geth}.

(** [ethereum.FilterQuery]. *)
Record FilterQuery := mkQuery {
  Query_FromBlock : N;
  Query_ToBlock : N;
  Query_Addresses : list Address;
  Query_Topics : list (list Hash);
}.

(** [type ChainBackend interface], with the poll of [ctx.Done()]; [W] is the
    state of the node and the network as the monitor sees it. *)
Record ChainBackend (W : Type) := mkBackend {
  HeaderByNumber : option N → go W Header;
  FilterLogs : FilterQuery → go W (list Log);
  ctx_Err : go W unit;
}.
#[global] Arguments HeaderByNumber {W} _ _.
#[global] Arguments FilterLogs {W} _ _.
#[global] Arguments ctx_Err {W} _.

(** [type Config struct]; durations are in nanoseconds. *)
Record Config := mkConfig {
  Confirmations : N;
  PollInterval : Z;
  StartBlock : N;
  Tokens : list Address;
}.

(** [type Monitor struct], less the components passed separately below. *)
Record Monitor := mkMonitor {
  monitor_decoder : transferDecoder;
  monitor_cfg : Config;
}.

Definition Monitor_New (cfg : Config) : res Monitor :=
  match newTransferDecoder with
  | Ok dec =>
      let cfg := if (PollInterval cfg <=? 0)%Z
                 then mkConfig (Confirmations cfg) (12 * 1000000000)%Z (StartBlock cfg) (Tokens cfg)
                 else cfg in
      Ok (mkMonitor dec cfg)
  | Err e => Err e
  | Panic p => Panic p
  | Diverge => Diverge
  end.
End backend.

Section monitor.
Context `{Geth} {St W : Type} (S : Store St) (B : ChainBackend W) (m : Monitor).

(** The state a monitor call runs on: the store, the outside world and the
    publications made so far. *)
Record mstate := mkMstate {
  ms_store : St;
  ms_world : W;
  ms_bus : list publication;
}.

Definition on_store {A} (c : go St A) : go mstate A :=
  go_zoom ms_store (λ st s, mkMstate st (ms_world s) (ms_bus s)) c.
Definition on_world {A} (c : go W A) : go mstate A :=
  go_zoom ms_world (λ w s, mkMstate (ms_store s) w (ms_bus s)) c.
(** [_ = m.bus.Publish(...)]. *)
Definition publish (subject : string) (data : json) : go mstate unit :=
  go_modify (λ s, mkMstate (ms_store s) (ms_world s) (ms_bus s ++ [(subject, data)])).

(** The decoding loop: logs that are not well-formed transfers are skipped. *)
Definition decode_all (logs : list Log) : list Transfer :=
  foldl (λ out lg, match decode (monitor_decoder m) lg with
                   | Some t => out ++ [t]
                   | None => out
                   end) [] logs.

Definition fetchTransfers (n : N) : go mstate (list Transfer) :=
  let! logs := on_world (FilterLogs B
    (mkQuery n n (Tokens (monitor_cfg m)) [[decoder_TopicID (monitor_decoder m)]])) in
  go_ret (decode_all logs).

Definition rollback (from : N) : go mstate unit :=
  do! on_store (DeleteFrom S from) in
  publish SubjectChainReorg (JObj [("from_block", JNum (Z.of_N from))]).

Definition block_event (b : Block) (txfers : nat) (confirmed : bool) : publication :=
  (SubjectChainBlock,
   JObj [("number", JNum (Z.of_N (Block_Number b))); ("hash", JStr (Hash_Hex (Block_Hash b)));
         ("transfers", JNum (Z.of_nat txfers)); ("confirmed", JBool confirmed)]).

Definition publishBlock (b : Block) (txfers : nat) (confirmed : bool) : go mstate unit :=
  publish (block_event b txfers confirmed).1 (block_event b txfers confirmed).2.

Definition transfer_event (t : Transfer) (block : N) (confirmed : bool) : publication :=
  (SubjectChainTransfer,
   JObj [("block", JNum (Z.of_N block)); ("token", JStr (Address_Hex (Transfer_Token t)));
         ("from", JStr (Address_Hex (Transfer_From t))); ("to", JStr (Address_Hex (Transfer_To t)));
         ("value", JStr (pretty (Transfer_Value t))); ("tx_hash", JStr (Hash_Hex (Transfer_TxHash t)));
         ("confirmed", JBool confirmed)]).

Definition publishTransfer (t : Transfer) (block : N) (confirmed : bool) : go mstate unit :=
  publish (transfer_event t block confirmed).1 (transfer_event t block confirmed).2.

(** The parent-linkage check of the loop: [true] is a mismatch. *)
Definition parent_mismatch (n : N) (header : Header) : go mstate bool :=
  if (0 <? n)%N then
    let! prev := on_store (BlockByNumber S (n -64 1)) in
    go_ret match prev with
           | Some p => negb (bool_decide (Block_Hash p = Header_ParentHash header))
           | None => false
           end
  else go_ret false.

Definition block_of (n : N) (header : Header) : Block :=
  mkBlock n (Header_Hash header) (Header_ParentHash header) (Header_Time header).

(** [for n := from; n <= headNum; n++].  The result is [true] when the loop
    ran to its end and [false] when [Sync] returned from inside it. *)
Fixpoint sync_loop (fuel : nat) (headNum n : N) : go mstate bool :=
  match fuel with
  | O => λ s, (Diverge, s)
  | Datatypes.S fuel' =>
      if (n <=? headNum)%N then
        do! on_world (ctx_Err B) in
        let! header := on_world (HeaderByNumber B (Some n)) in
        let! reorg := parent_mismatch n header in
        if (reorg : bool) then
          do! rollback (n -64 1) in go_ret false
        else
          let! transfers := fetchTransfers n in
          let block := block_of n header in
          let confirmed := (Confirmations (monitor_cfg m) <=? headNum -64 n)%N in
          do! on_store (SaveBlock S block transfers confirmed) in
          do! publishBlock block (length transfers) confirmed in
          do! go_for transfers (λ t, publishTransfer t n confirmed) in
          sync_loop fuel' headNum (n +64 1)
      else go_ret true
  end.

(** Iterations of the loop from [from] to [headNum], and one to leave it. *)
Definition loop_fuel (from headNum : N) : nat := N.to_nat (headNum + 1 - from) + 1.

(** The reorg check at the tip: [true] if the last indexed block is stale. *)
Definition tip_stale (last : option Block) : go mstate bool :=
  match last with
  | Some l =>
      let! canon := on_world (HeaderByNumber B (Some (Block_Number l))) in
      go_ret (negb (bool_decide (Header_Hash canon = Block_Hash l)))
  | None => go_ret false
  end.

Definition sync_from (last : option Block) : N :=
  match last with
  | Some l => Block_Number l +64 1
  | None => StartBlock (monitor_cfg m)
  end.

Definition Sync : go mstate unit :=
  let! head := on_world (HeaderByNumber B None) in
  let headNum := bigint_Uint64 (Header_Number head) in
  let! last := on_store (LastBlock S) in
  let! stale := tip_stale last in
  if (stale : bool) then rollback (default 0%N (Block_Number <$> last))
  else
    let from := sync_from last in
    let! finished := sync_loop (loop_fuel from headNum) headNum from in
    if (finished : bool) then
      if (Confirmations (monitor_cfg m) <=? headNum)%N then
        on_store (ConfirmThrough S (headNum -64 Confirmations (monitor_cfg m)))
      else go_ret tt
    else go_ret tt.

(** [Run] for at most [fuel] ticks: a failed [Sync] is only logged. *)
Fixpoint Run (fuel : nat) : go mstate unit :=
  match fuel with
  | O => λ s, (Diverge, s)
  | Datatypes.S fuel' =>
      let! _ := go_try Sync in
      let! done := go_try (on_world (ctx_Err B)) in
      match done with
      | inl _ => go_ret tt
      | inr _ => Run fuel'
      end
  end.
End monitor.
Arguments mstate St W : clear implicits.
Arguments mkMstate {St W} _ _ _.

(** ** A chain served from memory

    The backend of the test suite (monitor_test.go): headers by number, logs
    by block, and the number of the head. *)
Section fake.
Context `{Geth}.

Record fakeChain := mkFake {
  fake_headers : gmap N Header;
  fake_logs : gmap N (list Log);
  fake_head : N;
}.

Definition errNotFound : error := ErrSentinel "not found".

Definition fakeBackend : ChainBackend fakeChain :=
  mkBackend _
    (λ number w, match fake_headers w !! default (fake_head w) number with
                 | Some h => (Ok h, w)
                 | None => (Err errNotFound, w)
                 end)
    (λ q w, (Ok (default [] (fake_logs w !! Query_FromBlock q)), w))
    (λ w, (Ok tt, w)).

(** The same chain for good. *)
Definition fixedBackend (c : fakeChain) : ChainBackend unit :=
  mkBackend _ (λ number u, ((HeaderByNumber fakeBackend number c).1, u))
    (λ q u, ((FilterLogs fakeBackend q c).1, u)) (λ u, (Ok tt, u)).

(** [buildChain]: headers [i .. i+k]; from [forkAt] on they carry [salt]. *)
Fixpoint buildChain (k : nat) (i forkAt : N) (salt : Byte.byte) (parent : Hash) : gmap N Header :=
  let h := mkHeader (Z.of_N i) parent i [if (forkAt <=? i)%N then salt else Byte.x00] in
  match k with
  | O => {[ i := h ]}
  | Datatypes.S k' => <[ i := h ]> (buildChain k' (i + 1) forkAt salt (Header_Hash h))
  end.
End fake.
