(* ===== verification/MonitorSafety.v ===== *)
(** * Safety of the chain monitor

    Invariants of [Sync] and [Run] over every backend and every lawful store:
    the index is a contiguous, hash-linked run of blocks, and transfers are
    confirmed only at the configured depth. *)

From S2P Require Import Prelude Geth Erc20 ChainStore ChainStorePg Events Monitor.
#[local] Open Scope u64_scope.

(** ** The chain invariant of the index *)
Section chain.
Context `{Geth}.
Implicit Types (bs : gmap N Block).

(** Every block builds on the one indexed below it. *)
Definition linked bs : Prop :=
  ∀ n b b', bs !! n = Some b → bs !! (n + 1)%N = Some b' → Block_ParentHash b' = Block_Hash b.

(** No gaps. *)
Definition contiguous bs : Prop :=
  ∀ i j k, is_Some (bs !! i) → is_Some (bs !! k) → (i ≤ j)%N → (j ≤ k)%N → is_Some (bs !! j).

(** Room for the [uint64] successor. *)
Definition bounded bs : Prop := ∀ n, is_Some (bs !! n) → (n < two64 - 1)%N.

(** Hash and parent hash of a block come from one header. *)
Definition from_headers bs : Prop :=
  ∀ n b, bs !! n = Some b →
    ∃ h, Block_Hash b = Header_Hash h ∧ Block_ParentHash b = Header_ParentHash h.

Record chain_inv bs : Prop := mkChainInv {
  chain_linked : linked bs;
  chain_contiguous : contiguous bs;
  chain_bounded : bounded bs;
  chain_from_headers : from_headers bs;
}.

(** [n] is the next block to index: all blocks are below it, and the one
    right below is present unless the index is empty. *)
Definition frontier (n : N) bs : Prop :=
  (∀ k, is_Some (bs !! k) → (k < n)%N) ∧
  (bs = ∅ ∨ (0 < n)%N ∧ is_Some (bs !! (n - 1)%N)).

Lemma chain_inv_empty : chain_inv ∅.
Proof.
  split.
  - intros ???. by rewrite lookup_empty.
  - intros i j k [? Hi]. by rewrite lookup_empty in Hi.
  - intros n [? Hn]. by rewrite lookup_empty in Hn.
  - intros ??. by rewrite lookup_empty.
Qed.

Lemma chain_inv_save n h bs :
  chain_inv bs → frontier n bs → (n < two64 - 1)%N →
  (∀ p, (0 < n)%N → bs !! (n - 1)%N = Some p → Block_Hash p = Header_ParentHash h) →
  chain_inv (<[n := block_of n h]> bs) ∧ frontier (n + 1) (<[n := block_of n h]> bs).
Proof.
  intros [Hl Hc Hb Hh] [Hlt Hprev] Hn Hpar. split; [split|split].
  - intros k b b'. rewrite !lookup_insert.
    case_decide as Hk; case_decide as Hk1; [lia| | |apply Hl].
    + intros _ Hb'. assert (k + 1 < n)%N by (apply Hlt; by eexists). lia.
    + intros Hb1 [= <-]. simpl. replace k with (n - 1)%N in Hb1 by lia.
      symmetry. apply Hpar; [lia|done].
  - intros i j k. rewrite !lookup_insert.
    destruct (decide (n = j)); [intros; by eexists|].
    destruct (decide (n = i)) as [Hi|]; destruct (decide (n = k)) as [Hk|].
    + lia.
    + intros _ Hk'%Hlt ??. lia.
    + intros Hi' _ ??. destruct Hprev as [->|[? Hp]].
      { destruct Hi' as [? Hi']. by rewrite lookup_empty in Hi'. }
      apply (Hc i j (n - 1)%N); auto; lia.
    + apply Hc.
  - intros k. rewrite lookup_insert. case_decide; subst; [done|apply Hb].
  - intros k b. rewrite lookup_insert. case_decide; [|apply Hh].
    intros [= <-]. by exists h.
  - intros k. rewrite lookup_insert. case_decide; [lia|]. intros Hk. apply Hlt in Hk. lia.
  - right. split; [lia|]. replace (n + 1 - 1)%N with n by lia. rewrite lookup_insert_eq. by eexists.
Qed.

Lemma chain_inv_delete n ix : chain_inv (ix_blocks ix) → chain_inv (ix_blocks (index_delete n ix)).
Proof.
  assert (∀ k, is_Some (ix_blocks (index_delete n ix) !! k) →
    is_Some (ix_blocks ix !! k) ∧ (k < n)%N) as Hsub.
  { intros k. rewrite lookup_index_delete. destruct (N.ltb_spec k n); [auto|by intros []]. }
  intros [Hl Hc Hb Hh]. split.
  - intros k b b'. rewrite !lookup_index_delete.
    destruct (k <? n)%N; [|done]. destruct (k + 1 <? n)%N; [|done]. apply Hl.
  - intros i j k Hi Hk ??. apply Hsub in Hi as [Hi ?]. apply Hsub in Hk as [Hk ?].
    rewrite lookup_index_delete. destruct (N.ltb_spec j n); [|lia]. by apply (Hc i j k).
  - intros k Hk. by apply Hb, Hsub.
  - intros k b. rewrite lookup_index_delete. destruct (k <? n)%N; [apply Hh|done].
Qed.

(** The next block after the highest one. *)
Lemma frontier_last bs last start :
  bounded bs → last_spec bs last →
  frontier (match last with Some l => Block_Number l +64 1 | None => start end) bs.
Proof.
  intros Hb. destruct last as [l|]; simpl.
  - intros [Hl Hmax]. rewrite u64_succ_bound by (apply Hb; by eexists). split.
    + intros k Hk. apply Hmax in Hk. lia.
    + right. split; [lia|]. replace (Block_Number l + 1 - 1)%N with (Block_Number l) by lia. by eexists.
  - intros ->. split; [|by left]. intros k [? Hk]. by rewrite lookup_empty in Hk.
Qed.
End chain.

(** ** Triples for the monitor's calls *)
Section lifts.
Context `{Geth} {St W : Type} (S : Store St) (B : ChainBackend W) (m : Monitor).
Context (bad : Prop) (view : St → Index) (inv : St → Prop) {HL : StoreLaws view inv S}.
Implicit Types (Φ Ψ E : Index → Prop).

(** A predicate of the abstract index, on monitor states. *)
Definition holds Φ (s : mstate St W) : Prop := inv (ms_store s) ∧ Φ (view (ms_store s)).

Lemma triple_world {A} (c : go W A) Φ (Q : A → Prop) E :
  (∀ w, returns (c w).1 ∨ bad) → (∀ w a w', c w = (Ok a, w') → Q a) → (∀ ix, Φ ix → E ix) →
  triple bad (holds Φ) (on_world c) (λ a, holds (λ ix, Φ ix ∧ Q a)) (holds E).
Proof.
  intros Hret Hc HE s [Hi Hs]. unfold on_world, go_zoom. specialize (Hret (ms_world s)).
  destruct (c (ms_world s)) as [[a|e|p|] w] eqn:Hw; simpl in Hret.
  - repeat split; [done..|]. by eapply Hc.
  - split; [done|by apply HE].
  - destruct Hret as [[]|]. split; [done|]. split; [done|by apply HE].
  - destruct Hret as [[]|]. split; [done|]. split; [done|by apply HE].
Qed.

(** A call to the node whose answer is not constrained. *)
Lemma triple_world_any {A} (c : go W A) Φ E :
  (∀ w, returns (c w).1 ∨ bad) → (∀ ix, Φ ix → E ix) →
  triple bad (holds Φ) (on_world c) (λ _, holds Φ) (holds E).
Proof.
  intros Hret HE. eapply (triple_conseq _ _ (holds Φ) (holds Φ));
    [by apply (triple_world c Φ (λ _, True) E)|done| |done].
  intros a s [Hi [Hs _]]. by split.
Qed.

Lemma triple_publish subj data Φ (R : mstate St W → Prop) :
  triple bad (holds Φ) (publish subj data) (λ _, holds Φ) R.
Proof. intros s Hs. exact Hs. Qed.

Lemma triple_store_op c effect Φ Ψ E :
  op_spec view inv c effect →
  (∀ ix ix', index_wf ix → Φ ix → effect ix ix' → Ψ ix') →
  (∀ ix, Φ ix → E ix) → (∀ ix, Ψ ix → E ix) →
  triple bad (holds Φ) (on_store c) (λ _, holds Ψ) (holds E).
Proof.
  intros Hop HΨ HE1 HE2 s [Hi Hs]. specialize (Hop (ms_store s) Hi).
  pose proof (law_wf (view:=view) (ms_store s) Hi) as Hwf.
  unfold on_store, go_zoom. destruct (c (ms_store s)) as [[a|e|p|] st]; try done.
  - split; [apply Hop|]. eapply HΨ; [exact Hwf|exact Hs|apply Hop].
  - destruct Hop as [Hi' [Heq|Heff]]; split; try done; simpl.
    + rewrite Heq. by apply HE1.
    + eapply HE2, HΨ; eauto.
Qed.

Lemma triple_store_read {A} (c : go St A) post Φ E :
  read_spec view inv c post → (∀ ix, Φ ix → E ix) →
  triple bad (holds Φ) (on_store c) (λ a, holds (λ ix, Φ ix ∧ post ix a)) (holds E).
Proof.
  intros Hr HE s [Hi Hs]. specialize (Hr (ms_store s) Hi).
  unfold on_store, go_zoom. destruct (c (ms_store s)) as [[a|e|p|] st]; try done; simpl.
  - destruct Hr as (? & Heq & ?). split; [done|]. simpl. rewrite Heq. done.
  - destruct Hr as (? & Heq). split; [done|]. simpl. rewrite Heq. by apply HE.
Qed.

Lemma triple_publish_all {A} (l : list A) f Φ (R : mstate St W → Prop) :
  (∀ x, triple bad (holds Φ) (f x) (λ _, holds Φ) R) →
  triple bad (holds Φ) (go_for l f) (λ _, holds Φ) R.
Proof. intros Hf. apply triple_for. intros x _. apply Hf. Qed.

(** The node answers every call, unless [bad]. *)
Record backend_returns : Prop := {
  returns_HeaderByNumber : ∀ q w, returns (HeaderByNumber B q w).1 ∨ bad;
  returns_FilterLogs : ∀ q w, returns (FilterLogs B q w).1 ∨ bad;
  returns_ctx_Err : ∀ w, returns (ctx_Err B w).1 ∨ bad;
}.
Context (HB : backend_returns).

Lemma triple_fetchTransfers n Φ E :
  (∀ ix, Φ ix → E ix) →
  triple bad (holds Φ) (fetchTransfers B m n) (λ _, holds Φ) (holds E).
Proof.
  intros HE. unfold fetchTransfers. eapply triple_bind; [apply triple_world_any; [apply HB|done]|].
  intros logs. by apply triple_ret.
Qed.

Lemma triple_parent_mismatch n header Φ E :
  (n < two64)%N → (∀ ix, Φ ix → E ix) →
  triple bad (holds Φ) (parent_mismatch S n header)
    (λ r, holds (λ ix, Φ ix ∧ (r = false → ∀ p, (0 < n)%N → ix_blocks ix !! (n - 1)%N = Some p →
       Block_Hash p = Header_ParentHash header)))
    (holds E).
Proof.
  intros Hn HE. unfold parent_mismatch. destruct (N.ltb_spec 0 n).
  - rewrite u64_sub_small by lia. eapply triple_bind.
    { apply (triple_store_read _ _ _ _ (law_BlockByNumber (view:=view) (n - 1) ltac:(lia)) HE). }
    intros prev. apply triple_ret. intros s [Hi [Hs ->]]. repeat split; [done..|].
    intros Hr p _ Hp. rewrite Hp in Hr. apply negb_false_iff, bool_decide_eq_true in Hr. done.
  - apply triple_ret. intros s [Hi Hs]. repeat split; [done..|]. intros _ p ?. lia.
Qed.

Lemma triple_tip_stale last Φ E :
  (∀ ix, Φ ix → E ix) →
  triple bad (holds Φ) (tip_stale B last) (λ _, holds Φ) (holds E).
Proof.
  intros HE. unfold tip_stale. destruct last as [l|]; [|by apply triple_ret].
  eapply triple_bind; [apply triple_world_any; [apply HB|done]|]. intros canon. by apply triple_ret.
Qed.

Lemma triple_weaken {A} (c : go (mstate St W) A) Φ Ψ Q (R : mstate St W → Prop) :
  triple bad (holds Ψ) c Q R → (∀ ix, Φ ix → Ψ ix) → triple bad (holds Φ) c Q R.
Proof. intros Hc HΦ. eapply triple_pre; [exact Hc|]. intros s [Hi Hs]. split; auto. Qed.

(** A pure fact about the precondition can be used outside the triple. *)
Lemma triple_pure {A} (c : go (mstate St W) A) Φ (P : Prop) Q (R : mstate St W → Prop) :
  (P → triple bad (holds Φ) c Q R) → triple bad (holds (λ ix, Φ ix ∧ P)) c Q R.
Proof. intros Hc s [Hi [Hs HP]]. by apply Hc. Qed.
End lifts.

(** ** Invariants of [Sync] *)
Section sync.
Context `{Geth} {St W : Type} (S : Store St) (B : ChainBackend W) (m : Monitor).
Context (bad : Prop) (view : St → Index) (inv : St → Prop) {HL : StoreLaws view inv S}.
Context (HB : backend_returns B bad).
#[local] Abbreviation C := (Confirmations (monitor_cfg m)).
#[local] Abbreviation holds := (holds (W:=W) view inv).

(** Heads the backend reports stay below [top]; in particular they leave
    room for the [uint64] successor. *)
Definition heads_below (top : N) : Prop :=
  ∀ w h w', HeaderByNumber B None w = (Ok h, w') →
    (bigint_Uint64 (Header_Number h) ≤ top)%N.

(** A confirmed transfer lies at least [Confirmations] blocks below [top]. *)
Definition confirmed_below (top : N) (ix : Index) : Prop :=
  ∀ st, st ∈ ix_transfers ix → stored_confirmed st = true → (stored_block st + C ≤ top)%N.

Definition sync_inv (top : N) (ix : Index) : Prop :=
  chain_inv (ix_blocks ix) ∧ confirmed_below top ix.

Lemma confirmed_below_save top n h ts headNum ix ix' :
  confirmed_below top ix → (n ≤ headNum)%N → (headNum ≤ top)%N → (top < two64)%N →
  save_effect (block_of n h) ts (C <=? headNum -64 n)%N ix ix' → confirmed_below top ix'.
Proof.
  intros Hc Hn Hh Ht (_ & added & Heq & Hsub & _) st. rewrite Heq.
  intros [Hst|Hst]%elem_of_app; [by apply Hc|].
  eapply elem_of_sublist in Hst; [|exact Hsub].
  apply list_elem_of_fmap in Hst as (t & -> & _). simpl.
  rewrite u64_sub_small by lia. intros Hle%N.leb_le. lia.
Qed.

Lemma sync_inv_delete top n ix : sync_inv top ix → sync_inv top (index_delete n ix).
Proof.
  intros [Hch Hc]. split; [by apply chain_inv_delete|].
  intros st Hst. apply list_elem_of_filter in Hst as [_ Hst]. by apply Hc.
Qed.

Lemma sync_inv_confirm top headNum ix :
  (C ≤ headNum)%N → (headNum ≤ top)%N → (top < two64)%N →
  sync_inv top ix → sync_inv top (index_confirm (headNum -64 C) ix).
Proof.
  intros HC Hh Ht [Hch Hc]. split; [done|]. intros st Hst.
  apply list_elem_of_fmap in Hst as (st' & -> & Hst'). rewrite stored_block_confirm.
  unfold confirm_row. rewrite u64_sub_small by lia.
  destruct (N.leb_spec (stored_block st') (headNum - C)); simpl; [lia|by apply Hc].
Qed.

Lemma triple_rollback top n :
  triple bad (holds (sync_inv top)) (rollback S n)
    (λ _, holds (sync_inv top)) (holds (sync_inv top)).
Proof.
  unfold rollback. eapply triple_bind; [|intros ?; apply triple_publish].
  eapply triple_store_op; [done|apply (law_DeleteFrom (view:=view))|simpl|done|done].
  intros ix ix' _ Hinv ->. by apply sync_inv_delete.
Qed.

(** What holds before iteration [n] of the loop. *)
Definition loop_inv (top n : N) (ix : Index) : Prop :=
  sync_inv top ix ∧ frontier n (ix_blocks ix).

Lemma loop_inv_save top headNum n header ts ix ix' :
  (n ≤ headNum)%N → (headNum ≤ top)%N → (top < two64 - 1)%N → loop_inv top n ix →
  (∀ p, (0 < n)%N → ix_blocks ix !! (n - 1)%N = Some p → Block_Hash p = Header_ParentHash header) →
  save_effect (block_of n header) ts (C <=? headNum -64 n)%N ix ix' →
  loop_inv top (n + 1) ix'.
Proof.
  intros Hn Hh Ht [[Hch Hc] Hf] Hp Hsv.
  destruct (chain_inv_save n header (ix_blocks ix) Hch Hf) as [Hch' Hf']; [lia|done|].
  assert (confirmed_below top ix').
  { eapply confirmed_below_save; [exact Hc| | | |exact Hsv]; lia. }
  destruct Hsv as (Hb & _). unfold loop_inv, sync_inv. by rewrite Hb.
Qed.

Lemma triple_sync_loop top fuel headNum n :
  (headNum ≤ top)%N → (top < two64 - 1)%N → (N.to_nat (headNum + 1 - n) < fuel ∨ bad) →
  triple bad (holds (loop_inv top n)) (sync_loop S B m fuel headNum n)
    (λ _, holds (sync_inv top)) (holds (sync_inv top)).
Proof.
  intros Hh Ht. revert n. induction fuel as [|fuel IH]; intros n Hfuel; simpl.
  { intros s [Hi [Hs _]]. split; [destruct Hfuel; [lia|done]|by split]. }
  assert (∀ k ix, loop_inv top k ix → sync_inv top ix) as HI by (by intros k ix []).
  destruct (N.leb_spec n headNum); [|apply triple_ret; intros s [Hi [Hs _]]; by split].
  eapply triple_bind; [apply triple_world_any; [apply HB|apply HI]|intros ?].
  eapply triple_bind; [apply triple_world_any; [apply HB|apply HI]|intros header].
  eapply triple_bind; [apply triple_parent_mismatch; [done|lia|apply HI]|intros [|]].
  { eapply triple_bind; [eapply triple_weaken; [apply triple_rollback|by intros ix [[? _] _]]|].
    intros ?. by apply triple_ret. }
  eapply triple_bind; [apply triple_fetchTransfers; [done|by intros ix [[? _] _]]|intros ts].
  eapply triple_bind.
  { eapply (triple_store_op S bad view inv _ _ _ (loop_inv top (n + 1)));
      [apply (law_SaveBlock (view:=view))| |by intros ix [[? _] _]|apply HI].
    intros ix ix' _ [HIn Hp] Hsv. eapply loop_inv_save; eauto. }
  intros ?. eapply triple_bind; [apply triple_publish|intros ?].
  eapply triple_bind; [apply triple_publish_all; intros t; apply triple_publish|intros ?].
  rewrite u64_succ_bound by lia. apply IH. destruct Hfuel; [left; lia|by right].
Qed.

Lemma triple_Sync top :
  heads_below top → (top < two64 - 1)%N →
  triple bad (holds (sync_inv top)) (Sync S B m)
    (λ _, holds (sync_inv top)) (holds (sync_inv top)).
Proof.
  intros Hheads Ht. unfold Sync. eapply triple_bind.
  { apply (triple_world bad view inv _ _ (λ h, (bigint_Uint64 (Header_Number h) ≤ top)%N)); [apply HB|eauto|done]. }
  intros head. apply triple_pure. intros Hh. set (headNum := bigint_Uint64 (Header_Number head)) in *.
  eapply triple_bind; [by apply (triple_store_read bad view inv _ _ _ _ (law_LastBlock (view:=view)))|].
  intros last. eapply triple_bind; [apply triple_tip_stale; [done|by intros ix []]|].
  intros [|].
  { eapply triple_weaken; [apply triple_rollback|]. by intros ix []. }
  eapply triple_bind.
  - eapply triple_weaken; [apply triple_sync_loop; [done|done|left; unfold loop_fuel; lia]|].
    intros ix [[Hch Hc] Hl]. split; [done|]. apply frontier_last; [apply Hch|done].
  - intros [|]; [|by apply triple_ret]. destruct (N.leb_spec C headNum); [|by apply triple_ret].
    eapply triple_store_op; [done|apply (law_ConfirmThrough (view:=view))|simpl|done|done].
    intros ix ix' _ Hinv ->. apply sync_inv_confirm; [done|done|lia|done].
Qed.

Lemma triple_Run top fuel :
  heads_below top → (top < two64 - 1)%N → bad →
  triple bad (holds (sync_inv top)) (Run S B m fuel)
    (λ _, holds (sync_inv top)) (holds (sync_inv top)).
Proof.
  intros Hheads Ht Hb. induction fuel as [|fuel IH]; simpl; [by intros s Hs|].
  eapply triple_bind.
  { apply (triple_try _ _ _ (λ _, holds (sync_inv top))).
    eapply triple_conseq; [by apply triple_Sync|done|done|].
    intros s Hs. split; [exact Hs|intros _; exact Hs]. }
  intros _r. eapply triple_bind.
  { apply (triple_try _ _ _ (λ _, holds (sync_inv top))). eapply triple_conseq;
      [apply (triple_world_any bad view inv (ctx_Err B) (sync_inv top) (sync_inv top)); [apply HB|done]|done| |].
    - intros a s Hs. exact Hs.
    - intros s Hs. split; [exact Hs|intros _; exact Hs]. }
  intros [e|u]; [by apply triple_ret|exact IH].
Qed.
End sync.

(** ** Runs of [Sync] that return nil *)
Section runs.
Context `{Geth} {St W : Type} (S : Store St) (B : ChainBackend W) (m : Monitor).
Context (view : St → Index) (inv : St → Prop) {HL : StoreLaws view inv S}.
#[local] Abbreviation C := (Confirmations (monitor_cfg m)).
Implicit Types (s : mstate St W).

Lemma on_world_Ok {A} (c : go W A) s a s' :
  on_world c s = (Ok a, s') → ms_store s' = ms_store s ∧ ms_bus s' = ms_bus s.
Proof. unfold on_world, go_zoom. destruct (c (ms_world s)). by intros [= _ <-]. Qed.

Lemma on_store_Ok {A} (c : go St A) s a s' :
  on_store c s = (Ok a, s') →
  c (ms_store s) = (Ok a, ms_store s') ∧ ms_bus s' = ms_bus s ∧ ms_world s' = ms_world s.
Proof. unfold on_store, go_zoom. destruct (c (ms_store s)). by intros [= -> <-]. Qed.

Lemma op_Ok c effect s s' u :
  op_spec view inv c effect → inv (ms_store s) → on_store c s = (Ok u, s') →
  inv (ms_store s') ∧ effect (view (ms_store s)) (view (ms_store s')) ∧ ms_bus s' = ms_bus s.
Proof.
  intros Hop Hi Hr. apply on_store_Ok in Hr as (Hc & Hb & _).
  specialize (Hop _ Hi). rewrite Hc in Hop. tauto.
Qed.

Lemma read_Ok {A} (c : go St A) post s s' a :
  read_spec view inv c post → inv (ms_store s) → on_store c s = (Ok a, s') →
  inv (ms_store s') ∧ view (ms_store s') = view (ms_store s) ∧ post (view (ms_store s)) a ∧
  ms_bus s' = ms_bus s.
Proof.
  intros Hop Hi Hr. apply on_store_Ok in Hr as (Hc & Hb & _).
  specialize (Hop _ Hi). rewrite Hc in Hop. tauto.
Qed.

Lemma publish_Ok subj d s u s' :
  publish subj d s = (Ok u, s') → ms_store s' = ms_store s ∧ ms_bus s' = ms_bus s ++ [(subj, d)].
Proof. by intros [= _ <-]. Qed.

Lemma fetchTransfers_Ok n s ts s' :
  fetchTransfers B m n s = (Ok ts, s') → ms_store s' = ms_store s ∧ ms_bus s' = ms_bus s.
Proof.
  unfold fetchTransfers. intros Hr. go_inv. by apply on_world_Ok in Hrun.
Qed.

Lemma parent_mismatch_Ok n h s r s' :
  (n < two64)%N → inv (ms_store s) → parent_mismatch S n h s = (Ok r, s') →
  inv (ms_store s') ∧ view (ms_store s') = view (ms_store s) ∧ ms_bus s' = ms_bus s.
Proof.
  intros Hn Hi. unfold parent_mismatch. destruct (N.ltb_spec 0 n); intros Hr; go_inv; [|done].
  eapply read_Ok in Hrun; [|apply (law_BlockByNumber (view:=view))|done]; [tauto|apply u64_bound].
Qed.

Lemma publish_for_Ok ts n c s u s' :
  go_for ts (λ t, publishTransfer t n c) s = (Ok u, s') →
  ms_store s' = ms_store s ∧ ∃ evs, ms_bus s' = ms_bus s ++ evs ∧
    Forall (λ e, e.1 = SubjectChainTransfer) evs.
Proof.
  revert s. induction ts as [|t ts IH]; intros s Hr; simpl in Hr; go_inv.
  - split; [done|]. exists []. by rewrite app_nil_r.
  - apply publish_Ok in Hrun as [Hst Hb]. apply IH in Hr as [Hst' (evs & Hb' & Hall)].
    split; [congruence|]. eexists (_ :: evs). rewrite Hb', Hb, <-app_assoc. split; [done|by constructor].
Qed.

(** The effect of a loop that returns nil. *)
Definition loop_post (headNum n : N) s s' (finished : bool) : Prop :=
  inv (ms_store s') ∧ ∃ evs, ms_bus s' = ms_bus s ++ evs ∧
    (finished = false → SubjectChainReorg ∈ evs.*1) ∧
    (finished = true →
      ix_blocks (view (ms_store s)) ⊆ ix_blocks (view (ms_store s')) ∧
      ∀ k, (n ≤ k)%N → (k ≤ headNum)%N → is_Some (ix_blocks (view (ms_store s')) !! k)).

Lemma rollback_Ok n s u s' :
  inv (ms_store s) → rollback S n s = (Ok u, s') →
  inv (ms_store s') ∧ ∃ evs, ms_bus s' = ms_bus s ++ evs ∧ SubjectChainReorg ∈ evs.*1.
Proof.
  intros Hi Hr. unfold rollback in Hr. go_inv.
  destruct (op_Ok _ _ _ _ _ (law_DeleteFrom (view:=view) _) Hi Hrun) as (Hi' & _ & Hb).
  apply publish_Ok in Hr as [Hst Hb']. rewrite Hst. split; [done|].
  eexists. rewrite Hb', Hb. split; [done|]. set_solver.
Qed.

Lemma sync_loop_Ok fuel headNum n s r s' :
  (headNum < two64 - 1)%N → inv (ms_store s) →
  (∀ k, is_Some (ix_blocks (view (ms_store s)) !! k) → (k < n)%N) →
  sync_loop S B m fuel headNum n s = (Ok r, s') → loop_post headNum n s s' r.
Proof.
  intros Hh. revert n s. induction fuel as [|fuel IH]; intros n s Hi Hlt Hr; simpl in Hr; [done|].
  destruct (N.leb_spec n headNum) as [Hle|Hgt].
  2:{ go_inv. split; [done|]. exists []. rewrite app_nil_r. split; [done|].
      split; [done|]. intros _. split; [done|]. intros; lia. }
  apply go_bind_Ok in Hr as (? & s1 & H1 & Hr). apply on_world_Ok in H1 as [Hst1 Hb1].
  apply go_bind_Ok in Hr as (h & s2 & H2 & Hr). apply on_world_Ok in H2 as [Hst2 Hb2].
  rewrite Hst1 in Hst2. rewrite Hb1 in Hb2. rewrite <-Hst2 in Hi.
  apply go_bind_Ok in Hr as (reorg & s3 & H3 & Hr).
  apply parent_mismatch_Ok in H3 as (Hi3 & Hv3 & Hb3); [|lia|done]. rewrite Hst2 in Hv3.
  destruct reorg.
  { go_inv. apply rollback_Ok in Hrun as (Hi4 & evs & Hb4 & Hin); [|done].
    split; [done|]. exists evs. split; [congruence|]. done. }
  apply go_bind_Ok in Hr as (ts & s4 & H4 & Hr). apply fetchTransfers_Ok in H4 as [Hst4 Hb4].
  rewrite <-Hst4 in Hi3. apply go_bind_Ok in Hr as (? & s5 & H5 & Hr).
  destruct (op_Ok _ _ _ _ _ (law_SaveBlock (view:=view) _ _ _) Hi3 H5) as (Hi5 & (Hblk & _) & Hb5).
  apply go_bind_Ok in Hr as (? & s6 & H6 & Hr). apply publish_Ok in H6 as [Hst6 Hb6].
  apply go_bind_Ok in Hr as (? & s7 & H7 & Hr). apply publish_for_Ok in H7 as [Hst7 (evs7 & Hb7 & _)].
  rewrite u64_succ_bound in Hr by lia.
  assert (ix_blocks (view (ms_store s7)) = <[n := block_of n h]> (ix_blocks (view (ms_store s)))) as Hv7.
  { rewrite Hst7, Hst6, Hblk, Hst4, Hv3. done. }
  apply IH in Hr as (Hi' & evs & Hb' & Hf & Ht); cycle 1.
  { by rewrite Hst7, Hst6. }
  { intros k. rewrite Hv7, lookup_insert. case_decide; [lia|]. intros Hk%Hlt. lia. }
  split; [done|]. eexists. rewrite Hb', Hb7, Hb6, Hb5, Hb4, Hb3, Hb2. rewrite <-!app_assoc.
  split; [done|]. split.
  - intros Hfin. specialize (Hf Hfin). rewrite !fmap_app. set_solver.
  - intros Hfin. destruct (Ht Hfin) as [Hsub Hall]. rewrite Hv7 in Hsub. split.
    + etrans; [|exact Hsub]. apply insert_subseteq.
      destruct (ix_blocks (view (ms_store s)) !! n) eqn:Hn; [|done].
      assert (n < n)%N by (apply Hlt; by eexists). lia.
    + intros k Hk1 Hk2. destruct (decide (k = n)) as [->|]; [|apply Hall; lia].
      exists (block_of n h). eapply lookup_weaken; [|exact Hsub]. apply lookup_insert_eq.
Qed.

(** The blocks the loop adds cover everything above the last one. *)
Lemma indexed_after_last (bs bs' : gmap N Block) last hd :
  bounded bs → last_spec bs last →
  (∀ k, (sync_from m last ≤ k)%N → (k ≤ hd)%N → is_Some (bs' !! k)) →
  (∀ k, (StartBlock (monitor_cfg m) ≤ k ≤ hd)%N → bs = ∅ → is_Some (bs' !! k)) ∧
  (∀ l k, is_Some (bs !! l) → (∀ j, is_Some (bs !! j) → j ≤ l)%N → (l < k ≤ hd)%N →
     is_Some (bs' !! k)).
Proof.
  intros Hbd Hlast Hall. unfold sync_from in Hall. destruct last as [l|]; simpl in Hlast.
  - destruct Hlast as [Hl Hmax]. rewrite u64_succ_bound in Hall by (apply Hbd; by eexists). split.
    + intros k _ ->. by rewrite lookup_empty in Hl.
    + intros l' k Hl' Hmax' Hk. apply Hall; [|lia]. apply Hmax in Hl'.
      assert (Block_Number l ≤ l')%N by (apply Hmax'; by eexists). lia.
  - split; [intros k Hk _; apply Hall; lia|]. intros l' k [? Hl']. by rewrite Hlast, lookup_empty in Hl'.
Qed.

(** [ConfirmThrough] at the head leaves no deep transfer unconfirmed. *)
Lemma confirm_covers_deep hd ix st :
  (C ≤ hd)%N → (hd < two64)%N → st ∈ ix_transfers (index_confirm (hd -64 C) ix) →
  (stored_block st + C ≤ hd)%N → stored_confirmed st = true.
Proof.
  intros HC Hhd Hst Hd. apply list_elem_of_fmap in Hst as (st' & -> & _).
  rewrite stored_block_confirm in Hd. unfold confirm_row. rewrite u64_sub_small by lia.
  destruct (N.leb_spec (stored_block st') (hd - C)); [done|lia].
Qed.

(** C19: a [Sync] that returns nil and publishes no [chain.reorg] has extended
    the index without dropping a block, has indexed every block up to the
    head the node reported (from [StartBlock] on an empty index, from the
    highest indexed block otherwise), and has marked confirmed every transfer
    that lies [Confirmations] or more below that head. *)
Theorem sync_nil_is_complete s s' h w' :
  inv (ms_store s) → bounded (ix_blocks (view (ms_store s))) →
  HeaderByNumber B None (ms_world s) = (Ok h, w') →
  (bigint_Uint64 (Header_Number h) < two64 - 1)%N →
  Sync S B m s = (Ok tt, s') →
  inv (ms_store s') ∧ ∃ evs, ms_bus s' = ms_bus s ++ evs ∧
    (SubjectChainReorg ∉ evs.*1 →
      let H := bigint_Uint64 (Header_Number h) in
      let bs := ix_blocks (view (ms_store s)) in
      let ix' := view (ms_store s') in
      bs ⊆ ix_blocks ix' ∧
      (∀ k, (StartBlock (monitor_cfg m) ≤ k ≤ H)%N → bs = ∅ → is_Some (ix_blocks ix' !! k)) ∧
      (∀ l k, is_Some (bs !! l) → (∀ j, is_Some (bs !! j) → j ≤ l)%N → (l < k ≤ H)%N →
         is_Some (ix_blocks ix' !! k)) ∧
      (∀ st, st ∈ ix_transfers ix' → (stored_block st + C ≤ H)%N → stored_confirmed st = true)).
Proof.
  intros Hi Hbd Hhead Hbound Hr. unfold Sync in Hr.
  apply go_bind_Ok in Hr as (h' & s1 & H1 & Hr).
  assert (h' = h) as ->.
  { unfold on_world, go_zoom in H1. rewrite Hhead in H1. congruence. }
  apply on_world_Ok in H1 as [Hst1 Hb1]. rewrite <-Hst1 in Hi, Hbd.
  apply go_bind_Ok in Hr as (last & s2 & H2 & Hr).
  destruct (read_Ok _ _ _ _ _ (law_LastBlock (view:=view)) Hi H2) as (Hi2 & Hv2 & Hlast & Hb2).
  apply go_bind_Ok in Hr as (stale & s3 & H3 & Hr).
  assert (ms_store s3 = ms_store s2 ∧ ms_bus s3 = ms_bus s2) as [Hst3 Hb3].
  { unfold tip_stale in H3. destruct last as [l|]; go_inv; [|done]. by apply on_world_Ok in Hrun. }
  rewrite <-Hst3 in Hi2, Hv2. destruct stale.
  { apply rollback_Ok in Hr as (Hi' & evs & Hb' & Hin); [|done].
    split; [done|]. exists evs. split; [congruence|]. done. }
  apply go_bind_Ok in Hr as (fin & s4 & H4 & Hr).
  pose proof (frontier_last _ _ (StartBlock (monitor_cfg m)) Hbd Hlast) as [Hlt _].
  fold (sync_from m last) in Hlt. rewrite <-Hv2 in Hlt.
  apply sync_loop_Ok in H4 as (Hi4 & evs & Hb4 & Hf & Ht); [|done|done|done].
  assert (ms_bus s4 = ms_bus s ++ evs) as Hbus by congruence.
  destruct fin; [|go_inv; split; [done|]; exists evs; split; [done|]; intros Hn; exfalso; by apply Hn, Hf].
  destruct (Ht eq_refl) as [Hsub Hall]. rewrite Hv2, Hst1 in Hsub. clear Hf Ht.
  destruct (indexed_after_last _ _ _ _ Hbd Hlast Hall) as [Hnew1 Hnew2]. rewrite Hst1 in Hnew1, Hnew2.
  destruct (N.leb_spec C (bigint_Uint64 (Header_Number h))).
  - destruct (op_Ok _ _ _ _ _ (law_ConfirmThrough (view:=view) _) Hi4 Hr) as (Hi' & Heff & Hb').
    split; [done|]. exists evs. split; [congruence|]. intros _. simpl. rewrite Heff.
    repeat split; [done..|]. intros st Hst Hd. eapply confirm_covers_deep; eauto. lia.
  - go_inv. split; [done|]. exists evs. split; [done|]. intros _. simpl.
    repeat split; [done..|]. intros st _ ?. lia.
Qed.
End runs.

(** ** Statements *)
Section claims.
Context `{Geth}.

Lemma backend_returns_any {W} (B : ChainBackend W) : backend_returns B True.
Proof. split; by right. Qed.

(** C2: at whatever point [Run] is stopped, whatever the node answered to
    each call and however calls to the store failed, the index is a gap-free
    run of blocks each linked to the one below by its parent hash, and no
    transfer is marked confirmed unless it lies [Confirmations] blocks below
    a head the node reported. *)
Theorem run_keeps_index_sound {St W} (S : Store St) (B : ChainBackend W) m view inv
    `{!StoreLaws view inv S} top fuel s :
  heads_below B top → (top < two64 - 1)%N →
  holds view inv (sync_inv m top) s → holds view inv (sync_inv m top) (Run S B m fuel s).2.
Proof.
  intros Hh Ht Hs. eapply (triple_any True); [|exact Hs].
  by apply (triple_Run S B m True view inv (backend_returns_any B)).
Qed.

(** C21: [Sync] always returns (nil or an error) when the node answers its
    calls: the indexing loop runs out of blocks, provided the head stays
    below the largest [uint64]. *)
Theorem sync_returns {St W} (S : Store St) (B : ChainBackend W) m view inv
    `{!StoreLaws view inv S} top s :
  backend_returns B False → heads_below B top → (top < two64 - 1)%N →
  holds view inv (sync_inv m top) s → returns (Sync S B m s).1.
Proof.
  intros HB Hh Ht Hs. eapply (triple_returns False); [done| |exact Hs].
  by apply (triple_Sync S B m False view inv HB).
Qed.
End claims.

(** The invariant on the production configuration, from an empty database. *)
Lemma postgres_run_inv `{GethLaws} {W} (B : ChainBackend W) m top fuel faults w :
  heads_below B top → (top < two64 - 1)%N →
  holds pg_view pg_inv (sync_inv m top)
    (Run PostgresStore_store B m fuel (mkMstate (pg_empty faults) w [])).2.
Proof.
  intros Hh Ht.
  eapply (triple_any True); [by apply (triple_Run _ _ _ True pg_view pg_inv (backend_returns_any B))|].
  split; [split|split]; simpl.
  - intros n [? Hn]. by rewrite lookup_empty in Hn.
  - intros ? Hin. inversion Hin.
  - exact chain_inv_empty.
  - intros ? Hin. inversion Hin.
Qed.

(** C8: the production configuration, from an empty database: whatever the
    node answers and whatever faults the Postgres connection has, every row of
    [transfers] with [confirmed = TRUE] refers to a block at least
    [Confirmations] below the highest head reported. *)
Theorem postgres_confirms_only_deep `{GethLaws} {W} (B : ChainBackend W) m top fuel faults w r :
  heads_below B top → (top < two64 - 1)%N →
  r ∈ t_transfers (pg_tables (ms_store
        (Run PostgresStore_store B m fuel (mkMstate (pg_empty faults) w [])).2)) →
  row_confirmed r = true → (row_block_number r + Confirmations (monitor_cfg m) ≤ top)%N.
Proof.
  intros Hh Ht Hr Hc. destruct (postgres_run_inv B m top fuel faults w Hh Ht) as [_ [_ Hcb]].
  apply (Hcb (view_row r)); [|done]. by apply list_elem_of_fmap_2.
Qed.

(** ** Witnesses *)
Section witnesses.
Import Toy.

Definition ex_decoder : transferDecoder := mkDecoder erc20TransferABI 221%N.
Definition ex_monitor (c : N) : Monitor := mkMonitor ex_decoder (mkConfig c 12000000000 0 []).
Definition ex_transfer_of (n : N) : Transfer := mkTransfer 57005%N 1%N 2%N (Z.of_N n) (7000 + n)%N 0%N.
(** A six-block chain with one transfer per block. *)
Definition ex_chain : fakeChain :=
  mkFake (buildChain 5 0 6 Byte.x00 0%N)
    (list_to_map ((λ n, (n, [transfer_log ex_decoder (ex_transfer_of n)])) <$> [0;1;2;3;4;5]%N)) 5.

Definition ex_header0 : Header := mkHeader 0 0%N 0 [].

Lemma ex_heads_below : heads_below (fixedBackend ex_chain) 5.
Proof. intros w h w'. vm_compute. by intros [= <- _]. Qed.

Lemma ex_backend_returns : backend_returns (fixedBackend ex_chain) False.
Proof.
  split; intros; left; [|done|done]. simpl. by case_match.
Qed.

Definition ex_start : mstate MemStore unit := mkMstate NewMemStore tt [].

Lemma ex_start_inv c : holds mem_view (λ m, index_wf (mem_view m)) (sync_inv (ex_monitor c) 5) ex_start.
Proof.
  split; [split|split]; simpl.
  - intros ??. by rewrite lookup_empty.
  - intros ? Hin. inversion Hin.
  - exact chain_inv_empty.
  - intros ? Hin. inversion Hin.
Qed.

Lemma run_keeps_index_sound_witness :
  holds mem_view (λ m, index_wf (mem_view m)) (sync_inv (ex_monitor 2) 5)
    (Run MemStore_store (fixedBackend ex_chain) (ex_monitor 2) 3 ex_start).2.
Proof.
  apply run_keeps_index_sound; [exact _|exact ex_heads_below|reflexivity|apply ex_start_inv].
Defined.

Lemma sync_returns_witness :
  returns (Sync MemStore_store (fixedBackend ex_chain) (ex_monitor 2) ex_start).1.
Proof.
  apply (sync_returns MemStore_store (fixedBackend ex_chain) (ex_monitor 2) mem_view
           (λ m, index_wf (mem_view m)) 5);
    [exact ex_backend_returns|exact ex_heads_below|reflexivity|apply ex_start_inv].
Defined.

Definition ex_block3 : Block := mkBlock 3 0%N 0%N 0.
Definition ex_row3 : transfer_row := row_of ex_block3 true (ex_transfer_of 3).
Definition ex_pg_end : PostgresStore :=
  ms_store (Run PostgresStore_store (fixedBackend ex_chain) (ex_monitor 2) 1
              (mkMstate (pg_empty []) tt [])).2.

Lemma postgres_confirms_only_deep_witness :
  ex_row3 ∈ t_transfers (pg_tables ex_pg_end) ∧ (row_block_number ex_row3 + 2 ≤ 5)%N.
Proof.
  assert (ex_row3 ∈ t_transfers (pg_tables ex_pg_end)) as Hr.
  { vm_compute. do 3 right. left. }
  split; [exact Hr|].
  apply (postgres_confirms_only_deep (fixedBackend ex_chain) (ex_monitor 2) 5 1 [] tt ex_row3);
    [exact ex_heads_below|reflexivity|exact Hr|reflexivity].
Defined.

Lemma sync_nil_is_complete_witness :
  ∃ s', Sync MemStore_store (fixedBackend ex_chain) (ex_monitor 2) ex_start = (Ok tt, s') ∧
    is_Some (mem_blocks (ms_store s') !! 5%N) ∧
    ∀ st, st ∈ mem_transfers (ms_store s') → (stored_block st + 2 ≤ 5)%N → stored_confirmed st = true.
Proof.
  destruct (Sync MemStore_store (fixedBackend ex_chain) (ex_monitor 2) ex_start) as [r s'] eqn:Hr.
  assert (r = Ok tt) as -> by (by vm_compute in Hr; simplify_eq).
  exists s'. split; [done|].
  destruct (sync_nil_is_complete MemStore_store (fixedBackend ex_chain) (ex_monitor 2) mem_view
    (λ m, index_wf (mem_view m)) ex_start s'
    (default ex_header0 (fake_headers ex_chain !! 5%N)) tt) as (_ & evs & Hb & Hall);
    [apply (ex_start_inv 2)|exact (chain_bounded _ chain_inv_empty)|reflexivity|reflexivity|done|].
  assert (SubjectChainReorg ∉ evs.*1) as Hno.
  { simpl in Hb. rewrite <-Hb. apply (bool_decide_unpack (SubjectChainReorg ∉ (ms_bus s').*1)).
    vm_compute in Hr. simplify_eq. exact I. }
  destruct (Hall Hno) as (_ & Hnew & _ & Hconf). split; [|exact Hconf].
  apply Hnew; [vm_compute; split; discriminate|reflexivity].
Defined.

(** The tests of the source, run on the model: six blocks are indexed and
    the transfers of blocks 0 to 3 are confirmed at depth 2. *)
Example confirmation_gating_test :
  (λ st, (stored_block st, stored_confirmed st)) <$>
    mem_transfers (ms_store (Sync MemStore_store (fixedBackend ex_chain) (ex_monitor 2) ex_start).2) =
  [(0, true); (1, true); (2, true); (3, true); (4, false); (5, false)]%N.
Proof. vm_compute. reflexivity. Qed.
End witnesses.
