(* ===== verification/ChainSchema.v ===== *)
(** * The database schema of the chain monitor, kept by every run

    The declared types and constraints of the two tables
    (internal/chainmonitor/store_postgres.go, [const schema]): which values a
    column can hold, the unique transfer key and the foreign key; and that
    the whole monitor keeps them, whatever the node and the connection do. *)

From S2P Require Import Prelude Geth Erc20 ChainStore ChainStorePg Events Monitor MonitorSafety.

(** ** Runs keep what the store operations keep *)

(** Every operation of a store keeps [J], whatever its outcome. *)
Class StoreKeeps `{Geth} {St} (J : St → Prop) (S : Store St) : Prop := {
  keeps_SaveBlock : ∀ b ts c, triple True J (SaveBlock S b ts c) (λ _, J) J;
  keeps_LastBlock : triple True J (LastBlock S) (λ _, J) J;
  keeps_BlockByNumber : ∀ n, triple True J (BlockByNumber S n) (λ _, J) J;
  keeps_DeleteFrom : ∀ n, triple True J (DeleteFrom S n) (λ _, J) J;
  keeps_ConfirmThrough : ∀ n, triple True J (ConfirmThrough S n) (λ _, J) J;
}.

Section frame.
Context `{Geth} {St W : Type} (S : Store St) (B : ChainBackend W) (m : Monitor).
Context (J : St → Prop) {HJ : StoreKeeps J S}.

Abbreviation kept c := (triple True (λ s : mstate St W, J (ms_store s)) c (λ _ s, J (ms_store s)) (λ s, J (ms_store s))).

Lemma kept_store {A} (c : go St A) : triple True J c (λ _, J) J → kept (on_store c).
Proof. intros Hc s Hs. specialize (Hc _ Hs). unfold on_store, go_zoom. by destruct (c (ms_store s)) as [[] st]. Qed.

Lemma kept_world {A} (c : go W A) : kept (on_world c).
Proof. intros s Hs. unfold on_world, go_zoom. by destruct (c (ms_world s)) as [[] w]. Qed.

Lemma kept_publish subj data : kept (publish subj data).
Proof. intros s Hs. exact Hs. Qed.

Lemma kept_ret {A} (a : A) : kept (go_ret a).
Proof. by apply triple_ret. Qed.

Lemma kept_bind {A C} (c : go (mstate St W) A) (k : A → go (mstate St W) C) :
  kept c → (∀ a, kept (k a)) → kept (go_bind c k).
Proof. intros Hc Hk. by eapply triple_bind. Qed.

Lemma kept_try {A} (c : go (mstate St W) A) : kept c → kept (go_try c).
Proof. intros Hc. apply triple_try. eapply triple_conseq; [exact Hc|auto..]. Qed.

(** Along the code of the monitor. *)
Ltac kept_step :=
  lazymatch goal with
  | |- triple _ _ (go_bind _ _) _ _ => apply kept_bind; [|intros ?]
  | |- triple _ _ (go_ret _) _ _ => apply kept_ret
  | |- triple _ _ (on_world _) _ _ => apply kept_world
  | |- triple _ _ (on_store _) _ _ => apply kept_store; apply HJ
  | |- triple _ _ (publish _ _) _ _ => apply kept_publish
  | |- triple _ _ (go_for _ _) _ _ => apply triple_for; intros ? _; apply kept_publish
  | |- triple _ _ (if ?b then _ else _) _ _ => destruct b
  | |- triple _ _ (match ?x with _ => _ end) _ _ => destruct x
  end.

Lemma kept_sync_loop fuel headNum n : kept (sync_loop S B m fuel headNum n).
Proof.
  revert n. induction fuel as [|fuel IH]; intros n; [by intros s Hs|]. cbn [sync_loop].
  unfold parent_mismatch, rollback, fetchTransfers, publishBlock. repeat kept_step. apply IH.
Qed.

Lemma kept_Sync : kept (Sync S B m).
Proof.
  unfold Sync, tip_stale, rollback. repeat (kept_step || apply kept_sync_loop).
Qed.

Lemma kept_Run fuel : kept (Run S B m fuel).
Proof.
  induction fuel as [|fuel IH]; [by intros s Hs|]. cbn [Run].
  apply kept_bind; [apply kept_try, kept_Sync|intros _].
  apply kept_bind; [apply kept_try, kept_world|intros [?|?]]; [apply kept_ret|exact IH].
Qed.
End frame.

(** ** The declared types *)
Section schema.
Context `{Geth}.

Definition is_hash_text (s : string) : Prop := ∃ h : Hash, s = Hash_Hex h.
Definition is_address_text (s : string) : Prop := ∃ a : Address, s = Address_Hex a.

(** A row of [blocks] and of [transfers], column by column. *)
Record block_typed (n : N) (r : block_row) : Prop := {
  bt_number : (n ≤ bigint_max)%N;
  bt_hash : is_hash_text (row_hash r);
  bt_parent : is_hash_text (row_parent_hash r);
  bt_time : (row_block_time r ≤ bigint_max)%N;
}.
Record transfer_typed (r : transfer_row) : Prop := {
  tt_token : is_address_text (row_token r);
  tt_from : is_address_text (row_from_addr r);
  tt_to : is_address_text (row_to_addr r);
  tt_tx : is_hash_text (row_tx_hash r);
  tt_index : (row_log_index r ≤ bigint_max)%N;
}.

Definition row_key (r : transfer_row) : string * N := (row_tx_hash r, row_log_index r).

Record schema_ok (t : tables) : Prop := {
  so_blocks : map_Forall block_typed (t_blocks t);
  so_transfers : Forall transfer_typed (t_transfers t);
  so_foreign : Forall (λ r, is_Some (t_blocks t !! row_block_number r)) (t_transfers t);
  so_unique : NoDup (row_key <$> t_transfers t);
}.

Lemma schema_ok_empty : schema_ok (mkTables ∅ []).
Proof. split; cbn; [apply map_Forall_empty|constructor..]. Qed.

Lemma fits_le n : fits_bigint n = true → (n ≤ bigint_max)%N.
Proof. apply N.leb_le. Qed.

(** *** The statements *)

Lemma schema_upsert b t t' :
  fits_bigint (Block_Number b) = true → fits_bigint (Block_Time b) = true →
  schema_ok t → sql_upsert_block b t = inr t' → schema_ok t'.
Proof.
  intros Hn%fits_le Ht%fits_le [Hb Htr Hf Hu] [= <-]. split; cbn; [|done| |done].
  - apply map_Forall_insert_2; [|done]. split; cbn; [done|by eexists..|done].
  - eapply Forall_impl; [exact Hf|]. cbn. intros r [br Hr].
    destruct (decide (Block_Number b = row_block_number r)) as [->|Hne].
    + rewrite lookup_insert_eq. by eexists.
    + rewrite lookup_insert_ne by done. by eexists.
Qed.

Lemma no_conflict_fresh r l : existsb (row_conflicts r) l = false → row_key r ∉ row_key <$> l.
Proof.
  intros He (r' & Hk & Hr')%list_elem_of_fmap. injection Hk as Hh Hi.
  assert (existsb (row_conflicts r) l = true) as Ht; [|congruence].
  apply existsb_exists. exists r'. split; [by apply list_elem_of_In|].
  unfold row_conflicts. rewrite bool_decide_eq_true_2 by done. by apply N.eqb_eq.
Qed.

Lemma schema_insert b c tr t t' :
  fits_bigint (Transfer_LogIndex tr) = true →
  schema_ok t → sql_insert_transfer (row_of b c tr) t = inr t' → schema_ok t'.
Proof.
  intros Hi%fits_le [Hb Htr Hf Hu]. unfold sql_insert_transfer.
  destruct (existsb _ _) eqn:He; [by intros [= <-]|].
  destruct (t_blocks t !! _) eqn:Hl; [intros [= <-]|done]. split; cbn [t_blocks t_transfers]; [done|..].
  - apply Forall_app. split; [done|]. constructor; [|done]. split; cbn; [by eexists..|done].
  - apply Forall_app. split; [done|]. constructor; [by eexists|done].
  - rewrite fmap_app. apply NoDup_app. split; [done|]. split; [|apply NoDup_singleton].
    intros k Hk ->%list_elem_of_singleton. by apply (no_conflict_fresh _ _ He).
Qed.

Lemma schema_delete n t : schema_ok t → schema_ok (sql_delete_from n t).
Proof.
  intros [Hb Htr Hf Hu]. split; cbn.
  - intros k r [Hr _]%map_lookup_filter_Some. by apply Hb.
  - apply Forall_forall. intros r [_ Hr]%list_elem_of_filter. by eapply Forall_forall in Htr.
  - apply Forall_forall. by intros r [Hr _]%list_elem_of_filter.
  - eapply sublist_NoDup; [exact Hu|]. apply sublist_fmap, sublist_filter.
Qed.

Lemma schema_confirm n t : schema_ok t → schema_ok (mkTables (t_blocks t) (sql_confirm_row n <$> t_transfers t)).
Proof.
  assert (∀ r, row_key (sql_confirm_row n r) = row_key r ∧ (transfer_typed r → transfer_typed (sql_confirm_row n r))) as Hc.
  { intros r. unfold sql_confirm_row. destruct (_ && _); [|done]. split; [done|]. by intros []. }
  intros [Hb Htr Hf Hu]. split; cbn; [done|..].
  - apply Forall_fmap. eapply Forall_impl; [exact Htr|]. intros r. apply Hc.
  - apply Forall_fmap. eapply Forall_impl; [exact Hf|]. intros r. cbn. by rewrite row_block_number_confirm.
  - rewrite <-list_fmap_compose. erewrite list_fmap_ext; [exact Hu|]. intros _ r _. cbn. apply Hc.
Qed.

(** *** The operations *)
Abbreviation P := (λ s : PostgresStore, schema_ok (pg_tables s)).

Lemma kept_Exec args stmt : (∀ t, schema_ok t → schema_ok (stmt t)) → triple True P (pool_Exec args stmt) (λ _, P) P.
Proof.
  intros Hs s Hi. unfold pool_Exec. destruct (forallb _ _); [|done]. unfold go_bind, pg_next.
  destruct s as [t [|[] fs]]; cbn in *; auto.
Qed.

Lemma kept_QueryRow {A} args (query : tables → A) :
  triple True P (pool_QueryRow args query) (λ a s, P s ∧ a = query (pg_tables s)) P.
Proof.
  intros s Hi. unfold pool_QueryRow. destruct (forallb _ _); [|done]. unfold go_bind, pg_next.
  destruct s as [t [|[] fs]]; cbn in *; auto.
Qed.

Lemma kept_tx_Exec args stmt tx msg :
  (∀ tx', forallb fits_bigint args = true → stmt tx = inr tx' → schema_ok tx') →
  triple True P (wrap_err msg (tx_Exec args stmt tx)) (λ tx' s, P s ∧ schema_ok tx') P.
Proof.
  intros Hs s Hi. unfold wrap_err, tx_Exec. destruct (forallb _ _); [|done]. unfold go_bind, pg_next.
  destruct s as [t [|[] fs]]; cbn in *; destruct (stmt tx) eqn:E; cbn; auto.
Qed.

Lemma kept_inserts b c ts tx :
  schema_ok tx → triple True P (tx_insert_transfers b c ts tx) (λ tx' s, P s ∧ schema_ok tx') P.
Proof.
  revert tx. induction ts as [|t ts IH]; intros tx Htx; cbn [tx_insert_transfers]; [by apply triple_ret|].
  eapply triple_bind.
  - apply kept_tx_Exec. cbn. rewrite andb_true_r. intros tx' [_ Hf]%andb_prop Hst. by eapply schema_insert.
  - intros tx' s [Hs Htx']. by apply IH.
Qed.

#[export] Instance PostgresStore_keeps_schema : StoreKeeps P PostgresStore_store.
Proof.
  split; cbn [SaveBlock LastBlock BlockByNumber DeleteFrom ConfirmThrough PostgresStore_store].
  - intros b ts c. unfold PostgresStore_SaveBlock. eapply triple_bind; [apply kept_QueryRow|].
    intros tx s [Hs ->].
    refine (triple_bind _ _ _ (λ s', P s') (λ tx' s', P s' ∧ schema_ok tx') (λ _ s', P s') (λ s', P s') _ _ s Hs).
    + apply kept_tx_Exec. cbn. rewrite andb_true_r. intros tx' [Hn Ht]%andb_prop Hst. by eapply schema_upsert.
    + intros tx1 s1 [Hs1 Htx1]. revert s1 Hs1. eapply triple_bind; [by apply kept_inserts|].
      intros tx2 s2 [Hs2 Htx2]. by apply (kept_Exec [] (λ _, tx2)).
  - unfold PostgresStore_LastBlock. eapply triple_bind; [apply kept_QueryRow|].
    intros [[n r]|] s [Hs _]; done.
  - intros n. unfold PostgresStore_BlockByNumber. eapply triple_bind; [apply kept_QueryRow|].
    intros [r|] s [Hs _]; done.
  - intros n. apply kept_Exec. apply schema_delete.
  - intros n. apply kept_Exec. apply schema_confirm.
Qed.
End schema.

(** The event a row stands for: the transaction and the log in it. *)
Definition row_event `{Geth} (r : transfer_row) : Hash * N := (HexToHash (row_tx_hash r), row_log_index r).

Lemma unique_events `{GethLaws} t : schema_ok t → NoDup (row_event <$> t_transfers t).
Proof.
  intros [_ Ht _ Hu]. revert Ht Hu. induction (t_transfers t) as [|r l IH]; intros Ht Hu; [constructor|].
  apply Forall_cons in Ht as [Hr Ht]. apply NoDup_cons in Hu as [Hn Hu].
  apply NoDup_cons. split; [|by apply IH]. intros (r' & He & Hr')%list_elem_of_fmap. apply Hn.
  apply list_elem_of_fmap. exists r'. split; [|done]. injection He as Hh Hi.
  rewrite Forall_forall in Ht. destruct (tt_tx r Hr) as [h E], (tt_tx r' (Ht r' Hr')) as [h' E'].
  unfold row_key. rewrite E, E', !HexToHash_Hex in *. by rewrite Hh, Hi.
Qed.

(** C13: The database stays within its declared schema: from tables that
    satisfy it, whatever the node answers and whatever faults the connection
    has, after any number of ticks every column of every row holds a value of
    its declared type (numbers fit BIGINT, hash and address columns hold the
    text of a hash or an address), every transfer refers to a stored block,
    the (tx_hash, log_index) keys are unique, and so no on-chain event is
    recorded twice. *)
Theorem run_keeps_schema `{GethLaws} {W} (B : ChainBackend W) m fuel (s : mstate PostgresStore W) :
  schema_ok (pg_tables (ms_store s)) →
  let t := pg_tables (ms_store (Run PostgresStore_store B m fuel s).2) in
  schema_ok t ∧ NoDup (row_event <$> t_transfers t).
Proof.
  intros Hs t. assert (schema_ok t) as Ht; [|split; [done|by apply unique_events]].
  pose proof (kept_Run PostgresStore_store B m (λ s, schema_ok (pg_tables s)) fuel) as Hk.
  exact (triple_any True _ _ _ s Hk Hs).
Qed.

(** ** Witness *)
Section witnesses.
Import Toy.

(** The replies to a commit are lost twice, and one statement is refused. *)
Definition ex_faults : list fault :=
  [NoFault; NoFault; NoFault; NoFault; ReplyLost (ErrorString "EOF"); NoFault; NoFault;
   Refused (ErrorString "too many connections")].
Definition ex_pg_start : mstate PostgresStore unit := mkMstate (pg_empty ex_faults) tt [].

Lemma run_keeps_schema_witness :
  let t := pg_tables (ms_store (Run PostgresStore_store (fixedBackend ex_chain) (ex_monitor 2) 4 ex_pg_start).2) in
  schema_ok t ∧ length (t_transfers t) = 6%nat.
Proof.
  intros t. split; [|vm_compute; reflexivity].
  exact (proj1 (run_keeps_schema (fixedBackend ex_chain) (ex_monitor 2) 4 ex_pg_start schema_ok_empty)).
Defined.
End witnesses.
