(* ===== verification/MonitorReorg.v ===== *)
(** * Convergence of the chain monitor after a reorg

    When the node serves one consistent chain and the store does not fail,
    every [Sync] either rolls back one stale block or indexes everything up to
    the head; so a bounded number of calls brings the whole index onto the
    canonical chain, and further calls leave it alone. *)

From S2P Require Import Prelude Geth Erc20 ChainStore Events Monitor MonitorSafety.
#[local] Open Scope u64_scope.

Section stable.
Context `{Geth} {St W : Type} (S : Store St) (B : ChainBackend W) (m : Monitor).
Context (view : St → Index) (inv : St → Prop) {HL : StoreLaws view inv S}.
Context (storable : N → Prop) (live : St → Prop) {HT : StoreTotal inv S storable live}.
(** The canonical chain: its headers, their logs and the head. *)
Context (canon : N → Header) (logs : N → list Log) (top : N).
#[local] Abbreviation C := (Confirmations (monitor_cfg m)).
Implicit Types (s : mstate St W).

Record stable : Prop := {
  stable_head : ∀ w, ∃ h w', HeaderByNumber B None w = (Ok h, w') ∧
    bigint_Uint64 (Header_Number h) = top;
  stable_header : ∀ n w, (n ≤ top)%N → ∃ w', HeaderByNumber B (Some n) w = (Ok (canon n), w');
  stable_logs : ∀ n w, (n ≤ top)%N →
    ∃ w', FilterLogs B (mkQuery n n (Tokens (monitor_cfg m)) [[decoder_TopicID (monitor_decoder m)]]) w
          = (Ok (logs n), w');
  stable_ctx : ∀ w, ∃ w', ctx_Err B w = (Ok tt, w');
  canon_linked : ∀ n, (n < top)%N → Header_ParentHash (canon (n + 1)) = Header_Hash (canon n);
  top_bound : (top < two64 - 1)%N;
  storable_number : ∀ n, (n ≤ top)%N → storable n;
  storable_time : ∀ n, (n ≤ top)%N → storable (Header_Time (canon n));
  storable_logs : ∀ n, (n ≤ top)%N →
    Forall (λ t, storable (Transfer_LogIndex t)) (decode_all m (logs n));
}.
Context (HS : stable).

Definition blocks s : gmap N Block := ix_blocks (view (ms_store s)).
Definition rows s : list storedTransfer := ix_transfers (view (ms_store s)).

(** What every call below keeps. *)
Definition good s : Prop :=
  inv (ms_store s) ∧ live (ms_store s) ∧ chain_inv (blocks s) ∧
  ∀ k, is_Some (blocks s !! k) → (k ≤ top)%N.

(** ** Calls that succeed *)

Lemma world_run {A} (c : go W A) a s :
  (∀ w, ∃ w', c w = (Ok a, w')) →
  ∃ s', on_world c s = (Ok a, s') ∧ ms_store s' = ms_store s ∧ ms_bus s' = ms_bus s.
Proof.
  intros Hc. destruct (Hc (ms_world s)) as [w' Hw]. eexists. unfold on_world, go_zoom. by rewrite Hw.
Qed.

Lemma op_run c effect s :
  op_spec view inv c effect → inv (ms_store s) →
  (∃ st', c (ms_store s) = (Ok tt, st') ∧ live st') →
  ∃ s', on_store c s = (Ok tt, s') ∧ inv (ms_store s') ∧ live (ms_store s') ∧
    effect (view (ms_store s)) (view (ms_store s')) ∧ ms_bus s' = ms_bus s.
Proof.
  intros Hop Hi (st' & Hc & Hl). specialize (Hop _ Hi). rewrite Hc in Hop.
  eexists. unfold on_store, go_zoom. rewrite Hc. simpl. split; [done|]. naive_solver.
Qed.

Lemma read_run {A} (c : go St A) post s :
  read_spec view inv c post → inv (ms_store s) →
  (∃ a st', c (ms_store s) = (Ok a, st') ∧ live st') →
  ∃ a s', on_store c s = (Ok a, s') ∧ inv (ms_store s') ∧ live (ms_store s') ∧
    view (ms_store s') = view (ms_store s) ∧ post (view (ms_store s)) a ∧ ms_bus s' = ms_bus s.
Proof.
  intros Hop Hi (a & st' & Hc & Hl). specialize (Hop _ Hi). rewrite Hc in Hop.
  eexists a, _. unfold on_store, go_zoom. rewrite Hc. simpl. split; [done|]. naive_solver.
Qed.

Lemma publish_transfers_run ts n c s :
  go_for ts (λ t, publishTransfer t n c) s =
  (Ok tt, mkMstate (ms_store s) (ms_world s)
            (ms_bus s ++ ((λ t, transfer_event t n c) <$> ts))).
Proof.
  revert s. induction ts as [|t ts IH]; intros s; simpl.
  - rewrite app_nil_r. by destruct s.
  - unfold go_bind, publishTransfer, publish, go_modify. rewrite IH. simpl.
    by rewrite <-app_assoc.
Qed.

(** ** The loop indexes the canonical chain *)

(** The publications made for canonical block [n]. *)
Definition canon_events (n : N) : list publication :=
  let ts := decode_all m (logs n) in
  let c := (C <=? top -64 n)%N in
  block_event (block_of n (canon n)) (length ts) c :: ((λ t, transfer_event t n c) <$> ts).

(** The rows stored for canonical block [n]. *)
Definition canon_rows (n : N) : list storedTransfer :=
  new_rows (block_of n (canon n)) (decode_all m (logs n)) (C <=? top -64 n)%N.

Definition extended (n : N) (bs bs' : gmap N Block) : Prop :=
  ∀ k, bs' !! k = if (n <=? k)%N && (k <=? top)%N then Some (block_of k (canon k)) else bs !! k.

Lemma parent_matches n s :
  inv (ms_store s) → live (ms_store s) → (n ≤ top)%N →
  (∀ p, (0 < n)%N → blocks s !! (n - 1)%N = Some p → Block_Hash p = Header_ParentHash (canon n)) →
  ∃ s', parent_mismatch S n (canon n) s = (Ok false, s') ∧ inv (ms_store s') ∧ live (ms_store s') ∧
    view (ms_store s') = view (ms_store s) ∧ ms_bus s' = ms_bus s.
Proof.
  intros Hi Hl Hn Hp. unfold parent_mismatch. pose proof (top_bound HS) as Hb.
  destruct (N.ltb_spec 0 n); [|eexists; done]. rewrite u64_sub_small by lia.
  destruct (read_run (BlockByNumber S (n - 1)) _ s (law_BlockByNumber (view:=view) (n - 1) ltac:(lia)) Hi)
    as (o & s' & Hr & Hi' & Hl' & Hv & -> & Hbus).
  { apply (total_BlockByNumber (live:=live)); [done..|]. apply (storable_number HS). lia. }
  exists s'. rewrite (go_bind_run _ _ _ _ _ Hr). split; [|done]. unfold go_ret. do 2 f_equal.
  destruct (ix_blocks _ !! (n - 1)%N) as [p|] eqn:Hlk; [|done].
  apply negb_false_iff, bool_decide_eq_true. by apply Hp.
Qed.

(** One iteration: block [n] is saved and announced. *)
Lemma iteration_run fuel n s :
  inv (ms_store s) → live (ms_store s) → (n ≤ top)%N →
  (∀ p, (0 < n)%N → blocks s !! (n - 1)%N = Some p → Block_Hash p = Header_ParentHash (canon n)) →
  ∃ s', sync_loop S B m (Datatypes.S fuel) top n s = sync_loop S B m fuel top (n + 1) s' ∧
    inv (ms_store s') ∧ live (ms_store s') ∧
    blocks s' = <[n := block_of n (canon n)]> (blocks s) ∧
    (fresh_keys (decode_all m (logs n)) (view (ms_store s)) → rows s' = rows s ++ canon_rows n) ∧
    ms_bus s' = ms_bus s ++ canon_events n.
Proof.
  intros Hi Hl Hn Hp. pose proof (top_bound HS) as Htb.
  cbn [sync_loop]. destruct (N.leb_spec n top) as [Hle|Hgt]; [|lia].
  destruct (world_run (ctx_Err B) tt s (stable_ctx HS)) as (s1 & H1 & Hst1 & Hb1).
  rewrite (go_bind_run _ _ _ _ _ H1).
  destruct (world_run (HeaderByNumber B (Some n)) (canon n) s1 (λ w, stable_header HS n w Hn))
    as (s2 & H2 & Hst2 & Hb2).
  rewrite (go_bind_run _ _ _ _ _ H2). rewrite Hst1 in Hst2. unfold blocks, rows in *.
  rewrite <-Hst2 in Hi, Hl, Hp.
  destruct (parent_matches n s2 Hi Hl Hn Hp) as (s3 & H3 & Hi3 & Hl3 & Hv3 & Hb3).
  rewrite (go_bind_run _ _ _ _ _ H3). unfold fetchTransfers.
  destruct (world_run (FilterLogs B (mkQuery n n (Tokens (monitor_cfg m))
    [[decoder_TopicID (monitor_decoder m)]])) (logs n) s3) as (s4 & H4 & Hst4 & Hb4).
  { intros w. by apply (stable_logs HS). }
  rewrite (go_bind_run _ _ s3 (decode_all m (logs n)) s4) by by rewrite (go_bind_run _ _ _ _ _ H4).
  rewrite <-Hst4 in Hi3, Hl3, Hv3.
  destruct (op_run (SaveBlock S (block_of n (canon n)) (decode_all m (logs n)) (C <=? top -64 n)%N) _ s4
    (law_SaveBlock (view:=view) _ _ _) Hi3) as (s5 & H5 & Hi5 & Hl5 & (Hblk & added & Hrows & _ & Hadd) & Hb5).
  { apply (total_SaveBlock (live:=live)); [done|done| | |].
    - by apply (storable_number HS).
    - by apply (storable_time HS).
    - by apply (storable_logs HS). }
  rewrite (go_bind_run _ _ _ _ _ H5). unfold publishBlock, publish, go_modify.
  unfold go_bind at 1. rewrite (go_bind_run _ _ _ _ _ (publish_transfers_run _ _ _ _)).
  rewrite u64_succ_bound by lia. eexists. split; [done|]. simpl. split; [done|]. split; [done|]. split.
  - rewrite Hblk, Hv3, Hst2. done.
  - split; [|unfold canon_events; rewrite Hb5, Hb4, Hb3, Hb2, Hb1, <-app_assoc; done].
    rewrite Hv3, Hst2 in Hrows, Hadd. intros Hfresh. by rewrite Hrows, Hadd.
Qed.

Lemma extended_step n bs :
  (n ≤ top)%N → ∀ bs', extended (n + 1) (<[n := block_of n (canon n)]> bs) bs' → extended n bs bs'.
Proof.
  intros Hn bs' Hext k. rewrite Hext, lookup_insert.
  destruct (N.leb_spec (n + 1) k), (N.leb_spec n k), (N.leb_spec k top); simpl; try case_decide; subst; done || lia.
Qed.

(** Numbers [n], [n+1], ..., as long as the loop runs. *)
Definition numbers (n : N) : list N := (λ i, n + N.of_nat i)%N <$> seq 0 (N.to_nat (top + 1 - n)).

Lemma numbers_cons n : (n ≤ top)%N → numbers n = n :: numbers (n + 1).
Proof.
  intros Hn. unfold numbers. replace (N.to_nat (top + 1 - n)) with (Datatypes.S (N.to_nat (top + 1 - (n + 1)))) by lia.
  simpl. f_equal; [lia|]. rewrite <-fmap_S_seq, <-list_fmap_compose. apply list_fmap_ext.
  intros i x _. simpl. lia.
Qed.

Lemma numbers_nil n : (top < n)%N → numbers n = [].
Proof. intros Hn. unfold numbers. by replace (N.to_nat (top + 1 - n)) with 0 by lia. Qed.

Lemma elem_of_numbers n k : k ∈ numbers n ↔ (n ≤ k ≤ top)%N.
Proof.
  unfold numbers. rewrite list_elem_of_fmap. split.
  - intros (i & -> & Hi). apply elem_of_seq in Hi. lia.
  - intros Hk. exists (N.to_nat (k - n)). rewrite elem_of_seq. lia.
Qed.

Lemma NoDup_numbers n : NoDup (numbers n).
Proof. apply NoDup_fmap_2; [intros i j; lia|apply NoDup_seq]. Qed.

(** The transfers of the canonical blocks from [n] on. *)
Definition canon_transfers (n : N) : list Transfer := numbers n ≫= λ k, decode_all m (logs k).

Lemma fresh_keys_app ts1 ts2 ix :
  fresh_keys (ts1 ++ ts2) ix →
  fresh_keys ts1 ix ∧
  ∀ b c ix', ix_transfers ix' = ix_transfers ix ++ new_rows b ts1 c → fresh_keys ts2 ix'.
Proof.
  unfold fresh_keys. rewrite fmap_app, NoDup_app. intros [(H1 & Hd & H2) Hin]. split.
  - split; [done|]. intros t Ht. apply Hin, elem_of_app. by left.
  - intros b c ix' Heq. split; [done|]. intros t Ht. rewrite Heq, fmap_app, elem_of_app. intros [Ho|Ho].
    + apply (Hin t); [|done]. apply elem_of_app. by right.
    + unfold new_rows in Ho. rewrite <-list_fmap_compose in Ho. apply (Hd (transfer_key t)); [done|].
      by apply list_elem_of_fmap_2.
Qed.

Lemma loop_run fuel n s :
  N.to_nat (top + 1 - n) < fuel → inv (ms_store s) → live (ms_store s) →
  chain_inv (blocks s) → frontier n (blocks s) →
  (∀ p, (0 < n)%N → (n ≤ top)%N → blocks s !! (n - 1)%N = Some p → Block_Hash p = Header_ParentHash (canon n)) →
  ∃ s', sync_loop S B m fuel top n s = (Ok true, s') ∧ inv (ms_store s') ∧ live (ms_store s') ∧
    chain_inv (blocks s') ∧
    extended n (blocks s) (blocks s') ∧
    (fresh_keys (canon_transfers n) (view (ms_store s)) → rows s' = rows s ++ (numbers n ≫= canon_rows)) ∧
    ms_bus s' = ms_bus s ++ (numbers n ≫= canon_events).
Proof.
  revert n s. induction fuel as [|fuel IH]; intros n s Hfuel Hi Hl Hch Hfr Hp; [lia|].
  destruct (N.le_gt_cases n top) as [Hn|Hn].
  - destruct (iteration_run fuel n s Hi Hl Hn) as (s1 & -> & Hi1 & Hl1 & Hbs1 & Hr1 & Hb1); [auto|].
    pose proof (top_bound HS) as Htb.
    destruct (chain_inv_save n (canon n) (blocks s) Hch Hfr) as [Hch1 Hfr1]; [lia|auto|].
    rewrite <-Hbs1 in Hch1, Hfr1.
    destruct (IH (n + 1)%N s1) as (s' & Hr & Hi' & Hl' & Hch' & Hext & Hr' & Hb'); [lia|done..| |].
    + intros p _ Hn1. rewrite Hbs1. replace (n + 1 - 1)%N with n by lia. rewrite lookup_insert_eq.
      intros [= <-]. simpl. symmetry. apply (canon_linked HS). lia.
    + exists s'. rewrite Hbs1 in Hext.
      split; [done|]. do 3 (split; [done|]). split; [by apply extended_step|].
      unfold canon_transfers. rewrite Hb', Hb1, (numbers_cons n Hn), !bind_cons, <-app_assoc. split; [|done].
      intros [Hf1 Hf2]%fresh_keys_app. specialize (Hr1 Hf1).
      rewrite Hr', Hr1, <-app_assoc by (by eapply Hf2). done.
  - exists s. cbn [sync_loop]. destruct (N.leb_spec n top) as [Hle|Hgt]; [lia|].
    split; [done|]. do 3 (split; [done|]). split.
    + intros k. destruct (N.leb_spec n k), (N.leb_spec k top); simpl; done || lia.
    + rewrite numbers_nil by done. simpl. by rewrite !app_nil_r.
Qed.

(** ** One [Sync] *)

Definition canonical_at (b : Block) : Prop := Block_Hash b = Header_Hash (canon (Block_Number b)).

(** The common beginning of a [Sync]. *)
Lemma sync_begin s :
  good s → ∃ last s1, last_spec (blocks s) last ∧ good s1 ∧ view (ms_store s1) = view (ms_store s) ∧
    ms_bus s1 = ms_bus s ∧
    Sync S B m s =
      (if match last with Some l => negb (bool_decide (canonical_at l)) | None => false end
       then rollback S (default 0%N (Block_Number <$> last))
       else let! finished := sync_loop S B m (loop_fuel (sync_from m last) top) top (sync_from m last) in
            if (finished : bool) then
              if (C <=? top)%N then on_store (ConfirmThrough S (top -64 C)) else go_ret tt
            else go_ret tt) s1.
Proof.
  intros (Hi & Hl & Hch & Hle). unfold Sync.
  destruct (stable_head HS (ms_world s)) as (h & w' & Hw & Hnum).
  assert (on_world (HeaderByNumber B None) s = (Ok h, mkMstate (ms_store s) w' (ms_bus s))) as H1.
  { unfold on_world, go_zoom. by rewrite Hw. }
  rewrite (go_bind_run _ _ _ _ _ H1), Hnum. set (s0 := mkMstate _ _ _).
  destruct (read_run (LastBlock S) _ s0 (law_LastBlock (view:=view)) Hi)
    as (last & s2 & H2 & Hi2 & Hl2 & Hv2 & Hlast & Hb2).
  { by apply (total_LastBlock (live:=live)). }
  rewrite (go_bind_run _ _ _ _ _ H2). simpl in Hv2, Hlast, Hb2. exists last.
  assert (good s2) as Hg2 by (unfold good, blocks; rewrite Hv2; done).
  destruct last as [l|]; [|exists s2; done].
  assert (Block_Number l ≤ top)%N as Hlt by (apply Hle; by eexists; apply Hlast).
  destruct (world_run (HeaderByNumber B (Some (Block_Number l))) _ s2 (λ w, stable_header HS _ w Hlt))
    as (s3 & H3 & Hst3 & Hb3).
  exists s3. unfold good, blocks in *. rewrite Hst3, Hb3. do 4 (split; [done|]).
  unfold tip_stale. rewrite (go_bind_run _ _ _ (negb (bool_decide (canonical_at l))) s3); [done|].
  rewrite (go_bind_run _ _ _ _ _ H3). unfold go_ret, canonical_at. do 3 f_equal.
  by apply bool_decide_ext.
Qed.

Lemma sync_stale s l :
  good s → last_spec (blocks s) (Some l) → ¬ canonical_at l →
  ∃ s', Sync S B m s = (Ok tt, s') ∧ good s' ∧
    view (ms_store s') = index_delete (Block_Number l) (view (ms_store s)) ∧
    ms_bus s' = ms_bus s ++ [(SubjectChainReorg, JObj [("from_block", JNum (Z.of_N (Block_Number l)))])].
Proof.
  intros Hg Hlast Hnc. destruct (sync_begin s Hg) as (last & s1 & Hlast' & Hg1 & Hv1 & Hb1 & ->).
  rewrite (last_spec_unique _ _ _ Hlast' Hlast). rewrite bool_decide_false by done. simpl.
  destruct Hg1 as (Hi & Hl & Hch & Hle). destruct Hlast as [Hlk _].
  assert (Block_Number l ≤ top)%N as Hlt.
  { apply Hle. unfold blocks. rewrite Hv1. by eexists. }
  unfold rollback.
  destruct (op_run (DeleteFrom S (Block_Number l)) _ s1 (law_DeleteFrom (view:=view) _) Hi)
    as (s2 & H2 & Hi2 & Hl2 & Heff & Hb2).
  { apply (total_DeleteFrom (live:=live)); [done..|]. by apply (storable_number HS). }
  rewrite (go_bind_run _ _ _ _ _ H2). eexists. split; [done|]. simpl. split; [|split].
  - unfold good, blocks in *. simpl. rewrite Heff. do 2 (split; [done|]). split; [by apply chain_inv_delete|].
    intros k. rewrite lookup_index_delete. destruct (k <? _)%N; [apply Hle|by intros []].
  - congruence.
  - congruence.
Qed.

(** The rows after the final [ConfirmThrough]. *)
Definition confirm_rows (l : list storedTransfer) : list storedTransfer :=
  if (C <=? top)%N then confirm_row (top -64 C) <$> l else l.

Lemma sync_advance s last :
  good s → last_spec (blocks s) last → (∀ l, last = Some l → canonical_at l) →
  ∃ s', Sync S B m s = (Ok tt, s') ∧ good s' ∧
    extended (sync_from m last) (blocks s) (blocks s') ∧
    (fresh_keys (canon_transfers (sync_from m last)) (view (ms_store s)) →
       rows s' = confirm_rows (rows s ++ (numbers (sync_from m last) ≫= canon_rows))) ∧
    ms_bus s' = ms_bus s ++ (numbers (sync_from m last) ≫= canon_events).
Proof.
  intros Hg Hlast Hcan. destruct (sync_begin s Hg) as (last' & s1 & Hlast' & Hg1 & Hv1 & Hb1 & ->).
  rewrite (last_spec_unique _ _ _ Hlast' Hlast).
  assert (match last with Some l => negb (bool_decide (canonical_at l)) | None => false end = false) as ->.
  { destruct last as [l|]; [|done]. rewrite bool_decide_true by auto. done. }
  destruct Hg1 as (Hi & Hl & Hch & Hle). pose proof (top_bound HS) as Htb.
  assert (blocks s1 = blocks s) as Hbs by (unfold blocks; by rewrite Hv1).
  pose proof (frontier_last (blocks s1) last (StartBlock (monitor_cfg m)) (chain_bounded _ Hch)
                ltac:(by rewrite Hbs)) as Hfr. fold (sync_from m last) in Hfr.
  destruct (loop_run (loop_fuel (sync_from m last) top) (sync_from m last) s1)
    as (s2 & H2 & Hi2 & Hl2 & Hch2 & Hext & Hr2 & Hb2); [unfold loop_fuel; lia|done..| |].
  { intros p H0n Hn Hp. unfold sync_from in *. destruct last as [l|].
    - rewrite Hbs in Hp. destruct Hlast as [Hlk _].
      rewrite u64_succ_bound in Hp, Hn |- * by (apply (chain_bounded _ Hch); rewrite Hbs; by eexists).
      replace (Block_Number l + 1 - 1)%N with (Block_Number l) in Hp by lia.
      rewrite (canon_linked HS) by lia. assert (p = l) as -> by congruence. by apply Hcan.
    - rewrite Hbs in Hp. simpl in Hlast. by rewrite Hlast, lookup_empty in Hp. }
  rewrite (go_bind_run _ _ _ _ _ H2).
  assert (good s2) as Hg2.
  { do 3 (split; [done|]). intros k. rewrite Hext.
    destruct (_ && _) eqn:Hk; [|apply Hle]. apply andb_true_iff in Hk as [_ Hk]. by apply N.leb_le in Hk. }
  unfold confirm_rows, rows in *. rewrite Hbs in Hext. rewrite Hv1 in Hr2. rewrite <-Hb1.
  destruct (N.leb_spec C top).
  - destruct (op_run (ConfirmThrough S (top -64 C)) _ s2 (law_ConfirmThrough (view:=view) _) Hi2)
      as (s3 & H3 & Hi3 & Hl3 & Heff & Hb3).
    { apply (total_ConfirmThrough (live:=live)); [done..|]. apply (storable_number HS).
      rewrite u64_sub_small by lia. lia. }
    exists s3. unfold good, blocks in *. rewrite Heff, Hb3. split; [done|].
    destruct Hg2 as (_ & _ & Hg2). split; [tauto|]. split; [done|]. split; [|done].
    intros Hf. simpl. by rewrite Hr2.
  - exists s2. done.
Qed.

(** ** Convergence *)

Fixpoint Sync_n (k : nat) : go (mstate St W) unit :=
  match k with
  | O => go_ret tt
  | Datatypes.S k' => do! Sync S B m in Sync_n k'
  end.

(** The head of the canonical chain is indexed. *)
Definition synced s : Prop := good s ∧ ∃ b, blocks s !! top = Some b ∧ canonical_at b.

Lemma blocks_wf s n b : inv (ms_store s) → blocks s !! n = Some b → Block_Number b = n.
Proof. intros Hi. apply (law_wf (view:=view) _ Hi). Qed.

Lemma good_last s : good s → ∃ last, last_spec (blocks s) last.
Proof. intros Hg. destruct (sync_begin s Hg) as (last & ? & Hl & _). eauto. Qed.

Lemma synced_step s :
  synced s → ∃ s', Sync S B m s = (Ok tt, s') ∧ synced s' ∧ blocks s' = blocks s ∧
    ms_bus s' = ms_bus s ∧ rows s' = confirm_rows (rows s).
Proof.
  intros (Hg & b & Hb & Hc). pose proof (top_bound HS) as Htb.
  assert (Block_Number b = top) as Hnum by (by eapply blocks_wf; [apply Hg|]).
  assert (last_spec (blocks s) (Some b)) as Hlast.
  { split; [by rewrite Hnum|]. rewrite Hnum. apply Hg. }
  destruct (sync_advance s (Some b) Hg Hlast) as (s' & Hr & Hg' & Hext & Hrows & Hbus); [by intros ? [= <-]|].
  simpl in Hext, Hrows, Hbus. rewrite Hnum, u64_succ_bound in Hext, Hrows, Hbus by lia.
  unfold canon_transfers in Hrows. rewrite numbers_nil in Hrows, Hbus by lia. simpl in Hrows, Hbus.
  rewrite app_nil_r in Hrows, Hbus.
  assert (blocks s' = blocks s) as Heq.
  { apply map_eq. intros k. rewrite Hext. destruct (N.leb_spec (top + 1) k), (N.leb_spec k top); done || lia. }
  exists s'. split; [done|]. split; [split; [done|]; exists b; by rewrite Heq|]. split; [done|].
  split; [done|]. apply Hrows. split; [apply NoDup_nil_2|]. intros t Ht. inversion Ht.
Qed.

Lemma advance_synced s s' last :
  good s → (StartBlock (monitor_cfg m) ≤ top)%N → last_spec (blocks s) last →
  (∀ l, last = Some l → canonical_at l) → good s' →
  extended (sync_from m last) (blocks s) (blocks s') → synced s'.
Proof.
  intros Hg Hst Hlast Hcan Hg' Hext. split; [done|]. specialize (Hext top). rewrite N.leb_refl, andb_true_r in Hext.
  destruct (N.leb_spec (sync_from m last) top) as [Hle|Hgt].
  { rewrite Hext. eexists. done. }
  destruct last as [l|]; simpl in *; [|lia]. destruct Hlast as [Hl Hmax].
  destruct Hg as (_ & _ & Hch & Hle). rewrite u64_succ_bound in Hgt by (apply (chain_bounded _ Hch); by eexists).
  assert (Block_Number l ≤ top)%N by (apply Hle; by eexists).
  replace top with (Block_Number l) in Hext |- * by lia. rewrite Hext, Hl. eauto.
Qed.

Lemma stale_shrinks (bs : gmap N Block) n (bs' : gmap N Block) :
  is_Some (bs !! n) → (∀ k, bs' !! k = if (k <? n)%N then bs !! k else None) → size bs' < size bs.
Proof.
  intros [b Hb] Hlk. apply map_subset_size. split.
  - apply map_subseteq_spec. intros k x. rewrite Hlk. by destruct (k <? n)%N.
  - intros Hsub. eapply lookup_weaken in Hb; [|exact Hsub]. rewrite Hlk, N.ltb_irrefl in Hb. done.
Qed.

(** *** Hashes bind parents

    Nobody has a header with the hash of a canonical one and another parent. *)
Definition hash_binds : Prop := ∀ n h, (n ≤ top)%N →
  Header_Hash h = Header_Hash (canon n) → Header_ParentHash h = Header_ParentHash (canon n).

(** Below a canonical block everything is canonical, as the index is linked. *)
Lemma below_canonical s l n b :
  hash_binds → good s → last_spec (blocks s) (Some l) → canonical_at l →
  blocks s !! n = Some b → canonical_at b.
Proof.
  intros Hinj (Hi & _ & [Hlk Hct _ Hfh] & Hle) [Ht Hmax] Htc Hn.
  remember (N.to_nat (Block_Number l - n)) as d eqn:Hd. revert n b Hd Hn.
  induction d as [|d IH]; intros n b Hd Hn; assert (n ≤ Block_Number l)%N by (apply Hmax; by eexists).
  - replace n with (Block_Number l) in Hn by lia. by simplify_eq.
  - destruct (Hct n (n + 1)%N (Block_Number l)) as [b' Hb']; [by eexists|by eexists|lia|lia|].
    assert (n + 1 ≤ top)%N by (apply Hle; by eexists).
    assert (canonical_at b') as Hc' by (apply (IH (n + 1)%N); [lia|done]).
    unfold canonical_at in *. rewrite (blocks_wf _ _ _ Hi Hb') in Hc'. rewrite (blocks_wf _ _ _ Hi Hn).
    destruct (Hfh _ _ Hb') as (h & Hh1 & Hh2).
    rewrite <-(Hlk n b b' Hn Hb'), Hh2, (Hinj (n + 1)%N h) by (done || congruence).
    apply (canon_linked HS). lia.
Qed.

Lemma synced_canonical s n b :
  hash_binds → synced s → blocks s !! n = Some b → canonical_at b.
Proof.
  intros Hinj (Hg & t & Ht & Htc). assert (Block_Number t = top) as Hnum by (by eapply blocks_wf; [apply Hg|]).
  apply (below_canonical s t n b Hinj Hg); [|done]. split; rewrite Hnum; [done|apply Hg].
Qed.

(** *** Transfers

    A transfer of the canonical chain is identified by its transaction and
    log index, as the logs of a block have distinct indices and a transaction
    is in one block. *)
Definition distinct_keys : Prop :=
  (∀ n, (n ≤ top)%N → NoDup (transfer_key <$> decode_all m (logs n))) ∧
  (∀ n n' t t', (n ≤ top)%N → (n' ≤ top)%N → t ∈ decode_all m (logs n) → t' ∈ decode_all m (logs n') →
     transfer_key t = transfer_key t' → n = n').

Definition rows_at (n : N) s : list storedTransfer := filter (λ st, stored_block st = n) (rows s).

(** Every canonical block of the index carries the transfers of its logs. *)
Definition carried s : Prop := ∀ n b, blocks s !! n = Some b → canonical_at b →
  stored_transfer <$> rows_at n s = decode_all m (logs n).

Lemma row_canonical s last st :
  hash_binds → good s → last_spec (blocks s) last → (∀ l, last = Some l → canonical_at l) →
  carried s → st ∈ rows s →
  (stored_block st ≤ top)%N ∧ (stored_block st < sync_from m last)%N ∧
  stored_transfer st ∈ decode_all m (logs (stored_block st)).
Proof.
  intros Hinj Hg Hlast Hcan Hcar Hst. pose proof Hg as (Hi & _ & Hch & Hle).
  destruct (law_wf (view:=view) _ Hi) as [_ Hwf]. destruct (Hwf st Hst) as [b Hb].
  split; [apply Hle; by eexists|].
  destruct last as [l|]; [|simpl in Hlast; unfold blocks in Hlast; by rewrite Hlast, lookup_empty in Hb].
  split.
  - simpl. rewrite u64_succ_bound by (apply (chain_bounded _ Hch); eexists; apply Hlast).
    enough (stored_block st ≤ Block_Number l)%N by lia. apply Hlast. by eexists.
  - rewrite <-(Hcar _ b Hb) by (eapply below_canonical; eauto).
    apply list_elem_of_fmap_2, list_elem_of_filter. done.
Qed.

Lemma carried_fresh s last :
  hash_binds → distinct_keys → good s → last_spec (blocks s) last →
  (∀ l, last = Some l → canonical_at l) → carried s →
  fresh_keys (canon_transfers (sync_from m last)) (view (ms_store s)).
Proof.
  intros Hinj [Hnd Hdk] Hg Hlast Hcan Hcar. unfold canon_transfers. split.
  - assert (∀ l, transfer_key <$> (l ≫= λ k, decode_all m (logs k)) =
                 l ≫= λ k, transfer_key <$> decode_all m (logs k)) as ->.
    { induction l as [|k l IHl]; [done|]. by rewrite !bind_cons, fmap_app, IHl. }
    apply NoDup_bind; [|intros k Hk%elem_of_numbers; apply Hnd; lia|apply NoDup_numbers].
    intros n n' y Hn%elem_of_numbers Hn'%elem_of_numbers (t & -> & Ht)%list_elem_of_fmap
      (t' & Heq & Ht')%list_elem_of_fmap. by apply (Hdk n n' t t'); [lia|lia|..].
  - intros t (n & Ht & Hn%elem_of_numbers)%list_elem_of_bind (st & Heq & Hst)%list_elem_of_fmap.
    destruct (row_canonical s last st Hinj Hg Hlast Hcan Hcar Hst) as (H1 & H2 & H3).
    assert (n = stored_block st) by (by apply (Hdk n _ t (stored_transfer st)); [lia|..]). lia.
Qed.

Lemma rows_at_canon k l :
  NoDup l →
  stored_transfer <$> filter (λ st, stored_block st = k) (l ≫= canon_rows) =
  if bool_decide (k ∈ l) then decode_all m (logs k) else [].
Proof.
  assert (∀ n, filter (λ st, stored_block st = k) (canon_rows n) = if bool_decide (k = n) then canon_rows n else [])
    as Hone.
  { intros n. unfold canon_rows, new_rows. simpl. generalize (decode_all m (logs n)) as ts.
    induction ts as [|t ts IHts]; [by case_bool_decide|].
    rewrite fmap_cons, filter_cons, IHts. cbn [stored_block].
    destruct (decide (k = n)) as [->|Hne].
    - by rewrite decide_True, !bool_decide_true.
    - by rewrite decide_False, !bool_decide_false by congruence. }
  induction 1 as [|n l Hn Hnd IHl]; [done|].
  rewrite bind_cons, filter_app, fmap_app, IHl, Hone. destruct (decide (k = n)) as [->|Hne].
  - rewrite (bool_decide_true (n = n)), (bool_decide_true (n ∈ n :: l)), bool_decide_false, app_nil_r
      by (done || left).
    unfold canon_rows, new_rows. rewrite <-list_fmap_compose. simpl. apply list_fmap_id.
  - rewrite bool_decide_false by done. simpl.
    by rewrite (bool_decide_ext (k ∈ n :: l) (k ∈ l)) by (rewrite elem_of_cons; tauto).
Qed.

Lemma rows_at_confirm k l :
  stored_transfer <$> filter (λ st, stored_block st = k) (confirm_rows l) =
  stored_transfer <$> filter (λ st, stored_block st = k) l.
Proof.
  unfold confirm_rows. destruct (C <=? top)%N; [|done].
  rewrite (filter_fmap_iff _ _ (λ st, stored_block st = k)) by (intros; by rewrite stored_block_confirm).
  rewrite <-list_fmap_compose. apply list_fmap_ext. intros. apply stored_transfer_confirm.
Qed.

(** [Sync] keeps [carried], whichever way it goes. *)
Lemma advance_carried s s' last :
  hash_binds → distinct_keys → good s → last_spec (blocks s) last →
  (∀ l, last = Some l → canonical_at l) → extended (sync_from m last) (blocks s) (blocks s') →
  (fresh_keys (canon_transfers (sync_from m last)) (view (ms_store s)) →
     rows s' = confirm_rows (rows s ++ (numbers (sync_from m last) ≫= canon_rows))) →
  carried s → carried s'.
Proof.
  intros Hinj Hdk Hg Hlast Hcan Hext Hrows Hcar k b Hb Hc.
  unfold rows_at. rewrite Hrows by by apply carried_fresh.
  rewrite rows_at_confirm, filter_app, fmap_app, rows_at_canon by apply NoDup_numbers.
  rewrite Hext in Hb. case_bool_decide as Hk; rewrite elem_of_numbers in Hk.
  - assert (filter (λ st, stored_block st = k) (rows s) = []) as ->; [|done].
    apply filter_nothing. intros st Hst Heq.
    destruct (row_canonical s last st Hinj Hg Hlast Hcan Hcar Hst) as (_ & ? & _). lia.
  - rewrite app_nil_r. apply (Hcar k b); [|done].
    destruct (N.leb_spec (sync_from m last) k), (N.leb_spec k top); [lia|done..].
Qed.

Lemma stale_carried s s' l :
  view (ms_store s') = index_delete (Block_Number l) (view (ms_store s)) → carried s → carried s'.
Proof.
  intros Hv Hcar k b Hb Hc. unfold blocks in Hb. rewrite Hv, lookup_index_delete in Hb.
  destruct (N.ltb_spec k (Block_Number l)); [|done]. rewrite <-(Hcar k b Hb Hc). f_equal.
  unfold rows_at, rows. rewrite Hv. unfold index_delete. cbn [ix_transfers].
  apply list_filter_filter_l. by intros st ->.
Qed.

Lemma Sync_n_synced k s :
  hash_binds → distinct_keys → synced s →
  ∃ s', Sync_n k s = (Ok tt, s') ∧ synced s' ∧ (carried s → carried s').
Proof.
  intros Hinj Hdk. revert s. induction k as [|k IH]; intros s Hs; simpl; [by eexists|].
  destruct (synced_step s Hs) as (s1 & Hr & Hs1 & Hb1 & _ & Hr1). rewrite (go_bind_run _ _ _ _ _ Hr).
  destruct (IH s1 Hs1) as (s' & Hr' & Hs' & Hc'). exists s'. split; [done|]. split; [done|].
  intros Hc. apply Hc'. intros n b. rewrite Hb1. unfold rows_at. rewrite Hr1, rows_at_confirm. apply Hc.
Qed.

Lemma Sync_n_reaches k s :
  hash_binds → distinct_keys → good s → (StartBlock (monitor_cfg m) ≤ top)%N → size (blocks s) < k →
  ∃ s', Sync_n k s = (Ok tt, s') ∧ synced s' ∧ (carried s → carried s').
Proof.
  intros Hinj Hdk. revert s. induction k as [|k IH]; intros s Hg Hst Hk; [lia|]. simpl.
  destruct (good_last s Hg) as [last Hlast].
  assert ((∃ l, last = Some l ∧ ¬ canonical_at l) ∨ ∀ l, last = Some l → canonical_at l)
    as [(l & -> & Hnc)|Hcan].
  { destruct last as [l|]; [|by right]. unfold canonical_at.
    destruct (decide (Block_Hash l = Header_Hash (canon (Block_Number l)))); [right|left]; naive_solver. }
  - destruct (sync_stale s l Hg Hlast Hnc) as (s1 & Hr & Hg1 & Hv1 & _).
    rewrite (go_bind_run _ _ _ _ _ Hr).
    destruct (IH s1) as (s' & Hr' & Hs' & Hc'); [done|done| |].
    { enough (size (blocks s1) < size (blocks s)) by lia.
      apply stale_shrinks with (Block_Number l); [eexists; apply Hlast|].
      intros j. unfold blocks at 1. rewrite Hv1. apply lookup_index_delete. }
    exists s'. split; [done|]. split; [done|]. intros Hc. by apply Hc', (stale_carried s s1 l).
  - destruct (sync_advance s last Hg Hlast Hcan) as (s1 & Hr & Hg1 & Hext & Hrows & _).
    rewrite (go_bind_run _ _ _ _ _ Hr).
    destruct (Sync_n_synced k s1) as (s' & Hr' & Hs' & Hc'); [done|done|by apply (advance_synced s s1 last)|].
    exists s'. split; [done|]. split; [done|]. intros Hc. by apply Hc', (advance_carried s s1 last).
Qed.
End stable.

(** ** Statements *)
Section claims.
Context `{Geth} {St W : Type} (S : Store St) (B : ChainBackend W) (m : Monitor).
Context (view : St → Index) (inv : St → Prop) {HL : StoreLaws view inv S}.
Context (storable : N → Prop) (live : St → Prop) {HT : StoreTotal inv S storable live}.
Context (canon : N → Header) (logs : N → list Log) (top : N).

(** C1: convergence.  If the node serves one consistent chain with head
    [top] and the store does not fail, then from any index whose blocks lie
    at or below [top], however many of them are stale, one [Sync] per
    indexed block plus one is enough (and more do no harm): the head is
    indexed, every indexed block has the canonical hash and carries exactly
    the transfers of its logs, in their order.  This needs that no header
    with another parent has the hash of a canonical one, that the transfers of
    the chain have distinct keys, and that the blocks of the index which are
    canonical already carry their transfers. *)
Theorem sync_converges k (s : mstate St W) :
  stable B m storable canon logs top → (StartBlock (monitor_cfg m) ≤ top)%N →
  hash_binds canon top → distinct_keys m logs top →
  good view inv live top s → carried m view canon logs s → size (blocks view s) < k →
  ∃ s', Sync_n S B m k s = (Ok tt, s') ∧ chain_inv (blocks view s') ∧
    is_Some (blocks view s' !! top) ∧
    ∀ n b, blocks view s' !! n = Some b →
      Block_Hash b = Header_Hash (canon n) ∧
      stored_transfer <$> rows_at view n s' = decode_all m (logs n).
Proof.
  intros HS Hst Hinj Hdk Hg Hcar Hk.
  destruct (Sync_n_reaches S B m view inv storable live canon logs top HS k s Hinj Hdk Hg Hst Hk)
    as (s' & Hr & Hsync & Hc).
  exists s'. split; [done|]. split; [apply Hsync|]. split.
  - destruct Hsync as (_ & b & Hb & _). by eexists.
  - intros n b Hb.
    pose proof (synced_canonical S B m view inv storable live canon logs top HS s' n b Hinj Hsync Hb) as Hcan.
    split; [|by apply (Hc Hcar n b)]. rewrite <-(blocks_wf S view inv s' n b) by (done || apply Hsync). done.
Qed.

(** C3: one [Sync] on an index whose tip is canonical (or empty) indexes
    exactly the canonical blocks above the tip, and publishes, in order, one
    [chain.block] per block followed by one [chain.transfer] per transfer
    decoded from its logs.  If the keys of those transfers are new, exactly
    their rows are appended, and then every row at the confirmation depth or
    below is confirmed. *)
Theorem sync_indexes_canonical (s : mstate St W) last :
  stable B m storable canon logs top →
  good view inv live top s → last_spec (blocks view s) last →
  (∀ l, last = Some l → canonical_at canon l) →
  ∃ s', Sync S B m s = (Ok tt, s') ∧
    (∀ k, blocks view s' !! k =
       if (sync_from m last <=? k)%N && (k <=? top)%N then Some (block_of k (canon k))
       else blocks view s !! k) ∧
    (fresh_keys (canon_transfers m logs top (sync_from m last)) (view (ms_store s)) →
       rows view s' = confirm_rows m top
         (rows view s ++ (numbers top (sync_from m last) ≫= canon_rows m canon logs top))) ∧
    ms_bus s' = ms_bus s ++ (numbers top (sync_from m last) ≫= canon_events m canon logs top).
Proof.
  intros HS Hg Hl Hc.
  destruct (sync_advance S B m view inv storable live canon logs top HS s last Hg Hl Hc)
    as (s' & Hr & _ & Hext & Hb).
  exists s'. split; [done|]. split; [exact Hext|done].
Qed.

(** C34: a [Sync] on an index that has the canonical head changes no block,
    publishes nothing, and does no more to the transfers than confirm the
    ones at the depth. *)
Theorem sync_idempotent (s : mstate St W) :
  stable B m storable canon logs top → synced view inv live canon top s →
  ∃ s', Sync S B m s = (Ok tt, s') ∧ blocks view s' = blocks view s ∧ ms_bus s' = ms_bus s ∧
    rows view s' = confirm_rows m top (rows view s).
Proof.
  intros HS Hs. destruct (synced_step S B m view inv storable live canon logs top HS s Hs)
    as (s' & Hr & _ & Hb & He & Hrow). by exists s'.
Qed.

(** C20: a [Sync] that finds the tip stale removes the tip and its transfers,
    leaves everything below untouched, indexes nothing, and publishes one
    [chain.reorg] that names the removed block. *)
Theorem sync_rolls_back_stale_tip (s : mstate St W) l :
  stable B m storable canon logs top →
  good view inv live top s → last_spec (blocks view s) (Some l) → ~ canonical_at canon l →
  ∃ s', Sync S B m s = (Ok tt, s') ∧
    view (ms_store s') = index_delete (Block_Number l) (view (ms_store s)) ∧
    ms_bus s' = ms_bus s ++
      [(SubjectChainReorg, JObj [("from_block", JNum (Z.of_N (Block_Number l)))])].
Proof.
  intros HS Hg Hl Hn.
  destruct (sync_stale S B m view inv storable live canon logs top HS s l Hg Hl Hn)
    as (s' & Hr & _ & Hv & He). by exists s'.
Qed.
End claims.

(** ** A concrete reorg *)
Section scenario.
Import Toy.

(** The chain of [ex_chain] replaced from block 2 on: the transfer of the old
    block 2 is mined again in block 4, the later ones are gone. *)
Definition fork_logs (n : N) : list Log :=
  match n with
  | 0 | 1 => [transfer_log ex_decoder (ex_transfer_of n)]
  | 4 => [transfer_log ex_decoder (ex_transfer_of 2)]
  | _ => []
  end%N.
Definition fork_chain : fakeChain :=
  mkFake (buildChain 5 0 2 Byte.x01 0%N)
    (list_to_map ((λ n, (n, fork_logs n)) <$> [0;1;4]%N)) 5.
Definition fork_canon (n : N) : Header := default ex_header0 (fake_headers fork_chain !! n).

Lemma le5_cases n : (n ≤ 5)%N → n = 0%N ∨ n = 1%N ∨ n = 2%N ∨ n = 3%N ∨ n = 4%N ∨ n = 5%N.
Proof. lia. Qed.

Lemma fork_stable :
  stable (fixedBackend fork_chain) (ex_monitor 2) (λ _, True) fork_canon fork_logs 5.
Proof.
  split; try done.
  - intros []. eexists _, tt. split; [vm_compute; reflexivity|reflexivity].
  - intros n [] Hn. exists tt.
    apply le5_cases in Hn as [->|[->|[->|[->|[->| ->]]]]]; vm_compute; reflexivity.
  - intros n [] Hn. exists tt.
    apply le5_cases in Hn as [->|[->|[->|[->|[->| ->]]]]]; vm_compute; reflexivity.
  - intros []. by exists tt.
  - intros n Hn. assert (n ≤ 5)%N as Hn' by lia.
    apply le5_cases in Hn' as [->|[->|[->|[->|[->| ->]]]]]; [vm_compute; reflexivity..|lia].
  - intros n _. by apply Forall_forall.
Qed.

Lemma fork_hash_binds : hash_binds fork_canon 5.
Proof. intros n h _. apply toy_hash_parent. Qed.

(** Which of the blocks has which transfer. *)
Definition fork_transfers (n : N) : list Transfer :=
  match n with 0 | 1 => [ex_transfer_of n] | 4 => [ex_transfer_of 2] | _ => [] end%N.

Lemma fork_decoded n : (n ≤ 5)%N → decode_all (ex_monitor 2) (fork_logs n) = fork_transfers n.
Proof. intros Hn. by apply le5_cases in Hn as [->|[->|[->|[->|[->| ->]]]]]; vm_compute. Qed.

Lemma fork_transfer_inv n t :
  (n ≤ 5)%N → t ∈ fork_transfers n → (n = 0 ∨ n = 1 ∨ n = 4)%N ∧ t = ex_transfer_of (if (n =? 4)%N then 2 else n)%N.
Proof.
  intros Hn. apply le5_cases in Hn as [->|[->|[->|[->|[->| ->]]]]]; simpl;
    rewrite ?list_elem_of_singleton, ?elem_of_nil; intuition.
Qed.

Lemma fork_distinct_keys : distinct_keys (ex_monitor 2) fork_logs 5.
Proof.
  split.
  - intros n Hn. rewrite fork_decoded by done.
    by apply le5_cases in Hn as [->|[->|[->|[->|[->| ->]]]]]; apply NoDup_singleton || apply NoDup_nil_2.
  - intros n n' t t' Hn Hn'. rewrite !fork_decoded by done.
    intros [Hc ->]%fork_transfer_inv [Hc' ->]%fork_transfer_inv; [|done..].
    by destruct Hc as [->|[->| ->]], Hc' as [->|[->| ->]].
Qed.

(** Blocks 0, 1 (shared) and 2 (stale). *)
Definition old_header (n : N) : Header := default ex_header0 (fake_headers ex_chain !! n).
Definition stale_blocks : gmap N Block :=
  <[2%N := block_of 2 (old_header 2)]> (<[1%N := block_of 1 (old_header 1)]>
    (<[0%N := block_of 0 (old_header 0)]> ∅)).
Definition stale_start : mstate MemStore unit :=
  mkMstate (mkMemStore stale_blocks ((λ n, mkStored n (ex_transfer_of n) false) <$> [0;1;2]%N)) tt [].

Lemma stale_blocks_inv : chain_inv stale_blocks ∧ frontier 3 stale_blocks.
Proof.
  assert (frontier 0 (∅ : gmap N Block)) as Hf0.
  { split; [|by left]. intros k [? Hk]. by rewrite lookup_empty in Hk. }
  destruct (chain_inv_save 0 (old_header 0) ∅ chain_inv_empty Hf0) as [H1 F1]; [done|lia|].
  destruct (chain_inv_save 1 (old_header 1) _ H1 F1) as [H2 F2]; [done| |].
  { intros p _. vm_compute. by intros [= <-]. }
  destruct (chain_inv_save 2 (old_header 2) _ H2 F2) as [H3 F3]; [done| |by split].
  intros p _. vm_compute. by intros [= <-].
Qed.

Lemma stale_start_good :
  good mem_view (λ m, index_wf (mem_view m)) (λ _, True) 5 stale_start.
Proof.
  destruct stale_blocks_inv as [Hch [Hlt _]]. split; [split|split; [done|split]].
  - intros n b. change (stale_blocks !! n = Some b → Block_Number b = n).
    unfold stale_blocks. rewrite !lookup_insert, lookup_empty. repeat case_decide; naive_solver.
  - intros st Hst. change (is_Some (stale_blocks !! stored_block st)).
    change (st ∈ (λ n, mkStored n (ex_transfer_of n) false) <$> [0; 1; 2]%N) in Hst.
    apply list_elem_of_fmap in Hst as (n & -> & Hn). rewrite !elem_of_cons, elem_of_nil in Hn.
    destruct Hn as [->|[->|[->|[]]]]; vm_compute; by eexists.
  - exact Hch.
  - intros k Hk. apply Hlt in Hk. lia.
Qed.

Lemma stale_start_carried : carried (ex_monitor 2) mem_view fork_canon fork_logs stale_start.
Proof.
  intros n b Hb. change (stale_blocks !! n = Some b) in Hb. assert (n < 3)%N as Hn.
  { apply stale_blocks_inv. by eexists. }
  assert (n = 0 ∨ n = 1 ∨ n = 2)%N as [->|[->| ->]] by lia;
    vm_compute in Hb; injection Hb as <-; [reflexivity..|]. vm_compute. discriminate.
Qed.

Lemma sync_converges_witness :
  ∃ s', Sync_n MemStore_store (fixedBackend fork_chain) (ex_monitor 2) 4 stale_start = (Ok tt, s') ∧
    chain_inv (blocks mem_view s') ∧ is_Some (blocks mem_view s' !! 5%N) ∧
    ∀ n b, blocks mem_view s' !! n = Some b →
      Block_Hash b = Header_Hash (fork_canon n) ∧
      stored_transfer <$> rows_at mem_view n s' = decode_all (ex_monitor 2) (fork_logs n).
Proof.
  apply (sync_converges MemStore_store (fixedBackend fork_chain) (ex_monitor 2) mem_view
    (λ m, index_wf (mem_view m)) (λ _, True) (λ _, True) fork_canon fork_logs 5 4 stale_start).
  - exact fork_stable.
  - vm_compute. discriminate.
  - exact fork_hash_binds.
  - exact fork_distinct_keys.
  - exact stale_start_good.
  - exact stale_start_carried.
  - vm_compute. lia.
Defined.

Definition stale_tip : Block := block_of 2 (old_header 2).

Lemma stale_tip_last : last_spec (blocks mem_view stale_start) (Some stale_tip).
Proof.
  split; [vm_compute; reflexivity|]. intros k Hk. apply stale_blocks_inv in Hk. simpl. lia.
Qed.

Lemma sync_rolls_back_stale_tip_witness :
  ∃ s', Sync MemStore_store (fixedBackend fork_chain) (ex_monitor 2) stale_start = (Ok tt, s') ∧
    mem_view (ms_store s') = index_delete 2 (mem_view (ms_store stale_start)) ∧
    ms_bus s' = [(SubjectChainReorg, JObj [("from_block", JNum 2)])].
Proof.
  apply (sync_rolls_back_stale_tip MemStore_store (fixedBackend fork_chain) (ex_monitor 2) mem_view
    (λ m, index_wf (mem_view m)) (λ _, True) (λ _, True) fork_canon fork_logs 5 stale_start stale_tip).
  - exact fork_stable.
  - exact stale_start_good.
  - exact stale_tip_last.
  - vm_compute. discriminate.
Defined.

Lemma sync_indexes_canonical_witness :
  ∃ s', Sync MemStore_store (fixedBackend fork_chain) (ex_monitor 2) ex_start = (Ok tt, s') ∧
    (∀ k, blocks mem_view s' !! k =
       if (0 <=? k)%N && (k <=? 5)%N then Some (block_of k (fork_canon k)) else blocks mem_view ex_start !! k) ∧
    (fresh_keys (canon_transfers (ex_monitor 2) fork_logs 5 0) (mem_view (ms_store ex_start)) →
       rows mem_view s' = confirm_rows (ex_monitor 2) 5
         (numbers 5 0 ≫= canon_rows (ex_monitor 2) fork_canon fork_logs 5)) ∧
    ms_bus s' = numbers 5 0 ≫= canon_events (ex_monitor 2) fork_canon fork_logs 5.
Proof.
  apply (sync_indexes_canonical MemStore_store (fixedBackend fork_chain) (ex_monitor 2) mem_view
    (λ m, index_wf (mem_view m)) (λ _, True) (λ _, True) fork_canon fork_logs 5 ex_start None).
  - exact fork_stable.
  - split; [apply (ex_start_inv 2)|split; [done|split; [exact chain_inv_empty|]]].
    intros k [x Hk]. change ((∅ : gmap N Block) !! k = Some x) in Hk. by rewrite lookup_empty in Hk.
  - reflexivity.
  - discriminate.
Defined.

(** An index that holds just the canonical head. *)
Definition tip_blocks : gmap N Block := <[5%N := block_of 5 (fork_canon 5)]> ∅.
Definition tip_start : mstate MemStore unit := mkMstate (mkMemStore tip_blocks []) tt [].

Lemma sync_idempotent_witness :
  ∃ s', Sync MemStore_store (fixedBackend fork_chain) (ex_monitor 2) tip_start = (Ok tt, s') ∧
    blocks mem_view s' = tip_blocks ∧ ms_bus s' = [] ∧ rows mem_view s' = [].
Proof.
  assert (frontier 5 (∅ : gmap N Block)) as Hf0.
  { split; [|by left]. intros k [? Hk]. by rewrite lookup_empty in Hk. }
  destruct (chain_inv_save 5 (fork_canon 5) ∅ chain_inv_empty Hf0) as [Hch Hfr].
  { reflexivity. } { intros p _. by rewrite lookup_empty. }
  apply (sync_idempotent MemStore_store (fixedBackend fork_chain) (ex_monitor 2) mem_view
    (λ m, index_wf (mem_view m)) (λ _, True) (λ _, True) fork_canon fork_logs 5 tip_start fork_stable).
  split; [split; [split|split; [done|split; [exact Hch|]]]|].
  - intros n b. change (tip_blocks !! n = Some b → Block_Number b = n).
    unfold tip_blocks. rewrite lookup_insert, lookup_empty. case_decide; naive_solver.
  - intros st Hst. inversion Hst.
  - intros k Hk. apply Hfr in Hk. lia.
  - exists (block_of 5 (fork_canon 5)). split; vm_compute; reflexivity.
Defined.

(** The index after the first [Sync], on [ex_chain] with depth 2; and the
    state in which the node has moved to [fork_chain]. *)
Definition after_sync : mstate MemStore unit :=
  (Sync MemStore_store (fixedBackend ex_chain) (ex_monitor 2) ex_start).2.
Definition after_fork : mstate MemStore unit :=
  (Sync_n MemStore_store (fixedBackend fork_chain) (ex_monitor 2) 5 after_sync).2.

End scenario.
