(* ===== verification/Rat.v ===== *)
(** * Exact rationals and their decimal rendering (Go's math/big)

    [big.Rat] values are kept in lowest terms, as the package documents:
    every operation ends with [Qred].  [FloatString] is the rendering
    algorithm of the package; the theorems say which number its digits are. *)

From S2P Require Import Prelude.
From Stdlib Require Import Ascii QArith Qabs Qreduction Qminmax Lqa.
#[local] Open Scope Z_scope.

(** ** Operations of [big.Rat] *)

(** [new(big.Rat).SetFrac(a, b)]; it panics on a zero denominator. *)
Definition rat_SetFrac (a b : Z) : res Q :=
  match b with
  | Z0 => Panic "division by zero"
  | Zpos p => Ok (Qred (a # p))
  | Zneg p => Ok (Qred (- a # p))
  end.

Definition rat_Add (x y : Q) : Q := Qred (x + y)%Q.
Definition rat_Mul (x y : Q) : Q := Qred (x * y)%Q.
(** [Quo] panics on a zero divisor. *)
Definition rat_Quo (x y : Q) : res Q :=
  if (Qnum y =? 0) then Panic "division by zero" else Ok (Qred (x / y)%Q).
Definition rat_Sign (x : Q) : Z := Z.sgn (Qnum x).
(** [x.Cmp(y) < 0]. *)
Definition rat_lt (x y : Q) : bool := match (x ?= y)%Q with Lt => true | _ => false end.

(** [new(big.Int).Exp(10, n, nil)], internal/margin/oracle.go. *)
Definition pow10 (n : N) : Z := 10 ^ Z.of_N n.

(** ** [FloatString] *)

Fixpoint zeros (n : nat) : string :=
  match n with
  | O => ""
  | S n' => String "0"%char (zeros n')
  end.

(** Integer and fractional digits of [|x|] rounded to [prec] places: the
    long division of the package and its round-up step with the carry. *)
Definition float_digits (a b p : Z) : Z * Z :=
  let q := a / b in
  let r := a mod b in
  let r := r * p in
  let r2 := r mod b in
  let r := r / b in
  let r2 := r2 + r2 in
  if b <=? r2 then
    let r := r + 1 in
    if p <=? r then (q + 1, r - p) else (q, r)
  else (q, r).

Definition FloatString (x : Q) (prec : nat) : string :=
  if (Zpos (Qden x) =? 1) then
    pretty (Qnum x) +:+ (if (0 <? prec)%nat then "." +:+ zeros prec else "")
  else
    let '(q, r) := float_digits (Z.abs (Qnum x)) (Zpos (Qden x)) (10 ^ Z.of_nat prec) in
    let rs := pretty (Z.to_N r) in
    (if Qnum x <? 0 then "-" else "") +:+ pretty (Z.to_N q) +:+
    (if (0 <? prec)%nat then "." +:+ zeros (prec - String.length rs) +:+ rs else "").

(** ** Reading the digits back *)

Definition digit_of (c : Ascii.ascii) : option N :=
  let n := Ascii.N_of_ascii c in
  if ((48 <=? n) && (n <=? 57))%N then Some (n - 48)%N else None.

(** The number the decimal digits of a string spell; other characters are
    skipped. *)
Fixpoint digits_acc (acc : N) (s : string) : N :=
  match s with
  | EmptyString => acc
  | String c s' =>
      match digit_of c with
      | Some d => digits_acc (acc * 10 + d) s'
      | None => digits_acc acc s'
      end
  end.
Definition digits_value (s : string) : N := digits_acc 0 s.

Fixpoint all_digits (s : string) : Prop :=
  match s with
  | EmptyString => True
  | String c s' => is_Some (digit_of c) ∧ all_digits s'
  end.

Lemma digits_acc_app acc s1 s2 : digits_acc acc (s1 +:+ s2) = digits_acc (digits_acc acc s1) s2.
Proof. revert acc; induction s1; intros; simpl; [done|]. by case_match. Qed.

Lemma all_digits_app s1 s2 : all_digits (s1 +:+ s2) ↔ all_digits s1 ∧ all_digits s2.
Proof. induction s1; simpl; tauto. Qed.

Lemma digits_acc_shift acc s :
  all_digits s → digits_acc acc s = (acc * 10 ^ N.of_nat (String.length s) + digits_value s)%N.
Proof.
  unfold digits_value. revert acc. induction s as [|c s IH]; intros acc.
  - intros _. simpl. rewrite N.pow_0_r. lia.
  - intros [[d Hd] Hs]. cbn [digits_acc String.length]. rewrite Hd, IH, (IH (0 * 10 + d)%N) by done.
    rewrite Nat2N.inj_succ, N.pow_succ_r'. lia.
Qed.

Lemma digit_of_char x : (x < 10)%N → digit_of (pretty_N_char x) = Some x.
Proof.
  intros Hx. assert (x = 0 ∨ x = 1 ∨ x = 2 ∨ x = 3 ∨ x = 4 ∨ x = 5 ∨ x = 6 ∨ x = 7 ∨ x = 8 ∨ x = 9)%N
    as Hc by lia. by repeat destruct Hc as [->|Hc]; [..|subst].
Qed.

Lemma pretty_go_digits x s :
  digits_acc 0 (pretty_N_go x s) = digits_acc x s ∧ (all_digits s → all_digits (pretty_N_go x s)) ∧
  ∀ k, (x < 10 ^ N.of_nat k)%N → (String.length (pretty_N_go x s) ≤ k + String.length s)%nat.
Proof.
  revert s. induction (N.lt_wf_0 x) as [x _ IH]; intros s.
  destruct (decide (x = 0)%N) as [->|Hx]; [rewrite pretty_N_go_0; split; [done|split; [done|lia]]|].
  rewrite pretty_N_go_step by lia.
  assert (x mod 10 < 10)%N as Hm by (by apply N.mod_lt).
  destruct (IH (x / 10)%N ltac:(apply N.div_lt; lia) (String (pretty_N_char (x mod 10)) s)) as (H1 & H2 & H3).
  rewrite H1. cbn [digits_acc]. rewrite digit_of_char by done. split; [|split].
  - f_equal. rewrite (N.div_mod x 10) at 3 by done. lia.
  - intros Hs. apply H2. split; [rewrite digit_of_char by done; by eexists|done].
  - intros k Hk. destruct k as [|k]; [rewrite N.pow_0_r in Hk; lia|].
    specialize (H3 k). cbn [String.length] in H3. rewrite Nat2N.inj_succ, N.pow_succ_r' in Hk.
    assert (x / 10 < 10 ^ N.of_nat k)%N as Hk' by (apply N.Div0.div_lt_upper_bound; lia).
    specialize (H3 Hk'). lia.
Qed.

Lemma pretty_N_digits (n : N) : digits_value (pretty n) = n ∧ all_digits (pretty n).
Proof.
  unfold pretty, pretty_N. case_decide as Hn; [subst; by repeat split; eexists|].
  destruct (pretty_go_digits n "") as (H1 & H2 & _). split; [exact H1|by apply H2].
Qed.

Lemma pretty_N_length (n : N) k :
  (n < 10 ^ N.of_nat k)%N → (0 < k)%nat → (String.length (pretty n) ≤ k)%nat.
Proof.
  intros Hn Hk. unfold pretty, pretty_N. case_decide; [simpl; lia|].
  destruct (pretty_go_digits n "") as (_ & _ & H3). specialize (H3 k Hn). simpl in H3. lia.
Qed.

Lemma zeros_digits n : digits_value (zeros n) = 0%N ∧ all_digits (zeros n) ∧ String.length (zeros n) = n.
Proof.
  induction n as [|n (H1 & H2 & H3)]; [done|]. split; [exact H1|].
  split; [split; [by eexists|done]|simpl; by rewrite H3].
Qed.

Lemma string_length_app s1 s2 : String.length (s1 +:+ s2) = (String.length s1 + String.length s2)%nat.
Proof. induction s1; simpl; auto. Qed.

(** Digits of an integer part and of a fraction padded to [prec] places. *)
Lemma decimal_digits (q r : N) prec :
  (r < 10 ^ N.of_nat prec)%N → (0 < prec)%nat →
  digits_value (pretty q +:+ "." +:+ zeros (prec - String.length (pretty r)) +:+ pretty r) =
  (q * 10 ^ N.of_nat prec + r)%N.
Proof.
  intros Hr Hp. destruct (pretty_N_digits q) as [Hq _], (pretty_N_digits r) as [Hrv Hrd].
  destruct (zeros_digits (prec - String.length (pretty r))) as (Hz & Hzd & Hzl).
  pose proof (pretty_N_length r prec Hr Hp) as Hl.
  unfold digits_value in *. rewrite digits_acc_app, Hq, digits_acc_app.
  change (digits_acc q ".") with q.
  rewrite digits_acc_shift by (apply all_digits_app; split; assumption).
  rewrite string_length_app, Hzl. unfold digits_value. rewrite digits_acc_app, Hz, Hrv.
  do 4 f_equal. lia.
Qed.

(** ** What [FloatString] prints *)

(** [|x| * 10^prec] rounded to the nearest integer, halves up. *)
Definition round_scaled (x : Q) (prec : nat) : Z :=
  (2 * Z.abs (Qnum x) * 10 ^ Z.of_nat prec + Zpos (Qden x)) / (2 * Zpos (Qden x)).

Lemma float_digits_spec a b p :
  0 ≤ a → 0 < b → 0 < p →
  let '(q, r) := float_digits a b p in
  q * p + r = (2 * a * p + b) / (2 * b) ∧ 0 ≤ q ∧ 0 ≤ r < p.
Proof.
  intros Ha Hb Hp. unfold float_digits.
  pose proof (Z.div_mod a b ltac:(lia)) as E1. pose proof (Z.mod_pos_bound a b Hb) as B1.
  pose proof (Z.div_pos a b Ha Hb) as Hq.
  set (q := a / b) in *. set (r := a mod b) in *.
  pose proof (Z.div_mod (r * p) b ltac:(lia)) as E2. pose proof (Z.mod_pos_bound (r * p) b Hb) as B2.
  set (r' := (r * p) / b) in *. set (r2 := (r * p) mod b) in *.
  assert (0 ≤ r' < p) as Hr'.
  { split; [apply Z.div_pos; nia|apply Z.div_lt_upper_bound; nia]. }
  assert (2 * a * p + b = (q * p + r') * (2 * b) + (2 * r2 + b)) as E by nia.
  assert ((2 * a * p + b) / (2 * b) = q * p + r' + (if b <=? r2 + r2 then 1 else 0)) as ->.
  { rewrite E, Z.div_add_l by lia. f_equal.
    destruct (Z.leb_spec b (r2 + r2)); symmetry.
    - apply (Z.div_unique _ _ _ (2 * r2 - b)); lia.
    - apply (Z.div_unique _ _ _ (2 * r2 + b)); lia. }
  destruct (Z.leb_spec b (r2 + r2)); [destruct (Z.leb_spec p (r' + 1))|]; split; lia.
Qed.

(** [s] is the decimal rendering of [x] with [prec] places: its digits spell
    the rounded value and it carries a minus sign exactly when [x < 0]. *)
Definition renders (s : string) (x : Q) (prec : nat) : Prop :=
  Z.of_N (digits_value s) = round_scaled x prec ∧
  (String.get 0 s = Some "-"%char ↔ (x < 0)%Q).

Lemma pow10_pos n : 0 < 10 ^ Z.of_nat n.
Proof. apply Z.pow_pos_nonneg; lia. Qed.

Lemma digits_minus s : digits_value ("-" +:+ s) = digits_value s.
Proof. reflexivity. Qed.

Lemma digit_head s : all_digits s → s ≠ "" → ∀ t, String.get 0 (s +:+ t) ≠ Some "-"%char.
Proof. destruct s as [|c s]; [done|]. intros [[d Hd] _] _ t Hc. simpl in Hc. by simplify_eq. Qed.

Lemma pretty_N_nonempty (n : N) : pretty n ≠ "".
Proof.
  destruct (pretty_N_digits n) as [Hv _]. intros E. rewrite E in Hv.
  change (digits_value "") with 0%N in Hv. by subst.
Qed.

(** [prec] zeros after the point shift an integer by [prec] places. *)
Lemma digits_zeros (q : N) prec :
  digits_value (pretty q +:+ (if (0 <? prec)%nat then "." +:+ zeros prec else "")) =
  (q * 10 ^ N.of_nat prec)%N.
Proof.
  destruct (pretty_N_digits q) as [Hq _], (zeros_digits prec) as (Hz & Hzd & Hzl).
  unfold digits_value. rewrite digits_acc_app. fold (digits_value (pretty q)). rewrite Hq.
  destruct prec as [|prec]; [simpl; lia|]. cbn [Nat.ltb Nat.leb]. rewrite digits_acc_app.
  change (digits_acc q ".") with q. rewrite digits_acc_shift, Hz, Hzl by done. lia.
Qed.

Lemma pretty_Z_sign (z : Z) : pretty z = (if z <? 0 then "-" else "") +:+ pretty (Z.abs_N z).
Proof. by destruct z. Qed.

Lemma round_scaled_int x prec :
  Qden x = 1%positive → round_scaled x prec = Z.abs (Qnum x) * 10 ^ Z.of_nat prec.
Proof.
  intros Hd. unfold round_scaled. rewrite Hd. symmetry.
  apply (Z.div_unique _ _ _ 1); lia.
Qed.

Lemma signed_head (neg : bool) (n : N) t :
  String.get 0 ((if neg then "-" else "") +:+ pretty n +:+ t) = Some "-"%char ↔ neg = true.
Proof.
  destruct neg; [done|]. split; [|done]. intros E.
  destruct (pretty_N_digits n) as [_ Hd].
  by destruct (digit_head _ Hd (pretty_N_nonempty n) t).
Qed.

Lemma signed_digits (neg : bool) s : digits_value ((if neg then "-" else "") +:+ s) = digits_value s.
Proof. by destruct neg. Qed.

Lemma Qnum_neg (x : Q) : (Qnum x <? 0) = true ↔ (x < 0)%Q.
Proof. rewrite Z.ltb_lt. unfold Qlt. simpl. lia. Qed.

Lemma string_app_assoc (s1 s2 s3 : string) : (s1 +:+ s2) +:+ s3 = s1 +:+ s2 +:+ s3.
Proof. induction s1 as [|c s1 IH]; [done|]. exact (f_equal (String c) IH). Qed.

(** The rendering of the package is the rounded decimal. *)
Lemma FloatString_renders x prec : renders (FloatString x prec) x prec.
Proof.
  unfold renders, FloatString. destruct (Z.eqb_spec (Zpos (Qden x)) 1) as [Hd|Hd].
  - rewrite pretty_Z_sign, string_app_assoc, signed_head, signed_digits, digits_zeros, Qnum_neg.
    split; [|done]. rewrite round_scaled_int by congruence.
    rewrite N2Z.inj_mul, N2Z.inj_pow, N2Z.inj_abs_N, nat_N_Z. done.
  - pose proof (float_digits_spec (Z.abs (Qnum x)) (Zpos (Qden x)) (10 ^ Z.of_nat prec)
      ltac:(lia) ltac:(lia) (pow10_pos prec)) as Hf.
    destruct (float_digits _ _ _) as [q r]. destruct Hf as (Hv & Hq & Hr).
    rewrite signed_head, signed_digits, Qnum_neg. split; [|done].
    unfold round_scaled. rewrite <-Hv. destruct prec as [|prec].
    + change (if (0 <? 0)%nat then _ else _) with "". change (10 ^ Z.of_nat 0) with 1 in Hr |- *.
      unfold digits_value. rewrite digits_acc_app. fold (digits_value (pretty (Z.to_N q))).
      rewrite (proj1 (pretty_N_digits _)). simpl. lia.
    + cbn [Nat.ltb Nat.leb]. rewrite decimal_digits; [|apply N2Z.inj_lt|lia].
      all: rewrite ?N2Z.inj_add, ?N2Z.inj_mul, N2Z.inj_pow, nat_N_Z, !Z2N.id by lia; lia.
Qed.

(** The rendered value is within half a unit of the last place. *)
Lemma renders_close s x prec :
  renders s x prec →
  (Qabs (inject_Z (Z.of_N (digits_value s)) - Qabs x * inject_Z (10 ^ Z.of_nat prec)) <= 1 # 2)%Q.
Proof.
  intros [-> _]. pose proof (pow10_pos prec) as Hp. apply Qabs_case; intros _.
  all: unfold round_scaled, Qabs, Qle, Qminus, Qplus, Qmult, Qopp, inject_Z; destruct x as [a b]; simpl.
  all: set (A := 2 * Z.abs a * 10 ^ Z.of_nat prec + Z.pos b).
  all: pose proof (Z.div_mod A (2 * Z.pos b) ltac:(lia)) as E.
  all: pose proof (Z.mod_pos_bound A (2 * Z.pos b) ltac:(lia)) as B.
  all: unfold A in *; change (Z.pos b~0) with (2 * Z.pos b) in *; rewrite ?Pos.mul_1_r; nia.
Qed.

Lemma Qred_idem x : Qred (Qred x) = Qred x.
Proof. apply Qred_complete, Qred_correct. Qed.

(** Rounding does not depend on the representative of the fraction. *)
Lemma round_scaled_Qeq x y prec : (x == y)%Q → round_scaled x prec = round_scaled y prec.
Proof.
  intros E. unfold round_scaled. destruct x as [a b], y as [c d]. unfold Qeq in E. simpl in *.
  apply (f_equal Z.abs) in E. rewrite !Z.abs_mul in E. change (Z.abs (Z.pos ?p)) with (Z.pos p) in E.
  set (p := 10 ^ Z.of_nat prec).
  rewrite <-(Z.div_mul_cancel_r _ _ (Z.pos d)), <-(Z.div_mul_cancel_r (2 * _ * _ + Z.pos d) _ (Z.pos b)) by lia.
  f_equal; nia.
Qed.

Lemma FloatString_Qred_renders x prec : renders (FloatString (Qred x) prec) x prec.
Proof.
  destruct (FloatString_renders (Qred x) prec) as [Hv Hs]. split.
  - rewrite Hv. apply round_scaled_Qeq, Qred_correct.
  - rewrite Hs. by rewrite (Qred_correct x).
Qed.

Lemma FloatString_examples :
  FloatString (2000 # 1) 2 = "2000.00" ∧ FloatString (Qred (16 # 10)) 4 = "1.6000" ∧
  FloatString (199999 # 100000) 2 = "2.00" ∧ FloatString (-1 # 1000) 2 = "-0.00" ∧
  FloatString (7 # 8) 2 = "0.88".
Proof. by vm_compute. Qed.
