(* ===== verification/Margin.v ===== *)
(** * Portfolio margin (internal/margin: engine.go, oracle.go, reader.go)

    [Evaluate] reads balances and prices through two interfaces, values the
    holdings with exact rationals and classifies the account.  The chain
    behind the interfaces is a world [W] threaded through the calls.
    [SoundReader] and [SoundOracle] are what the engine needs of the two
    interfaces; the chain-backed implementations are shown to provide it. *)

From S2P Require Import Prelude Geth Rat.
From Stdlib Require Import QArith Qabs Qreduction Lqa.

Definition StatusHealthy : string := "healthy".
Definition StatusMarginCall : string := "margin_call".
Definition StatusLiquidatable : string := "liquidatable".

(** [const aggregatorABI] and [const erc20BalanceOfABI]. *)
Definition aggregatorABI : string := raw_text "[{
	'name': 'latestRoundData',
	'type': 'function',
	'stateMutability': 'view',
	'inputs': [],
	'outputs': [
		{'name': 'roundId',         'type': 'uint80'},
		{'name': 'answer',          'type': 'int256'},
		{'name': 'startedAt',       'type': 'uint256'},
		{'name': 'updatedAt',       'type': 'uint256'},
		{'name': 'answeredInRound', 'type': 'uint80'}
	]
}]".
Definition erc20BalanceOfABI : string := raw_text "[{
	'name': 'balanceOf',
	'type': 'function',
	'stateMutability': 'view',
	'inputs':  [{'name': 'account', 'type': 'address'}],
	'outputs': [{'name': '', 'type': 'uint256'}]
}]".

(** [type Price struct] and [Price.Rat]. *)
Record Price := mkPrice {
  Price_Value : Z;
  Price_Decimals : N;
}.
Definition Price_Rat (p : Price) : res Q := rat_SetFrac (Price_Value p) (pow10 (Price_Decimals p)).

(** [type Position struct]. *)
Record Position := mkPosition {
  Position_Symbol : string;
  Position_BalanceRaw : string;
  Position_PriceUSD : string;
  Position_ValueUSD : string;
  Position_CollateralFactor : string;
  Position_WeightedUSD : string;
}.

(** [type Report struct]. *)
Record Report := mkReport {
  Report_Account : string;
  Report_GrossCollateralUSD : string;
  Report_WeightedCollateralUSD : string;
  Report_DebtUSD : string;
  Report_HealthFactor : string;
  Report_Status : string;
  Report_Positions : list Position;
}.

Section margin.
Context `{Geth} {W : Type}.

(** ** On-chain access *)

(** [ethereum.CallMsg], the two fields the code sets. *)
Record CallMsg := mkCallMsg {
  CallMsg_To : option Address;
  CallMsg_Data : list Byte.byte;
}.

(** [interface ContractCaller]; the block number is nil (latest) in every
    call. *)
Record ContractCaller := {
  CallContract : CallMsg → option Z → go W (list Byte.byte);
}.

(** [interface BalanceReader] and [interface PriceOracle]. *)
Record BalanceReader := { BalanceOf : Address → Address → go W Z }.
Record PriceOracle := { Oracle_Price : Address → go W Price }.

Record ChainlinkOracle := mkChainlinkOracle {
  ChainlinkOracle_caller : ContractCaller;
  ChainlinkOracle_abi : ABI;
  ChainlinkOracle_decimals : N;
}.

Definition NewChainlinkOracle (caller : ContractCaller) (feedDecimals : N) : res ChainlinkOracle :=
  match abi_JSON aggregatorABI with
  | Ok parsed => Ok (mkChainlinkOracle caller parsed feedDecimals)
  | Err e => Err (WrapError "parse aggregator abi" e)
  | Panic m => Panic m
  | Diverge => Diverge
  end.

(** [vals[i].( *big.Int )]: out of range panics, another type is [ok = false]. *)
Definition abi_bigint (vals : list abi_val) (i : nat) (msg : string) : res Z :=
  match vals !! i with
  | Some (AbiBigInt z) => Ok z
  | Some AbiOther => Err (ErrorString msg)
  | None => Panic "index out of range"
  end.

Definition ChainlinkOracle_Price (o : ChainlinkOracle) (feed : Address) : go W Price :=
  let! data := go_res (abi_Pack (ChainlinkOracle_abi o) "latestRoundData" []) in
  let! out := wrap_err "call latestRoundData"
                (CallContract (ChainlinkOracle_caller o) (mkCallMsg (Some feed) data) None) in
  let! vals := wrap_err "decode latestRoundData"
                (go_res (abi_Unpack (ChainlinkOracle_abi o) "latestRoundData" out)) in
  let! answer := go_res (abi_bigint vals 1 "unexpected answer type") in
  if (Z.sgn answer <=? 0)%Z then go_err (ErrorString "non-positive oracle price")
  else go_ret (mkPrice answer (ChainlinkOracle_decimals o)).

Record ChainBalanceReader := mkChainBalanceReader {
  ChainBalanceReader_caller : ContractCaller;
  ChainBalanceReader_abi : ABI;
}.

Definition NewChainBalanceReader (caller : ContractCaller) : res ChainBalanceReader :=
  match abi_JSON erc20BalanceOfABI with
  | Ok parsed => Ok (mkChainBalanceReader caller parsed)
  | Err e => Err (WrapError "parse erc20 abi" e)
  | Panic m => Panic m
  | Diverge => Diverge
  end.

Definition ChainBalanceReader_BalanceOf (r : ChainBalanceReader) (token account : Address) : go W Z :=
  let! data := go_res (abi_Pack (ChainBalanceReader_abi r) "balanceOf" [account]) in
  let! out := wrap_err "call balanceOf"
                (CallContract (ChainBalanceReader_caller r) (mkCallMsg (Some token) data) None) in
  let! vals := wrap_err "decode balanceOf"
                (go_res (abi_Unpack (ChainBalanceReader_abi r) "balanceOf" out)) in
  go_res (abi_bigint vals 0 "unexpected balanceOf return type").

(** [StaticOracle] and [StaticBalances], the fixed implementations. *)
Definition StaticOracle_Price (s : gmap Address Price) (feed : Address) : go W Price :=
  match s !! feed with
  | Some p => go_ret p
  | None => go_err (ErrorString ("no price for feed " +:+ Address_Hex feed))
  end.
Definition StaticBalances_BalanceOf (s : gmap Address Z) (token _account : Address) : go W Z :=
  match s !! token with
  | Some b => go_ret b
  | None => go_ret 0%Z
  end.

(** ** The engine *)

(** [type Asset struct]. *)
Record Asset := mkAsset {
  Asset_Symbol : string;
  Asset_Token : Address;
  Asset_Decimals : N;
  Asset_CollateralFactor : Q;
  Asset_PriceFeed : Address;
}.

(** [type Config struct]. *)
Record Config := mkConfig {
  Config_Assets : list Asset;
  Config_MarginCallHF : Q;
  Config_LiquidationHF : Q;
}.

Record Engine := NewEngine {
  Engine_reader : BalanceReader;
  Engine_oracle : PriceOracle;
  Engine_cfg : Config;
}.

Definition status (e : Engine) (hf : Q) : string :=
  if rat_lt hf (Config_LiquidationHF (Engine_cfg e)) then StatusLiquidatable
  else if rat_lt hf (Config_MarginCallHF (Engine_cfg e)) then StatusMarginCall
  else StatusHealthy.

(** The loop over [cfg.Assets] with its three accumulators. *)
Fixpoint evaluate_loop (e : Engine) (account : Address) (assets : list Asset)
    (gross weighted : Q) (positions : list Position) : go W (Q * Q * list Position) :=
  match assets with
  | [] => go_ret (gross, weighted, positions)
  | a :: rest =>
      let! bal := wrap_err ("balance " +:+ Asset_Symbol a)
                    (BalanceOf (Engine_reader e) (Asset_Token a) account) in
      if (Z.sgn bal =? 0)%Z then evaluate_loop e account rest gross weighted positions
      else
        let! price := wrap_err ("price " +:+ Asset_Symbol a)
                        (Oracle_Price (Engine_oracle e) (Asset_PriceFeed a)) in
        let! balRat := go_res (rat_SetFrac bal (pow10 (Asset_Decimals a))) in
        let! priceRat := go_res (Price_Rat price) in
        let value := rat_Mul balRat priceRat in
        let w := rat_Mul value (Asset_CollateralFactor a) in
        let gross := rat_Add gross value in
        let weighted := rat_Add weighted w in
        let! priceRat' := go_res (Price_Rat price) in
        let positions := positions ++
          [mkPosition (Asset_Symbol a) (pretty bal) (FloatString priceRat' 2) (FloatString value 2)
             (FloatString (Asset_CollateralFactor a) 2) (FloatString w 2)] in
        evaluate_loop e account rest gross weighted positions
  end.

Definition Evaluate (e : Engine) (account : Address) (debtUSD : Q) : go W Report :=
  let! acc := evaluate_loop e account (Config_Assets (Engine_cfg e)) 0%Q 0%Q [] in
  let '(gross, weighted, positions) := acc in
  let report hf st := mkReport (Address_Hex account) (FloatString gross 2) (FloatString weighted 2)
                        (FloatString debtUSD 2) hf st positions in
  if (rat_Sign debtUSD <=? 0)%Z then go_ret (report "n/a" StatusHealthy)
  else
    let! hf := go_res (rat_Quo weighted debtUSD) in
    go_ret (report (FloatString hf 4) (status e hf)).
End margin.

(** ** What the two chain implementations rely on and promise *)

(** Documented decoding of the return values named in the two ABI texts: a
    uint256 and the five words of a price round, all as [*big.Int]. *)
Class MarginABILaws `{Geth} := {
  unpack_balanceOf : ∀ abi out vals, abi_JSON erc20BalanceOfABI = Ok abi →
    abi_Unpack abi "balanceOf" out = Ok vals → ∃ z, vals = [AbiBigInt z] ∧ (0 ≤ z)%Z;
  unpack_latestRoundData : ∀ abi out vals, abi_JSON aggregatorABI = Ok abi →
    abi_Unpack abi "latestRoundData" out = Ok vals →
    ∃ r a s u i, vals = [AbiBigInt r; AbiBigInt a; AbiBigInt s; AbiBigInt u; AbiBigInt i];
  abi_Pack_returns : ∀ abi name args, returns (abi_Pack abi name args);
  abi_Unpack_returns : ∀ abi name out, returns (abi_Unpack abi name out);
}.

Section interfaces.
Context `{Geth} {W : Type}.

(** What the engine may assume of its reader and oracle: balances are
    non-negative, prices positive, and every call comes back. *)
Class SoundReader (r : BalanceReader (W:=W)) := {
  reader_nonneg : ∀ tok acct w b w', BalanceOf r tok acct w = (Ok b, w') → (0 ≤ b)%Z;
  reader_returns : ∀ tok acct w, returns (BalanceOf r tok acct w).1;
}.
Class SoundOracle (o : PriceOracle (W:=W)) := {
  oracle_positive : ∀ feed w p w', Oracle_Price o feed w = (Ok p, w') → (0 < Price_Value p)%Z;
  oracle_returns : ∀ feed w, returns (Oracle_Price o feed w).1;
}.
Class SoundCaller (c : ContractCaller (W:=W)) := {
  caller_returns : ∀ msg bn w, returns (CallContract c msg bn w).1;
}.

Lemma wrap_err_Ok {A} msg (c : go W A) w a w' :
  wrap_err msg c w = (Ok a, w') ↔ c w = (Ok a, w').
Proof.
  unfold wrap_err. destruct (c w) as [[] ?]; split; intros; simplify_eq; done.
Qed.

Lemma wrap_err_returns {A} msg (c : go W A) w : returns (wrap_err msg c w).1 ↔ returns (c w).1.
Proof.
  unfold wrap_err. by destruct (c w) as [[] ?].
Qed.

Lemma returns_bind {A B} (c : go W A) (k : A → go W B) w :
  returns (c w).1 → (∀ a w', c w = (Ok a, w') → returns (k a w').1) → returns (go_bind c k w).1.
Proof. intros Hc Hk. unfold go_bind. destruct (c w) as [[] w']; simpl in *; auto. Qed.

Definition ChainlinkOracle_oracle (o : ChainlinkOracle) : PriceOracle (W:=W) :=
  {| Oracle_Price := ChainlinkOracle_Price o |}.
Definition ChainBalanceReader_reader (r : ChainBalanceReader) : BalanceReader (W:=W) :=
  {| BalanceOf := ChainBalanceReader_BalanceOf r |}.

Implicit Types caller : ContractCaller (W:=W).

Lemma NewChainlinkOracle_inv caller d o :
  NewChainlinkOracle caller d = Ok o →
  abi_JSON aggregatorABI = Ok (ChainlinkOracle_abi o) ∧ ChainlinkOracle_caller o = caller ∧
  ChainlinkOracle_decimals o = d.
Proof. unfold NewChainlinkOracle. intros. case_match; by simplify_eq. Qed.

Lemma NewChainBalanceReader_inv caller r :
  NewChainBalanceReader caller = Ok r →
  abi_JSON erc20BalanceOfABI = Ok (ChainBalanceReader_abi r) ∧ ChainBalanceReader_caller r = caller.
Proof. unfold NewChainBalanceReader. intros. case_match; by simplify_eq. Qed.

Lemma chainlink_sound `{!MarginABILaws} caller d o :
  SoundCaller caller → NewChainlinkOracle caller d = Ok o → SoundOracle (ChainlinkOracle_oracle o).
Proof.
  intros Hc (Habi & Ho & _)%NewChainlinkOracle_inv. split.
  - intros feed w p w' Hp. cbn [Oracle_Price ChainlinkOracle_oracle] in Hp. unfold ChainlinkOracle_Price in Hp.
    go_inv. destruct (Z.leb_spec (Z.sgn a2) 0); [done|]. go_inv. simpl. lia.
  - intros feed w. cbn [Oracle_Price ChainlinkOracle_oracle]. unfold ChainlinkOracle_Price.
    apply returns_bind; [apply abi_Pack_returns|intros data ? _].
    apply returns_bind; [apply wrap_err_returns; rewrite Ho; apply caller_returns|intros out ? _].
    apply returns_bind; [apply wrap_err_returns, abi_Unpack_returns|intros vals ? Hv].
    apply wrap_err_Ok in Hv. unfold go_res in Hv. injection Hv as Hv _.
    destruct (unpack_latestRoundData _ _ _ Habi Hv) as (? & a & ? & ? & ? & ->).
    unfold go_bind, go_res. cbn. by destruct (Z.sgn a <=? 0)%Z.
Qed.

Lemma chain_reader_sound `{!MarginABILaws} caller r :
  SoundCaller caller → NewChainBalanceReader caller = Ok r → SoundReader (ChainBalanceReader_reader r).
Proof.
  intros Hc (Habi & Ho)%NewChainBalanceReader_inv. split.
  - intros tok acct w b w' Hb. cbn [BalanceOf ChainBalanceReader_reader] in Hb. unfold ChainBalanceReader_BalanceOf in Hb.
    apply go_bind_Ok in Hb as (data & ? & _ & Hb). apply go_bind_Ok in Hb as (out & ? & _ & Hb).
    apply go_bind_Ok in Hb as (vals & ? & Hv & Hb).
    apply wrap_err_Ok in Hv. unfold go_res in *. injection Hv as Hv _.
    destruct (unpack_balanceOf _ _ _ Habi Hv) as (z & -> & Hz). cbn in Hb. by simplify_eq.
  - intros tok acct w. cbn [BalanceOf ChainBalanceReader_reader]. unfold ChainBalanceReader_BalanceOf.
    apply returns_bind; [apply abi_Pack_returns|intros data ? _].
    apply returns_bind; [apply wrap_err_returns; rewrite Ho; apply caller_returns|intros out ? _].
    apply returns_bind; [apply wrap_err_returns, abi_Unpack_returns|intros vals ? Hv].
    apply wrap_err_Ok in Hv. unfold go_res in Hv. injection Hv as Hv _.
    by destruct (unpack_balanceOf _ _ _ Habi Hv) as (z & -> & Hz).
Qed.
End interfaces.
