(* ===== verification/MarginRisk.v ===== *)
(** * What the margin engine computes

    A reference valuation of the portfolio, the equality of [Evaluate] with
    it on every run (errors and panics included), and the risk properties
    that follow: thresholds, monotonicity in the debt, the haircut. *)

From S2P Require Import Prelude Geth Rat Margin.
From Stdlib Require Import QArith Qabs Qreduction Lqa.

(** ** The reference valuation *)

Section spec.
Context `{Geth} {W : Type}.

(** One non-empty holding: the asset, its balance and its price. *)
Definition holding : Type := Asset * Z * Price.

(** Read every balance in order and the price of each non-empty one, and
    stop at the first failure. *)
Fixpoint collect (e : Engine (W:=W)) (account : Address) (assets : list Asset) : go W (list holding) :=
  match assets with
  | [] => go_ret []
  | a :: rest =>
      let! bal := wrap_err ("balance " +:+ Asset_Symbol a)
                    (BalanceOf (Engine_reader e) (Asset_Token a) account) in
      if bool_decide (bal = 0%Z) then collect e account rest
      else
        let! price := wrap_err ("price " +:+ Asset_Symbol a)
                        (Oracle_Price (Engine_oracle e) (Asset_PriceFeed a)) in
        let! hs := collect e account rest in
        go_ret ((a, bal, price) :: hs)
  end.

Definition scaled (v : Z) (decimals : N) : Q := inject_Z v / inject_Z (pow10 decimals).

Definition holding_price (h : holding) : Q := scaled (Price_Value h.2) (Price_Decimals h.2).
(** balance / 10^decimals * price. *)
Definition holding_value (h : holding) : Q :=
  scaled h.1.2 (Asset_Decimals h.1.1) * holding_price h.
Definition holding_weighted (h : holding) : Q :=
  holding_value h * Asset_CollateralFactor h.1.1.

Definition qsum (l : list Q) : Q := foldr Qplus 0%Q l.
Definition gross_of (hs : list holding) : Q := qsum (holding_value <$> hs).
Definition weighted_of (hs : list holding) : Q := qsum (holding_weighted <$> hs).

Definition position_of (h : holding) : Position :=
  mkPosition (Asset_Symbol h.1.1) (pretty h.1.2) (FloatString (Qred (holding_price h)) 2)
    (FloatString (Qred (holding_value h)) 2) (FloatString (Asset_CollateralFactor h.1.1) 2)
    (FloatString (Qred (holding_weighted h)) 2).

(** The classification, by comparing the collateral with multiples of the
    debt. *)
Definition classify (cfg : Config) (weighted debt : Q) : string :=
  if Qle_bool debt 0 then StatusHealthy
  else if negb (Qle_bool (Config_LiquidationHF cfg * debt) weighted) then StatusLiquidatable
  else if negb (Qle_bool (Config_MarginCallHF cfg * debt) weighted) then StatusMarginCall
  else StatusHealthy.

Definition report_of (cfg : Config) (account : Address) (debt : Q) (hs : list holding) : Report :=
  mkReport (Address_Hex account) (FloatString (Qred (gross_of hs)) 2)
    (FloatString (Qred (weighted_of hs)) 2) (FloatString debt 2)
    (if Qle_bool debt 0 then "n/a" else FloatString (Qred (weighted_of hs / debt)) 4)
    (classify cfg (weighted_of hs) debt) (position_of <$> hs).
End spec.

(** ** Rationals *)

Lemma pow10_gt0 n : (0 < pow10 n)%Z.
Proof. unfold pow10. apply Z.pow_pos_nonneg; lia. Qed.

Lemma SetFrac_scaled v d : rat_SetFrac v (pow10 d) = Ok (Qred (scaled v d)).
Proof.
  unfold rat_SetFrac, scaled. pose proof (pow10_gt0 d). destruct (pow10 d) as [|p|p]; [lia| |lia].
  f_equal. apply Qred_complete. by rewrite (Qmake_Qdiv v p).
Qed.

Lemma rat_Mul_red x y : rat_Mul (Qred x) y = Qred (x * y).
Proof. apply Qred_complete. by rewrite Qred_correct. Qed.

Lemma rat_Mul_red2 x y : rat_Mul (Qred x) (Qred y) = Qred (x * y).
Proof. apply Qred_complete. by rewrite !Qred_correct. Qed.

Lemma rat_Add_red x y : rat_Add (Qred x) (Qred y) = Qred (x + y).
Proof. apply Qred_complete. by rewrite !Qred_correct. Qed.

Lemma rat_lt_spec x y : rat_lt x y = negb (Qle_bool y x).
Proof.
  unfold rat_lt. destruct (Qle_bool y x) eqn:E; simpl.
  - apply Qle_bool_iff in E. destruct (x ?= y)%Q eqn:C; try done. apply Qlt_alt in C. lra.
  - destruct (x ?= y)%Q eqn:C; try done; [apply Qeq_alt in C|apply Qgt_alt in C].
    all: assert (y <= x)%Q as E' by lra; apply Qle_bool_iff in E'; congruence.
Qed.

Lemma Sign_nonpos x : (rat_Sign x <=? 0)%Z = Qle_bool x 0.
Proof. unfold rat_Sign, Qle_bool. simpl. rewrite Z.mul_1_r. destruct (Qnum x); done. Qed.



(** ** The engine is the reference *)

Section equivalence.
Context `{Geth} {W : Type}.
Implicit Types (e : Engine (W:=W)) (hs : list holding).

Lemma gross_of_cons h hs : gross_of (h :: hs) = (holding_value h + gross_of hs)%Q.
Proof. reflexivity. Qed.
Lemma weighted_of_cons h hs : weighted_of (h :: hs) = (holding_weighted h + weighted_of hs)%Q.
Proof. reflexivity. Qed.

Lemma evaluate_loop_collect e account assets g w ps s :
  evaluate_loop e account assets (Qred g) (Qred w) ps s =
  (let! hs := collect e account assets in
   go_ret (Qred (g + gross_of hs), Qred (w + weighted_of hs), ps ++ (position_of <$> hs))) s.
Proof.
  revert g w ps s. induction assets as [|a assets IH]; intros g w ps s; cbn [evaluate_loop collect].
  - unfold go_bind, go_ret. cbn [fmap list_fmap gross_of weighted_of qsum foldr]. rewrite app_nil_r.
    do 4 f_equal; apply Qred_complete; unfold gross_of, weighted_of, qsum; simpl; lra.
  - rewrite go_bind_assoc. apply go_bind_ext. intros bal s1.
    destruct (decide (bal = 0%Z)) as [->|Hb].
    { rewrite bool_decide_true by done. apply IH. }
    rewrite bool_decide_false by done.
    destruct (Z.eqb_spec (Z.sgn bal) 0) as [E|_]; [by destruct bal|].
    rewrite go_bind_assoc. apply go_bind_ext. intros price s2. unfold Price_Rat.
    rewrite !SetFrac_scaled. unfold go_bind at 1 2 3, go_res. rewrite rat_Mul_red2, rat_Mul_red, !rat_Add_red.
    rewrite IH, go_bind_assoc. apply go_bind_ext. intros hs s3. unfold go_bind, go_ret.
    rewrite <-app_assoc. f_equal. f_equal. f_equal. f_equal; apply Qred_complete.
    all: rewrite ?gross_of_cons, ?weighted_of_cons; apply Qeq_sym, Qplus_assoc.
Qed.
(** [status] of the quotient is the classification by multiples of the
    debt. *)
Lemma status_classify e w d :
  (0 < d)%Q → status e (Qred (w / d)) = classify (Engine_cfg e) w d.
Proof.
  intros Hd. unfold status, classify. rewrite !rat_lt_spec.
  destruct (Qle_bool d 0) eqn:E; [apply Qle_bool_iff in E; lra|].
  assert (∀ x, Qle_bool x (Qred (w / d)) = Qle_bool (x * d) w) as Hx; [|by rewrite !Hx].
  intros x. apply eq_bool_prop_intro. rewrite !Is_true_true, !Qle_bool_iff, Qred_correct.
  split; intros Hle.
  - apply (Qmult_le_compat_r _ _ d) in Hle; [|lra].
    assert (w / d * d == w)%Q as E' by (field; lra). lra.
  - by apply Qle_shift_div_l.
Qed.

Lemma Evaluate_reference_eq e account debt w :
  Evaluate e account debt w =
  (let! hs := collect e account (Config_Assets (Engine_cfg e)) in
   go_ret (report_of (Engine_cfg e) account debt hs)) w.
Proof.
  unfold Evaluate, go_bind at 1. change 0%Q with (Qred 0) at 1 2. rewrite evaluate_loop_collect.
  unfold go_bind at 1 3. destruct (collect _ _ _ w) as [[hs| | |] w']; try done. cbn [go_ret].
  rewrite Sign_nonpos, (Qred_complete (0 + gross_of hs) (gross_of hs)) by ring.
  rewrite (Qred_complete (0 + weighted_of hs) (weighted_of hs)) by ring.
  unfold report_of. destruct (Qle_bool debt 0) eqn:Hd.
  { unfold classify. by rewrite Hd. }
  assert (0 < debt)%Q as Hpos.
  { apply Qnot_le_lt. intros Hle. apply Qle_bool_iff in Hle. congruence. }
  unfold rat_Quo. destruct (Z.eqb_spec (Qnum debt) 0) as [E|_].
  { unfold Qlt in Hpos. simpl in Hpos. lia. }
  rewrite (Qred_complete (Qred (weighted_of hs) / debt) (weighted_of hs / debt))
    by (by rewrite Qred_correct).
  by rewrite <-status_classify.
Qed.

(** C6: On every run, with every outcome of the chain reads, [Evaluate]
    returns what the reference returns: the same first error, wrapped with
    the same symbol, or the report whose collateral figures are the exact
    sums of the holdings, rendered once at the end.  It never divides by
    zero. *)
Theorem Evaluate_is_reference e account debt w :
  Evaluate e account debt w =
  (let! hs := collect e account (Config_Assets (Engine_cfg e)) in
   go_ret (report_of (Engine_cfg e) account debt hs)) w.
Proof.
  apply Evaluate_reference_eq.
Qed.
End equivalence.


(** ** Risk properties *)

(** Statuses ordered by severity. *)
Definition severity (st : string) : nat :=
  if bool_decide (st = StatusLiquidatable) then 2
  else if bool_decide (st = StatusMarginCall) then 1 else 0.

Section risk.
Context `{Geth} {W : Type}.
Implicit Types (e : Engine (W:=W)) (hs : list holding) (cfg : Config).

(** A holding the engine reports: of a configured asset, with a
    non-negative balance and a positive price. *)
Definition sound_holding (assets : list Asset) (h : holding) : Prop :=
  h.1.1 ∈ assets ∧ (0 ≤ h.1.2)%Z ∧ (0 < Price_Value h.2)%Z.

Lemma collect_sound e account assets w hs w' :
  SoundReader (Engine_reader e) → SoundOracle (Engine_oracle e) →
  collect e account assets w = (Ok hs, w') → Forall (sound_holding assets) hs.
Proof.
  intros Hr Ho. revert w hs. induction assets as [|a assets IH]; intros w hs; cbn [collect].
  { intros [= <- <-]. constructor. }
  assert (∀ hs, Forall (sound_holding assets) hs → Forall (sound_holding (a :: assets)) hs) as Hcons.
  { intros ? Hall. eapply Forall_impl; [exact Hall|]. intros h (? & ?). split; [by right|done]. }
  intros (bal & w1 & Hb & Hk)%go_bind_Ok. apply wrap_err_Ok in Hb. apply reader_nonneg in Hb.
  case_bool_decide; [by eapply Hcons, IH|].
  apply go_bind_Ok in Hk as (price & w2 & Hp & Hk). apply wrap_err_Ok in Hp. apply oracle_positive in Hp.
  apply go_bind_Ok in Hk as (hs' & w3 & Hc & Hk). go_inv.
  constructor; [split; [by left|done]|by eapply Hcons, IH].
Qed.

Lemma collect_returns e account assets w :
  SoundReader (Engine_reader e) → SoundOracle (Engine_oracle e) →
  returns (collect e account assets w).1.
Proof.
  intros Hr Ho. revert w. induction assets as [|a assets IH]; intros w; cbn [collect]; [done|].
  apply returns_bind; [apply wrap_err_returns, reader_returns|]. intros bal w1 _.
  case_bool_decide; [apply IH|].
  apply returns_bind; [apply wrap_err_returns, oracle_returns|]. intros price w2 _.
  apply returns_bind; [apply IH|]. done.
Qed.

Lemma scaled_nonneg v d : (0 ≤ v)%Z → (0 <= scaled v d)%Q.
Proof.
  intros Hv. unfold scaled. apply Qle_shift_div_l.
  - change 0%Q with (inject_Z 0). rewrite <-Zlt_Qlt. apply pow10_gt0.
  - rewrite Qmult_0_l. change 0%Q with (inject_Z 0). by rewrite <-Zle_Qle.
Qed.

Lemma holding_value_nonneg assets h : sound_holding assets h → (0 <= holding_value h)%Q.
Proof. intros (_ & Hb & Hp). apply Qmult_le_0_compat; apply scaled_nonneg; lia. Qed.

Lemma weighted_bounds assets hs :
  (∀ a, a ∈ assets → (0 <= Asset_CollateralFactor a <= 1)%Q) →
  Forall (sound_holding assets) hs → (0 <= weighted_of hs <= gross_of hs)%Q.
Proof.
  intros Hf. induction 1 as [|h hs Hh Hhs IH]; [done|].
  rewrite gross_of_cons, weighted_of_cons. pose proof (holding_value_nonneg _ _ Hh) as Hv.
  pose proof (Hf _ (proj1 Hh)) as [Hf0 Hf1]. unfold holding_weighted.
  assert (0 <= holding_value h * Asset_CollateralFactor h.1.1)%Q by (by apply Qmult_le_0_compat).
  assert (holding_value h * Asset_CollateralFactor h.1.1 <= holding_value h)%Q.
  { rewrite <-(Qmult_1_r (holding_value h)) at 2. rewrite !(Qmult_comm (holding_value h)).
    by apply Qmult_le_compat_r. }
  lra.
Qed.

Lemma Qle_bool_false x y : Qle_bool x y = false ↔ (y < x)%Q.
Proof.
  rewrite <-not_true_iff_false, Qle_bool_iff. split; [apply Qnot_le_lt|apply Qlt_not_le].
Qed.

Lemma severity_classify cfg w d :
  severity (classify cfg w d) =
  (if Qle_bool d 0 then 0 else if negb (Qle_bool (Config_LiquidationHF cfg * d) w) then 2
   else if negb (Qle_bool (Config_MarginCallHF cfg * d) w) then 1 else 0)%nat.
Proof. unfold classify. by repeat case_match. Qed.

(** Non-positive thresholds aside, multiples of a larger debt are larger. *)
Lemma classify_mono cfg w d d' :
  (0 <= Config_LiquidationHF cfg)%Q → (0 <= Config_MarginCallHF cfg)%Q → (d <= d')%Q →
  (severity (classify cfg w d) ≤ severity (classify cfg w d'))%nat.
Proof.
  intros HL HM Hd. rewrite !severity_classify. destruct (Qle_bool d 0) eqn:E1; [lia|].
  apply Qle_bool_false in E1. destruct (Qle_bool d' 0) eqn:E2; [apply Qle_bool_iff in E2; lra|].
  assert (∀ k, (0 <= k)%Q → Qle_bool (k * d') w = true → Qle_bool (k * d) w = true) as Hk.
  { intros k Hk. rewrite !Qle_bool_iff. rewrite !(Qmult_comm k). intros.
    pose proof (Qmult_le_compat_r _ _ k Hd Hk). lra. }
  pose proof (Hk _ HL). pose proof (Hk _ HM).
  destruct (Qle_bool (_ * d') w), (Qle_bool (_ * d) w); simpl; try lia;
    destruct (Qle_bool (_ * d') w), (Qle_bool (_ * d) w); simpl; try lia; naive_solver.
Qed.
End risk.

Section risk_claims.
Context `{Geth} {W : Type}.
Implicit Types (e : Engine (W:=W)) (hs : list holding) (cfg : Config).

Lemma Evaluate_Ok_inv e account debt w r w' :
  Evaluate e account debt w = (Ok r, w') →
  ∃ hs, collect e account (Config_Assets (Engine_cfg e)) w = (Ok hs, w') ∧
    r = report_of (Engine_cfg e) account debt hs.
Proof.
  rewrite Evaluate_reference_eq. intros (hs & w1 & Hc & Hr)%go_bind_Ok. go_inv. by exists hs.
Qed.

(** C27: On the same chain state, more debt never gives a less severe
    status, and leaves the collateral figures and positions unchanged. *)
Theorem more_debt_never_safer e account d d' w r r' w1 w2 :
  (0 <= Config_LiquidationHF (Engine_cfg e))%Q → (0 <= Config_MarginCallHF (Engine_cfg e))%Q →
  (d <= d')%Q →
  Evaluate e account d w = (Ok r, w1) → Evaluate e account d' w = (Ok r', w2) →
  (severity (Report_Status r) ≤ severity (Report_Status r'))%nat ∧
  Report_GrossCollateralUSD r = Report_GrossCollateralUSD r' ∧
  Report_WeightedCollateralUSD r = Report_WeightedCollateralUSD r' ∧
  Report_Positions r = Report_Positions r' ∧ w1 = w2.
Proof.
  intros HL HM Hd (hs & Hc & ->)%Evaluate_Ok_inv (hs' & Hc' & ->)%Evaluate_Ok_inv.
  rewrite Hc in Hc'. simplify_eq.
  split; [by apply classify_mono|done].
Qed.

(** C28: With collateral factors in [0,1], the weighted collateral lies
    between zero and the gross value, so an account whose gross collateral
    is below the liquidation multiple of its debt is always reported
    liquidatable. *)
Theorem undercollateralised_is_liquidatable e account debt w r w' :
  SoundReader (Engine_reader e) → SoundOracle (Engine_oracle e) →
  (∀ a, a ∈ Config_Assets (Engine_cfg e) → (0 <= Asset_CollateralFactor a <= 1)%Q) →
  (0 < debt)%Q → Evaluate e account debt w = (Ok r, w') →
  ∃ hs, collect e account (Config_Assets (Engine_cfg e)) w = (Ok hs, w') ∧
    (0 <= weighted_of hs <= gross_of hs)%Q ∧
    ((gross_of hs < Config_LiquidationHF (Engine_cfg e) * debt)%Q →
     Report_Status r = StatusLiquidatable).
Proof.
  intros Hr Ho Hf Hd (hs & Hc & ->)%Evaluate_Ok_inv. exists hs. split; [done|].
  pose proof (weighted_bounds _ _ Hf (collect_sound _ _ _ _ _ _ Hr Ho Hc)) as Hb. split; [done|].
  intros Hg. cbn [Report_Status report_of]. unfold classify.
  rewrite (proj2 (Qle_bool_false debt 0)), (proj2 (Qle_bool_false _ (weighted_of hs))) by lra. done.
Qed.

(** C7: The deployed engine (balances by [balanceOf], prices by
    [latestRoundData], eight decimals) never panics; a report it returns is
    computed from non-negative balances and positive prices, and its gross,
    weighted and health-factor figures are the exact values rounded to the
    nearest cent and the nearest ten-thousandth. *)
Theorem deployed_evaluate_sound `{!MarginABILaws} (client : ContractCaller (W:=W)) reader oracle
    cfg account debt w :
  SoundCaller client → NewChainBalanceReader client = Ok reader →
  NewChainlinkOracle client 8 = Ok oracle →
  let e := NewEngine (ChainBalanceReader_reader reader) (ChainlinkOracle_oracle oracle) cfg in
  match Evaluate e account debt w with
  | (Ok r, w') =>
      ∃ hs, collect e account (Config_Assets cfg) w = (Ok hs, w') ∧
        Forall (sound_holding (Config_Assets cfg)) hs ∧
        renders (Report_GrossCollateralUSD r) (gross_of hs) 2 ∧
        renders (Report_WeightedCollateralUSD r) (weighted_of hs) 2 ∧
        Report_Status r = classify cfg (weighted_of hs) debt ∧
        if Qle_bool debt 0 then Report_HealthFactor r = "n/a"
        else renders (Report_HealthFactor r) (weighted_of hs / debt) 4
  | (Err _, _) => True
  | _ => False
  end.
Proof.
  intros Hcl Hrd Hor e.
  pose proof (chain_reader_sound _ _ Hcl Hrd) as Hr. pose proof (chainlink_sound _ _ _ Hcl Hor) as Ho.
  pose proof (collect_returns e account (Config_Assets cfg) w Hr Ho) as Hret.
  rewrite Evaluate_reference_eq. unfold go_bind.
  destruct (collect e account _ w) as [[hs| | |] w'] eqn:Hc; try done.
  exists hs. split; [done|]. split; [by eapply (collect_sound e)|].
  cbn [Report_GrossCollateralUSD Report_WeightedCollateralUSD Report_Status Report_HealthFactor report_of].
  repeat (split; [by apply FloatString_Qred_renders || done|]).
  case_match; [done|]. apply FloatString_Qred_renders.
Qed.
End risk_claims.

(** ** Concrete accounts *)
Section examples.
Import Toy.

Lemma be_decode_nonneg l : (0 ≤ be_decode l)%Z.
Proof.
  unfold be_decode. assert (∀ acc, 0 ≤ acc → 0 ≤ foldl (λ acc b, acc * 256 + Z.of_N (Byte.to_N b)) acc l)%Z
    as Hl; [|by apply Hl].
  induction l as [|b l IH]; intros acc Hacc; simpl; [done|]. apply IH. lia.
Qed.

#[export] Instance toy_margin_laws : MarginABILaws.
Proof.
  split.
  - intros abi out vals _. simpl. case_bool_decide; [|done]. intros [= <-].
    eexists. split; [reflexivity|]. apply be_decode_nonneg.
  - intros abi out vals _. simpl. case_bool_decide; [|done]. intros [= <-]. by repeat eexists.
  - done.
  - intros. simpl. by repeat case_bool_decide.
Qed.

Definition weth : N := 1.
Definition usdc : N := 2.
Definition wethFeed : N := 241.
Definition usdcFeed : N := 242.
Definition acct : N := 170.

(** The two assets of engine_test.go. *)
Definition test_config : Config :=
  mkConfig [mkAsset "WETH" weth 18 (8 # 10) wethFeed; mkAsset "USDC" usdc 6 (9 # 10) usdcFeed]
    (115 # 100) (1 # 1).

(** A node: WETH at 2000 USD, USDC at 1 USD; the account holds the two
    given balances. *)
Definition test_client (b_weth b_usdc : Z) : ContractCaller (W:=unit) :=
  {| CallContract := λ msg _ w,
       let round p := mjoin (be_encode 32 <$> [1; p * 10 ^ 8; 0; 0; 1]%Z) in
       match CallMsg_To msg with
       | Some a =>
           if bool_decide (a = wethFeed) then (Ok (round 2000), w)%Z
           else if bool_decide (a = usdcFeed) then (Ok (round 1), w)%Z
           else if bool_decide (a = weth) then (Ok (be_encode 32 b_weth), w)
           else if bool_decide (a = usdc) then (Ok (be_encode 32 b_usdc), w)
           else (Err (ErrorString "execution reverted"), w)
       | None => (Err (ErrorString "no contract"), w)
       end |}.

#[export] Instance test_client_sound b1 b2 : SoundCaller (test_client b1 b2).
Proof. split. intros [[a|] d] bn w; simpl; [|done]. by repeat case_bool_decide. Qed.

Definition test_reader (b1 b2 : Z) : ChainBalanceReader := mkChainBalanceReader (test_client b1 b2) erc20BalanceOfABI.
Definition test_oracle (b1 b2 : Z) : ChainlinkOracle := mkChainlinkOracle (test_client b1 b2) aggregatorABI 8.
Definition test_engine (b1 b2 : Z) : Engine :=
  NewEngine (ChainBalanceReader_reader (test_reader b1 b2)) (ChainlinkOracle_oracle (test_oracle b1 b2))
    test_config.

(** TestMultiAssetWithDecimals, through the chain implementations. *)
Example multi_asset_with_decimals :
  match Evaluate (test_engine (10 ^ 18) (1000 * 10 ^ 6)) acct 2000 tt with
  | (Ok r, _) =>
      Report_GrossCollateralUSD r = "3000.00" ∧ Report_WeightedCollateralUSD r = "2500.00" ∧
      Report_HealthFactor r = "1.2500" ∧ Report_Status r = StatusHealthy ∧ length (Report_Positions r) = 2%nat
  | _ => False
  end.
Proof. vm_compute. repeat split. Qed.

(** TestStatusBoundaries. *)
Example status_boundaries :
  (λ d, match Evaluate (test_engine (10 ^ 18) 0) acct d tt with (Ok r, _) => Report_Status r | _ => "" end)
    <$> [1000; 32000 # 23; 1400; 1600; 1700; 0]%Q =
  [StatusHealthy; StatusHealthy; StatusMarginCall; StatusMarginCall; StatusLiquidatable; StatusHealthy].
Proof. by vm_compute. Qed.

Definition run_report (e : Engine (W:=unit)) (d : Q) : Report :=
  match Evaluate e acct d tt with
  | (Ok r, _) => r
  | _ => mkReport "" "" "" "" "" "" []
  end.

Lemma more_debt_never_safer_witness :
  (severity (Report_Status (run_report (test_engine (10 ^ 18) 0) 1000)) ≤
   severity (Report_Status (run_report (test_engine (10 ^ 18) 0) 1700)))%nat.
Proof.
  refine (proj1 (more_debt_never_safer (test_engine (10 ^ 18) 0) acct 1000 1700 tt _ _ tt tt _ _ _ _ _)).
  - by vm_compute.
  - by vm_compute.
  - by vm_compute.
  - by vm_compute.
  - by vm_compute.
Defined.

Lemma undercollateralised_is_liquidatable_witness :
  Report_Status (run_report (test_engine (10 ^ 18) 0) 2001) = StatusLiquidatable.
Proof.
  pose proof (chain_reader_sound (test_client (10 ^ 18) 0) (test_reader (10 ^ 18) 0) _ eq_refl) as Hr.
  pose proof (chainlink_sound (test_client (10 ^ 18) 0) 8 (test_oracle (10 ^ 18) 0) _ eq_refl) as Ho.
  destruct (undercollateralised_is_liquidatable (test_engine (10 ^ 18) 0) acct 2001 tt
    (run_report (test_engine (10 ^ 18) 0) 2001) tt Hr Ho) as (hs & Hc & _ & Hl).
  - intros a [->|[->|[]%elem_of_nil]%elem_of_cons]%elem_of_cons; split; by vm_compute.
  - by vm_compute.
  - by vm_compute.
  - apply Hl. vm_compute in Hc. injection Hc as <-. by vm_compute.
Defined.

Lemma deployed_evaluate_sound_witness :
  ∃ hs, collect (test_engine (10 ^ 18) 7) acct (Config_Assets test_config) tt = (Ok hs, tt) ∧
    renders (Report_GrossCollateralUSD (run_report (test_engine (10 ^ 18) 7) 3)) (gross_of hs) 2.
Proof.
  pose proof (deployed_evaluate_sound (test_client (10 ^ 18) 7) (test_reader (10 ^ 18) 7)
    (test_oracle (10 ^ 18) 7) test_config acct 3 tt _ eq_refl eq_refl) as Hd.
  cbv zeta in Hd. fold (test_engine (10 ^ 18) 7) in Hd.
  replace (Evaluate (test_engine (10 ^ 18) 7) acct 3 tt) with
    (@Ok Report (run_report (test_engine (10 ^ 18) 7) 3), tt) in Hd by (by vm_compute).
  destruct Hd as (hs & Hc & _ & Hg & _). exists hs. exact (conj Hc Hg).
Defined.
End examples.
