(* ===== verification/Http.v ===== *)
(** * HTTP: the parts of net/http the services use, and pkg/httpx

    Requests, the response writer and its write-once status line, the router,
    and the helpers and middleware of pkg/httpx/httpx.go.  Bodies are given by
    the JSON value they spell; JSON text is not modelled below that. *)

From S2P Require Import Prelude.
From Stdlib Require Import Ascii.

(** ** Strings *)

Definition upper_char (c : ascii) : ascii :=
  let n := N_of_ascii c in
  if ((97 <=? n) && (n <=? 122))%N then ascii_of_N (n - 32) else c.

(** [strings.CutPrefix]: the remainder when [s] starts with [p]. *)
Fixpoint CutPrefix (p s : string) : option string :=
  match p, s with
  | EmptyString, _ => Some s
  | String a p', String b s' => if Ascii.eqb a b then CutPrefix p' s' else None
  | String _ _, EmptyString => None
  end.

(** [strings.TrimPrefix]. *)
Definition TrimPrefix (s p : string) : string := default s (CutPrefix p s).

(** [strings.Cut] at the first occurrence of one character. *)
Fixpoint Cut (c : ascii) (s : string) : option (string * string) :=
  match s with
  | EmptyString => None
  | String a s' =>
      if Ascii.eqb a c then Some (EmptyString, s')
      else match Cut c s' with
           | Some (before, after) => Some (String a before, after)
           | None => None
           end
  end.

(** [strings.Split] on one character. *)
Fixpoint Split (c : ascii) (s : string) : list string :=
  match s with
  | EmptyString => [EmptyString]
  | String a s' =>
      if Ascii.eqb a c then EmptyString :: Split c s'
      else match Split c s' with
           | x :: l => String a x :: l
           | [] => [String a EmptyString]
           end
  end.

(** ** Headers *)

(** [textproto.CanonicalMIMEHeaderKey] on names made of token characters:
    the first letter and any letter after a hyphen in upper case, the rest in
    lower case. *)
Fixpoint canonical_from (up : bool) (s : string) : string :=
  match s with
  | EmptyString => EmptyString
  | String c s' =>
      String (if up then upper_char c else lower_char c) (canonical_from (Ascii.eqb c "-"%char) s')
  end.
Definition CanonicalHeaderKey (s : string) : string := canonical_from true s.

(** [http.Header]: canonical names to values. *)
Definition headers : Type := gmap string (list string).
Definition Header_Get (h : headers) (k : string) : string :=
  match h !! CanonicalHeaderKey k with
  | Some (v :: _) => v
  | _ => ""
  end.
Definition Header_Set (h : headers) (k v : string) : headers := <[CanonicalHeaderKey k := [v]]> h.
Definition Header_Del (h : headers) (k : string) : headers := delete (CanonicalHeaderKey k) h.

(** ** Requests and responses *)

(** A request body: the first JSON value of its text, if the text starts with
    one, with the number of bytes read until the value is complete, and the
    length of the whole text. *)
Record body := mkBody {
  body_value : option (json * N);
  body_length : N;
}.

(** [http.Request].  [Req_Query] is the parsed query string;
    [Req_PathValues] the wildcards matched by the router; [Req_ID] the value
    stored in the request context under [requestIDKey]. *)
Record Request := mkRequest {
  Req_Method : string;
  Req_Path : string;
  Req_Query : list (string * string);
  Req_Header : headers;
  Req_Body : body;
  Req_RemoteAddr : string;
  Req_PathValues : list (string * string);
  Req_ID : option string;
  Req_Host : string;
}.

Definition with_header (r : Request) (h : headers) : Request :=
  mkRequest (Req_Method r) (Req_Path r) (Req_Query r) h (Req_Body r) (Req_RemoteAddr r)
    (Req_PathValues r) (Req_ID r) (Req_Host r).
Definition with_path (r : Request) (p : string) : Request :=
  mkRequest (Req_Method r) p (Req_Query r) (Req_Header r) (Req_Body r) (Req_RemoteAddr r)
    (Req_PathValues r) (Req_ID r) (Req_Host r).
Definition with_path_values (r : Request) (pv : list (string * string)) : Request :=
  mkRequest (Req_Method r) (Req_Path r) (Req_Query r) (Req_Header r) (Req_Body r) (Req_RemoteAddr r)
    pv (Req_ID r) (Req_Host r).
Definition with_id (r : Request) (id : string) : Request :=
  mkRequest (Req_Method r) (Req_Path r) (Req_Query r) (Req_Header r) (Req_Body r) (Req_RemoteAddr r)
    (Req_PathValues r) (Some id) (Req_Host r).
Definition with_host (r : Request) (h : string) : Request :=
  mkRequest (Req_Method r) (Req_Path r) (Req_Query r) (Req_Header r) (Req_Body r) (Req_RemoteAddr r)
    (Req_PathValues r) (Req_ID r) h.

(** First value of a key in an association list, or the empty string. *)
Definition assoc_get (l : list (string * string)) (k : string) : string :=
  match list_find (λ kv, kv.1 = k) l with
  | Some (_, kv) => kv.2
  | None => ""
  end.
Definition Query_Get (r : Request) (k : string) : string := assoc_get (Req_Query r) k.
Definition PathValue (r : Request) (k : string) : string := assoc_get (Req_PathValues r) k.

(** The response under construction.  [rs_sent] is the header block that
    went out with the status line: changes made to [rs_header] after that do
    not reach the client. *)
Record Response := mkResponse {
  rs_header : headers;
  rs_status : option N;
  rs_sent : headers;
  rs_body : list json;
}.
Definition fresh_response : Response := mkResponse ∅ None ∅ [].

(** What the services log. *)
Inductive log_line :=
  | LogRequest (method path : string) (status : N) (request_id : string)
  | LogPanic (msg request_id : string)
  | LogWarn (msg : string).

(** The state a handler runs on: the service's own state, the response, the
    [statusWriter]s wrapped around it (innermost first), the log, and the
    random bytes to come ([None]: the read fails). *)
Record hstate (W : Type) := mkHstate {
  hs_app : W;
  hs_resp : Response;
  hs_watch : list N;
  hs_log : list log_line;
  hs_entropy : list (option (list N));
}.
Arguments mkHstate {W}.
Arguments hs_app {W}.
Arguments hs_resp {W}.
Arguments hs_watch {W}.
Arguments hs_log {W}.
Arguments hs_entropy {W}.

(** [http.Handler]. *)
Definition Handler (W : Type) : Type := Request → go (hstate W) unit.

Section httpx.
Context {W : Type}.

Definition on_app {A} (c : go W A) : go (hstate W) A :=
  go_zoom hs_app (λ w s, mkHstate w (hs_resp s) (hs_watch s) (hs_log s) (hs_entropy s)) c.
Definition set_resp (f : Response → Response) : go (hstate W) unit :=
  go_modify (λ s, mkHstate (hs_app s) (f (hs_resp s)) (hs_watch s) (hs_log s) (hs_entropy s)).
Definition log_append (l : log_line) : go (hstate W) unit :=
  go_modify (λ s, mkHstate (hs_app s) (hs_resp s) (hs_watch s) (hs_log s ++ [l]) (hs_entropy s)).

(** [w.Header().Set(k, v)]. *)
Definition ResponseHeader_Set (k v : string) : go (hstate W) unit :=
  set_resp (λ r, mkResponse (Header_Set (rs_header r) k v) (rs_status r) (rs_sent r) (rs_body r)).

(** [w.WriteHeader] of the server: only the first call counts. *)
Definition write_header (code : N) (r : Response) : Response :=
  match rs_status r with
  | None => mkResponse (rs_header r) (Some code) (rs_header r) (rs_body r)
  | Some _ => r
  end.

(** [WriteHeader] through the wrappers: each [statusWriter] records the
    code and passes it on. *)
Definition WriteHeader (code : N) : go (hstate W) unit :=
  go_modify (λ s, mkHstate (hs_app s) (write_header code (hs_resp s))
                    ((λ _, code) <$> hs_watch s) (hs_log s) (hs_entropy s)).

(** [w.Write]: it sends an implicit 200 first. *)
Definition Write (v : json) : go (hstate W) unit :=
  set_resp (λ r, let r := write_header 200 r in
                 mkResponse (rs_header r) (rs_status r) (rs_sent r) (rs_body r ++ [v])).

(** [httpx.JSON] and [httpx.Error]. *)
Definition JSON (status : N) (v : json) : go (hstate W) unit :=
  do! ResponseHeader_Set "Content-Type" "application/json" in
  do! WriteHeader status in
  Write v.
Definition Error (status : N) (msg : string) : go (hstate W) unit :=
  JSON status (JObj [("error", JStr msg)]).

(** ** Middleware *)

(** [hex.EncodeToString]. *)
Definition hex_digit (n : N) : ascii := if (n <? 10)%N then ascii_of_N (48 + n) else ascii_of_N (87 + n).
Fixpoint hex_EncodeToString (b : list N) : string :=
  match b with
  | [] => EmptyString
  | x :: b' => String (hex_digit (x / 16)) (String (hex_digit (x mod 16)) (hex_EncodeToString b'))
  end.

(** [rand.Read] into eight zero bytes, its error ignored. *)
Definition rand_Read8 : go (hstate W) (list N) := λ s,
  match hs_entropy s with
  | [] => (Ok (replicate 8 0%N), s)
  | b :: rest => (Ok (default (replicate 8 0%N) b),
                  mkHstate (hs_app s) (hs_resp s) (hs_watch s) (hs_log s) rest)
  end.

Definition RequestID (next : Handler W) : Handler W := λ r,
  let id := Header_Get (Req_Header r) "X-Request-ID" in
  let! id := (if bool_decide (id = "") then
                let! b := rand_Read8 in go_ret (hex_EncodeToString b)
              else go_ret id) in
  do! ResponseHeader_Set "X-Request-ID" id in
  next (with_id r id).

Definition RequestIDFrom (r : Request) : string := default "" (Req_ID r).

(** [Recovery]: the deferred function runs when [next] panics. *)
Definition Recovery (next : Handler W) : Handler W := λ r s,
  match next r s with
  | (Panic m, s') =>
      (do! log_append (LogPanic m (RequestIDFrom r)) in
       Error 500 "internal error") s'
  | out => out
  end.

Definition push_watch : go (hstate W) unit :=
  go_modify (λ s, mkHstate (hs_app s) (hs_resp s) (200%N :: hs_watch s) (hs_log s) (hs_entropy s)).
Definition pop_watch (s : hstate W) : hstate W :=
  mkHstate (hs_app s) (hs_resp s) (tail (hs_watch s)) (hs_log s) (hs_entropy s).

(** [Logger]: the wrapper lives for the call; a panic skips the log line. *)
Definition Logger (next : Handler W) : Handler W := λ r,
  do! push_watch in
  λ s, match next r s with
       | (Ok _, s') =>
           log_append (LogRequest (Req_Method r) (Req_Path r) (default 200%N (head (hs_watch s')))
                         (RequestIDFrom r)) (pop_watch s')
       | (out, s') => (out, pop_watch s')
       end.

Definition RequireRole (HeaderRole role : string) (next : Handler W) : Handler W := λ r,
  if bool_decide (Header_Get (Req_Header r) HeaderRole = role) then next r
  else Error 403 "insufficient role".

(** [Chain]: from the last middleware to the first. *)
Definition Chain (h : Handler W) (mw : list (Handler W → Handler W)) : Handler W :=
  foldl (λ h f, f h) h (reverse mw).
End httpx.

(** ** Reading a JSON body *)

(** [Decode] of an object into a struct of string fields with
    [DisallowUnknownFields]: the first error is kept and returned, the scan
    goes on. *)
Fixpoint decode_members (fields : list string) (ms : list (string * json))
    (acc : gmap string string) (err : option error) : gmap string string * option error :=
  match ms with
  | [] => (acc, err)
  | (k, v) :: ms' =>
      match match_field fields k with
      | None => decode_members fields ms' acc (Some (default (ErrorString "json: unknown field") err))
      | Some f =>
          match v with
          | JStr x => decode_members fields ms' (<[f := x]> acc) err
          | JNull => decode_members fields ms' acc err
          | _ => decode_members fields ms' acc
                   (Some (default (ErrorString "json: cannot unmarshal into string") err))
          end
      end
  end.

Definition decode_struct (fields : list string) (v : json) : res (gmap string string) :=
  match v with
  | JNull => Ok ∅
  | JObj ms => match decode_members fields ms ∅ None with
               | (acc, None) => Ok acc
               | (_, Some e) => Err e
               end
  | _ => Err (ErrorString "json: cannot unmarshal into struct")
  end.

(** [httpx.DecodeJSON]: the reader is cut after [1<<20] bytes. *)
Definition body_limit : N := 1048576.
Definition DecodeJSON (r : Request) (fields : list string) : res (gmap string string) :=
  match body_value (Req_Body r) with
  | None => Err (ErrorString "json: syntax error")
  | Some (v, upto) =>
      if (upto <=? body_limit)%N then decode_struct fields v
      else Err (ErrorString "http: request body too large")
  end.
Definition field (m : gmap string string) (k : string) : string := default "" (m !! k).

(** ** Reasoning about handlers

    [app_triple I c]: [c] keeps the assertion [I] on the service's state,
    however it ends.  Writing a response keeps every such assertion. *)
Section app_triples.
Context {W : Type} (I : W → Prop).

Definition app_triple {A} (c : go (hstate W) A) : Prop :=
  triple True (λ s, I (hs_app s)) c (λ _ s, I (hs_app s)) (λ s, I (hs_app s)).

Lemma app_ret {A} (a : A) : app_triple (go_ret a).
Proof. by apply triple_ret. Qed.

Lemma app_bind {A B} (c : go (hstate W) A) (k : A → go (hstate W) B) :
  app_triple c → (∀ a, app_triple (k a)) → app_triple (go_bind c k).
Proof. intros Hc Hk. eapply triple_bind; [exact Hc|]. intros a. apply Hk. Qed.

Lemma app_try {A} (c : go (hstate W) A) : app_triple c → app_triple (go_try c).
Proof. intros Hc. apply triple_try. eapply triple_conseq; [exact Hc|done|done|]. naive_solver. Qed.

Lemma app_set_resp f : app_triple (set_resp f).
Proof. by intros s Hs. Qed.
Lemma app_log l : app_triple (log_append l).
Proof. by intros s Hs. Qed.
Lemma app_WriteHeader c : app_triple (WriteHeader c).
Proof. by intros s Hs. Qed.
Lemma app_Write v : app_triple (Write v).
Proof. by intros s Hs. Qed.

Lemma app_JSON st v : app_triple (JSON st v).
Proof. by intros s Hs. Qed.
Lemma app_Error st m : app_triple (Error st m).
Proof. apply app_JSON. Qed.

Lemma app_res {A} (r : res A) : app_triple (go_res r).
Proof. intros s Hs. by destruct r. Qed.

(** Code of the service itself. *)
Lemma app_on_app {A} (c : go W A) :
  triple True I c (λ _, I) I → app_triple (on_app c).
Proof.
  intros Hc s Hs. specialize (Hc _ Hs). unfold on_app, go_zoom. by destruct (c (hs_app s)) as [[] w].
Qed.
End app_triples.
#[export] Hint Resolve app_ret app_bind app_try app_set_resp app_log app_WriteHeader app_Write app_JSON
  app_Error app_res : platform.

(** ** Response bookkeeping *)
Section responses.
Context {W : Type}.
Implicit Types (s : hstate W).

(** Nothing has been written yet. *)
Definition unwritten s : Prop := rs_status (hs_resp s) = None ∧ rs_body (hs_resp s) = [].

Lemma JSON_run st v s :
  unwritten s →
  ∃ s', JSON st v s = (Ok tt, s') ∧ rs_status (hs_resp s') = Some st ∧ rs_body (hs_resp s') = [v] ∧
    hs_app s' = hs_app s.
Proof.
  intros [H1 H2]. eexists. split; [reflexivity|]. cbn. unfold write_header. cbn. rewrite H1. cbn.
  by rewrite H2.
Qed.

Lemma on_app_run {A} (c : go W A) s :
  on_app c s = ((c (hs_app s)).1, mkHstate (c (hs_app s)).2 (hs_resp s) (hs_watch s) (hs_log s) (hs_entropy s)).
Proof. unfold on_app, go_zoom. by destruct (c (hs_app s)). Qed.

(** The status of an answer that was refused cannot be [ok]. *)
Lemma Error_status st m s s' ok :
  unwritten s → Error st m s = (Ok tt, s') → rs_status (hs_resp s') = Some ok → ok = st.
Proof.
  intros Hu Hr Hs. destruct (JSON_run st (JObj [("error", JStr m)]) s Hu) as (s1 & E & Hst & _).
  unfold Error in Hr. rewrite E in Hr. congruence.
Qed.

Lemma unwritten_app s w : unwritten s →
  unwritten (mkHstate w (hs_resp s) (hs_watch s) (hs_log s) (hs_entropy s)).
Proof. done. Qed.
End responses.
