(* ===== verification/Middleware.v ===== *)
(** * What the middleware and the body reader guarantee (pkg/httpx/httpx.go) *)

From S2P Require Import Prelude Http.

Section middleware.
Context {W : Type}.
Implicit Types (h : Handler W) (s : hstate W).

(** The stack every service installs. *)
Definition stack h : Handler W := Chain h [RequestID; Logger; Recovery].

(** The request id [RequestID] settles on, and the state on which the
    handler under the stack starts. *)
Definition stack_id (r : Request) s : string :=
  let id := Header_Get (Req_Header r) "X-Request-ID" in
  if bool_decide (id = "") then hex_EncodeToString (default (replicate 8 0%N) (default None (head (hs_entropy s))))
  else id.
Definition stack_start (r : Request) s : hstate W :=
  mkHstate (hs_app s)
    (mkResponse (Header_Set (rs_header (hs_resp s)) "X-Request-ID" (stack_id r s))
       (rs_status (hs_resp s)) (rs_sent (hs_resp s)) (rs_body (hs_resp s)))
    (200%N :: hs_watch s) (hs_log s)
    (if bool_decide (Header_Get (Req_Header r) "X-Request-ID" = "") then tail (hs_entropy s) else hs_entropy s).

Lemma Chain_cons h f mw : Chain h (f :: mw) = f (Chain h mw).
Proof. unfold Chain. rewrite reverse_cons, foldl_app. reflexivity. Qed.

Lemma stack_unfold h : stack h = RequestID (Logger (Recovery h)).
Proof. unfold stack. by rewrite !Chain_cons. Qed.

Lemma stack_run h r s :
  stack h r s = (match Recovery h (with_id r (stack_id r s)) (stack_start r s) with
                 | (Ok _, s') =>
                     log_append (LogRequest (Req_Method r) (Req_Path r) (default 200%N (head (hs_watch s')))
                                   (stack_id r s)) (pop_watch s')
                 | (out, s') => (out, pop_watch s')
                 end).
Proof.
  rewrite stack_unfold. unfold RequestID, stack_start, stack_id.
  destruct (bool_decide (Header_Get (Req_Header r) "X-Request-ID" = "")); [|done].
  unfold go_bind, rand_Read8. by destruct s as [a rs ws lg [|b e]].
Qed.

(** The stack leaves the service's state and, unless the handler panics, the
    response as the handler left them. *)
Lemma stack_app h r s :
  hs_app (stack h r s).2 = hs_app (h (with_id r (stack_id r s)) (stack_start r s)).2.
Proof. rewrite stack_run. unfold Recovery. by destruct (h _ _) as [[[]|e|m|] s']. Qed.

Lemma stack_Ok h r s s' :
  stack h r s = (Ok tt, s') →
  (∃ s1, h (with_id r (stack_id r s)) (stack_start r s) = (Ok tt, s1) ∧ hs_resp s' = hs_resp s1) ∨
  (∃ m s1, h (with_id r (stack_id r s)) (stack_start r s) = (Panic m, s1) ∧
     hs_resp s' = hs_resp (Error 500 "internal error" s1).2).
Proof.
  rewrite stack_run. unfold Recovery. destruct (h _ _) as [[[]|e|m|] s1]; intros [= <-].
  - left. by exists s1.
  - right. by exists m, s1.
Qed.

Lemma stack_start_unwritten r s : unwritten s → unwritten (stack_start r s).
Proof. done. Qed.

(** C30: Under the stack a panic of the handler never escapes.  If the
    handler panics before it has written anything, the client gets status
    500 with a body that does not show the panic, and the log has the panic
    and an access line with status 500, both under the request's id. *)
Theorem panic_becomes_500 h r s m s1 :
  h (with_id r (stack_id r s)) (stack_start r s) = (Panic m, s1) →
  unwritten s1 → hs_watch s1 ≠ [] →
  ∃ s2, stack h r s = (Ok tt, s2) ∧ rs_status (hs_resp s2) = Some 500%N ∧
    rs_body (hs_resp s2) = [JObj [("error", JStr "internal error")]] ∧
    hs_log s2 = hs_log s1 ++ [LogPanic m (stack_id r s); LogRequest (Req_Method r) (Req_Path r) 500 (stack_id r s)].
Proof.
  intros Hh [Hst Hb] Hw. rewrite stack_run. unfold Recovery. rewrite Hh.
  destruct (hs_watch s1) as [|c ws] eqn:Ew; [done|].
  eexists. split; [reflexivity|]. cbn. unfold write_header; cbn. rewrite Hst; cbn. rewrite Hb, Ew.
  cbn. rewrite <-app_assoc. done.
Qed.

(** Under the stack no handler outcome is a panic, whatever the handler
    does. *)
Theorem stack_never_panics h r s m : (stack h r s).1 ≠ Panic m.
Proof.
  rewrite stack_run. unfold Recovery.
  destruct (h _ _) as [[[]|e|p|] s']; try done.
Qed.

(** The guard of an administrator's route: the handler behind it runs
    exactly when the role header has the required value; otherwise the
    answer is 403 and the service's state is untouched. *)
Theorem RequireRole_guards (header role : string) h r s :
  unwritten s →
  if bool_decide (Header_Get (Req_Header r) header = role) then RequireRole header role h r s = h r s
  else ∃ s', RequireRole header role h r s = (Ok tt, s') ∧ rs_status (hs_resp s') = Some 403%N ∧
         hs_app s' = hs_app s.
Proof.
  intros Hu. unfold RequireRole. case_bool_decide; [done|].
  destruct (JSON_run 403 (JObj [("error", JStr "insufficient role")]) s Hu) as (s' & ? & ? & _ & ?). by exists s'.
Qed.
End middleware.

(** ** Bodies *)

Lemma decode_members_err fields ms acc e : (decode_members fields ms acc (Some e)).2 = Some e.
Proof.
  revert acc. induction ms as [|[k v] ms IH]; intros acc; [done|]. cbn [decode_members].
  destruct (match_field fields k); [|apply IH]. destruct v; apply IH.
Qed.

Lemma decode_members_unknown fields ms acc k v :
  (k, v) ∈ ms → match_field fields k = None → (decode_members fields ms acc None).2 ≠ None.
Proof.
  intros Hin Hk. revert acc. induction ms as [|[k' v'] ms IH]; [by apply elem_of_nil in Hin|]. intros acc.
  cbn [decode_members]. apply elem_of_cons in Hin as [[= <- <-]|Hin].
  - rewrite Hk. by rewrite decode_members_err.
  - destruct (match_field fields k') as [f|]; [|by rewrite decode_members_err].
    destruct v'; try (by apply IH); by rewrite decode_members_err.
Qed.


(** ** Examples *)
Section examples.
Definition ex_panicking : Handler unit := λ _, go_panic "nil pointer dereference".
Definition ex_get : Request := mkRequest "GET" "/users" [] {[ "X-Request-Id" := ["abc"] ]} (mkBody None 0%N) "" [] None "".
Definition ex_fresh : hstate unit := mkHstate tt fresh_response [] [] [].

Lemma panic_becomes_500_witness :
  ∃ s2, stack ex_panicking ex_get ex_fresh = (Ok tt, s2) ∧ rs_status (hs_resp s2) = Some 500%N ∧
    rs_body (hs_resp s2) = [JObj [("error", JStr "internal error")]] ∧
    hs_log s2 = [LogPanic "nil pointer dereference" "abc"; LogRequest "GET" "/users" 500 "abc"].
Proof.
  apply (panic_becomes_500 ex_panicking ex_get ex_fresh "nil pointer dereference" (stack_start ex_get ex_fresh)).
  - reflexivity.
  - split; reflexivity.
  - discriminate.
Defined.

Lemma RequireRole_guards_witness :
  ∃ s', RequireRole "X-Auth-Role" "admin" ex_panicking ex_get ex_fresh = (Ok tt, s') ∧
    rs_status (hs_resp s') = Some 403%N ∧ hs_app s' = tt.
Proof. exact (RequireRole_guards "X-Auth-Role" "admin" ex_panicking ex_get ex_fresh (conj eq_refl eq_refl)). Defined.

(** A small object followed by two megabytes of anything. *)
Definition ex_long : Request :=
  mkRequest "POST" "/users" [] ∅ (mkBody (Some (JObj [("email", JStr "a@b.c")], 17%N)) 2097152%N) "" [] None "".

End examples.
