(* ===== verification/Mux.v ===== *)
(** * The request router ([http.ServeMux]) as the services use it

    Patterns with a method, literal segments, one-segment wildcards and
    trailing-slash subtrees; path cleaning, the trailing-slash redirect and
    the 404/405 answers.  [r.URL.Path] is taken without percent-escapes. *)

From S2P Require Import Prelude Http.
From Stdlib Require Import Ascii.

(** ** Paths *)

(** [path.Clean] on the segments of a rooted path; the stack is reversed. *)
Fixpoint clean_segs (stack segs : list string) : list string :=
  match segs with
  | [] => reverse stack
  | x :: segs' =>
      if bool_decide (x = "" ∨ x = ".") then clean_segs stack segs'
      else if bool_decide (x = "..") then clean_segs (tail stack) segs'
      else clean_segs (x :: stack) segs'
  end.

Definition join_path (segs : list string) : string :=
  match segs with
  | [] => "/"
  | _ => foldr (λ x acc, "/" +:+ x +:+ acc) "" segs
  end.

(** [strings.HasSuffix(p, "/")]. *)
Fixpoint ends_in_slash (p : string) : bool :=
  match p with
  | EmptyString => false
  | String c EmptyString => Ascii.eqb c "/"%char
  | String _ p' => ends_in_slash p'
  end.

(** [cleanPath] of net/http. *)
Definition cleanPath (p : string) : string :=
  match p with
  | EmptyString => "/"
  | String c _ =>
      let p := if Ascii.eqb c "/"%char then p else "/" +:+ p in
      let np := join_path (clean_segs [] (Split "/"%char p)) in
      if ends_in_slash p && negb (bool_decide (np = "/")) then np +:+ "/" else np
  end.

(** Segments of a rooted path: [/a/b] is [a; b], [/a/] is [a; ""]. *)
Definition path_segs (p : string) : list string := tail (Split "/"%char p).

(** ** Patterns *)

Inductive pseg :=
  | Lit (s : string)
  | Wild (name : string)
  | Subtree.

Record pattern := mkPattern {
  pat_method : option string;
  pat_segs : list pseg;
}.

(** A wildcard does not match an empty segment; a subtree matches whatever
    follows the slash it stands for. *)
Fixpoint match_segs (ps : list pseg) (segs : list string) : option (list (string * string)) :=
  match ps, segs with
  | [], [] => Some []
  | Subtree :: _, _ :: _ => Some []
  | Lit a :: ps', b :: segs' => if bool_decide (a = b) then match_segs ps' segs' else None
  | Wild x :: ps', b :: segs' =>
      if bool_decide (b = "") then None
      else match match_segs ps' segs' with
           | Some m => Some ((x, b) :: m)
           | None => None
           end
  | _, _ => None
  end.

(** [GET] patterns serve [HEAD] too. *)
Definition method_ok (pm : option string) (m : string) : bool :=
  match pm with
  | None => true
  | Some x => bool_decide (m = x) || (bool_decide (x = "GET") && bool_decide (m = "HEAD"))
  end.

Definition pat_match (p : pattern) (method path : string) : option (list (string * string)) :=
  if method_ok (pat_method p) method then match_segs (pat_segs p) (path_segs path) else None.

(** [exactMatch]: a subtree pattern matches exactly its own path. *)
Definition pat_exact (p : pattern) (path : string) : bool :=
  match last (pat_segs p) with
  | Some Subtree => bool_decide (length (pat_segs p) = length (path_segs path)) && ends_in_slash path
  | _ => true
  end.

Section mux.
Context {W : Type}.

Definition route : Type := pattern * Handler W.

(** The matching route.  [no_overlap] below shows that a mux of this program
    has at most one, so the order of registration does not matter. *)
Fixpoint find_route (routes : list route) (method path : string) :
    option (route * list (string * string)) :=
  match routes with
  | [] => None
  | rt :: routes' =>
      match pat_match rt.1 method path with
      | Some m => Some (rt, m)
      | None => find_route routes' method path
      end
  end.

Definition allowed_methods (routes : list route) (path : string) : list string :=
  omap (λ rt, match match_segs (pat_segs rt.1) (path_segs path) with
              | Some _ => pat_method rt.1
              | None => None
              end) routes.

(** [http.Error] with a plain-text message. *)
Definition text_error (code : N) (msg : string) : go (hstate W) unit :=
  do! ResponseHeader_Set "Content-Type" "text/plain; charset=utf-8" in
  do! ResponseHeader_Set "X-Content-Type-Options" "nosniff" in
  do! WriteHeader code in
  Write (JStr msg).

(** [http.RedirectHandler]; the short HTML body of a GET is left out. *)
Definition redirect (loc : string) : go (hstate W) unit :=
  do! ResponseHeader_Set "Location" loc in
  WriteHeader 307.

Definition exact_route (o : option (route * list (string * string))) (path : string) : bool :=
  match o with
  | Some (rt, _) => pat_exact rt.1 path
  | None => false
  end.

(** [mux.ServeHTTP] for methods other than CONNECT. *)
Definition mux_serve (routes : list route) : Handler W := λ r,
  let path := cleanPath (Req_Path r) in
  let found := find_route routes (Req_Method r) path in
  if negb (exact_route found path) && negb (ends_in_slash path) &&
     exact_route (find_route routes (Req_Method r) (path +:+ "/")) (path +:+ "/")
  then redirect (path +:+ "/")
  else if negb (bool_decide (path = Req_Path r)) then redirect path
  else match found with
       | Some (rt, m) => rt.2 (with_path_values r m)
       | None =>
           match allowed_methods routes path with
           | [] => text_error 404 "404 page not found"
           | ms => do! ResponseHeader_Set "Allow" (String.concat ", " ms) in
                   text_error 405 "Method Not Allowed"
           end
       end.
End mux.

(** ** Overlap *)

Definition seg_overlap (p q : pseg) : bool :=
  match p, q with
  | Lit a, Lit b => bool_decide (a = b)
  | Lit a, Wild _ | Wild _, Lit a => negb (bool_decide (a = ""))
  | _, _ => true
  end.

Fixpoint segs_overlap (ps qs : list pseg) : bool :=
  match ps, qs with
  | [], [] => true
  | Subtree :: _, _ :: _ | _ :: _, Subtree :: _ => true
  | p :: ps', q :: qs' => seg_overlap p q && segs_overlap ps' qs'
  | _, _ => false
  end.

Definition method_overlap (p q : option string) : bool :=
  match p, q with
  | Some x, Some y => bool_decide (x = y)
  | _, _ => true
  end.

Definition overlap (p q : pattern) : bool :=
  method_overlap (pat_method p) (pat_method q) && segs_overlap (pat_segs p) (pat_segs q).

(** Patterns of a mux, pairwise without overlap. *)
Fixpoint no_overlap (ps : list pattern) : bool :=
  match ps with
  | [] => true
  | p :: ps' => forallb (λ q, negb (overlap p q)) ps' && no_overlap ps'
  end.

Lemma match_segs_overlap ps qs segs :
  is_Some (match_segs ps segs) → is_Some (match_segs qs segs) → segs_overlap ps qs = true.
Proof.
  revert qs segs. induction ps as [|p ps IH]; intros qs segs.
  - destruct segs; [|by intros [? ?]]. destruct qs as [|q qs]; [done|]. intros _ [? Hq]. by destruct q.
  - destruct segs as [|b segs]; [intros [? Hp]; by destruct p|].
    destruct qs as [|q qs]; [by intros _ [? ?]|].
    destruct p, q; cbn [match_segs segs_overlap seg_overlap]; try done; intros Hp Hq.
    all: repeat case_bool_decide; simpl; subst; try done; try by destruct Hp.
    all: try (by destruct Hq); try (by destruct Hp).
    all: repeat (let H := fresh in match goal with
           | _ : context [match ?x with _ => _ end] |- _ => destruct x eqn:H end);
         try (by destruct Hp); try (by destruct Hq).
    all: eapply IH; eauto.
Qed.

Lemma method_ok_overlap p q m :
  (∀ x, p = Some x → x ≠ "HEAD") → (∀ x, q = Some x → x ≠ "HEAD") →
  method_ok p m = true → method_ok q m = true → method_overlap p q = true.
Proof.
  destruct p as [x|], q as [y|]; simpl; try done. intros Hx Hy Hp Hq.
  specialize (Hx x eq_refl). specialize (Hy y eq_refl).
  apply orb_true_iff in Hp as [Hp|Hp], Hq as [Hq|Hq];
    repeat (apply andb_true_iff in Hp as [? Hp] || apply andb_true_iff in Hq as [? Hq]);
    repeat match goal with H : bool_decide _ = true |- _ => apply bool_decide_eq_true in H end;
    subst; try done; by apply bool_decide_eq_true.
Qed.

(** Without overlap the matching route is found wherever it was registered. *)
Lemma find_route_unique {W} (routes : list (route (W:=W))) rt method path m :
  no_overlap routes.*1 = true →
  (∀ q, q ∈ routes.*1 → pat_method q ≠ Some "HEAD") →
  rt ∈ routes → pat_match rt.1 method path = Some m →
  find_route routes method path = Some (rt, m).
Proof.
  induction routes as [|rt' routes IH]; [by intros _ _ ?%elem_of_nil|].
  cbn [fmap list_fmap no_overlap find_route]. intros [Ho Hr]%andb_true_iff Hh Hin Hm.
  apply elem_of_cons in Hin as [->|Hin]; [by rewrite Hm|].
  destruct (pat_match rt'.1 method path) as [m'|] eqn:Hm'; [exfalso|].
  - apply forallb_forall with (x := rt.1) in Ho; [|by apply list_elem_of_In, list_elem_of_fmap_2].
    apply negb_true_iff in Ho. unfold overlap, pat_match in *.
    destruct (method_ok (pat_method rt.1) method) eqn:E1; [|done].
    destruct (method_ok (pat_method rt'.1) method) eqn:E2; [|done].
    rewrite (method_ok_overlap _ _ method), (match_segs_overlap _ _ (path_segs path)) in Ho; try done.
    all: intros x Hx ->; eapply Hh; [|exact Hx]; set_solver.
  - apply IH; [done| |done|done]. intros q Hq. apply Hh. set_solver.
Qed.

(** A router runs one of its handlers, or answers by itself. *)
Lemma mux_cases {W} (routes : list (route (W:=W))) r s :
  (∃ rt m, rt ∈ routes ∧ mux_serve routes r s = rt.2 (with_path_values r m) s) ∨
  hs_app (mux_serve routes r s).2 = hs_app s.
Proof.
  unfold mux_serve. cbv zeta.
  destruct (_ && _); [by right|]. destruct (negb _); [by right|].
  destruct (find_route _ _ _) as [[rt m]|] eqn:Hf; [|right; by destruct (allowed_methods _ _)].
  left. exists rt, m. split; [|done]. clear -Hf. induction routes as [|rt' routes IH]; [done|]. simpl in Hf.
  destruct (pat_match _ _ _); [simplify_eq; by left|right; by apply IH].
Qed.

(** A router keeps what its handlers keep. *)
Lemma app_mux {W} (I : W → Prop) (routes : list (route (W:=W))) r :
  (∀ rt m, rt ∈ routes → app_triple I (rt.2 (with_path_values r m))) → app_triple I (mux_serve routes r).
Proof.
  intros Hrt s Hs. destruct (mux_cases routes r s) as [(rt & m & Hin & ->)|Heq]; [by apply Hrt|].
  destruct (mux_serve routes r s) as [[] s']; simpl in Heq; rewrite Heq; auto.
Qed.
