(* ===== verification/Auth.v ===== *)
(** * Tokens (pkg/auth/auth.go)

    golang-jwt is a third-party module: signing and parsing are fields of
    [JWTLib], and [JWTLaws] names what its documentation promises. *)

From S2P Require Import Prelude Rat Http.
From Stdlib Require Import Ascii.

Definition RoleUser : string := "user".
Definition RoleAdmin : string := "admin".
Definition HeaderSubject : string := "X-Auth-Subject".
Definition HeaderRole : string := "X-Auth-Role".
Definition ErrInvalidCredentials : error := ErrSentinel "invalid client credentials".
Definition ErrInvalidToken : error := ErrSentinel "invalid or expired token".

(** Times are nanoseconds since the epoch; a [jwt.NumericDate] is truncated to
    the second. *)
Definition second : Z := 1000000000.
Definition NewNumericDate (t : Z) : Z := (t / second * second)%Z.

(** [type Claims struct], with the registered claims the code sets. *)
Record Claims := mkClaims {
  Claims_Role : string;
  Claims_Issuer : string;
  Claims_Subject : string;
  Claims_IssuedAt : option Z;
  Claims_ExpiresAt : option Z;
}.

(** [type Token struct]. *)
Record Token := mkToken {
  Token_AccessToken : string;
  Token_TokenType : string;
  Token_ExpiresIn : Z;
  Token_Role : string;
}.

(** [type Authenticator struct]; the expiry is in nanoseconds. *)
Record Authenticator := NewAuthenticator {
  auth_secret : string;
  auth_issuer : string;
  auth_expiry : Z;
}.

(** The methods a token header can name: HMAC, another family, or none. *)
Inductive signing_method :=
  | SigningMethodHMAC (alg : string)
  | SigningMethodOther (alg : string).
Definition method_alg (m : signing_method) : string :=
  match m with SigningMethodHMAC a | SigningMethodOther a => a end.
Definition SigningMethodHS256 : signing_method := SigningMethodHMAC "HS256".

Class JWTLib := {
  (** [NewWithClaims(method, claims).SignedString(key)]. *)
  jwt_SignedString : signing_method → Claims → string → res string;
  (** The method named in a token's header, and its claims, if the token is
      well formed. *)
  jwt_decode : string → option (signing_method * Claims);
  (** The signature check of a method under a key. *)
  jwt_verify : signing_method → string → string → bool;
  (** [ParseWithClaims(token, claims, keyfunc, WithIssuer, WithValidMethods)]
      at a given time; the result is the claims and [token.Valid]. *)
  jwt_ParseWithClaims : string → (signing_method → res string) → string → list string → Z →
    res (Claims * bool);
}.

(** A claim set that is current: not expired and not issued in the future is
    all that is checked of the dates; a missing date passes. *)
Definition claims_current (now : Z) (c : Claims) : Prop :=
  match Claims_ExpiresAt c with Some e => (now < e)%Z | None => True end.

Class JWTLaws `{JWTLib} := {
  (** A token is accepted only if its method is among the valid ones, the key
      function gave a key, the signature verifies under it, the issuer is the
      expected one and the token has not expired. *)
  jwt_parse_sound : ∀ tok kf iss algs now c v,
    jwt_ParseWithClaims tok kf iss algs now = Ok (c, v) →
    ∃ m key, jwt_decode tok = Some (m, c) ∧ method_alg m ∈ algs ∧ kf m = Ok key ∧
      jwt_verify m key tok = true ∧ Claims_Issuer c = iss ∧ claims_current now c;
  (** and every such token is accepted. *)
  jwt_parse_complete : ∀ tok kf iss algs now c m key,
    jwt_decode tok = Some (m, c) → method_alg m ∈ algs → kf m = Ok key →
    jwt_verify m key tok = true → Claims_Issuer c = iss → claims_current now c →
    jwt_ParseWithClaims tok kf iss algs now = Ok (c, true);
  (** Signing yields a token of that method with those claims, which verifies
      under the same key. *)
  jwt_sign_decode : ∀ m c key tok, jwt_SignedString m c key = Ok tok →
    jwt_decode tok = Some (m, c) ∧ jwt_verify m key tok = true;
}.

Section auth.
Context `{JWTLib}.
Implicit Types (a : Authenticator).

(** [Duration.Seconds] truncated to an int. *)
Definition Issue a (now : Z) (subject role : string) : res Token :=
  let claims := mkClaims role (auth_issuer a) subject (Some (NewNumericDate now))
                  (Some (NewNumericDate (now + auth_expiry a))) in
  match jwt_SignedString SigningMethodHS256 claims (auth_secret a) with
  | Ok signed => Ok (mkToken signed "Bearer" (Z.quot (auth_expiry a) second) role)
  | Err e => Err (WrapError "sign token" e)
  | Panic m => Panic m
  | Diverge => Diverge
  end.

(** The key function passed to the parser. *)
Definition verify_key a (m : signing_method) : res string :=
  match m with
  | SigningMethodHMAC _ => Ok (auth_secret a)
  | SigningMethodOther alg => Err (ErrorString ("unexpected signing method: " +:+ alg))
  end.

Definition Verify a (now : Z) (tokenString : string) : res Claims :=
  match jwt_ParseWithClaims tokenString (verify_key a) (auth_issuer a) ["HS256"] now with
  | Ok (claims, valid) => if (valid : bool) then Ok claims else Err ErrInvalidToken
  | Err _ => Err ErrInvalidToken
  | Panic m => Panic m
  | Diverge => Diverge
  end.

Lemma Verify_inv `{!JWTLaws} a now tok c :
  Verify a now tok = Ok c →
  jwt_decode tok = Some (SigningMethodHS256, c) ∧
  jwt_verify SigningMethodHS256 (auth_secret a) tok = true ∧
  Claims_Issuer c = auth_issuer a ∧ claims_current now c.
Proof.
  unfold Verify. intros Hv. destruct (jwt_ParseWithClaims _ _ _ _ _) as [[c' v]| | |] eqn:Hp; try done.
  destruct v; [|done]. simplify_eq.
  destruct (jwt_parse_sound _ _ _ _ _ _ _ Hp) as (m & key & Hd & Hm & Hk & Hs & Hi & Hc).
  apply list_elem_of_singleton in Hm. destruct m as [alg|alg]; simpl in *; [|done]. by simplify_eq.
Qed.

Lemma Issue_inv `{!JWTLaws} a now subject role t :
  Issue a now subject role = Ok t →
  ∃ c, jwt_decode (Token_AccessToken t) = Some (SigningMethodHS256, c) ∧
    jwt_verify SigningMethodHS256 (auth_secret a) (Token_AccessToken t) = true ∧
    c = mkClaims role (auth_issuer a) subject (Some (NewNumericDate now))
          (Some (NewNumericDate (now + auth_expiry a))) ∧ Token_Role t = role.
Proof.
  unfold Issue. intros Hi. destruct (jwt_SignedString _ _ _) as [tok| | |] eqn:Hs; simplify_eq.
  destruct (jwt_sign_decode _ _ _ _ Hs) as [Hd Hv]. simpl. eauto 10.
Qed.
Lemma Issue_Verify `{!JWTLaws} a now subject role t later :
  Issue a now subject role = Ok t → (later + second ≤ now + auth_expiry a)%Z →
  ∃ c, Verify a later (Token_AccessToken t) = Ok c ∧ Claims_Subject c = subject ∧ Claims_Role c = role.
Proof.
  intros (c & Hd & Hv & -> & _)%Issue_inv Hl.
  pose proof (Z.div_mod (now + auth_expiry a) second ltac:(done)) as E.
  pose proof (Z.mod_pos_bound (now + auth_expiry a) second eq_refl) as B.
  eexists. split.
  - unfold Verify. erewrite jwt_parse_complete; [reflexivity|exact Hd|by left|done|exact Hv|done|].
    unfold claims_current, NewNumericDate; simpl. lia.
  - done.
Qed.
End auth.

Section auth_claims.
Context `{JWTLaws}.

(** C23: A token issued at [now] verifies, with the subject and the role it
    was issued for, at every time up to one second before its expiry (dates
    are truncated to the second), and is rejected from the expiry on. *)
Theorem issued_token_verifies (a : Authenticator) now subject role t later :
  Issue a now subject role = Ok t →
  (((later + second ≤ now + auth_expiry a)%Z →
    ∃ c, Verify a later (Token_AccessToken t) = Ok c ∧ Claims_Subject c = subject ∧ Claims_Role c = role) ∧
   ((now + auth_expiry a ≤ later)%Z → ∀ c, Verify a later (Token_AccessToken t) ≠ Ok c)).
Proof.
  intros Hi. split; [by apply Issue_Verify|].
  apply Issue_inv in Hi as (c & Hd & Hv & -> & _).
  pose proof (Z.div_mod (now + auth_expiry a) second ltac:(done)) as E.
  pose proof (Z.mod_pos_bound (now + auth_expiry a) second eq_refl) as B.
  intros Hl c (Hd' & _ & _ & Hc)%Verify_inv. rewrite Hd in Hd'. simplify_eq.
  unfold claims_current, NewNumericDate in Hc. simpl in Hc. lia.
Qed.

(** C24: [Verify] accepts a token only if its header names HS256, its
    signature verifies under the platform's secret with that method, the
    issuer is the platform and it has not expired; in particular it rejects
    every token that names another algorithm or none. *)
Theorem verify_pins_algorithm (a : Authenticator) now tok m c :
  jwt_decode tok = Some (m, c) →
  (∀ c', Verify a now tok = Ok c' →
     m = SigningMethodHS256 ∧ c' = c ∧ jwt_verify m (auth_secret a) tok = true ∧
     Claims_Issuer c = auth_issuer a ∧ claims_current now c) ∧
  (m ≠ SigningMethodHS256 → ¬ is_Ok (Verify a now tok)).
Proof.
  intros Hd. split.
  - intros c' (Hd' & Hs & Hi & Hc)%Verify_inv. rewrite Hd in Hd'. by simplify_eq.
  - intros Hm Hok. destruct (Verify a now tok) as [c'| | |] eqn:Hv; try done.
    apply Verify_inv in Hv as (Hd' & _). rewrite Hd in Hd'. by simplify_eq.
Qed.
End auth_claims.

(** ** A concrete token format

    The token spells its method, key and claims as length-prefixed fields, so
    that the laws can be checked by computation. *)
Module ToyJWT.
Record toy_token := mkToy {
  toy_method : signing_method;
  toy_key : string;
  toy_claims : Claims;
}.

#[export] Instance signing_method_eq_dec : EqDecision signing_method.
Proof. solve_decision. Defined.

Fixpoint take_string (n : nat) (s : string) : string :=
  match n, s with
  | Datatypes.S n', String c s' => String c (take_string n' s')
  | _, _ => EmptyString
  end.
Fixpoint drop_string (n : nat) (s : string) : string :=
  match n, s with
  | Datatypes.S n', String _ s' => drop_string n' s'
  | _, _ => s
  end.

Definition put_field (s rest : string) : string :=
  pretty (N.of_nat (String.length s)) +:+ String ":"%char (s +:+ rest).
Definition get_field (t : string) : option (string * string) :=
  match Cut ":"%char t with
  | Some (n, rest) =>
      let k := N.to_nat (digits_value n) in Some (take_string k rest, drop_string k rest)
  | None => None
  end.

Lemma take_drop_string s rest :
  take_string (String.length s) (s +:+ rest) = s ∧ drop_string (String.length s) (s +:+ rest) = rest.
Proof.
  induction s as [|c s [IH1 IH2]].
  - split; [by destruct rest|done].
  - change (String c s +:+ rest) with (String c (s +:+ rest)). cbn. by rewrite IH1, IH2.
Qed.

Lemma Cut_digits d rest : all_digits d → Cut ":"%char (d +:+ String ":"%char rest) = Some (d, rest).
Proof.
  induction d as [|c d IH]; [done|]. intros [[x Hc] Hd].
  change (String c d +:+ String ":"%char rest) with (String c (d +:+ String ":"%char rest)). cbn [Cut].
  destruct (Ascii.eqb_spec c ":"%char) as [->|_]; [done|]. by rewrite IH.
Qed.

Lemma get_put_field s rest : get_field (put_field s rest) = Some (s, rest).
Proof.
  unfold get_field, put_field. destruct (pretty_N_digits (N.of_nat (String.length s))) as [Hv Hd].
  rewrite Cut_digits by done. rewrite Hv, Nat2N.id. by destruct (take_drop_string s rest) as [-> ->].
Qed.

Definition show_date (o : option Z) : string :=
  match o with
  | None => ""
  | Some z => String (if (z <? 0)%Z then "-"%char else "+"%char) (pretty (Z.abs_N z))
  end.
Definition read_date (s : string) : option Z :=
  match s with
  | EmptyString => None
  | String c d => Some (if Ascii.eqb c "-"%char then - Z.of_N (digits_value d) else Z.of_N (digits_value d))%Z
  end.
Lemma read_show_date o : read_date (show_date o) = o.
Proof.
  destruct o as [z|]; [|done]. unfold read_date, show_date. rewrite (proj1 (pretty_N_digits _)).
  f_equal. destruct (Z.ltb_spec z 0); cbn; lia.
Qed.

Definition show_method (m : signing_method) : string :=
  match m with
  | SigningMethodHMAC a => String "H"%char a
  | SigningMethodOther a => String "O"%char a
  end.
Definition read_method (s : string) : option signing_method :=
  match s with
  | String "H"%char a => Some (SigningMethodHMAC a)
  | String "O"%char a => Some (SigningMethodOther a)
  | _ => None
  end.

Definition toy_print (t : toy_token) : string :=
  let c := toy_claims t in
  put_field (show_method (toy_method t)) (put_field (toy_key t) (put_field (Claims_Role c)
    (put_field (Claims_Issuer c) (put_field (Claims_Subject c)
      (put_field (show_date (Claims_IssuedAt c)) (put_field (show_date (Claims_ExpiresAt c)) "")))))).

Definition toy_parse (s : string) : option toy_token :=
  '(m, s) ← get_field s; m ← read_method m; '(key, s) ← get_field s; '(role, s) ← get_field s;
  '(iss, s) ← get_field s; '(sub, s) ← get_field s; '(iat, s) ← get_field s; '(exp, s) ← get_field s;
  Some (mkToy m key (mkClaims role iss sub (read_date iat) (read_date exp))).

Lemma toy_parse_print t : toy_parse (toy_print t) = Some t.
Proof.
  unfold toy_parse, toy_print. destruct t as [m key [role iss sub iat exp]]. cbn [toy_method toy_key toy_claims
    Claims_Role Claims_Issuer Claims_Subject Claims_IssuedAt Claims_ExpiresAt].
  rewrite get_put_field. cbn [mbind option_bind].
  assert (read_method (show_method m) = Some m) as -> by (by destruct m). cbn [mbind option_bind].
  do 6 (rewrite get_put_field; cbn [mbind option_bind]). by rewrite !read_show_date.
Qed.

Definition toy_decode (s : string) : option (signing_method * Claims) :=
  (λ t, (toy_method t, toy_claims t)) <$> toy_parse s.
Definition toy_verify (m : signing_method) (key s : string) : bool :=
  match toy_parse s with
  | Some t => bool_decide (toy_method t = m ∧ toy_key t = key)
  | None => false
  end.

#[export] Instance claims_current_dec now c : Decision (claims_current now c).
Proof. unfold claims_current. destruct (Claims_ExpiresAt c); apply _. Defined.

#[export] Instance toy_jwt : JWTLib := {|
  jwt_SignedString m c key := Ok (toy_print (mkToy m key c));
  jwt_decode := toy_decode;
  jwt_verify := toy_verify;
  jwt_ParseWithClaims s kf iss algs now :=
    match toy_decode s with
    | None => Err (ErrorString "token is malformed")
    | Some (m, c) =>
        if bool_decide (method_alg m ∈ algs) then
          match kf m with
          | Ok key =>
              if toy_verify m key s && bool_decide (Claims_Issuer c = iss ∧ claims_current now c)
              then Ok (c, true) else Err (ErrorString "token is invalid")
          | Err e => Err e
          | Panic p => Panic p
          | Diverge => Diverge
          end
        else Err (ErrorString "signing method is invalid")
    end;
|}.

#[export] Instance toy_jwt_laws : JWTLaws.
Proof.
  split; simpl.
  - intros tok kf iss algs now c v Hp. destruct (toy_decode tok) as [[m c']|] eqn:Hd; [|done].
    case_bool_decide as Hm; [|done]. destruct (kf m) as [key| | |] eqn:Hk; try done.
    destruct (toy_verify m key tok) eqn:Hv; [|done]. simpl in Hp.
    case_bool_decide as Hc; [|done]. simplify_eq. naive_solver.
  - intros tok kf iss algs now c m key Hd Hm Hk Hv Hi Hc.
    rewrite Hd, bool_decide_true, Hk, Hv by done. simpl. by rewrite bool_decide_true.
  - intros m c key tok [= <-]. unfold toy_decode, toy_verify. rewrite toy_parse_print. simpl.
    split; [done|]. by apply bool_decide_true.
Qed.
End ToyJWT.

Section auth_witnesses.
Import ToyJWT.

Definition ex_auth : Authenticator := NewAuthenticator "s3cret" "web3-event-platform" (3600 * second).
Definition ex_token (now : Z) : Token :=
  match Issue ex_auth now "admin-client" RoleAdmin with Ok t => t | _ => mkToken "" "" 0 "" end.

Lemma issued_token_verifies_witness :
  (∃ c, Verify ex_auth (second * 100) (Token_AccessToken (ex_token 0)) = Ok c ∧
     Claims_Subject c = "admin-client" ∧ Claims_Role c = RoleAdmin) ∧
  (∀ c, Verify ex_auth (second * 3600) (Token_AccessToken (ex_token 0)) ≠ Ok c).
Proof.
  assert (Issue ex_auth 0 "admin-client" RoleAdmin = Ok (ex_token 0)) as Hi by reflexivity.
  split.
  - apply (proj1 (issued_token_verifies ex_auth _ _ _ _ (second * 100) Hi)). by vm_compute.
  - apply (proj2 (issued_token_verifies ex_auth _ _ _ _ (second * 3600) Hi)). by vm_compute.
Defined.

(** An unsigned token that claims to be an administrator's. *)
Definition ex_forged : Claims := mkClaims RoleAdmin "web3-event-platform" "mallory" None None.
Definition ex_none_token : string := toy_print (mkToy (SigningMethodOther "none") "" ex_forged).

Lemma verify_pins_algorithm_witness : ¬ is_Ok (Verify ex_auth 0 ex_none_token).
Proof.
  assert (jwt_decode ex_none_token = Some (SigningMethodOther "none", ex_forged)) as Hd.
  { unfold ex_none_token, jwt_decode, toy_jwt, toy_decode. by rewrite toy_parse_print. }
  apply (proj2 (verify_pins_algorithm ex_auth 0 _ _ _ Hd)). done.
Defined.
End auth_witnesses.
