(* ===== verification/Float64.v ===== *)
(** * Binary64 arithmetic

    A finite float64 is the rational it denotes; an operation is the exact one
    followed by rounding to the nearest 53-bit significand, ties to even.
    The exponent range is not bounded: the values the program computes (token
    counts and elapsed seconds) stay far inside it. *)

From S2P Require Import Prelude.
From Stdlib Require Import QArith Qabs Qreduction Lqa.
#[local] Open Scope Z_scope.

(** ** Rounding *)

Definition round_half_even (n d : Z) : Z :=
  let q := n / d in
  let r := n mod d in
  if 2 * r <? d then q
  else if d <? 2 * r then q + 1
  else if Z.even q then q else q + 1.

(** A positive fraction [a/b]: scale it up by [2^s] so that its integer part
    has at least 53 bits, keep the leading 53, and scale back. *)
Definition rnd_pos (a b : positive) : Q :=
  let s := 54 + Z.log2 (Zpos b) in
  let A := Zpos a * 2 ^ s in
  let d := Z.log2 (A / Zpos b) - 52 in
  Qred (Qmake (round_half_even A (Zpos b * 2 ^ d) * 2 ^ d) (Z.to_pos (2 ^ s))).

Definition rnd64 (x : Q) : Q :=
  match Qnum x with
  | Z0 => 0%Q
  | Zpos a => rnd_pos a (Qden x)
  | Zneg a => Qopp (rnd_pos a (Qden x))
  end.

Definition fadd (x y : Q) : Q := rnd64 (x + y)%Q.
Definition fsub (x y : Q) : Q := rnd64 (x - y)%Q.
Definition fmul (x y : Q) : Q := rnd64 (x * y)%Q.
Definition fdiv (x y : Q) : Q := rnd64 (x / y)%Q.
Definition of_int (z : Z) : Q := rnd64 (inject_Z z).
(** The built-in [min]. *)
Definition fmin (x y : Q) : Q := if Qle_bool x y then x else y.
Definition flt (x y : Q) : bool := negb (Qle_bool y x).

(** [Duration.Seconds], for a duration in nanoseconds. *)
Definition Duration_Seconds (d : Z) : Q :=
  fadd (of_int (Z.quot d 1000000000)) (fdiv (of_int (Z.rem d 1000000000)) (inject_Z 1000000000)).

(** ** Error bound *)

(** Half a unit in the last place, relative to the value. *)
Definition ulp : Q := (1 # 9007199254740992)%Q.

Lemma round_half_even_close n d : 0 < d → 0 ≤ n → 2 * Z.abs (round_half_even n d * d - n) ≤ d ∧ 0 ≤ round_half_even n d.
Proof.
  intros Hd Hn. unfold round_half_even.
  pose proof (Z.div_mod n d ltac:(lia)). pose proof (Z.mod_pos_bound n d Hd).
  pose proof (Z.div_pos n d Hn Hd).
  destruct (Z.ltb_spec (2 * (n mod d)) d); [split; nia|].
  destruct (Z.ltb_spec d (2 * (n mod d))); [split; nia|].
  destruct (Z.even (n / d)); split; nia.
Qed.

Lemma Qdiff_bound (m D A : Z) (b S : positive) (a : Z) :
  Z.pos S * a = A → 2 * Z.abs (m * (Zpos b * D) - A) ≤ Zpos b * D →
  (Qabs ((m * D # S) - (a # b)) <= D # (2 * S))%Q.
Proof.
  intros HA Hb. unfold Qabs, Qle, Qminus, Qplus, Qopp. simpl.
  rewrite !Pos2Z.inj_mul. change (Z.pos (2 * S)) with (2 * Z.pos S).
  replace (m * D * Z.pos b + - a * Z.pos S) with (m * (Z.pos b * D) - A) by (rewrite <-HA; ring).
  nia.
Qed.

Lemma rnd_pos_close a b : (Qabs (rnd_pos a b - (Zpos a # b)) <= (Zpos a # b) * ulp)%Q ∧ (0 <= rnd_pos a b)%Q.
Proof.
  unfold rnd_pos. rewrite Qred_correct.
  set (s := 54 + Z.log2 (Z.pos b)). set (A := Z.pos a * 2 ^ s). set (d := Z.log2 (A / Z.pos b) - 52).
  assert (0 ≤ s) as Hs by (pose proof (Z.log2_nonneg (Z.pos b)); lia).
  assert (0 < 2 ^ s) as H2s by (by apply Z.pow_pos_nonneg).
  pose proof (Z.log2_spec (Z.pos b) eq_refl) as [_ Hb].
  assert (2 ^ 53 ≤ A / Z.pos b) as Hq.
  { apply Z.div_le_lower_bound; [lia|]. unfold A, s.
    replace (54 + Z.log2 (Z.pos b)) with (53 + Z.succ (Z.log2 (Z.pos b))) by lia.
    rewrite Z.pow_add_r by (pose proof (Z.log2_nonneg (Z.pos b)); lia). nia. }
  pose proof (Z.log2_le_mono _ _ Hq) as Hl. rewrite (Z.log2_pow2 53) in Hl by done.
  assert (0 ≤ d) as Hd by (unfold d; lia).
  assert (0 < 2 ^ d) as H2d by (by apply Z.pow_pos_nonneg).
  pose proof (Z.log2_spec (A / Z.pos b) ltac:(lia)) as [Hlo _].
  replace (Z.log2 (A / Z.pos b)) with (d + 52) in Hlo by (unfold d; lia).
  rewrite Z.pow_add_r in Hlo by lia.
  assert (2 ^ d * 2 ^ 52 * Z.pos b ≤ A) as Hbig.
  { pose proof (Z.mul_div_le A (Z.pos b) eq_refl). nia. }
  destruct (round_half_even_close A (Z.pos b * 2 ^ d) ltac:(nia) ltac:(unfold A; nia)) as [Hc Hpos].
  set (m := round_half_even A (Z.pos b * 2 ^ d)) in *.
  assert (Z.pos (Z.to_pos (2 ^ s)) = 2 ^ s) as HS by (by apply Z2Pos.id).
  split.
  - eapply Qle_trans.
    + apply (Qdiff_bound _ (2 ^ d) A); [rewrite HS; unfold A; ring|]. exact Hc.
    + unfold Qle, Qmult, ulp. simpl. rewrite !Pos2Z.inj_mul. change (Z.pos (2 * ?x)) with (2 * Z.pos x).
      rewrite HS. unfold A in Hbig. change (2 ^ 52) with 4503599627370496 in Hbig. nia.
  - unfold Qle; simpl. nia.
Qed.

Lemma rnd64_close x : (0 <= x)%Q → (x * (1 - ulp) <= rnd64 x <= x * (1 + ulp))%Q ∧ (0 <= rnd64 x)%Q.
Proof.
  intros Hx. unfold rnd64. destruct x as [[|a|a] b]; simpl.
  - assert (0 # b == 0)%Q as E by reflexivity. rewrite E. split; [split|]; lra.
  - destruct (rnd_pos_close a b) as [Hc Hp]. apply Qabs_Qle_condition in Hc. split; [|done]. split; lra.
  - exfalso. unfold Qle in Hx. simpl in Hx. lia.
Qed.
