(* ===== verification/RateLimit.v ===== *)
(** * The in-process rate limiter (internal/gateway/ratelimit.go)

    A token bucket per key in binary64 arithmetic.  The bound on the number
    of requests let through accounts for every rounding. *)

From S2P Require Import Prelude Float64.
From Stdlib Require Import QArith Qabs Qreduction Lqa.

(** [interface Limiter]; [L] is the limiter's state and its clock. *)
Record Limiter (L : Type) := mkLimiter {
  Allow : string → go L bool;
}.
Arguments Allow {L}.

(** [type bucket struct]. *)
Record bucket := mkBucket {
  bucket_tokens : Q;
  bucket_last : Z;
}.

(** [type RateLimiter struct]. *)
Record RateLimiter := mkRateLimiter {
  rl_rate : Q;
  rl_burst : Q;
  rl_buckets : gmap string bucket;
}.

Definition NewRateLimiter (rate burst : Q) : RateLimiter := mkRateLimiter rate burst ∅.

(** [t.Sub(u)] saturates at the range of a Duration. *)
Definition time_Sub (t u : Z) : Z :=
  Z.max (-9223372036854775808) (Z.min 9223372036854775807 (t - u)).

(** The refill of a bucket and the decision, at time [now]. *)
Definition bucket_step (rate burst : Q) (now : Z) (b : bucket) : bool * bucket :=
  let tokens := fmin burst (fadd (bucket_tokens b)
                              (fmul (Duration_Seconds (time_Sub now (bucket_last b))) rate)) in
  if flt tokens 1 then (false, mkBucket tokens now)
  else (true, mkBucket (fsub tokens 1) now).

(** [(rl *RateLimiter) Allow] at the time the clock shows. *)
Definition RateLimiter_Allow (now : Z) (key : string) (rl : RateLimiter) : bool * RateLimiter :=
  match rl_buckets rl !! key with
  | None =>
      (true, mkRateLimiter (rl_rate rl) (rl_burst rl)
               (<[key := mkBucket (fsub (rl_burst rl) 1) now]> (rl_buckets rl)))
  | Some b =>
      let '(ok, b') := bucket_step (rl_rate rl) (rl_burst rl) now b in
      (ok, mkRateLimiter (rl_rate rl) (rl_burst rl) (<[key := b']> (rl_buckets rl)))
  end.

(** A clock beside the limiter: the times still to be read. *)
Definition RateLimiter_limiter : Limiter (RateLimiter * list Z) := {|
  Allow key := λ s,
    match s.2 with
    | [] => (Diverge, s)
    | now :: rest => let '(ok, rl) := RateLimiter_Allow now key s.1 in (Ok ok, (rl, rest))
    end;
|}.

(** ** Requests as a sequence *)

(** A run of requests, each with its time and key, and the decisions. *)
Fixpoint run_requests (reqs : list (Z * string)) (rl : RateLimiter) : list bool * RateLimiter :=
  match reqs with
  | [] => ([], rl)
  | (now, key) :: reqs' =>
      let '(ok, rl1) := RateLimiter_Allow now key rl in
      let '(oks, rl2) := run_requests reqs' rl1 in
      (ok :: oks, rl2)
  end.

(** Requests of [key] that were let through. *)
Fixpoint allowed_count (key : string) (reqs : list (Z * string)) (oks : list bool) : Z :=
  match reqs, oks with
  | (_, k) :: reqs', ok :: oks' =>
      ((if bool_decide (k = key) && ok then 1 else 0) + allowed_count key reqs' oks')%Z
  | _, _ => 0%Z
  end.

(** Times do not go back, and stay within the range of a Duration of [t0]. *)
Fixpoint ordered_from (t : Z) (reqs : list (Z * string)) : Prop :=
  match reqs with
  | [] => True
  | (now, _) :: reqs' => (t ≤ now)%Z ∧ ordered_from now reqs'
  end.

Definition last_time (t : Z) (reqs : list (Z * string)) : Z := default t (fst <$> last reqs).

Section bounds.
Context (rate burst : Q) (Hrate : (0 <= rate)%Q) (Hburst : (1 <= burst)%Q).

Definition seconds_of (d : Z) : Q := inject_Z d / inject_Z 1000000000.

(** Each call gains at most this much by rounding. *)
Definition slack : Q := (8 * ulp * burst)%Q.

Lemma Seconds_bound d : (0 ≤ d)%Z →
  (0 <= Duration_Seconds d <= seconds_of d * (1 + 4 * ulp))%Q.
Proof.
  intros Hd. unfold Duration_Seconds, fadd, fdiv, of_int.
  assert (0 ≤ Z.quot d 1000000000)%Z as Hq by (apply Z.quot_pos; lia).
  pose proof (Z.rem_bound_pos d 1000000000 Hd eq_refl) as [Hr _].
  pose proof (Z.quot_rem d 1000000000 ltac:(lia)) as E.
  assert (inject_Z d == inject_Z 1000000000 * inject_Z (Z.quot d 1000000000) + inject_Z (Z.rem d 1000000000))%Q as EQ.
  { rewrite <-inject_Z_mult, <-inject_Z_plus. by rewrite <-E. }
  set (q := inject_Z (Z.quot d 1000000000)) in *. set (r := inject_Z (Z.rem d 1000000000)) in *.
  assert (0 <= q)%Q as Hq' by (unfold q; change 0%Q with (inject_Z 0); rewrite <-Zle_Qle; lia).
  assert (0 <= r)%Q as Hr' by (unfold r; change 0%Q with (inject_Z 0); rewrite <-Zle_Qle; lia).
  destruct (rnd64_close q Hq') as [[_ Bq] Pq]. destruct (rnd64_close r Hr') as [[_ Br] Pr].
  set (n := rnd64 r / inject_Z 1000000000) in *.
  assert (0 <= n)%Q as Hn by (unfold n; apply Qle_shift_div_l; [done|lra]).
  assert (inject_Z 1000000000 * n == rnd64 r)%Q as En by (unfold n; field; done).
  destruct (rnd64_close n Hn) as [[_ Bn] Pn].
  destruct (rnd64_close (rnd64 q + rnd64 n) ltac:(lra)) as [[_ Bs] Ps].
  split; [done|]. eapply Qle_trans; [exact Bs|]. unfold seconds_of.
  assert (inject_Z d / inject_Z 1000000000 == q + r / inject_Z 1000000000)%Q as ->.
  { rewrite EQ. field. }
  assert (r / inject_Z 1000000000 == r * (1 # 1000000000))%Q as -> by reflexivity.
  change (inject_Z 1000000000) with (1000000000 # 1) in *. unfold ulp in *. lra.
Qed.
Lemma time_Sub_bound now last : (last ≤ now)%Z → (0 ≤ time_Sub now last ≤ now - last)%Z.
Proof. unfold time_Sub. lia. Qed.

Lemma seconds_of_nonneg d : (0 ≤ d)%Z → (0 <= seconds_of d)%Q.
Proof.
  intros Hd. unfold seconds_of. apply Qle_shift_div_l; [done|]. rewrite Qmult_0_l.
  change 0%Q with (inject_Z 0). by rewrite <-Zle_Qle.
Qed.

Lemma seconds_of_plus d e : (seconds_of (d + e) == seconds_of d + seconds_of e)%Q.
Proof. unfold seconds_of. rewrite inject_Z_plus. field. Qed.

Lemma seconds_of_le d e : (d ≤ e)%Z → (seconds_of d <= seconds_of e)%Q.
Proof.
  intros Hd. replace e with (d + (e - d))%Z by lia. rewrite seconds_of_plus.
  pose proof (seconds_of_nonneg (e - d) ltac:(lia)). lra.
Qed.

(** The refill, rounding included, against the exact one. *)
Lemma refill_bound now last t :
  (0 <= t)%Q → (last ≤ now)%Z →
  let y := fadd t (fmul (Duration_Seconds (time_Sub now last)) rate) in
  (0 <= y <= (t + seconds_of (now - last) * rate) * (1 + 7 * ulp))%Q.
Proof.
  intros Ht Hl y. unfold y, fadd, fmul.
  pose proof (time_Sub_bound now last Hl) as [Hs Hs'].
  pose proof (Seconds_bound _ Hs) as [P B].
  pose proof (seconds_of_nonneg _ Hs) as P1. pose proof (seconds_of_le _ _ Hs') as L1.
  set (D := Duration_Seconds _) in *. set (S1 := seconds_of (time_Sub now last)) in *.
  set (S2 := seconds_of (now - last)) in *.
  pose proof (Qmult_le_compat_r _ _ rate B Hrate) as B1.
  pose proof (Qmult_le_compat_r _ _ rate L1 Hrate) as L2.
  pose proof (Qmult_le_0_compat _ _ P Hrate) as P2. pose proof (Qmult_le_0_compat _ _ P1 Hrate) as P3.
  destruct (rnd64_close (D * rate) P2) as [[_ Bm] Pm].
  destruct (rnd64_close (t + rnd64 (D * rate)) ltac:(lra)) as [[_ Ba] Pa].
  split; [done|]. assert (S1 * (1 + 4 * ulp) * rate == S1 * rate * (1 + 4 * ulp))%Q as E by ring.
  rewrite E in B1. unfold ulp in *. lra.
Qed.

Lemma ulp_pos : (0 < ulp)%Q.
Proof. done. Qed.

Lemma bucket_step_bound now b :
  (0 <= bucket_tokens b)%Q → (bucket_last b ≤ now)%Z →
  let '(ok, b') := bucket_step rate burst now b in
  let used := if (ok : bool) then 1%Q else 0%Q in
  (0 <= bucket_tokens b')%Q ∧ bucket_last b' = now ∧
  (bucket_tokens b' + used <= bucket_tokens b + seconds_of (now - bucket_last b) * rate + slack)%Q ∧
  (bucket_tokens b' + used <= burst + slack)%Q.
Proof.
  intros Ht Hl. unfold bucket_step.
  pose proof (refill_bound now _ _ Ht Hl) as [Hy0 Hy]. cbv zeta in Hy0, Hy.
  set (y := fadd _ _) in *. set (z := (bucket_tokens b + _)%Q) in *.
  assert (0 <= z)%Q as Hz.
  { unfold z. pose proof (seconds_of_nonneg (now - bucket_last b) ltac:(lia)) as P.
    pose proof (Qmult_le_0_compat _ _ P Hrate). lra. }
  assert (0 <= fmin burst y <= burst)%Q as Hm.
  { unfold fmin. destruct (Qle_bool burst y) eqn:E; [lra|]. apply not_true_iff_false in E.
    rewrite Qle_bool_iff in E. lra. }
  assert (fmin burst y <= z + 7 * ulp * burst)%Q as Hmz.
  { destruct (Qlt_le_dec burst z) as [Hb|Hb]; [unfold ulp in *; lra|].
    assert (fmin burst y <= y)%Q.
    { unfold fmin. destruct (Qle_bool burst y) eqn:E; [by apply Qle_bool_iff in E|lra]. }
    unfold ulp in *. lra. }
  unfold flt, slack. destruct (Qle_bool 1 (fmin burst y)) eqn:E; simpl.
  - apply Qle_bool_iff in E. unfold fsub.
    destruct (rnd64_close (fmin burst y - 1) ltac:(lra)) as [[_ Br] Pr].
    split; [done|]. split; [done|]. unfold ulp in *. split; lra.
  - split; [lra|]. split; [done|]. unfold ulp in *. split; lra.
Qed.

(** The buckets of a reachable limiter at time [t]. *)
Definition limiter_ok (t : Z) (rl : RateLimiter) : Prop :=
  rl_rate rl = rate ∧ rl_burst rl = burst ∧
  ∀ k b, rl_buckets rl !! k = Some b → (0 <= bucket_tokens b)%Q ∧ (bucket_last b ≤ t)%Z.

Lemma new_bucket_bound : (0 <= fsub burst 1 <= burst - 1 + slack)%Q.
Proof.
  unfold fsub, slack. destruct (rnd64_close (burst - 1) ltac:(lra)) as [[_ Br] Pr].
  unfold ulp in *. lra.
Qed.

Lemma Allow_ok t now key rl :
  limiter_ok t rl → (t ≤ now)%Z → limiter_ok now (RateLimiter_Allow now key rl).2.
Proof.
  intros (Hr & Hb & Hk) Ht. unfold RateLimiter_Allow.
  assert (∀ bs b', bs = <[key := b']> (rl_buckets rl) → (0 <= bucket_tokens b')%Q → bucket_last b' = now →
    ∀ k b, bs !! k = Some b → (0 <= bucket_tokens b)%Q ∧ (bucket_last b ≤ now)%Z) as Hins.
  { intros ? b' -> H1 H2 k b [[<- <-]|[_ H3]]%lookup_insert_Some; [lia || (split; [done|lia])|].
    destruct (Hk _ _ H3). split; [done|lia]. }
  destruct (rl_buckets rl !! key) as [b|] eqn:E.
  - pose proof (Hk _ _ E) as [H1 H2]. rewrite Hr, Hb.
    pose proof (bucket_step_bound now b H1 ltac:(lia)) as Hs.
    destruct (bucket_step rate burst now b) as [ok b']. destruct Hs as (P & Hl & _).
    split; [done|]. split; [done|]. by eapply Hins.
  - split; [done|]. split; [done|]. rewrite Hb. eapply Hins; [done| |done]. apply new_bucket_bound.
Qed.

Lemma run_ok reqs t rl :
  limiter_ok t rl → ordered_from t reqs → limiter_ok (last_time t reqs) (run_requests reqs rl).2.
Proof.
  revert t rl. induction reqs as [|[now k] reqs IH]; intros t rl Hok Ho; [done|].
  destruct Ho as [Ht Ho]. cbn [run_requests]. pose proof (Allow_ok t now k rl Hok Ht) as H1.
  destruct (RateLimiter_Allow now k rl) as [ok rl1]. simpl in H1. specialize (IH now rl1 H1 Ho).
  destruct (run_requests reqs rl1) as [oks rl2]. simpl in *.
  unfold last_time in *. rewrite last_cons. by destruct (last reqs).
Qed.
Lemma last_time_cons t now k reqs : last_time t ((now, k) :: reqs) = last_time now reqs.
Proof. unfold last_time. rewrite last_cons. by destruct (last reqs). Qed.

Lemma last_time_ge t reqs : ordered_from t reqs → (t ≤ last_time t reqs)%Z.
Proof.
  revert t. induction reqs as [|[now k] reqs IH]; intros t; [done|].
  intros [Ht Ho]. rewrite last_time_cons. specialize (IH now Ho). lia.
Qed.

Lemma slack_nonneg : (0 <= slack)%Q.
Proof. unfold slack. apply Qmult_le_0_compat; [done|lra]. Qed.

(** One request of another key. *)
Lemma Allow_other now k key rl : k ≠ key →
  rl_buckets (RateLimiter_Allow now k rl).2 !! key = rl_buckets rl !! key.
Proof.
  intros Hk. unfold RateLimiter_Allow.
  destruct (rl_buckets rl !! k); [destruct (bucket_step _ _ _ _)|]; cbn [snd rl_buckets].
  all: by rewrite lookup_insert_ne.
Qed.

(** One request of the key itself: what it takes and what it leaves. *)
Lemma Allow_same t now key rl :
  limiter_ok t rl → (t ≤ now)%Z →
  ∃ b', rl_buckets (RateLimiter_Allow now key rl).2 !! key = Some b' ∧ bucket_last b' = now ∧
    let used := if (RateLimiter_Allow now key rl).1 then 1%Q else 0%Q in
    (bucket_tokens b' + used <= burst + slack)%Q ∧
    ∀ b, rl_buckets rl !! key = Some b →
      (bucket_tokens b' + used <= bucket_tokens b + seconds_of (now - bucket_last b) * rate + slack)%Q.
Proof.
  intros (Hr & Hb & Hk) Ht. unfold RateLimiter_Allow. destruct (rl_buckets rl !! key) as [b|] eqn:E.
  - pose proof (Hk _ _ E) as [H1 H2]. rewrite Hr, Hb.
    pose proof (bucket_step_bound now b H1 ltac:(lia)) as Hs.
    destruct (bucket_step rate burst now b) as [ok b']. destruct Hs as (P & Hl & Hs1 & Hs2).
    exists b'. cbn [fst snd rl_buckets]. rewrite lookup_insert_eq. split; [done|]. split; [done|].
    split; [done|]. by intros ? [= <-].
  - eexists. cbn [fst snd rl_buckets]. rewrite lookup_insert_eq. split; [done|]. split; [done|].
    split; [|done]. cbn [bucket_tokens]. rewrite Hb. pose proof new_bucket_bound. lra.
Qed.

(** What a bucket can still let through. *)
Lemma count_from_bucket key reqs t rl b :
  limiter_ok t rl → ordered_from t reqs → rl_buckets rl !! key = Some b →
  (inject_Z (allowed_count key reqs (run_requests reqs rl).1) <=
   bucket_tokens b + seconds_of (last_time t reqs - bucket_last b) * rate +
   inject_Z (Z.of_nat (length reqs)) * slack)%Q.
Proof.
  revert t rl b. induction reqs as [|[now k] reqs IH]; intros t rl b Hok Ho Hb.
  - destruct Hok as (_ & _ & Hk). destruct (Hk _ _ Hb) as [P L].
    change (last_time t []) with t. cbn [run_requests fst allowed_count length Z.of_nat].
    pose proof (seconds_of_nonneg (t - bucket_last b) ltac:(lia)) as P1.
    pose proof (Qmult_le_0_compat _ _ P1 Hrate). change (inject_Z (Z.of_nat 0)) with 0%Q. change (inject_Z 0) with 0%Q. lra.
  - destruct Ho as [Ht Ho]. rewrite last_time_cons. cbn [run_requests length].
    pose proof (Allow_ok t now k rl Hok Ht) as H1. pose proof (last_time_ge now reqs Ho) as Hge.
    rewrite Nat2Z.inj_succ, <-Z.add_1_l, inject_Z_plus. pose proof slack_nonneg as Hsl.
    destruct (decide (k = key)) as [->|Hne].
    + destruct (Allow_same t now key rl Hok Ht) as (b' & Hb' & Hl' & _ & Hu). specialize (Hu b Hb).
      destruct (RateLimiter_Allow now key rl) as [ok rl1]. simpl in H1, Hb', Hu.
      specialize (IH now rl1 b' H1 Ho Hb'). destruct (run_requests reqs rl1) as [oks rl2].
      cbn [fst allowed_count] in *. rewrite bool_decide_true by done. rewrite inject_Z_plus. rewrite Hl' in IH.
      replace (last_time now reqs - bucket_last b)%Z with
        ((now - bucket_last b) + (last_time now reqs - now))%Z by lia.
      rewrite seconds_of_plus, Qmult_plus_distr_l. change (inject_Z 1) with 1%Q.
      destruct ok; cbn [andb]; [change (inject_Z 1) with 1%Q|change (inject_Z 0) with 0%Q]; lra.
    + pose proof (Allow_other now k key rl Hne) as Hbo. rewrite Hb in Hbo.
      destruct (RateLimiter_Allow now k rl) as [ok rl1]. simpl in H1, Hbo.
      specialize (IH now rl1 b H1 Ho Hbo). destruct (run_requests reqs rl1) as [oks rl2].
      cbn [fst allowed_count] in *. rewrite bool_decide_false by done. cbn [andb].
      rewrite Z.add_0_l. change (inject_Z 1) with 1%Q. lra.
Qed.

(** In any window, from any reachable state. *)
Lemma count_window key reqs t rl :
  limiter_ok t rl → ordered_from t reqs →
  (inject_Z (allowed_count key reqs (run_requests reqs rl).1) <=
   burst + seconds_of (last_time t reqs - t) * rate + inject_Z (Z.of_nat (length reqs)) * slack)%Q.
Proof.
  revert t rl. induction reqs as [|[now k] reqs IH]; intros t rl Hok Ho.
  - change (last_time t []) with t. cbn [run_requests fst allowed_count length Z.of_nat].
    pose proof (seconds_of_nonneg (t - t) ltac:(lia)) as P.
    pose proof (Qmult_le_0_compat _ _ P Hrate). change (inject_Z (Z.of_nat 0)) with 0%Q. change (inject_Z 0) with 0%Q. lra.
  - destruct Ho as [Ht Ho]. rewrite last_time_cons. cbn [run_requests length].
    pose proof (Allow_ok t now k rl Hok Ht) as H1. pose proof (last_time_ge now reqs Ho) as Hge.
    rewrite Nat2Z.inj_succ, <-Z.add_1_l, inject_Z_plus. pose proof slack_nonneg as Hsl.
    pose proof (seconds_of_le (last_time now reqs - now) (last_time now reqs - t) ltac:(lia)) as Hsec.
    pose proof (Qmult_le_compat_r _ _ rate Hsec Hrate) as Hsr.
    destruct (decide (k = key)) as [->|Hne].
    + destruct (Allow_same t now key rl Hok Ht) as (b' & Hb' & Hl' & Hu & _).
      destruct (RateLimiter_Allow now key rl) as [ok rl1]. simpl in H1, Hb', Hu.
      pose proof (count_from_bucket key reqs now rl1 b' H1 Ho Hb') as Hc.
      destruct (run_requests reqs rl1) as [oks rl2]. cbn [fst allowed_count] in *.
      rewrite bool_decide_true by done. rewrite inject_Z_plus. rewrite Hl' in Hc.
      change (inject_Z 1) with 1%Q.
      destruct ok; cbn [andb]; [change (inject_Z 1) with 1%Q|change (inject_Z 0) with 0%Q]; lra.
    + destruct (RateLimiter_Allow now k rl) as [ok rl1]. simpl in H1.
      specialize (IH now rl1 H1 Ho). destruct (run_requests reqs rl1) as [oks rl2].
      cbn [fst allowed_count] in *. rewrite bool_decide_false by done. cbn [andb].
      rewrite Z.add_0_l. change (inject_Z 1) with 1%Q. lra.
Qed.

Lemma new_limiter_ok t : limiter_ok t (NewRateLimiter rate burst).
Proof. split; [done|]. split; [done|]. intros k b. cbn [rl_buckets NewRateLimiter]. by rewrite lookup_empty. Qed.
End bounds.

(** In any window of any history of requests (times not going back), the
    number of requests of one key let through is at most the burst, plus the
    rate times the length of the window in seconds, plus [8 * 2^-53 * burst]
    per request for the roundings of float64. *)
Theorem rate_limit_window rate burst t0 before t reqs key :
  (0 <= rate)%Q → (1 <= burst)%Q → ordered_from t0 before → (last_time t0 before ≤ t)%Z →
  ordered_from t reqs →
  let rl := (run_requests before (NewRateLimiter rate burst)).2 in
  (inject_Z (allowed_count key reqs (run_requests reqs rl).1) <=
   burst + seconds_of (last_time t reqs - t) * rate +
   inject_Z (Z.of_nat (length reqs)) * slack burst)%Q.
Proof.
  intros Hr Hb Ho Ht Hq rl. apply (count_window rate burst Hr Hb); [|done].
  destruct (run_ok rate burst Hr Hb before t0 _ (new_limiter_ok rate burst t0) Ho) as (? & ? & Hk).
  split; [done|]. split; [done|]. intros k b Hkb. destruct (Hk k b Hkb). split; [done|]. lia.
Qed.

(** Clients with different keys do not affect each other: a request
    leaves every other key's bucket, and so every later decision about it, as
    it was; and the first request of a key is always let through. *)
Theorem rate_limit_isolation now key rl :
  (∀ key' later, key' ≠ key →
     (RateLimiter_Allow later key' (RateLimiter_Allow now key rl).2).1 = (RateLimiter_Allow later key' rl).1) ∧
  (rl_buckets rl !! key = None → (RateLimiter_Allow now key rl).1 = true).
Proof.
  split.
  - intros key' later Hne. assert (key ≠ key') as Hne' by congruence.
    pose proof (Allow_other now key key' rl Hne') as E.
    assert (rl_rate (RateLimiter_Allow now key rl).2 = rl_rate rl ∧
            rl_burst (RateLimiter_Allow now key rl).2 = rl_burst rl) as [E1 E2].
    { unfold RateLimiter_Allow. destruct (rl_buckets rl !! key); [|done]. by destruct (bucket_step _ _ _ _). }
    unfold RateLimiter_Allow at 1 3. rewrite E, E1, E2. destruct (rl_buckets rl !! key'); [|done].
    by destruct (bucket_step _ _ _ _).
  - intros E. unfold RateLimiter_Allow. by rewrite E.
Qed.

(** ** The limiter of the gateway: 20 per second, bursts of 40 *)

Definition ex_burst (n : nat) (t : Z) : list (Z * string) := replicate n (t, "10.0.0.7").

(** 50 requests at once: 40 pass; a second later 20 more do. *)
Example burst_then_refill :
  let '(oks, rl) := run_requests (ex_burst 50 0) (NewRateLimiter 20 40) in
  let '(oks', _) := run_requests (ex_burst 50 1000000000) rl in
  (allowed_count "10.0.0.7" (ex_burst 50 0) oks, allowed_count "10.0.0.7" (ex_burst 50 0) oks') = (40, 20)%Z.
Proof. by vm_compute. Qed.

Lemma rate_limit_window_witness :
  (inject_Z (allowed_count "10.0.0.7" (ex_burst 50 1000000000)
     (run_requests (ex_burst 50 1000000000) (run_requests (ex_burst 50 0) (NewRateLimiter 20 40)).2).1) <=
   40 + seconds_of (1000000000 - 0) * 20 + inject_Z 50 * slack 40)%Q.
Proof.
  pose proof (rate_limit_window 20 40 0 (ex_burst 50 0) 0 (ex_burst 50 1000000000) "10.0.0.7") as Hw.
  apply Hw; by vm_compute.
Defined.
