(* ===== verification/RedisLimit.v ===== *)
(** * The shared rate limiter (internal/gateway/ratelimit_redis.go)

    go-redis is a third-party client: [INCR], [EXPIRE] and [PING] are calls on a
    state [R], and [RedisLaws] says what Redis documents of them. *)

From S2P Require Import Prelude Rat RateLimit.
From Stdlib Require Import Ascii.
#[local] Open Scope Z_scope.

Record RedisClient (R : Type) := mkRedis {
  Incr : string → go R Z;
  Expire : string → Z → go R unit;
  PING : go R unit;
}.
Arguments Incr {R}.
Arguments Expire {R}.
Arguments PING {R}.

(** [type RedisRateLimiter struct], less the client. *)
Record RedisRateLimiter := NewRedisRateLimiter {
  rr_limit : Z;
  rr_window : Z;
}.

Definition nanos : Z := 1000000000.
(** [time.Time.Unix] and [int64(Duration.Seconds())]. *)
Definition Unix (t : Z) : Z := t / nanos.
Definition window_seconds (l : RedisRateLimiter) : Z := Z.quot (rr_window l) nanos.

(** [fmt.Sprintf("rl:%s:%d", key, windowIdx)]. *)
Definition rkey (key : string) (windowIdx : Z) : string := "rl:" +:+ key +:+ String ":"%char (pretty windowIdx).

Section redis.
Context {R : Type} (client : RedisClient R) (time_Now : go R Z).

Definition RedisRateLimiter_Allow (l : RedisRateLimiter) (key : string) : go R bool :=
  let! now := time_Now in
  if bool_decide (window_seconds l = 0) then go_panic "integer divide by zero"
  else
    let k := rkey key (Z.quot (Unix now) (window_seconds l)) in
    let! r := go_try (Incr client k) in
    match r with
    | inl _ => go_ret true
    | inr count =>
        let! _ := (if bool_decide (count = 1) then go_try (Expire client k (rr_window l)) else go_ret (inr tt)) in
        go_ret (bool_decide (count ≤ rr_limit l))
    end.

Definition RedisRateLimiter_Ping : go R unit := PING client.

Definition RedisRateLimiter_limiter (l : RedisRateLimiter) : Limiter R := {| Allow := RedisRateLimiter_Allow l |}.

(** What Redis keeps: the counter of a key (0 when there is none), the time
    it expires if one is set, and the clock. *)
Class RedisLaws (counter : R → string → Z) (deadline : R → string → option Z) (clock : R → Z) : Prop := {
  (** Reading the clock: meanwhile only keys whose time has come go away. *)
  Now_Ok : ∀ r t r', time_Now r = (Ok t, r') → clock r' = t ∧ ∀ k,
    (counter r' k = counter r k ∧ deadline r' k = deadline r k) ∨
    (∃ e, deadline r k = Some e ∧ e ≤ t ∧ counter r' k = 0 ∧ deadline r' k = None);
  Incr_Ok : ∀ k r n r', Incr client k r = (Ok n, r') →
    n = counter r k + 1 ∧ counter r' k = n ∧ deadline r' k = deadline r k ∧ clock r ≤ clock r' ∧
    ∀ k', k' ≠ k → counter r' k' = counter r k' ∧ deadline r' k' = deadline r k';
  (** A failed [INCR] may or may not have been executed. *)
  Incr_Err : ∀ k r e r', Incr client k r = (Err e, r') →
    counter r k ≤ counter r' k ≤ counter r k + 1 ∧ deadline r' k = deadline r k ∧
    ∀ k', k' ≠ k → counter r' k' = counter r k' ∧ deadline r' k' = deadline r k';
  (** A failed [EXPIRE] may or may not have been executed. *)
  Expire_any : ∀ k d r r', (Expire client k d r).2 = r' →
    (∀ k', counter r' k' = counter r k') ∧
    (∀ k', k' ≠ k → deadline r' k' = deadline r k') ∧
    (deadline r' k = deadline r k ∨ ∃ e, deadline r' k = Some e ∧ clock r + d ≤ e);
}.

(** The Redis key of a request made at time [t]. *)
Definition key_at (l : RedisRateLimiter) (t : Z) (key : string) : string :=
  rkey key (Z.quot (Unix t) (window_seconds l)).

(** A history of requests: the time each read, its key, whether Redis
    answered, and the decision. *)
Inductive history (l : RedisRateLimiter) : R → list (Z * string * bool * bool) → Prop :=
  | history_nil r : history l r []
  | history_cons r t r1 key ok r' reqs :
      time_Now r = (Ok t, r1) → RedisRateLimiter_Allow l key r = (Ok ok, r') →
      history l r' reqs →
      history l r ((t, key, is_Ok (Incr client (key_at l t key) r1).1, ok) :: reqs).
End redis.

(** ** Keys *)

Lemma digits_no_colon d x y : all_digits d → d ≠ x +:+ String ":"%char y.
Proof.
  revert d. induction x as [|c x IH]; intros d Hd ->; cbn in Hd; [by destruct Hd as [[? ?] _]|].
  destruct Hd as [_ Hd]. by eapply (IH (x +:+ String ":"%char y)).
Qed.

Lemma last_colon k1 k2 d1 d2 :
  all_digits d1 → all_digits d2 → k1 +:+ String ":"%char d1 = k2 +:+ String ":"%char d2 → k1 = k2 ∧ d1 = d2.
Proof.
  intros H1 H2. revert k2. induction k1 as [|c k1 IH]; intros [|c2 k2] E.
  - by injection E.
  - injection E as <- E. exfalso. by eapply digits_no_colon, E.
  - injection E as -> E. exfalso. by eapply digits_no_colon, eq_sym, E.
  - injection E as -> E. destruct (IH k2 E) as [-> ->]. done.
Qed.

Lemma pretty_nonneg z : 0 ≤ z → pretty z = pretty (Z.to_N z).
Proof. intros Hz. destruct z; [done|done|lia]. Qed.

Lemma rkey_inj k1 k2 i1 i2 : 0 ≤ i1 → 0 ≤ i2 → rkey k1 i1 = rkey k2 i2 → k1 = k2 ∧ i1 = i2.
Proof.
  intros H1 H2 E. unfold rkey in E. injection E as E. rewrite !pretty_nonneg in E by done.
  destruct (pretty_N_digits (Z.to_N i1)) as [V1 D1], (pretty_N_digits (Z.to_N i2)) as [V2 D2].
  destruct (last_colon _ _ _ _ D1 D2 E) as [-> Ed]. split; [done|].
  rewrite Ed, V2 in V1. lia.
Qed.

(** ** One limit per window *)

(** Requests of [key] let through, and requests on which Redis failed. *)
Fixpoint let_through (key : string) (reqs : list (Z * string * bool * bool)) : Z :=
  match reqs with
  | [] => 0
  | (_, k, _, ok) :: reqs' => (if bool_decide (k = key) && ok then 1 else 0) + let_through key reqs'
  end.
Fixpoint failures (reqs : list (Z * string * bool * bool)) : Z :=
  match reqs with
  | [] => 0
  | (_, _, answered, _) :: reqs' => (if (answered : bool) then 0 else 1) + failures reqs'
  end.

Section window.
Context {R : Type} (client : RedisClient R) (time_Now : go R Z).
Context (counter : R → string → Z) (deadline : R → string → option Z) (clock : R → Z).
Context `{!RedisLaws client time_Now counter deadline clock}.
Context (l : RedisRateLimiter) (i : Z).
Context (Hsec : 0 < window_seconds l).

(** [t] lies in the window numbered [i]. *)
Definition in_window (t : Z) : Prop := 0 ≤ t ∧ Z.quot (Unix t) (window_seconds l) = i.
Definition window_end : Z := (i + 1) * window_seconds l * nanos.

Lemma in_window_bounds t : in_window t → 0 ≤ i ∧ t < window_end ∧ window_end ≤ t + rr_window l.
Proof.
  intros [Ht Hi]. unfold window_end, Unix in *. assert (0 ≤ t / nanos) as Hu by (apply Z.div_pos; done || lia).
  assert (window_seconds l * nanos ≤ rr_window l) as Hw.
  { unfold window_seconds in *. pose proof (Z.quot_rem (rr_window l) nanos ltac:(done)) as E.
    assert (0 ≤ rr_window l) as Hr by (destruct (Z.le_gt_cases 0 (rr_window l)); [done|];
      pose proof (Z.quot_opp_l (rr_window l) nanos ltac:(done));
      pose proof (Z.quot_pos (- rr_window l) nanos ltac:(lia) ltac:(done)); lia).
    pose proof (Z.rem_bound_pos (rr_window l) nanos Hr ltac:(done)). lia. }
  rewrite Z.quot_div_nonneg in Hi by lia.
  pose proof (Z.div_mod (t / nanos) (window_seconds l) ltac:(lia)) as E1.
  pose proof (Z.mod_pos_bound (t / nanos) (window_seconds l) Hsec) as B1.
  pose proof (Z.div_mod t nanos ltac:(done)) as E2. pose proof (Z.mod_pos_bound t nanos ltac:(done)) as B2.
  pose proof (Z.div_pos (t / nanos) (window_seconds l) Hu Hsec). rewrite Hi in *.
  assert (0 < nanos) by done. split; [done|]. split; nia.
Qed.

(** The counter of the window's key, and that it outlives the window. *)
Definition counting (K : string) (c : Z) (r : R) : Prop :=
  counter r K = c ∧ (deadline r K = None ∨ ∃ e, deadline r K = Some e ∧ window_end ≤ e).

Lemma counting_now K c r t r1 :
  counting K c r → in_window t → time_Now r = (Ok t, r1) → counting K c r1 ∧ clock r1 = t.
Proof.
  intros [Hc Hd] Ht Hn. destruct (in_window_bounds t Ht) as (_ & Hlt & _).
  destruct (Now_Ok client time_Now _ _ _ Hn) as [Hcl Hk]. split; [|done].
  destruct (Hk K) as [[E1 E2]|(e & He & Hle & _)].
  - split; [by rewrite E1|by rewrite E2].
  - exfalso. destruct Hd as [Hd|(e' & Hd & Hw)]; [congruence|]. rewrite He in Hd. simplify_eq. lia.
Qed.

Lemma Allow_inv key r ok r' t r1 :
  time_Now r = (Ok t, r1) → RedisRateLimiter_Allow client time_Now l key r = (Ok ok, r') →
  (∃ e, Incr client (key_at l t key) r1 = (Err e, r') ∧ ok = true) ∨
  (∃ n r2, Incr client (key_at l t key) r1 = (Ok n, r2) ∧ ok = bool_decide (n ≤ rr_limit l) ∧
     (r' = r2 ∨ (n = 1 ∧ r' = (Expire client (key_at l t key) (rr_window l) r2).2))).
Proof.
  intros Hn Ha. unfold RedisRateLimiter_Allow in Ha. apply go_bind_Ok in Ha as (t' & r1' & Hn' & Ha).
  rewrite Hn in Hn'. injection Hn' as <- <-. case_bool_decide as Hz; [lia|]. fold (key_at l t key) in Ha.
  unfold go_bind at 1, go_try at 1 in Ha.
  destruct (Incr client (key_at l t key) r1) as [[n|e|m|] r2] eqn:Hi; [| |done|done].
  - right. exists n, r2. split; [done|]. case_bool_decide as H1.
    + unfold go_bind, go_try in Ha.
      destruct (Expire client (key_at l t key) (rr_window l) r2) as [[[]|e|m|] r3] eqn:He; try done;
        unfold go_ret in Ha; simplify_eq; (split; [done|]; by right).
    + unfold go_bind, go_ret in Ha. simplify_eq. split; [done|]. by left.
  - left. unfold go_ret in Ha. simplify_eq. by exists e.
Qed.

Lemma window_bound key reqs r c :
  history client time_Now l r reqs → Forall (λ x, in_window x.1.1.1) reqs → 0 ≤ c →
  counting (rkey key i) c r → let_through key reqs ≤ Z.max 0 (rr_limit l - c) + failures reqs.
Proof.
  intros Hh Hw. revert c. induction Hh as [r|r t r1 k ok r' reqs Hn Ha Hh IH]; intros c Hc Hr; [cbn; lia|].
  apply Forall_cons in Hw as [Ht Hw]. cbn [fst] in Ht. specialize (IH Hw).
  destruct (counting_now _ _ _ _ _ Hr Ht Hn) as [[Hr1 Hd1] Hcl].
  destruct (in_window_bounds t Ht) as (Hi0 & Hlt & Hend).
  assert (key_at l t k = rkey k i) as Hk by (unfold key_at; by destruct Ht as [_ ->]). cbn [let_through failures].
  destruct (Allow_inv k r ok r' t r1 Hn Ha) as [(e & Hi & ->)|(n & r2 & Hi & -> & Hr')]; rewrite Hi; cbn [is_Ok fst];
    rewrite Hk in Hi.
  - destruct (Incr_Err client time_Now _ _ _ _ Hi) as (Hcnt & Hdl & Hother).
    destruct (decide (k = key)) as [->|Hne].
    + rewrite bool_decide_true by done. cbn [andb].
      specialize (IH (counter r' (rkey key i)) ltac:(lia)).
      assert (let_through key reqs ≤ Z.max 0 (rr_limit l - counter r' (rkey key i)) + failures reqs) as IH'
        by (apply IH; split; [done|by rewrite Hdl]).
      lia.
    + rewrite bool_decide_false by done. cbn [andb].
      destruct (Hother (rkey key i)) as [E1 E2]; [intros E; apply rkey_inj in E as [? _]; [congruence|lia|lia]|].
      assert (let_through key reqs ≤ Z.max 0 (rr_limit l - c) + failures reqs) as IH'
        by (apply IH; [done|split; [by rewrite E1|by rewrite E2]]).
      lia.
  - destruct (Incr_Ok client time_Now _ _ _ _ Hi) as (-> & Hcnt & Hdl & Hclk & Hother). rewrite Hk in Hr'.
    assert (∀ K c', counting K c' r2 →
      (∀ e, K = rkey k i → clock r2 + rr_window l ≤ e → window_end ≤ e) → counting K c' r') as Hkeep.
    { intros K c' [H1 H2] He. destruct Hr' as [->|[_ ->]]; [done|].
      destruct (Expire_any client time_Now (rkey k i) (rr_window l) r2 _ eq_refl) as (Ec & Ed & Ek).
      split; [by rewrite Ec|]. destruct (decide (K = rkey k i)) as [->|HK]; [|by rewrite Ed].
      destruct Ek as [->|(e & -> & Hle)]; [done|]. right. exists e. split; [done|]. by apply He. }
    destruct (decide (k = key)) as [->|Hne].
    + rewrite bool_decide_true by done. rewrite andb_true_l.
      assert (let_through key reqs ≤ Z.max 0 (rr_limit l - (c + 1)) + failures reqs) as IH'.
      { apply IH; [lia|]. apply Hkeep; [split; [by rewrite Hcnt, Hr1|by rewrite Hdl]|]. intros e _ He. lia. }
      case_bool_decide; lia.
    + rewrite bool_decide_false by done. cbn [andb].
      assert (rkey key i ≠ rkey k i) as HK by (intros E; apply rkey_inj in E as [? _]; [congruence|lia|lia]).
      destruct (Hother _ HK) as [E1 E2].
      assert (let_through key reqs ≤ Z.max 0 (rr_limit l - c) + failures reqs) as IH'.
      { apply IH; [done|]. apply Hkeep; [split; [by rewrite E1|by rewrite E2]|]. intros e E; by destruct HK. }
      lia.
Qed.
End window.


(** Requests of different clients, and of the same client in different
    windows, are counted under different Redis keys. *)
Theorem redis_keys_distinct k1 k2 i1 i2 :
  0 ≤ i1 → 0 ≤ i2 → (k1, i1) ≠ (k2, i2) → rkey k1 i1 ≠ rkey k2 i2.
Proof. intros H1 H2 Hne E. destruct (rkey_inj _ _ _ _ H1 H2 E) as [-> ->]. done. Qed.

Lemma redis_keys_distinct_witness : rkey "10.0.0.7" 1 ≠ rkey "10.0.0.7:1" 1.
Proof. apply (redis_keys_distinct "10.0.0.7" "10.0.0.7:1" 1 1); [lia|lia|discriminate]. Defined.

(** With a window under one second the window number is a division by
    zero: every request panics. *)
Theorem subsecond_window_panics {R} (client : RedisClient R) (time_Now : go R Z) l key r t r1 :
  0 ≤ rr_window l < nanos → time_Now r = (Ok t, r1) →
  RedisRateLimiter_Allow client time_Now l key r = (Panic "integer divide by zero", r1).
Proof.
  intros Hw Hn. unfold RedisRateLimiter_Allow, go_bind. rewrite Hn. unfold window_seconds.
  rewrite Z.quot_small by done. done.
Qed.

(** ** A Redis in memory *)
Section example.
(** Counters with their deadlines, and the clock. *)
Record redis := mkRedisState {
  rd_data : gmap string (Z * option Z);
  rd_clock : Z;
}.
Definition rd_counter (r : redis) (k : string) : Z := default 0 (fst <$> rd_data r !! k).
Definition rd_deadline (r : redis) (k : string) : option Z := rd_data r !! k ≫= snd.
Definition rd_alive (t : Z) (v : Z * option Z) : Prop :=
  match v.2 with Some e => t < e | None => True end.
#[local] Instance rd_alive_dec t v : Decision (rd_alive t v).
Proof. unfold rd_alive. destruct v.2; apply _. Defined.

(** The clock advances by a millisecond at each reading. *)
Definition rd_now : go redis Z := λ r,
  let t := rd_clock r + 1000000 in
  (Ok t, mkRedisState (filter (λ kv, rd_alive t kv.2) (rd_data r)) t).
Definition rd_client : RedisClient redis := {|
  Incr k r := let n := rd_counter r k + 1 in
              (Ok n, mkRedisState (<[k := (n, rd_deadline r k)]> (rd_data r)) (rd_clock r));
  Expire k d r := (Ok tt, mkRedisState (alter (λ v, (v.1, Some (rd_clock r + d))) k (rd_data r)) (rd_clock r));
  PING r := (Ok tt, r) |}.

#[local] Instance rd_laws : RedisLaws rd_client rd_now rd_counter rd_deadline rd_clock.
Proof.
  split.
  - intros r t r' [= <- <-]. split; [done|]. intros k. unfold rd_counter, rd_deadline. cbn [rd_data].
    rewrite map_lookup_filter. destruct (rd_data r !! k) as [[n [e|]]|]; cbn; [|by left|by left].
    case_guard as Ha; cbn; [by left|]. right. exists e. unfold rd_alive in Ha. cbn in Ha. repeat split; lia.
  - intros k r n r' [= <- <-]. unfold rd_counter, rd_deadline. cbn [rd_data rd_clock].
    rewrite lookup_insert_eq. repeat split; [lia|..]; cbn; by rewrite lookup_insert_ne.
  - intros k r e r' [=].
  - intros k d r r' <-. unfold rd_counter, rd_deadline. cbn [rd_data snd Expire rd_client]. split; [|split].
    + intros k'. destruct (decide (k = k')) as [->|]; [|by rewrite lookup_alter_ne].
      rewrite lookup_alter_eq. by destruct (rd_data r !! k').
    + intros k' Hk. by rewrite lookup_alter_ne.
    + rewrite lookup_alter_eq. destruct (rd_data r !! k) as [v|]; [|by left]. right. cbn. eexists. split; [done|lia].
Qed.

Definition ex_limiter : RedisRateLimiter := NewRedisRateLimiter 2 (60 * nanos).

(** The history of [n] requests of one client, as the model runs it. *)
Fixpoint rd_history (n : nat) (r : redis) : list (Z * string * bool * bool) :=
  match n with
  | O => []
  | S n' =>
      match RedisRateLimiter_Allow rd_client rd_now ex_limiter "10.0.0.7" r with
      | (Ok ok, r') => (rd_clock r + 1000000, "10.0.0.7", true, ok) :: rd_history n' r'
      | _ => []
      end
  end.

Lemma rd_history_ok n r : history rd_client rd_now ex_limiter r (rd_history n r).
Proof.
  revert r. induction n as [|n IH]; intros r; [constructor|]. cbn [rd_history].
  destruct (RedisRateLimiter_Allow _ _ _ _ r) as [[ok| | |] r'] eqn:Ha; try constructor.
  by eapply (history_cons rd_client rd_now ex_limiter r _ (rd_now r).2).
Qed.


(** Two of the five get through. *)
Example two_of_five : let_through "10.0.0.7" (rd_history 5 (mkRedisState ∅ 0)) = 2.
Proof. by vm_compute. Qed.

Lemma subsecond_window_panics_witness :
  (RedisRateLimiter_Allow rd_client rd_now (NewRedisRateLimiter 2 500000000) "10.0.0.7" (mkRedisState ∅ 0)).1 =
  Panic "integer divide by zero".
Proof.
  rewrite (subsecond_window_panics rd_client rd_now (NewRedisRateLimiter 2 500000000) "10.0.0.7"
    (mkRedisState ∅ 0) 1000000 (rd_now (mkRedisState ∅ 0)).2); [reflexivity| |reflexivity].
  split; [discriminate|reflexivity].
Defined.
End example.
