(* ===== verification/Proxy.v ===== *)
(** * The reverse proxy (net/http/httputil) as the gateway uses it

    A proxied request is cloned, rewritten by the director, stripped of
    hop-by-hop headers and sent; the answer is copied to the client.  A
    transport error gives 502. *)

From S2P Require Import Prelude Http.
From Stdlib Require Import Ascii.

(** An upstream's answer, and the transport that obtains it. *)
Record UpResponse := mkUp {
  up_status : N;
  up_header : headers;
  up_body : list json;
}.
Definition Transport (W : Type) : Type := Request → go W UpResponse.

(** [textproto.TrimString]: blanks at both ends. *)
Definition is_blank (c : ascii) : bool := Ascii.eqb c " "%char || Ascii.eqb c "009"%char.
Fixpoint trim_left (s : string) : string :=
  match s with
  | String c s' => if is_blank c then trim_left s' else s
  | EmptyString => EmptyString
  end.
Fixpoint trim_right (s : string) : string :=
  match s with
  | EmptyString => EmptyString
  | String c s' =>
      match trim_right s' with
      | EmptyString => if is_blank c then EmptyString else String c EmptyString
      | t => String c t
      end
  end.
Definition TrimString (s : string) : string := trim_right (trim_left s).

(** The comma-separated tokens of a header's values. *)
Definition header_tokens (h : headers) (k : string) : list string :=
  filter (λ t, t ≠ "") (TrimString <$> mjoin (Split ","%char <$> default [] (h !! k))).
Definition has_token (h : headers) (k token : string) : bool :=
  bool_decide (to_lower token ∈ (to_lower <$> header_tokens h k)).

Definition hopHeaders : list string :=
  ["Connection"; "Proxy-Connection"; "Keep-Alive"; "Proxy-Authenticate"; "Proxy-Authorization";
   "Te"; "Trailer"; "Transfer-Encoding"; "Upgrade"].

(** [removeHopByHopHeaders]: first the headers [Connection] names, then the
    standard ones. *)
Definition removeHopByHopHeaders (h : headers) : headers :=
  foldl Header_Del (foldl Header_Del h (header_tokens h "Connection")) hopHeaders.

Definition upgradeType (h : headers) : string :=
  if has_token h "Connection" "Upgrade" then Header_Get h "Upgrade" else "".

(** The headers of the request that is sent. *)
Definition forwarded_header (h : headers) : headers :=
  let reqUpType := upgradeType h in
  let h1 := removeHopByHopHeaders h in
  let h2 := if has_token h "Te" "trailers" then Header_Set h1 "Te" "trailers" else h1 in
  if bool_decide (reqUpType = "") then h2
  else Header_Set (Header_Set h2 "Connection" "Upgrade") "Upgrade" reqUpType.

(** [net.SplitHostPort] on [host:port] and [\[host\]:port]. *)
Definition SplitHostPort (s : string) : option string :=
  match reverse (Split ":"%char s) with
  | [] | [_] => None
  | _ :: rest =>
      let host := String.concat ":" (reverse rest) in
      match host with
      | String "["%char h => match reverse (Split "]"%char h) with
                             | ["" ; x] => Some x
                             | _ => None
                             end
      | _ => match rest with [_] => Some host | _ => None end
      end
  end.

Definition add_forwarded_for (remote : string) (h : headers) : headers :=
  match SplitHostPort remote with
  | None => h
  | Some ip =>
      match h !! "X-Forwarded-For" with
      | Some [] => h
      | Some prior => Header_Set h "X-Forwarded-For" (String.concat ", " prior +:+ ", " +:+ ip)
      | None => Header_Set h "X-Forwarded-For" ip
      end
  end.

(** An absent [User-Agent] is sent as empty rather than as Go's default. *)
Definition keep_user_agent (h : headers) : headers :=
  match h !! "User-Agent" with
  | Some _ => h
  | None => Header_Set h "User-Agent" ""
  end.

(** The request the proxy sends for [r]. *)
Definition outgoing (director : Request → Request) (r : Request) : Request :=
  let out := director r in
  with_header out (keep_user_agent (add_forwarded_for (Req_RemoteAddr r) (forwarded_header (Req_Header out)))).

Section proxy.
Context {W : Type}.

(** [copyHeader]: values are appended. *)
Definition copyHeader (dst src : headers) : headers :=
  union_with (λ a b, Some (a ++ b)) dst src.

Definition ReverseProxy (director : Request → Request) (transport : Transport W) : Handler W := λ r,
  let! res := go_try (on_app (transport (outgoing director r))) in
  match res with
  | inl e =>
      do! log_append (LogWarn (error_Error e)) in
      WriteHeader 502
  | inr up =>
      do! set_resp (λ rs, mkResponse (copyHeader (rs_header rs) (removeHopByHopHeaders (up_header up)))
                            (rs_status rs) (rs_sent rs) (rs_body rs)) in
      do! WriteHeader (up_status up) in
      go_for (up_body up) Write
  end.

(** A service reached over the network: it runs on a response of its own. *)
Definition serve_upstream {U} (get : W → U) (put : U → W → W) (h : Handler U) : Transport W := λ r w,
  match h r (mkHstate (get w) fresh_response [] [] []) with
  | (Ok _, s) =>
      let rs := write_header 200 (hs_resp s) in
      (Ok (mkUp (default 200%N (rs_status rs)) (rs_sent rs) (rs_body rs)), put (hs_app s) w)
  | (Diverge, s) => (Diverge, put (hs_app s) w)
  | (_, s) => (Err (ErrorString "EOF"), put (hs_app s) w)
  end.
End proxy.

(** ** What the hop-by-hop rules can do to a header *)

Lemma Header_Del_lookup h ks k :
  foldl Header_Del h ks !! k = h !! k ∨ foldl Header_Del h ks !! k = None.
Proof.
  revert h. induction ks as [|x ks IH]; intros h; simpl; [by left|].
  destruct (IH (Header_Del h x)) as [->| ->]; [|by right].
  unfold Header_Del. destruct (decide (CanonicalHeaderKey x = k)) as [->|].
  - right. apply lookup_delete_eq.
  - left. by apply lookup_delete_ne.
Qed.

Lemma Header_Set_lookup_ne h k k' v : CanonicalHeaderKey k ≠ k' → Header_Set h k v !! k' = h !! k'.
Proof. intros. by apply lookup_insert_ne. Qed.

(** The headers the proxy itself writes. *)
Definition proxy_headers : list string := ["Te"; "Connection"; "Upgrade"; "X-Forwarded-For"; "User-Agent"].

Lemma proxy_header_set x v (g : headers) k :
  k ∉ proxy_headers → bool_decide (x ∈ proxy_headers) = true → Header_Set g x v !! k = g !! k.
Proof.
  intros Hk Hx%bool_decide_eq_true. apply Header_Set_lookup_ne. intros E. apply Hk.
  assert (CanonicalHeaderKey x = x) as E'; [|congruence].
  repeat (apply elem_of_cons in Hx as [->|Hx]; [done|]). by apply elem_of_nil in Hx.
Qed.

(** The headers added after the hop-by-hop step are the proxy's own. *)
Lemma late_headers_lookup remote (g : headers) k :
  k ∉ proxy_headers → keep_user_agent (add_forwarded_for remote g) !! k = g !! k.
Proof.
  intros Hk. assert (add_forwarded_for remote g !! k = g !! k) as Hxff.
  { unfold add_forwarded_for. destruct (SplitHostPort _); [|done].
    destruct (g !! "X-Forwarded-For") as [[|]|]; rewrite ?proxy_header_set by done; reflexivity. }
  unfold keep_user_agent.
  destruct (add_forwarded_for _ _ !! "User-Agent"); rewrite ?proxy_header_set by done; exact Hxff.
Qed.

Lemma late_headers remote (g : headers) k :
  k ∉ proxy_headers → g !! k = None → keep_user_agent (add_forwarded_for remote g) !! k = None.
Proof. intros Hk Hg. by rewrite late_headers_lookup. Qed.

(** Any other header arrives as the director left it, or not at all. *)
Lemma outgoing_header director r k :
  k ∉ proxy_headers →
  Req_Header (outgoing director r) !! k = Req_Header (director r) !! k ∨
  Req_Header (outgoing director r) !! k = None.
Proof.
  intros Hk. unfold outgoing. cbn [with_header Req_Header].
  set (h := Req_Header (director r)).
  assert (forwarded_header h !! k = h !! k ∨ forwarded_header h !! k = None) as Hf.
  { unfold forwarded_header, removeHopByHopHeaders.
    assert (foldl Header_Del (foldl Header_Del h (header_tokens h "Connection")) hopHeaders !! k = h !! k ∨
            foldl Header_Del (foldl Header_Del h (header_tokens h "Connection")) hopHeaders !! k = None) as H0.
    { destruct (Header_Del_lookup (foldl Header_Del h (header_tokens h "Connection")) hopHeaders k) as [->| ->];
        [apply Header_Del_lookup|by right]. }
    destruct (has_token h "Te" "trailers"), (bool_decide (upgradeType h = ""));
      rewrite ?proxy_header_set by done; exact H0. }
  rewrite late_headers_lookup by done. exact Hf.
Qed.
