(* ===== verification/Gateway.v ===== *)
(** * The gateway (internal/gateway/gateway.go)

    Token issuance, the authenticated proxy routes and the router, over an
    arbitrary limiter, clock and upstream transports. *)

From S2P Require Import Prelude Http Mux Auth RateLimit Proxy.
From Stdlib Require Import Ascii.

(** [type Client struct]. *)
Record Client := mkClient {
  Client_Secret : string;
  Client_Role : string;
}.

(** A parsed upstream URL. *)
Record Target := mkTarget {
  target_path : string;
  target_query : list (string * string);
  target_host : string;
}.

(** [type tokenRequest struct]. *)
Record tokenRequest := mkTokenRequest {
  tokenRequest_ClientID : string;
  tokenRequest_ClientSecret : string;
}.

Definition tokenRequest_of (m : gmap string string) : tokenRequest :=
  mkTokenRequest (field m "client_id") (field m "client_secret").

Definition token_json (t : Token) : json :=
  JObj [("access_token", JStr (Token_AccessToken t)); ("token_type", JStr (Token_TokenType t));
        ("expires_in", JNum (Token_ExpiresIn t)); ("role", JStr (Token_Role t))].

(** [clientIP]. *)
Definition clientIP (r : Request) : string :=
  match Cut ":"%char (Req_RemoteAddr r) with
  | Some (host, _) => host
  | None => Req_RemoteAddr r
  end.

(** [singleJoiningSlash] of httputil. *)
Definition singleJoiningSlash (a b : string) : string :=
  let aslash := ends_in_slash a in
  match aslash, CutPrefix "/" b with
  | true, Some b' => a +:+ b'
  | false, None => a +:+ "/" +:+ b
  | _, _ => a +:+ b
  end.

(** The director of [NewSingleHostReverseProxy]. *)
Definition single_host_director (t : Target) (r : Request) : Request :=
  mkRequest (Req_Method r) (singleJoiningSlash (target_path t) (Req_Path r))
    (target_query t ++ Req_Query r) (Req_Header r) (Req_Body r) (Req_RemoteAddr r)
    (Req_PathValues r) (Req_ID r) (Req_Host r).

(** The director set by [newProxy]. *)
Definition proxy_director (t : Target) (r : Request) : Request :=
  let r := single_host_director t r in
  with_host (with_path r (TrimPrefix (Req_Path r) "/api/v1")) (target_host t).

Section gateway.
Context `{JWTLib} {W : Type}.
(** [time.Now], the limiter if one is configured, and the network. *)
Context (time_Now : go W Z).

(** [type Config struct]; the URLs are given parsed. *)
Record Config := mkConfig {
  cfg_Auth : Authenticator;
  cfg_Clients : gmap string Client;
  cfg_User : Target;
  cfg_Wallet : Target;
  cfg_Margin : Target;
  cfg_RateLimit : option (Limiter W);
}.

(** [newProxy]. *)
Definition newProxy (net : string → Transport W) (t : Target) : Handler W :=
  ReverseProxy (proxy_director t) (net (target_host t)).

Definition issueToken (g : Config) : Handler W := λ r,
  match DecodeJSON r ["client_id"; "client_secret"] with
  | Ok m =>
      let req := tokenRequest_of m in
      match cfg_Clients g !! tokenRequest_ClientID req with
      | Some client =>
          if bool_decide (Client_Secret client = tokenRequest_ClientSecret req) then
            let! now := on_app time_Now in
            let! tok := go_try (go_res (Issue (cfg_Auth g) now (tokenRequest_ClientID req) (Client_Role client))) in
            match tok with
            | inl _ => Error 500 "could not issue token"
            | inr t => JSON 200 (token_json t)
            end
          else Error 401 "invalid client credentials"
      | None => Error 401 "invalid client credentials"
      end
  | Err _ => Error 400 "invalid request body"
  | Panic m => go_panic m
  | Diverge => λ s, (Diverge, s)
  end.

(** [g.cfg.RateLimit != nil && !g.cfg.RateLimit.Allow(...)]. *)
Definition rate_limited (g : Config) (r : Request) : go (hstate W) bool :=
  match cfg_RateLimit g with
  | None => go_ret false
  | Some l => let! ok := on_app (Allow l (clientIP r)) in go_ret (negb ok)
  end.

Definition authed (g : Config) (next : Handler W) : Handler W := λ r,
  let! limited := rate_limited g r in
  if (limited : bool) then Error 429 "rate limit exceeded"
  else
    match CutPrefix "Bearer " (Header_Get (Req_Header r) "Authorization") with
    | None => Error 401 "missing bearer token"
    | Some raw =>
        let! now := on_app time_Now in
        let! claims := go_try (go_res (Verify (cfg_Auth g) now raw)) in
        match claims with
        | inl _ => Error 401 "invalid or expired token"
        | inr c =>
            next (with_header r
              (Header_Set (Header_Set (Req_Header r) HeaderSubject (Claims_Subject c)) HeaderRole (Claims_Role c)))
        end
    end.

Definition healthz : Handler W := λ _, JSON 200 (JObj [("status", JStr "ok")]).

Definition api (segs : list pseg) : list pseg := Lit "api" :: Lit "v1" :: segs.

(** The routes of [(g *Gateway) Handler]. *)
Definition gateway_routes (net : string → Transport W) (g : Config) : list (route (W:=W)) :=
  [ (mkPattern (Some "GET") [Lit "healthz"], healthz);
    (mkPattern (Some "POST") (api [Lit "auth"; Lit "token"]), issueToken g);
    (mkPattern None (api [Lit "users"]), authed g (newProxy net (cfg_User g)));
    (mkPattern None (api [Lit "users"; Subtree]), authed g (newProxy net (cfg_User g)));
    (mkPattern None (api [Lit "wallets"]), authed g (newProxy net (cfg_Wallet g)));
    (mkPattern None (api [Lit "wallets"; Subtree]), authed g (newProxy net (cfg_Wallet g)));
    (mkPattern None (api [Lit "margin"; Subtree]), authed g (newProxy net (cfg_Margin g))) ].

Definition Gateway_Handler (net : string → Transport W) (g : Config) : Handler W :=
  mux_serve (gateway_routes net g).

(** [New]: the first URL that does not parse is the error. *)
Definition Gateway_New (url_Parse : string → res Target) (auth : Authenticator)
    (clients : gmap string Client) (UserURL WalletURL MarginURL : string) (limiter : option (Limiter W)) :
    res Config :=
  res_bind (url_Parse UserURL) (λ uu,
  res_bind (url_Parse WalletURL) (λ wu,
  res_bind (url_Parse MarginURL) (λ mu,
    Ok (mkConfig auth clients uu wu mu limiter)))).

Lemma gateway_no_overlap net g : no_overlap (gateway_routes net g).*1 = true.
Proof. reflexivity. Qed.
End gateway.
