(* ===== verification/User.v ===== *)
(** * The user service (internal/user: user.go, store_postgres.go)

    Two stores behind one interface, [Register] and the HTTP routes.  The id
    generator (google/uuid) and the mail-address parser are parameters. *)

From S2P Require Import Prelude Http Mux Auth Events.

Definition ErrNotFound : error := ErrSentinel "user not found".
Definition ErrConflict : error := ErrSentinel "email already registered".

(** [type User struct]; the time is in nanoseconds. *)
Record User := mkUser {
  User_ID : string;
  User_Email : string;
  User_CreatedAt : Z;
}.
#[export] Instance User_eq_dec : EqDecision User.
Proof. solve_decision. Defined.

Definition User_json (u : User) : json :=
  JObj [("id", JStr (User_ID u)); ("email", JStr (User_Email u)); ("created_at", JNum (User_CreatedAt u))].

(** [interface Store].  [List] returns a slice, which can be nil. *)
Record Store (St : Type) := mkStore {
  Create : User → go St unit;
  Get : string → go St User;
  List : go St (option (list User));
}.
Arguments Create {St}.
Arguments Get {St}.
Arguments List {St}.

(** ** What a store promises *)

(** Users by id; an email belongs to one user. *)
Abbreviation directory := (gmap string User).
Definition email_taken (d : directory) (e : string) : Prop := ∃ id u, d !! id = Some u ∧ User_Email u = e.
Definition directory_ok (d : directory) : Prop :=
  (∀ id u, d !! id = Some u → User_ID u = id) ∧
  (∀ id1 id2 u1 u2, d !! id1 = Some u1 → d !! id2 = Some u2 → User_Email u1 = User_Email u2 → id1 = id2).

Class StoreLaws {St} (view : St → directory) (inv : St → Prop) (S : Store St) : Prop := {
  law_wf : ∀ s, inv s → directory_ok (view s);
  law_Create : ∀ u s, inv s →
    match Create S u s with
    | (Ok _, s') =>
        inv s' ∧ ¬ email_taken (view s) (User_Email u) ∧ view s' = <[User_ID u := u]> (view s)
    | (Err e, s') =>
        inv s' ∧
        ((e = ErrConflict ∧ view s' = view s ∧
          (email_taken (view s) (User_Email u) ∨ is_Some (view s !! User_ID u))) ∨
         (e ≠ ErrConflict ∧
          (view s' = view s ∨
           (¬ email_taken (view s) (User_Email u) ∧ view s' = <[User_ID u := u]> (view s)))))
    | _ => False
    end;
  law_Get : ∀ id s, inv s →
    match Get S id s with
    | (Ok u, s') => inv s' ∧ view s' = view s ∧ view s !! id = Some u
    | (Err e, s') => inv s' ∧ view s' = view s ∧ (e = ErrNotFound → view s !! id = None)
    | _ => False
    end;
  law_List : ∀ s, inv s →
    match List S s with
    | (Ok l, s') => inv s' ∧ view s' = view s ∧ default [] l ≡ₚ (map_to_list (view s)).*2
    | (Err _, s') => inv s' ∧ view s' = view s
    | _ => False
    end;
}.

Lemma directory_ok_empty : directory_ok ∅.
Proof. split; intros *; by rewrite lookup_empty. Qed.

Lemma directory_ok_insert d u :
  directory_ok d → ¬ email_taken d (User_Email u) → directory_ok (<[User_ID u := u]> d).
Proof.
  intros [Hid He] Hnew. split.
  - intros id v [[<- <-]|[_ Hv]]%lookup_insert_Some; [done|by apply Hid].
  - intros id1 id2 u1 u2 [[<- <-]|[_ H1]]%lookup_insert_Some [[<- <-]|[_ H2]]%lookup_insert_Some E.
    + done.
    + destruct Hnew. exists id2, u2. by rewrite E.
    + destruct Hnew. by exists id1, u1.
    + by eapply He.
Qed.

(** ** [MemStore] *)

Abbreviation MemStore := (gmap string User).
Definition NewMemStore : MemStore := ∅.

Definition MemStore_Create (u : User) : go MemStore unit := λ m,
  if existsb (λ existing, bool_decide (User_Email existing = User_Email u)) (map_to_list m).*2
  then (Err ErrConflict, m)
  else (Ok tt, <[User_ID u := u]> m).

Definition MemStore_Get (id : string) : go MemStore User := λ m,
  match m !! id with
  | Some u => (Ok u, m)
  | None => (Err ErrNotFound, m)
  end.

(** The order of a Go map iteration is not specified; the laws hold up to
    permutation. *)
Definition MemStore_List : go MemStore (option (list User)) := λ m, (Ok (Some (map_to_list m).*2), m).

Definition MemStore_store : Store MemStore :=
  {| Create := MemStore_Create; Get := MemStore_Get; List := MemStore_List |}.

Lemma existsb_email d e :
  existsb (λ v, bool_decide (User_Email v = e)) (map_to_list d).*2 = true ↔ email_taken d e.
Proof.
  rewrite existsb_exists. split.
  - intros (u & Hu & He). apply list_elem_of_In, list_elem_of_fmap in Hu as ([id v] & -> & Hv).
    apply elem_of_map_to_list in Hv. apply bool_decide_eq_true in He. by exists id, v.
  - intros (id & u & Hu & He). exists u. split; [|by apply bool_decide_eq_true].
    apply list_elem_of_In, list_elem_of_fmap. exists (id, u). split; [done|]. by apply elem_of_map_to_list.
Qed.

#[export] Instance MemStore_laws : StoreLaws (λ m : MemStore, m) directory_ok MemStore_store.
Proof.
  split; [done|..].
  - intros u m Hm. cbn [Create MemStore_store]. unfold MemStore_Create.
    destruct (existsb _ _) eqn:E.
    + apply existsb_email in E. split; [done|]. left. by eauto.
    + apply not_true_iff_false in E. rewrite existsb_email in E.
      split; [by apply directory_ok_insert|done].
  - intros id m Hm. cbn [Get MemStore_store]. unfold MemStore_Get. by destruct (m !! id) eqn:E.
  - intros m Hm. done.
Qed.

(** ** [PostgresStore] *)

(** Rows of [users], and the faults of the next round trips. *)
Record PostgresStore := mkPg {
  pg_users : list User;
  pg_faults : list fault;
}.

(** [pgconn.PgError] with code 23505, and any other driver error. *)
Definition errUnique : error := ErrSentinel "23505".
Definition isUniqueViolation (e : error) : bool := errors_Is e "23505".

(** [PRIMARY KEY (id)] and [UNIQUE (email)]. *)
Definition row_conflict (u : User) (rows : list User) : bool :=
  existsb (λ v, bool_decide (User_ID v = User_ID u) || bool_decide (User_Email v = User_Email u)) rows.

(** One round trip carrying the INSERT. *)
Definition exec_insert (u : User) : go PostgresStore unit := λ s,
  let run rows := if row_conflict u rows then (Err errUnique, rows) else (Ok tt, rows ++ [u]) in
  match pg_faults s with
  | [] => match run (pg_users s) with (r, rows) => (r, mkPg rows []) end
  | NoFault :: fs => match run (pg_users s) with (r, rows) => (r, mkPg rows fs) end
  | Refused e :: fs => (Err e, mkPg (pg_users s) fs)
  | ReplyLost e :: fs => match run (pg_users s) with (_, rows) => (Err e, mkPg rows fs) end
  end.

Definition query {A} (q : list User → A) : go PostgresStore A := λ s,
  match pg_faults s with
  | [] => (Ok (q (pg_users s)), s)
  | NoFault :: fs => (Ok (q (pg_users s)), mkPg (pg_users s) fs)
  | Refused e :: fs | ReplyLost e :: fs => (Err e, mkPg (pg_users s) fs)
  end.

Definition PostgresStore_Create (u : User) : go PostgresStore unit :=
  let! r := go_try (exec_insert u) in
  match r with
  | inl e => if isUniqueViolation e then go_err ErrConflict else go_err e
  | inr _ => go_ret tt
  end.

(** [QueryRow(... WHERE id = $1).Scan(...)]: no row is [pgx.ErrNoRows]. *)
Definition PostgresStore_Get (id : string) : go PostgresStore User :=
  let! row := query (λ rows, snd <$> list_find (λ u, User_ID u = id) rows) in
  match row with
  | None => go_err ErrNotFound
  | Some u => go_ret u
  end.

Definition created_le (u v : User) : Prop := (User_CreatedAt u ≤ User_CreatedAt v)%Z.
#[export] Instance created_le_dec : RelDecision created_le := λ u v, Z.le_dec _ _.

(** [ORDER BY created_at]; [var out \[\]User] stays nil when there is no row. *)
Definition PostgresStore_List : go PostgresStore (option (list User)) :=
  query (λ rows, match merge_sort created_le rows with [] => None | out => Some out end).

Definition PostgresStore_store : Store PostgresStore :=
  {| Create := PostgresStore_Create; Get := PostgresStore_Get; List := PostgresStore_List |}.

(** The relation as a map, and its constraints.  The errors of a broken
    connection are none of the errors the server or the service define. *)
Definition pg_view (s : PostgresStore) : directory := list_to_map ((λ u, (User_ID u, u)) <$> pg_users s).
Definition net_error (e : error) : Prop := isUniqueViolation e = false ∧ e ≠ ErrConflict ∧ e ≠ ErrNotFound.
Definition fault_ok (f : fault) : Prop :=
  match f with NoFault => True | Refused e | ReplyLost e => net_error e end.
Definition pg_inv (s : PostgresStore) : Prop :=
  NoDup (User_ID <$> pg_users s) ∧ NoDup (User_Email <$> pg_users s) ∧ Forall fault_ok (pg_faults s).

Lemma pg_view_lookup s id u :
  NoDup (User_ID <$> pg_users s) → pg_view s !! id = Some u ↔ u ∈ pg_users s ∧ User_ID u = id.
Proof.
  intros Hn. unfold pg_view. rewrite <-elem_of_list_to_map.
  - rewrite list_elem_of_fmap. naive_solver.
  - by rewrite <-list_fmap_compose.
Qed.

Lemma pg_email_taken s e :
  NoDup (User_ID <$> pg_users s) → email_taken (pg_view s) e ↔ ∃ u, u ∈ pg_users s ∧ User_Email u = e.
Proof.
  intros Hn. unfold email_taken. setoid_rewrite pg_view_lookup; [|done]. naive_solver.
Qed.

Lemma row_conflict_spec u s :
  NoDup (User_ID <$> pg_users s) →
  row_conflict u (pg_users s) = true ↔
  is_Some (pg_view s !! User_ID u) ∨ email_taken (pg_view s) (User_Email u).
Proof.
  intros Hn. unfold row_conflict. rewrite existsb_exists, pg_email_taken by done.
  setoid_rewrite orb_true_iff. setoid_rewrite bool_decide_eq_true. split.
  - intros (v & Hv%list_elem_of_In & [E|E]); [left|right; eauto].
    exists v. by apply pg_view_lookup.
  - intros [[v Hv]|(v & Hv & E)]; [apply pg_view_lookup in Hv as [Hv E]; [|done]|].
    all: exists v; split; [by apply list_elem_of_In|by eauto].
Qed.

(** What the INSERT does once the server runs it. *)
Lemma insert_ok u rows fs :
  pg_inv (mkPg rows fs) → row_conflict u rows = false →
  ∀ fs', Forall fault_ok fs' → pg_inv (mkPg (rows ++ [u]) fs') ∧
    ¬ email_taken (pg_view (mkPg rows fs)) (User_Email u) ∧
    pg_view (mkPg (rows ++ [u]) fs') = <[User_ID u := u]> (pg_view (mkPg rows fs)).
Proof.
  intros (Hi & He & _) Hc fs' Hfs. cbn [pg_users] in *.
  pose proof (row_conflict_spec u (mkPg rows fs) Hi) as Hs. cbn [pg_users] in Hs. rewrite Hc in Hs.
  assert (pg_view (mkPg rows fs) !! User_ID u = None) as Hid.
  { apply eq_None_not_Some. intros ?. destruct Hs as [_ Hs]. discriminate Hs. by left. }
  assert (¬ email_taken (pg_view (mkPg rows fs)) (User_Email u)) as Hem.
  { intros ?. destruct Hs as [_ Hs]. discriminate Hs. by right. }
  split; [|split; [done|]].
  - unfold pg_inv. cbn [pg_users pg_faults]. rewrite !fmap_app. split; [|split; [|done]].
    + apply NoDup_app. split; [done|]. split; [|apply NoDup_singleton].
      intros x (v & -> & Hv)%list_elem_of_fmap E. apply list_elem_of_singleton in E.
      assert (pg_view (mkPg rows fs) !! User_ID u = Some v) by (by apply pg_view_lookup). congruence.
    + apply NoDup_app. split; [done|]. split; [|apply NoDup_singleton].
      intros x (v & -> & Hv)%list_elem_of_fmap E. apply list_elem_of_singleton in E.
      apply Hem. apply pg_email_taken; [done|]. by exists v.
  - unfold pg_view. cbn [pg_users]. rewrite fmap_app, list_to_map_app. cbn.
    rewrite <-insert_union_r by done. by rewrite (right_id_L ∅ (∪)).
Qed.

Lemma exec_insert_spec u s :
  pg_inv s →
  ∃ fs, Forall fault_ok fs ∧
  ((row_conflict u (pg_users s) = true ∧ exec_insert u s = (Err errUnique, mkPg (pg_users s) fs)) ∨
   (row_conflict u (pg_users s) = false ∧ exec_insert u s = (Ok tt, mkPg (pg_users s ++ [u]) fs)) ∨
   (∃ e rows, net_error e ∧ exec_insert u s = (Err e, mkPg rows fs) ∧
      (rows = pg_users s ∨ (row_conflict u (pg_users s) = false ∧ rows = pg_users s ++ [u])))).
Proof.
  intros (_ & _ & Hf). unfold exec_insert.
  destruct (pg_faults s) as [|f fs]; [exists []|apply Forall_cons in Hf as [Hf Hfs]; exists fs].
  { split; [done|]. destruct (row_conflict u (pg_users s)); naive_solver. }
  split; [done|]. destruct f as [|e|e].
  - destruct (row_conflict u (pg_users s)); naive_solver.
  - right. right. eauto 10.
  - right. right. destruct (row_conflict u (pg_users s)); eauto 10.
Qed.

Lemma pg_inv_faults rows fs fs' :
  pg_inv (mkPg rows fs) → Forall fault_ok fs' → pg_inv (mkPg rows fs').
Proof. intros (? & ? & _) ?. done. Qed.

Lemma query_spec {A} (q : list User → A) s :
  pg_inv s →
  ∃ fs, Forall fault_ok fs ∧
   (query q s = (Ok (q (pg_users s)), mkPg (pg_users s) fs) ∨
    ∃ e, net_error e ∧ query q s = (Err e, mkPg (pg_users s) fs)).
Proof.
  intros (_ & _ & Hf). unfold query. destruct s as [rows [|f fs]]; cbn [pg_users pg_faults] in *.
  - exists []. by split; [|left].
  - apply Forall_cons in Hf as [Hf Hfs]. exists fs. split; [done|]. destruct f; [by left|right; eauto..].
Qed.

Lemma map_to_list_pg_view s :
  NoDup (User_ID <$> pg_users s) → (map_to_list (pg_view s)).*2 ≡ₚ pg_users s.
Proof.
  intros Hn. unfold pg_view. rewrite map_to_list_to_map; [|by rewrite <-list_fmap_compose].
  rewrite <-list_fmap_compose. rewrite list_fmap_ext with (g := id); [by rewrite list_fmap_id|done].
Qed.

#[export] Instance PostgresStore_laws : StoreLaws pg_view pg_inv PostgresStore_store.
Proof.
  split.
  - intros s (Hi & He & _). split.
    + intros id u [_ Hu]%pg_view_lookup; done.
    + intros id1 id2 u1 u2 H1 H2 E. apply pg_view_lookup in H1 as [H1 <-], H2 as [H2 <-]; try done.
      apply list_elem_of_lookup in H1 as [i1 H1], H2 as [i2 H2].
      assert (i1 = i2) as ->; [|congruence].
      apply (NoDup_lookup (User_Email <$> pg_users s) i1 i2 (User_Email u1)); [done| |].
      * by rewrite list_lookup_fmap, H1.
      * by rewrite list_lookup_fmap, H2, E.
  - intros u s Hs. cbn [Create PostgresStore_store]. unfold PostgresStore_Create, go_bind, go_try.
    destruct (exec_insert_spec u s Hs) as (fs & Hfs & [[Hc ->]|[[Hc ->]|(e & rows & Hne & -> & Hr)]]).
    + cbn. split; [destruct s; by eapply pg_inv_faults|]. left.
      destruct Hs as (Hi & _). apply row_conflict_spec in Hc; [|done]. split; [done|]. split; [done|]. tauto.
    + destruct s as [rows fs0]. cbn. destruct (insert_ok u rows fs0 Hs Hc fs Hfs) as (? & ? & ?). done.
    + destruct Hne as (Hu & Hcf & _). unfold go_err. rewrite Hu. destruct s as [rows0 fs0]. cbn [pg_users] in *.
      destruct Hr as [->|[Hc ->]].
      * split; [by eapply pg_inv_faults|]. right. split; [done|]. by left.
      * destruct (insert_ok u rows0 fs0 Hs Hc fs Hfs) as (? & ? & ?). split; [done|]. right. split; [done|]. by right.
  - intros id s Hs. cbn [Get PostgresStore_store]. unfold PostgresStore_Get, go_bind.
    destruct (query_spec (λ rows, snd <$> list_find (λ u, User_ID u = id) rows) s Hs)
      as (fs & Hfs & [->|(e & (_ & _ & Hne) & ->)]).
    + assert (pg_inv (mkPg (pg_users s) fs)) as Hs' by (destruct s; by eapply pg_inv_faults).
      assert (pg_view (mkPg (pg_users s) fs) = pg_view s) as Hv by done. destruct Hs as (Hi & _).
      destruct (list_find _ _) as [[i u]|] eqn:Hf; simpl; (split; [done|]; split; [done|]).
      * apply list_find_Some in Hf as (Hl & E & _). apply pg_view_lookup; [done|]. split; [|done].
        by eapply list_elem_of_lookup_2.
      * intros _. apply eq_None_not_Some. intros [u Hu]. apply pg_view_lookup in Hu as [Hu E]; [|done].
        apply list_find_None in Hf. rewrite Forall_forall in Hf. by eapply Hf.
    + destruct s. split; [by eapply pg_inv_faults|done].
  - intros s Hs. cbn [List PostgresStore_store]. unfold PostgresStore_List.
    destruct (query_spec (λ rows, match merge_sort created_le rows with [] => None | out => Some out end) s Hs)
      as (fs & Hfs & [->|(e & _ & ->)]); destruct s as [rows fs0].
    + split; [by eapply pg_inv_faults|]. split; [done|]. cbn [pg_users].
      trans (merge_sort created_le rows); [by destruct (merge_sort created_le rows)|].
      rewrite merge_sort_Permutation. symmetry. apply map_to_list_pg_view. apply Hs.
    + split; [by eapply pg_inv_faults|done].
Qed.
