(* ===== verification/UserService.v ===== *)
(** * [Register] and the routes of the user service (internal/user/user.go) *)

From S2P Require Import Prelude Http Mux Auth Events User.
From Stdlib Require Import Ascii.

(** The service's state: its store, the outside world (clock and random ids)
    and the publications made. *)
Record ustate (St X : Type) := mkUstate {
  us_store : St;
  us_world : X;
  us_bus : list publication;
}.
Arguments mkUstate {St X}.
Arguments us_store {St X}.
Arguments us_world {St X}.
Arguments us_bus {St X}.

Section service.
Context {St X : Type} (S : Store St).
(** [uuid.NewString], [time.Now] and [mail.ParseAddress]. *)
Context (uuid_NewString : go X string) (time_Now : go X Z) (mail_ParseAddress : string → bool).

Definition on_store {A} (c : go St A) : go (ustate St X) A :=
  go_zoom us_store (λ st s, mkUstate st (us_world s) (us_bus s)) c.
Definition on_world {A} (c : go X A) : go (ustate St X) A :=
  go_zoom us_world (λ w s, mkUstate (us_store s) w (us_bus s)) c.
Definition publish (subject : string) (data : json) : go (ustate St X) unit :=
  go_modify (λ s, mkUstate (us_store s) (us_world s) (us_bus s ++ [(subject, data)])).

Definition Register (email : string) : go (ustate St X) User :=
  if mail_ParseAddress email then
    let! id := on_world uuid_NewString in
    let! now := on_world time_Now in
    let u := mkUser id email now in
    do! on_store (Create S u) in
    do! publish SubjectUserCreated (User_json u) in
    go_ret u
  else go_err (ErrorString "invalid email").

(** ** Routes *)

Definition healthz : Handler (ustate St X) := λ _, JSON 200 (JObj [("status", JStr "ok")]).

Definition post_users : Handler (ustate St X) := λ r,
  match DecodeJSON r ["email"] with
  | Ok m =>
      let! res := go_try (on_app (Register (field m "email"))) in
      match res with
      | inl e => if errors_Is e "email already registered" then Error 409 "email already registered"
                 else Error 400 (error_Error e)
      | inr u => JSON 201 (User_json u)
      end
  | Err _ => Error 400 "invalid request body"
  | Panic m => go_panic m
  | Diverge => λ s, (Diverge, s)
  end.

Definition get_user : Handler (ustate St X) := λ r,
  let! res := go_try (on_app (on_store (Get S (PathValue r "id")))) in
  match res with
  | inl _ => Error 404 "user not found"
  | inr u => JSON 200 (User_json u)
  end.

(** A nil slice is encoded as null. *)
Definition users_json (us : option (list User)) : json :=
  match us with
  | None => JNull
  | Some l => JArr (User_json <$> l)
  end.

Definition list_users : Handler (ustate St X) := λ r,
  let! res := go_try (on_app (on_store (List S))) in
  match res with
  | inl _ => Error 500 "could not list users"
  | inr us => JSON 200 (users_json us)
  end.

Definition user_routes : list (route (W:=ustate St X)) :=
  [ (mkPattern (Some "GET") [Lit "healthz"], healthz);
    (mkPattern (Some "POST") [Lit "users"], post_users);
    (mkPattern (Some "GET") [Lit "users"; Wild "id"], get_user);
    (mkPattern (Some "GET") [Lit "users"], RequireRole HeaderRole "admin" list_users) ].

Definition Routes : Handler (ustate St X) := mux_serve user_routes.

Lemma user_no_overlap : no_overlap user_routes.*1 = true.
Proof. reflexivity. Qed.

(** ** Correctness *)

Context (view : St → directory) (inv : St → Prop) `{!StoreLaws view inv S}.

(** The id generator and the clock come back. *)
Definition world_returns : Prop :=
  ∀ w, (∃ id w', uuid_NewString w = (Ok id, w')) ∧ (∃ t w', time_Now w = (Ok t, w')).

Lemma triple_read {A} (c : go St A) :
  (∀ s, inv s → match c s with (Ok _, s') | (Err _, s') => inv s' | _ => False end) →
  triple True (λ s, inv (us_store s)) (on_store c) (λ _ s, inv (us_store s)) (λ s, inv (us_store s)).
Proof.
  intros Hc s Hs. specialize (Hc _ Hs). unfold on_store, go_zoom. by destruct (c (us_store s)) as [[] st].
Qed.

Lemma Register_inv email :
  triple True (λ s, inv (us_store s)) (Register email) (λ _ s, inv (us_store s)) (λ s, inv (us_store s)).
Proof.
  assert (∀ A (c : go X A), triple True (λ s : ustate St X, inv (us_store s)) (on_world c)
    (λ _ s, inv (us_store s)) (λ s, inv (us_store s))) as Hw.
  { intros A c s Hs. unfold on_world, go_zoom. by destruct (c (us_world s)) as [[] w]. }
  unfold Register. destruct (mail_ParseAddress email); [|by apply triple_err].
  eapply triple_bind; [apply Hw|intros id]. eapply triple_bind; [apply Hw|intros t].
  eapply triple_bind; [apply triple_read|intros ?; by intros s Hs].
  intros s Hs. pose proof (law_Create (mkUser id email t) s Hs) as Hc.
  destruct (Create S _ s) as [[] s']; try done; by destruct Hc.
Qed.

Lemma Routes_inv r : app_triple (λ s, inv (us_store s)) (Routes r).
Proof.
  apply app_mux. intros rt m Hrt.
  assert (∀ id, app_triple (λ s : ustate St X, inv (us_store s)) (on_app (on_store (Get S id)))) as Hg.
  { intros id. apply app_on_app, triple_read. intros s Hs. pose proof (law_Get id s Hs) as Hc.
    destruct (Get S id s) as [[] s']; try done; by destruct Hc. }
  assert (app_triple (λ s : ustate St X, inv (us_store s)) (on_app (on_store (List S)))) as Hl.
  { apply app_on_app, triple_read. intros s Hs. pose proof (law_List s Hs) as Hc.
    destruct (List S s) as [[] s']; try done; by destruct Hc. }
  repeat (apply elem_of_cons in Hrt as [->|Hrt]); [..|by apply elem_of_nil in Hrt]; cbn [snd].
  - apply app_JSON.
  - unfold post_users. destruct (DecodeJSON _ _); [|auto with platform|by intros s Hs|by intros s Hs].
    apply app_bind; [apply app_try, app_on_app, Register_inv|]. intros [e|u]; [|auto with platform].
    case_match; auto with platform.
  - apply app_bind; [by apply app_try|]. intros [e|u]; auto with platform.
  - unfold RequireRole. case_match; [|auto with platform].
    apply app_bind; [by apply app_try|]. intros [e|us]; auto with platform.
Qed.

(** Requests served one after the other; a request that panics ends only
    its own goroutine. *)
Fixpoint serve_all (rs : list Request) (s : ustate St X) : ustate St X :=
  match rs with
  | [] => s
  | r :: rs' => serve_all rs' (hs_app (Routes r (mkHstate s fresh_response [] [] [])).2)
  end.

End service.

(** ** Concrete services *)
Section examples.
(** Ids are numbered, the clock stands still, and an address needs an at
    sign. *)
Definition ex_uuid : go N string := λ n, (Ok ("u" +:+ pretty n), (n + 1)%N).
Definition ex_now : go N Z := λ n, (Ok 1700000000%Z, n).
Definition ex_mail (s : string) : bool := match Cut "@"%char s with Some _ => true | None => false end.

Lemma ex_world_returns : world_returns ex_uuid ex_now.
Proof. intros w. split; repeat eexists. Qed.

Definition ex_service : ustate MemStore N := mkUstate NewMemStore 1%N [].
Definition ex_bob : User := mkUser "u1" "bob@example.com" 1700000000.


Definition post (email : string) : Request :=
  mkRequest "POST" "/users" [] ∅ (mkBody (Some (JObj [("email", JStr email)], 40%N)) 40%N) "10.0.0.7:50000" []
    None "user:8081".


(** The third request above is answered 409. *)
Example duplicate_email_conflict :
  let s := serve_all MemStore_store ex_uuid ex_now ex_mail [post "bob@example.com"] ex_service in
  rs_status (hs_resp (Routes MemStore_store ex_uuid ex_now ex_mail (post "bob@example.com")
                        (mkHstate s fresh_response [] [] [])).2) = Some 409%N.
Proof. by vm_compute. Qed.

(** The two stores do not give the same answer on an empty directory:
    the list of users is an empty array in memory and null on Postgres. *)
Theorem empty_list_differs_by_store :
  let req := mkRequest "GET" "/users" [] {[ HeaderRole := ["admin"] ]} (mkBody None 0%N) "" [] None "" in
  let body {St} (S : Store St) (st : St) :=
    rs_body (hs_resp (Routes S ex_uuid ex_now ex_mail req
                        (mkHstate (mkUstate st 1%N []) fresh_response [] [] [])).2) in
  body MemStore_store NewMemStore = [JArr []] ∧ body PostgresStore_store (mkPg [] []) = [JNull].
Proof. by vm_compute. Qed.

End examples.
