(* ===== verification/Wallet.v ===== *)
(** * The wallet service (internal/wallet/wallet.go)

    go-ethereum's keystore is a parameter: opening it, creating an account and
    listing the accounts are its calls, and [KeyStoreLaws] says what the last
    two do. *)

From S2P Require Import Prelude Geth Http Mux Auth Events.

(** [keystore.KeyStore] on a state [K], with the package's scrypt parameters
    [(N, P)]. *)
Record KeyStore `{GethTypes} (K : Type) := mkKeyStore {
  StandardScrypt : Z * Z;
  LightScrypt : Z * Z;
  NewKeyStore : string → Z → Z → K;
  NewAccount : string → go K Address;
  Accounts : K → list Address;
}.
Arguments StandardScrypt {_ K}.
Arguments LightScrypt {_ K}.
Arguments NewKeyStore {_ K}.
Arguments NewAccount {_ K}.
Arguments Accounts {_ K}.

(** A new account is added to the ones there are; a failed call adds none. *)
Class KeyStoreLaws `{GethTypes} {K} (ks : KeyStore K) : Prop := {
  NewAccount_Ok : ∀ p k a k', NewAccount ks p k = (Ok a, k') →
    (a ∉ Accounts ks k) ∧ (Accounts ks k' ≡ₚ a :: Accounts ks k);
  NewAccount_Err : ∀ p k r k', NewAccount ks p k = (r, k') → is_Ok r = false → Accounts ks k' = Accounts ks k;
}.

Section wallet.
Context `{Geth} {K X : Type} (ks : KeyStore K) (time_Now : go X Z).

(** [type Wallet struct]; the zero time is 0. *)
Record Wallet := mkWallet {
  Wallet_Address : string;
  Wallet_CreatedAt : Z;
}.
Definition Wallet_json (w : Wallet) : json :=
  JObj [("address", JStr (Wallet_Address w)); ("created_at", JNum (Wallet_CreatedAt w))].

(** [type Service struct] with the keystore's state, the clock and the
    publications. *)
Record wstate := mkWstate {
  ws_keys : K;
  ws_passphrase : string;
  ws_chainID : Z;
  ws_created : gmap Address Z;
  ws_world : X;
  ws_bus : list publication;
}.

(** [NewService]; [world] is what the service will run in. *)
Definition NewService (dir passphrase : string) (chainID : Z) (light : bool) (world : X) : res wstate :=
  if bool_decide (passphrase = "") then Err (ErrorString "keystore passphrase must not be empty")
  else
    let '(n, p) := if light then LightScrypt ks else StandardScrypt ks in
    Ok (mkWstate (NewKeyStore ks dir n p) passphrase chainID ∅ world []).

Definition Wallet_Create : go wstate Wallet := λ s,
  match NewAccount ks (ws_passphrase s) (ws_keys s) with
  | (Ok a, k) =>
      match time_Now (ws_world s) with
      | (Ok now, x) =>
          let w := mkWallet (Address_Hex a) now in
          (Ok w, mkWstate k (ws_passphrase s) (ws_chainID s) (<[a := now]> (ws_created s)) x
                   (ws_bus s ++ [(SubjectWalletCreated, Wallet_json w)]))
      | (Err e, x) => (Err e, mkWstate k (ws_passphrase s) (ws_chainID s) (ws_created s) x (ws_bus s))
      | (Panic m, x) => (Panic m, mkWstate k (ws_passphrase s) (ws_chainID s) (ws_created s) x (ws_bus s))
      | (Diverge, x) => (Diverge, mkWstate k (ws_passphrase s) (ws_chainID s) (ws_created s) x (ws_bus s))
      end
  | (Err e, k) => (Err e, mkWstate k (ws_passphrase s) (ws_chainID s) (ws_created s) (ws_world s) (ws_bus s))
  | (Panic m, k) => (Panic m, mkWstate k (ws_passphrase s) (ws_chainID s) (ws_created s) (ws_world s) (ws_bus s))
  | (Diverge, k) => (Diverge, mkWstate k (ws_passphrase s) (ws_chainID s) (ws_created s) (ws_world s) (ws_bus s))
  end.

Definition Wallet_List (s : wstate) : list Wallet :=
  (λ a, mkWallet (Address_Hex a) (default 0%Z (ws_created s !! a))) <$> Accounts ks (ws_keys s).

Definition post_wallets : Handler wstate := λ r,
  let! res := go_try (on_app Wallet_Create) in
  match res with
  | inl _ => Error 500 "could not create wallet"
  | inr w => JSON 201 (Wallet_json w)
  end.
Definition list_wallets : Handler wstate := λ r,
  let! ws := on_app (λ s, (Ok (Wallet_List s), s)) in
  JSON 200 (JArr (Wallet_json <$> ws)).

Definition wallet_routes : list (route (W:=wstate)) :=
  [ (mkPattern (Some "GET") [Lit "healthz"], λ _, JSON 200 (JObj [("status", JStr "ok")]));
    (mkPattern (Some "POST") [Lit "wallets"], post_wallets);
    (mkPattern (Some "GET") [Lit "wallets"], RequireRole HeaderRole "admin" list_wallets) ].
Definition Wallet_Routes : Handler wstate := mux_serve wallet_routes.

Lemma wallet_no_overlap : no_overlap wallet_routes.*1 = true.
Proof. reflexivity. Qed.

Context `{!KeyStoreLaws ks}.

(** The books agree with the keystore: a creation time is kept only for an
    account that exists. *)
Definition wallet_inv (s : wstate) : Prop :=
  ∀ a, is_Some (ws_created s !! a) → a ∈ Accounts ks (ws_keys s).

(** C31: [Create]: on success the keystore has exactly one more account, the
    list of wallets is the old list with the new wallet (its address and
    creation time) added, and one [wallet.created] event with that wallet is
    published; on an error nothing is published and the list is unchanged.
    The creation times on the books are always those of existing accounts. *)
Theorem wallet_create_spec s :
  wallet_inv s → (∀ x, ∃ t x', time_Now x = (Ok t, x')) →
  match Wallet_Create s with
  | (Ok w, s') =>
      Wallet_List s' ≡ₚ w :: Wallet_List s ∧
      ws_bus s' = ws_bus s ++ [(SubjectWalletCreated, Wallet_json w)] ∧ wallet_inv s'
  | (_, s') => Wallet_List s' = Wallet_List s ∧ ws_bus s' = ws_bus s ∧ wallet_inv s'
  end.
Proof.
  intros Hi Ht. unfold Wallet_Create.
  destruct (NewAccount ks (ws_passphrase s) (ws_keys s)) as [r k] eqn:Hn.
  destruct r as [a|e|m|].
  2-4: pose proof (NewAccount_Err _ _ _ _ Hn eq_refl) as E; unfold Wallet_List, wallet_inv;
       cbn [ws_keys ws_created ws_bus]; rewrite E; done.
  destruct (NewAccount_Ok _ _ _ _ Hn) as [Hnew Hp]. destruct (Ht (ws_world s)) as (t & x & ->).
  split; [|split; [done|]].
  - unfold Wallet_List. cbn [ws_keys ws_created]. rewrite Hp, fmap_cons, lookup_insert_eq. cbn [default].
    f_equiv. erewrite list_fmap_ext; [reflexivity|]. intros i b Hb. cbn. f_equal.
    rewrite lookup_insert_ne; [done|]. intros ->. apply Hnew. by eapply list_elem_of_lookup_2.
  - intros b Hb. cbn [ws_keys ws_created] in *. rewrite Hp.
    destruct (decide (a = b)) as [->|Hne]; [by left|right]. apply Hi. by rewrite lookup_insert_ne in Hb.
Qed.
End wallet.

Section example.
Import Toy.

(** Accounts numbered from one. *)
Definition ex_keystore : KeyStore (list N) := {|
  StandardScrypt := (262144, 1)%Z;
  LightScrypt := (4096, 6)%Z;
  NewKeyStore dir n p := [];
  NewAccount p l := if bool_decide (p = "") then (Err (ErrorString "no passphrase"), l)
                    else (Ok (foldr N.max 0%N l + 1)%N, (foldr N.max 0 l + 1)%N :: l);
  Accounts l := l |}.

Lemma foldr_max_ge l a : a ∈ l → (a ≤ foldr N.max 0 l)%N.
Proof. induction l as [|b l IH]; [by intros ?%elem_of_nil|]. intros [->|?]%elem_of_cons; simpl; [lia|]. specialize (IH ltac:(done)). lia. Qed.

#[export] Instance ex_keystore_laws : KeyStoreLaws ex_keystore.
Proof.
  split; cbn.
  - intros p k a k'. case_bool_decide; [done|]. intros [= <- <-]. split; [|done].
    intros Hin%foldr_max_ge. cbn in *. lia.
  - intros p k r k'. case_bool_decide; [by intros [= <- <-]|]. by intros [= <- <-].
Qed.

Definition ex_clock : go Z Z := λ t, (Ok t, (t + 1)%Z).
Definition ex_wallets : wstate := mkWstate [7%N] "pass" 11155111 ∅ 1700000000%Z [].

Lemma wallet_create_spec_witness :
  ∃ w s', Wallet_Create ex_keystore ex_clock ex_wallets = (Ok w, s') ∧
    Wallet_List ex_keystore s' ≡ₚ w :: Wallet_List ex_keystore ex_wallets.
Proof.
  pose proof (wallet_create_spec ex_keystore ex_clock ex_wallets
    ltac:(intros a; cbn [ex_wallets ws_created]; rewrite lookup_empty; by intros [? ?])
    ltac:(intros x; by repeat eexists)) as Hw.
  assert (∃ w s', Wallet_Create ex_keystore ex_clock ex_wallets = (Ok w, s')) as (w & s' & E)
    by (repeat eexists; reflexivity).
  rewrite E in Hw. exists w, s'. split; [exact E|exact (proj1 Hw)].
Defined.
End example.
