(* ===== verification/WalletConc.v ===== *)
(** * Concurrent requests of the wallet service (internal/wallet/wallet.go)

    [Create] and [List] hold no lock across their steps: an account is in the
    keystore before its creation time is on the books, and a listing reads
    the books once per account.  Here each access to shared state is a step
    and requests interleave freely. *)

From S2P Require Import Prelude Geth Events Wallet.

(** Where a request is. *)
Inductive thread `{GethTypes} :=
  | Made (a : Address)                    (* Create: [ks.NewAccount] returned *)
  | Timed (a : Address) (now : Z)         (* [time.Now] read *)
  | Booked (a : Address) (now : Z)        (* [s.created] written *)
  | Created (a : Address) (now : Z)       (* published; answered with the wallet *)
  | Listing (rest : list Address) (out : list Wallet).  (* List: [accts] left, [out] so far *)

Section conc.
Context `{Geth} {K : Type} (ks : KeyStore K) (passphrase : string).

Record cstate := mkCstate {
  cs_keys : K;
  cs_created : gmap Address Z;
  cs_bus : list publication;
  cs_threads : list thread;
}.

Definition set_thread (s : cstate) (i : nat) (t : thread) : cstate :=
  mkCstate (cs_keys s) (cs_created s) (cs_bus s) (<[i := t]> (cs_threads s)).
Definition spawn (s : cstate) (k : K) (t : thread) : cstate :=
  mkCstate k (cs_created s) (cs_bus s) (cs_threads s ++ [t]).

Definition wallet_event (a : Address) (now : Z) : publication :=
  (SubjectWalletCreated, Wallet_json (mkWallet (Address_Hex a) now)).

(** [List] begins: the accounts are read at once. *)
Definition start_listing (s : cstate) : cstate := spawn s (cs_keys s) (Listing (Accounts ks (cs_keys s)) []).

Inductive cstep (s : cstate) : cstate → Prop :=
  | step_account a k :
      NewAccount ks passphrase (cs_keys s) = (Ok a, k) → cstep s (spawn s k (Made a))
  | step_refused r k :
      NewAccount ks passphrase (cs_keys s) = (r, k) → is_Ok r = false →
      cstep s (mkCstate k (cs_created s) (cs_bus s) (cs_threads s))
  | step_clock i a now :
      cs_threads s !! i = Some (Made a) → cstep s (set_thread s i (Timed a now))
  | step_book i a now :
      cs_threads s !! i = Some (Timed a now) →
      cstep s (mkCstate (cs_keys s) (<[a := now]> (cs_created s)) (cs_bus s) (<[i := Booked a now]> (cs_threads s)))
  | step_publish i a now :
      cs_threads s !! i = Some (Booked a now) →
      cstep s (mkCstate (cs_keys s) (cs_created s) (cs_bus s ++ [wallet_event a now])
                 (<[i := Created a now]> (cs_threads s)))
  | step_list : cstep s (start_listing s)
  | step_entry i a rest out :
      cs_threads s !! i = Some (Listing (a :: rest) out) →
      cstep s (set_thread s i
        (Listing rest (out ++ [mkWallet (Address_Hex a) (default 0%Z (cs_created s !! a))]))).

Definition runs : cstate → cstate → Prop := rtc cstep.

(** The account a creation is about, and what it has published. *)
Definition owner (t : thread) : option Address :=
  match t with
  | Made a | Timed a _ | Booked a _ | Created a _ => Some a
  | Listing _ _ => None
  end.
Definition announced (t : thread) : list publication :=
  match t with Created a now => [wallet_event a now] | _ => [] end.
(** What the books say of an account under creation. *)
Definition on_books (t : thread) : option (option Z) :=
  match t with
  | Made _ | Timed _ _ => Some None
  | Booked _ now | Created _ now => Some (Some now)
  | Listing _ _ => None
  end.

Context `{!KeyStoreLaws ks}.

Record conc_inv (bus0 : list publication) (s : cstate) : Prop := {
  ci_books : ∀ a, is_Some (cs_created s !! a) → a ∈ Accounts ks (cs_keys s);
  ci_live : ∀ i t a, cs_threads s !! i = Some t → owner t = Some a → a ∈ Accounts ks (cs_keys s);
  ci_own : ∀ i j t u a, cs_threads s !! i = Some t → cs_threads s !! j = Some u →
    owner t = Some a → owner u = Some a → i = j;
  ci_time : ∀ i t a o, cs_threads s !! i = Some t → owner t = Some a → on_books t = Some o → cs_created s !! a = o;
  ci_bus : cs_bus s ≡ₚ bus0 ++ (cs_threads s ≫= announced);
}.

(** A request that moves on, with what it changes. *)
Lemma inv_replace bus0 s i t t' created' bus' :
  conc_inv bus0 s → cs_threads s !! i = Some t → owner t' = owner t → announced t = [] →
  (∀ b, is_Some (created' !! b) → is_Some (cs_created s !! b) ∨ owner t = Some b) →
  (∀ b, owner t ≠ Some b → created' !! b = cs_created s !! b) →
  (∀ a o, owner t' = Some a → on_books t' = Some o → created' !! a = o) →
  bus' ≡ₚ cs_bus s ++ announced t' →
  conc_inv bus0 (mkCstate (cs_keys s) created' bus' (<[i := t']> (cs_threads s))).
Proof.
  intros [Hb Hl Ho Ht Hbus] Hi Ew En Hdom Hsame Hnew Hbus'.
  split; cbn [cs_keys cs_created cs_bus cs_threads].
  - intros b [Hb'|Hb']%Hdom; [by apply Hb|by eapply Hl].
  - intros j u a [[<- ->]|[_ Hj]]%lookup_insert_cases Hu; [rewrite Ew in Hu; by eapply Hl|by eapply Hl].
  - intros j1 j2 u1 u2 a [[<- ->]|[Hn1 H1]]%lookup_insert_cases [[<- ->]|[Hn2 H2]]%lookup_insert_cases E1 E2;
      rewrite ?Ew in *; eauto.
  - intros j u a o [[<- ->]|[Hne Hj]]%lookup_insert_cases Hu Ho'; [by apply Hnew|].
    rewrite Hsame; [by eapply Ht|]. intros Hc. apply Hne. by eapply Ho.
  - destruct (bind_insert announced (cs_threads s) i t t' Hi) as (rest & E1 & E2).
    rewrite E2, Hbus', Hbus, E1, En. solve_Permutation.
Qed.

Lemma inv_keys bus0 s k t :
  conc_inv bus0 s → (∀ a, a ∈ Accounts ks (cs_keys s) → a ∈ Accounts ks k) → announced t = [] →
  (∀ a, owner t = Some a → a ∈ Accounts ks k ∧ (a ∉ Accounts ks (cs_keys s)) ∧ on_books t = Some None) →
  conc_inv bus0 (spawn s k t).
Proof.
  intros [Hb Hl Ho Ht Hbus] Hsub En Hnew. split; cbn [cs_keys cs_created cs_bus cs_threads spawn].
  - eauto.
  - intros j u a [Hj|[-> ->]]%lookup_snoc_cases Hu; [eauto|by apply Hnew].
  - intros j1 j2 u1 u2 a [H1|[-> ->]]%lookup_snoc_cases [H2|[-> ->]]%lookup_snoc_cases E1 E2; [eauto| | |done].
    + destruct (Hnew a E2) as (_ & Hn & _). by destruct Hn; eapply Hl.
    + destruct (Hnew a E1) as (_ & Hn & _). by destruct Hn; eapply Hl.
  - intros j u a o [Hj|[-> ->]]%lookup_snoc_cases Hu Ho'; [eauto|].
    destruct (Hnew a Hu) as (_ & Hn & Hob). assert (o = None) as -> by congruence.
    destruct (cs_created s !! a) eqn:E; [|done]. destruct Hn. apply Hb. by eexists.
  - rewrite bind_app, Hbus. cbn. by rewrite En, !app_nil_r.
Qed.

Lemma inv_step bus0 s s' : conc_inv bus0 s → cstep s s' → conc_inv bus0 s' ∧ cs_created s ⊆ cs_created s'.
Proof.
  intros Hi Hs. destruct Hs as [a k Hn|r k Hn Hr|i a now Hth|i a now Hth|i a now Hth| |i a rest out Hth].
  - destruct (NewAccount_Ok _ _ _ _ Hn) as [Hnew Hp]. split; [|done]. apply inv_keys; [done| |done|].
    + intros b Hb. rewrite Hp. by right.
    + intros b [= <-]. split; [rewrite Hp; by left|done].
  - pose proof (NewAccount_Err _ _ _ _ Hn Hr) as E. split; [|done]. destruct Hi as [Hb Hl Ho Ht Hbus].
    split; cbn; try done; by rewrite E.
  - split; [|done]. eapply inv_replace; eauto; cbn; [|by rewrite app_nil_r].
    intros b o [= <-] [= <-]. by eapply (ci_time _ _ Hi).
  - assert (cs_created s !! a = None) as Hnone by (by eapply (ci_time _ _ Hi)).
    split; [|by apply insert_subseteq]. eapply inv_replace; eauto; cbn.
    + intros b Hb. destruct (decide (a = b)) as [->|Hne]; [by right|left]. by rewrite lookup_insert_ne in Hb.
    + intros b Hb. rewrite lookup_insert_ne; [done|]. intros ->. by apply Hb.
    + intros b o [= <-] [= <-]. by rewrite lookup_insert_eq.
    + by rewrite app_nil_r.
  - split; [|done]. eapply inv_replace; eauto; cbn.
    intros b o [= <-] [= <-]. by eapply (ci_time _ _ Hi).
  - split; [|done]. by apply inv_keys.
  - split; [|done]. eapply inv_replace; eauto; cbn; try done. by rewrite app_nil_r.
Qed.

Lemma inv_runs bus0 s s' : conc_inv bus0 s → runs s s' → conc_inv bus0 s' ∧ cs_created s ⊆ cs_created s'.
Proof.
  intros Hi Hr. induction Hr as [s|s s1 s' Hs Hr IH]; [done|].
  destruct (inv_step _ _ _ Hi Hs) as [Hi1 Hsub]. destruct (IH Hi1) as [Hi' Hsub']. split; [done|by etrans].
Qed.

(** ** Listings *)

(** An entry of a listing begun when the books were [base]. *)
Definition entry_ok (base created : gmap Address Z) (a : Address) (w : Wallet) : Prop :=
  Wallet_Address w = Address_Hex a ∧ (∀ t, base !! a = Some t → Wallet_CreatedAt w = t) ∧
  (Wallet_CreatedAt w = 0%Z ∨ created !! a = Some (Wallet_CreatedAt w)).

(** Request [i] is a listing of [accts] begun when the books were [base]. *)
Definition listing_ok (base : gmap Address Z) (accts : list Address) (i : nat) (s : cstate) : Prop :=
  base ⊆ cs_created s ∧ ∃ listed rest out, cs_threads s !! i = Some (Listing rest out) ∧ accts = listed ++ rest ∧
    Forall2 (entry_ok base (cs_created s)) listed out.

Lemma entry_ok_mono base c c' a w : c ⊆ c' → entry_ok base c a w → entry_ok base c' a w.
Proof. intros Hc (? & ? & [?|?]); repeat split; [done..|by left|done|done|right; by eapply lookup_weaken]. Qed.

(** The other requests leave a listing alone. *)
Lemma thread_step s s' i rest out :
  cs_threads s !! i = Some (Listing rest out) → cstep s s' →
  cs_threads s' !! i = Some (Listing rest out) ∨
  ∃ a rest', rest = a :: rest' ∧ cs_created s' = cs_created s ∧
    cs_threads s' !! i = Some (Listing rest' (out ++ [mkWallet (Address_Hex a) (default 0%Z (cs_created s !! a))])).
Proof.
  intros Hi Hs. pose proof (lookup_lt_Some _ _ _ Hi) as Hlt.
  destruct Hs as [a k Hn|r k Hn Hr|j a now Hth|j a now Hth|j a now Hth| |j a rest' out' Hth];
    cbn [cs_threads cs_created spawn start_listing set_thread];
    first [left; by rewrite lookup_app_l|left; exact Hi|idtac].
  1-3: left; rewrite list_lookup_insert_ne by congruence; done.
  destruct (decide (j = i)) as [->|Hne]; [right|left; by rewrite list_lookup_insert_ne].
  simplify_eq. eexists _, _. split; [done|]. split; [done|]. by apply list_lookup_insert_eq.
Qed.

Lemma listing_step bus0 base accts i s s' :
  conc_inv bus0 s → listing_ok base accts i s → cstep s s' → listing_ok base accts i s'.
Proof.
  intros Hi (Hb & listed & rest & out & Hth & -> & Hall) Hs. destruct (inv_step _ _ _ Hi Hs) as [_ Hsub].
  split; [by etrans|]. destruct (thread_step _ _ _ _ _ Hth Hs) as [Hth'|(a & rest' & -> & Ec & Hth')].
  - exists listed, rest, out. split; [done|]. split; [done|].
    eapply Forall2_impl; [exact Hall|]. intros. by eapply entry_ok_mono.
  - exists (listed ++ [a]), rest', (out ++ [mkWallet (Address_Hex a) (default 0%Z (cs_created s !! a))]).
    split; [done|]. split; [by rewrite <-app_assoc|]. rewrite Ec. apply Forall2_app; [done|]. constructor; [|done].
    split; [done|]. cbn [Wallet_CreatedAt]. split.
    + intros t Ht. by rewrite (lookup_weaken _ _ _ _ Ht Hb).
    + destruct (cs_created s !! a); [by right|by left].
Qed.

Lemma listing_runs bus0 base accts i s s' :
  conc_inv bus0 s → listing_ok base accts i s → runs s s' → listing_ok base accts i s'.
Proof.
  intros Hi Hl Hr. induction Hr as [s|s s1 s' Hs Hr IH]; [done|].
  apply IH; [by eapply inv_step|by eapply listing_step].
Qed.

(** A service that has answered no request yet. *)
Definition idle (s : cstate) : Prop :=
  cs_threads s = [] ∧ ∀ a, is_Some (cs_created s !! a) → a ∈ Accounts ks (cs_keys s).

Lemma inv_idle s : idle s → conc_inv (cs_bus s) s.
Proof. intros [E Hb]. split; rewrite ?E; try done. by rewrite app_nil_r. Qed.

(** C16: Any number of [Create] and [List] requests, interleaved at every
    access to shared state.  Creations that were answered have different
    addresses, each is in the keystore and on the books with the time it was
    answered with, and the events published are exactly theirs, one each.  A
    listing has one entry per account there was when it began, in the
    keystore's order; a wallet whose creation had been answered by then is
    listed with its creation time, and any other time shown is the zero time
    or the one on the books. *)
Theorem concurrent_wallets s0 s1 s2 out :
  idle s0 → runs s0 s1 → runs (start_listing s1) s2 →
  cs_threads s2 !! length (cs_threads s1) = Some (Listing [] out) →
  (∀ i j a t u, cs_threads s1 !! i = Some (Created a t) → cs_threads s1 !! j = Some (Created a u) → i = j) ∧
  (∀ a t, Created a t ∈ cs_threads s1 →
     a ∈ Accounts ks (cs_keys s1) ∧ cs_created s1 !! a = Some t ∧ mkWallet (Address_Hex a) t ∈ out) ∧
  cs_bus s1 ≡ₚ cs_bus s0 ++ (cs_threads s1 ≫= announced) ∧
  Wallet_Address <$> out = Address_Hex <$> Accounts ks (cs_keys s1) ∧
  (∀ w, w ∈ out → ∃ a, a ∈ Accounts ks (cs_keys s1) ∧ Wallet_Address w = Address_Hex a ∧
     (Wallet_CreatedAt w = 0%Z ∨ cs_created s2 !! a = Some (Wallet_CreatedAt w))).
Proof.
  intros Hidle Hr1 Hr2 Hout. destruct (inv_runs _ _ _ (inv_idle _ Hidle) Hr1) as [Hi _].
  destruct (inv_step _ _ _ Hi (step_list s1)) as [Hi1 _].
  assert (listing_ok (cs_created s1) (Accounts ks (cs_keys s1)) (length (cs_threads s1)) (start_listing s1)) as Hl.
  { split; [done|]. exists [], (Accounts ks (cs_keys s1)), []. split; [|by split].
    cbn. by rewrite lookup_app_r, Nat.sub_diag by lia. }
  destruct (listing_runs _ _ _ _ _ _ Hi1 Hl Hr2) as (_ & listed & rest & out' & Hth & E & Hall).
  rewrite Hout in Hth. injection Hth as <- <-. rewrite app_nil_r in E. subst listed.
  split; [|split; [|split; [apply Hi|split]]].
  - intros i j a t u Hti Htj. by eapply (ci_own _ _ Hi).
  - intros a t [i Hti]%list_elem_of_lookup. assert (a ∈ Accounts ks (cs_keys s1)) as Ha by (by eapply (ci_live _ _ Hi)).
    assert (cs_created s1 !! a = Some t) as Hc by (by eapply (ci_time _ _ Hi)). split; [done|]. split; [done|].
    apply list_elem_of_lookup in Ha as [n Hn]. destruct (Forall2_lookup_l _ _ _ _ _ Hall Hn) as ([wa wt] & Hw & Ew & Et & _).
    cbn in Ew, Et. rewrite <-Ew, <-(Et t Hc). by eapply list_elem_of_lookup_2.
  - clear -Hall. induction Hall as [|a w l k [Hw _] Hall IH]; [done|]. rewrite !fmap_cons. by rewrite Hw, IH.
  - intros w [n Hn]%list_elem_of_lookup. destruct (Forall2_lookup_r _ _ _ _ _ Hall Hn) as (a & Ha & Ew & _ & Hz).
    exists a. split; [by eapply list_elem_of_lookup_2|done].
Qed.
End conc.

(** ** Two creations and a listing *)
Section example.
Import Toy.

Definition wc_start : cstate := mkCstate [7%N] ∅ [] [].
(** Account 8 is created; then account 9 is in the keystore but not yet on
    the books when a listing begins. *)
Definition wc_mid : cstate :=
  mkCstate [9; 8; 7]%N {[ 8%N := 1700000000%Z ]} [wallet_event 8%N 1700000000] [Created 8%N 1700000000; Made 9%N].
Definition wc_listed : list Wallet :=
  [mkWallet "0x9" 0; mkWallet "0x8" 1700000000; mkWallet "0x7" 0].
Definition wc_end : cstate :=
  mkCstate [9; 8; 7]%N {[ 8%N := 1700000000%Z ]} [wallet_event 8%N 1700000000]
    [Created 8%N 1700000000; Made 9%N; Listing [] wc_listed].

Lemma wc_run : runs ex_keystore "pass" wc_start wc_mid.
Proof.
  eapply rtc_l; [eapply step_account; reflexivity|]. eapply rtc_l; [eapply (step_clock _ _ _ 0%nat _ 1700000000); reflexivity|].
  eapply rtc_l; [eapply (step_book _ _ _ 0%nat); reflexivity|]. eapply rtc_l; [eapply (step_publish _ _ _ 0%nat); reflexivity|].
  eapply rtc_l; [eapply step_account; reflexivity|]. apply rtc_refl.
Qed.

Lemma wc_listing : runs ex_keystore "pass" (start_listing ex_keystore wc_mid) wc_end.
Proof.
  do 3 (eapply rtc_l; [eapply (step_entry _ _ _ 2%nat); reflexivity|]). apply rtc_refl.
Qed.

Lemma concurrent_wallets_witness :
  (mkWallet "0x8" 1700000000 : Wallet) ∈ wc_listed ∧
  (Wallet_Address <$> wc_listed) = Address_Hex <$> [9; 8; 7]%N.
Proof.
  assert (idle ex_keystore wc_start) as Hi.
  { split; [reflexivity|]. intros a [? Ha]. cbn in Ha. by rewrite lookup_empty in Ha. }
  destruct (concurrent_wallets ex_keystore "pass" wc_start wc_mid wc_end wc_listed Hi wc_run wc_listing eq_refl)
    as (_ & Hc & _ & Ha & _).
  split; [|exact Ha]. exact (proj2 (proj2 (Hc 8%N 1700000000%Z ltac:(left)))).
Defined.
End example.
