(* ===== verification/Notification.v ===== *)
(** * The notification consumer (internal/notification/notification.go) *)

From S2P Require Import Prelude Rat Events.

(** What the consumer logs for an event. *)
Inductive notice :=
  | Subscribed (subject : string)
  | Dispatched (event : string) (time : Z) (payload : json).

(** [type Consumer struct]: the log and the unsubscribe functions, by
    subscription. *)
Record Consumer := mkConsumer {
  Consumer_log : list notice;
  Consumer_subs : list N;
}.
Definition NewConsumer : Consumer := mkConsumer [] [].

Definition subjects : list string :=
  [SubjectUserCreated; SubjectWalletCreated; SubjectTxSubmitted; SubjectPaymentMade;
   SubjectChainTransfer; SubjectChainReorg].

Section consumer.
Context {B : Type} (nc : Conn B).

Definition on_bus {A} (c : go B A) : go (Consumer * B) A := go_zoom snd (λ b s, (s.1, b)) c.

(** The loop of [Start]. *)
Fixpoint start_loop (subjs : list string) : go (Consumer * B) unit :=
  match subjs with
  | [] => go_ret tt
  | subj :: rest =>
      let! unsub := on_bus (NATSBus_Subscribe nc subj) in
      do! go_modify (λ s, (mkConsumer (Consumer_log s.1 ++ [Subscribed subj]) (Consumer_subs s.1 ++ [unsub]), s.2)) in
      start_loop rest
  end.
Definition Start : go (Consumer * B) unit := start_loop subjects.

(** [Stop]: errors of the unsubscribe functions are ignored. *)
Fixpoint stop_loop (subs : list N) : go (Consumer * B) unit :=
  match subs with
  | [] => go_ret tt
  | u :: rest => let! _ := go_try (on_bus (nc_Unsubscribe nc u)) in stop_loop rest
  end.
Definition Stop : go (Consumer * B) unit := λ s, stop_loop (Consumer_subs s.1) s.

(** [handle]. *)
Definition handle (e : Event) (c : Consumer) : Consumer :=
  mkConsumer (Consumer_log c ++ [Dispatched (Event_Subject e) (Event_Time e) (Event_Data e)]) (Consumer_subs c).

(** Documented effect of the two calls on the subscriptions of the
    connection. *)
Class ConnLaws (subs : B → gmap N string) : Prop := {
  Subscribe_Ok : ∀ subj b u b', nc_Subscribe nc subj b = (Ok u, b') →
    subs b !! u = None ∧ subs b' = <[u := subj]> (subs b);
  Unsubscribe_Ok : ∀ u b, nc_Unsubscribe nc u b = (Ok tt, (nc_Unsubscribe nc u b).2) ∧
    subs (nc_Unsubscribe nc u b).2 = delete u (subs b);
}.
Context (subs : B → gmap N string) `{!ConnLaws subs}.

Lemma start_loop_Ok subjs s s' :
  start_loop subjs s = (Ok tt, s') →
  ∃ us, length us = length subjs ∧ NoDup us ∧ (∀ u, u ∈ us → subs s.2 !! u = None) ∧
    Consumer_subs s'.1 = Consumer_subs s.1 ++ us ∧
    subs s'.2 = list_to_map (zip us subjs) ∪ subs s.2.
Proof.
  revert s. induction subjs as [|subj subjs IH]; intros s Hr; cbn [start_loop] in Hr.
  - go_inv. exists []. rewrite app_nil_r. split; [done|]. split; [constructor|].
    split; [by intros u ?%elem_of_nil|]. split; [done|]. cbn. by rewrite (left_id_L ∅ (∪)).
  - apply go_bind_Ok in Hr as (u & s1 & Hu & Hr). apply go_bind_Ok in Hr as ([] & s2 & Hm & Hr).
    injection Hm as <-. destruct s as [c b]. unfold on_bus, go_zoom, NATSBus_Subscribe, wrap_err in Hu. cbn [snd] in Hu.
    destruct (nc_Subscribe nc subj b) as [[u'| | |] b1] eqn:Hs; simplify_eq.
    apply Subscribe_Ok in Hs as [Hfresh Hs1].
    destruct (IH _ Hr) as (us & Hl & Hn & Hf & Hcs & Hsub). cbn [fst snd Consumer_subs] in *.
    exists (u :: us). split; [simpl; lia|]. rewrite Hs1 in Hf, Hsub.
    assert (u ∉ us) as Hu by (intros Hin; specialize (Hf _ Hin); by rewrite lookup_insert_eq in Hf).
    split; [by constructor|]. split.
    + intros v [->|Hv]%elem_of_cons; [done|]. specialize (Hf v Hv).
      by apply lookup_insert_None in Hf as [? _].
    + split; [by rewrite Hcs, <-app_assoc|]. rewrite Hsub. cbn [zip zip_with list_to_map].
      rewrite <-insert_union_r, insert_union_l; [done|].
      apply not_elem_of_list_to_map_1. rewrite fst_zip by lia. done.
Qed.

Lemma stop_loop_run us s :
  ∃ s', stop_loop us s = (Ok tt, s') ∧ subs s'.2 = foldl (λ m u, delete u m) (subs s.2) us.
Proof.
  revert s. induction us as [|u us IH]; intros s; [by exists s|]. destruct s as [c b].
  cbn [stop_loop foldl snd]. destruct (Unsubscribe_Ok u b) as [E1 E2].
  unfold go_bind, go_try, on_bus, go_zoom. cbn [snd fst]. rewrite E1.
  destruct (IH (c, (nc_Unsubscribe nc u b).2)) as (s' & Hs & Hsub). exists s'. split; [done|].
  rewrite Hsub. cbn [snd]. by rewrite E2.
Qed.

Lemma delete_all (m : gmap N string) us l :
  (∀ u, u ∈ us → m !! u = None) → length l = length us → NoDup us →
  foldl (λ m u, delete u m) (list_to_map (zip us l) ∪ m) us = m.
Proof.
  revert l. induction us as [|u us IH]; intros l Hf Hl Hn; [cbn; by rewrite (left_id_L ∅ (∪))|].
  destruct l as [|x l]; [done|]. apply NoDup_cons in Hn as [Hu Hn]. cbn [zip zip_with list_to_map foldl].
  change (list_to_map ((u, x) :: zip us l)) with (<[u := x]> (list_to_map (zip us l) : gmap N string)).
  rewrite <-insert_union_l, delete_insert_eq, delete_id.
  - apply IH; [set_solver|simpl in Hl; lia|done].
  - apply lookup_union_None. split; [|apply Hf; set_solver].
    apply not_elem_of_list_to_map_1. rewrite fst_zip by (simpl in Hl; lia). done.
Qed.

End consumer.

Section delivery.
Context `{Codec} {B : Type} (nc : Conn B) (time_Now : go B Z).

(** What a producer publishes is what a consumer handles.  [Publish]
    makes one call on the connection, under the given subject, with a message
    that decodes at any subscriber to the event with that subject, the time
    of the call and that data, and the consumer logs exactly that; text that
    is not JSON is dropped. *)
Theorem published_is_dispatched subject data b now b' c :
  time_Now b = (Ok now, b') →
  (∃ msg, NATSBus_Publish nc time_Now subject data b =
            wrap_err ("publish " +:+ quoted subject) (nc_Publish nc subject msg) b' ∧
     on_message msg = Some (mkEvent subject now data) ∧
     ((λ e, handle e c) <$> on_message msg) =
       Some (mkConsumer (Consumer_log c ++ [Dispatched subject now data]) (Consumer_subs c))) ∧
  (∀ msg, json_Unmarshal msg = None → on_message msg = None).
Proof.
  intros Ht. split.
  - eexists. split; [unfold NATSBus_Publish, go_bind; rewrite Ht; reflexivity|].
    unfold on_message. rewrite json_Unmarshal_Marshal. done.
  - intros msg Hm. unfold on_message. by rewrite Hm.
Qed.
End delivery.

(** ** A broker in memory *)
Section example.
(** Live subscriptions, the next number, and the messages sent. *)
Record broker := mkBroker {
  br_subs : gmap N string;
  br_next : N;
  br_sent : list (string * string);
}.
Definition ex_conn : Conn broker := {|
  nc_Publish subj msg b := (Ok tt, mkBroker (br_subs b) (br_next b) (br_sent b ++ [(subj, msg)]));
  nc_Subscribe subj b :=
    let u := fresh (dom (br_subs b)) in
    (Ok u, mkBroker (<[u := subj]> (br_subs b)) (br_next b) (br_sent b));
  nc_Unsubscribe u b := (Ok tt, mkBroker (delete u (br_subs b)) (br_next b) (br_sent b)) |}.

#[local] Instance ex_conn_laws : ConnLaws ex_conn br_subs.
Proof.
  split; [|done]. intros subj b u b' [= <- <-]. split; [|done].
  apply not_elem_of_dom. apply is_fresh.
Qed.

Definition ex_broker : broker := mkBroker {[ 0%N := "audit.>" ]} 1%N [].
Definition ex_started : Consumer * broker := (Start ex_conn (NewConsumer, ex_broker)).2.


End example.

(** ** A codec: the number of a JSON value, in decimal *)
Module ToyCodec.
Abbreviation leaf := (unit + bool + Z + string)%type.

Fixpoint to_tree (v : json) : gen_tree leaf :=
  match v with
  | JNull => GenLeaf (inl (inl (inl tt)))
  | JBool b => GenLeaf (inl (inl (inr b)))
  | JNum z => GenLeaf (inl (inr z))
  | JStr s => GenLeaf (inr s)
  | JArr l => GenNode 0 (map to_tree l)
  | JObj fs => GenNode 1 (map (λ kv, GenNode 2 [GenLeaf (inr kv.1); to_tree kv.2]) fs)
  end.
Fixpoint of_tree (t : gen_tree leaf) : json :=
  match t with
  | GenLeaf (inl (inl (inl _))) => JNull
  | GenLeaf (inl (inl (inr b))) => JBool b
  | GenLeaf (inl (inr z)) => JNum z
  | GenLeaf (inr s) => JStr s
  | GenNode 0 l => JArr (map of_tree l)
  | GenNode _ l => JObj (map (λ t, match t with
                                   | GenNode _ [GenLeaf (inr k); v] => (k, of_tree v)
                                   | _ => ("", JNull)
                                   end) l)
  end.

Fixpoint of_to_tree (v : json) : of_tree (to_tree v) = v.
Proof.
  destruct v as [| | | |l|fs]; cbn; [done..| |].
  - f_equal. induction l as [|x l IH]; cbn; [done|]. by rewrite of_to_tree, IH.
  - f_equal. induction fs as [|[k x] fs IH]; cbn; [done|]. by rewrite of_to_tree, IH.
Qed.

#[export] Instance json_eq_dec : EqDecision json.
Proof.
  intros x y. destruct (decide (to_tree x = to_tree y)) as [E|E].
  - left. by rewrite <-(of_to_tree x), E, of_to_tree.
  - right. congruence.
Defined.
#[export] Instance json_countable : Countable json := inj_countable' to_tree of_tree of_to_tree.

Definition toy_marshal (v : json) : string := pretty (Npos (encode v)).
Definition toy_unmarshal (s : string) : option json :=
  match digits_value s with N0 => None | Npos p => decode p end.
Lemma toy_roundtrip v : toy_unmarshal (toy_marshal v) = Some v.
Proof. unfold toy_unmarshal, toy_marshal. rewrite (proj1 (pretty_N_digits _)). apply decode_encode. Qed.

#[export] Instance toy_codec : Codec :=
  {| json_Marshal := toy_marshal; json_Unmarshal := toy_unmarshal; json_Unmarshal_Marshal := toy_roundtrip |}.
End ToyCodec.

Section delivery_example.
Import ToyCodec.

Definition ex_time : go broker Z := λ b, (Ok 1700000000%Z, b).

Lemma published_is_dispatched_witness :
  ∃ msg, NATSBus_Publish ex_conn ex_time SubjectUserCreated (JObj [("id", JStr "u1")]) ex_broker =
           wrap_err ("publish " +:+ quoted SubjectUserCreated) (nc_Publish ex_conn SubjectUserCreated msg) ex_broker ∧
    on_message msg = Some (mkEvent SubjectUserCreated 1700000000 (JObj [("id", JStr "u1")])).
Proof.
  destruct (published_is_dispatched ex_conn ex_time SubjectUserCreated (JObj [("id", JStr "u1")]) ex_broker
    1700000000 ex_broker NewConsumer eq_refl) as [(msg & Hp & Hm & _) _].
  exists msg. split; [exact Hp|exact Hm].
Defined.
End delivery_example.
