(* ===== verification/EventFlow.v ===== *)
(** * From the bus to the consumer

    The event pipeline end to end: services publish with
    [NATSBus_Publish] (pkg/events), a broker queues messages at the
    subscriptions, and the notification service handles them one at a time.
    The broker is core NATS: it may drop a message, and keeps the order at a
    subscription. *)

From S2P Require Import Prelude Events Notification.
From Stdlib Require Import Ascii.

(** A subject without wildcards matches itself only. *)
Fixpoint plain (subject : string) : bool :=
  match subject with
  | EmptyString => true
  | String c s => negb (bool_decide (c = "*"%char) || bool_decide (c = ">"%char)) && plain s
  end.

(** Documented behaviour of the broker: [subs] are the live subscriptions,
    [pending] the messages waiting at each, and [nc_Next] hands the oldest one
    to the subscription's callback. *)
Class Delivery {B : Type} (nc : Conn B) (time_Now : go B Z) (subs : B → gmap N string)
    (pending : B → N → list string) (nc_Next : N → B → option (string * B)) : Prop := {
  Delivery_conn :: ConnLaws nc subs;
  Subscribe_pending : ∀ subj b u b', nc_Subscribe nc subj b = (Ok u, b') →
    pending b' u = [] ∧ ∀ v, v ≠ u → pending b' v = pending b v;
  Now_quiet : ∀ b r b', time_Now b = (r, b') → subs b' = subs b ∧ ∀ u, pending b' u = pending b u;
  Publish_at_most_once : ∀ subj msg b r b', nc_Publish nc subj msg b = (r, b') →
    subs b' = subs b ∧ ∀ u, pending b' u = pending b u ∨
      pending b' u = pending b u ++ [msg] ∧ ∀ s, subs b !! u = Some s → plain s = true → s = subj;
  Next_message : ∀ u b msg b', nc_Next u b = Some (msg, b') →
    subs b' = subs b ∧ pending b u = msg :: pending b' u ∧ ∀ v, v ≠ u → pending b' v = pending b v;
}.

Section flow.
Context `{Codec} {B : Type} (nc : Conn B) (time_Now : go B Z) (subs : B → gmap N string).
Context (pending : B → N → list string) (nc_Next : N → B → option (string * B)).
Context `{!Delivery nc time_Now subs pending nc_Next}.

(** A broker that drops nothing. *)
Definition reliable : Prop := ∀ subj msg b u,
  subs b !! u = Some subj → pending (nc_Publish nc subj msg b).2 u = pending b u ++ [msg].

(** The callback of a subscription of the consumer. *)
Definition receive (msg : string) (c : Consumer) : Consumer :=
  match on_message msg with Some e => handle e c | None => c end.

Lemma receive_subs msg c : Consumer_subs (receive msg c) = Consumer_subs c.
Proof. unfold receive. by destruct (on_message msg). Qed.

(** Publications by any service and deliveries to the consumer, interleaved;
    the list is what was published, in order. *)
Inductive flow : Consumer * B → list Event → Consumer * B → Prop :=
  | flow_done s : flow s [] s
  | flow_publish c b subj now data b1 r b2 evs s' :
      time_Now b = (Ok now, b1) → NATSBus_Publish nc time_Now subj data b = (r, b2) →
      flow (c, b2) evs s' → flow (c, b) (mkEvent subj now data :: evs) s'
  | flow_deliver c b u msg b' evs s' :
      u ∈ Consumer_subs c → nc_Next u b = Some (msg, b') →
      flow (receive msg c, b') evs s' → flow (c, b) evs s'.

(** The events the consumer has logged under a subject, those waiting at a
    subscription, and those of a list that were published under a subject. *)
Definition notice_event (subj : string) (n : notice) : option Event :=
  match n with
  | Dispatched s t d => if decide (s = subj) then Some (mkEvent s t d) else None
  | Subscribed _ => None
  end.
Definition notices (subj : string) (c : Consumer) : list Event := omap (notice_event subj) (Consumer_log c).
Definition queued (b : B) (u : N) : list Event := omap on_message (pending b u).
Definition published (subj : string) (evs : list Event) : list Event := filter (λ e, Event_Subject e = subj) evs.

(** The consumer's subscriptions are live, on subjects of its list, and hold
    only messages of their subject. *)
Definition well_queued (s : Consumer * B) : Prop := ∀ u, u ∈ Consumer_subs s.1 →
  ∃ subj, subj ∈ subjects ∧ subs s.2 !! u = Some subj ∧ Forall (λ e, Event_Subject e = subj) (queued s.2 u).

Lemma subjects_plain subj : subj ∈ subjects → plain subj = true.
Proof.
  assert (forallb plain subjects = true) as Hall by (vm_compute; reflexivity).
  intros Hs. rewrite forallb_forall in Hall. by apply Hall, list_elem_of_In.
Qed.

Lemma publish_message subj now data b b1 :
  time_Now b = (Ok now, b1) →
  ∃ msg, (NATSBus_Publish nc time_Now subj data b).2 = (nc_Publish nc subj msg b1).2 ∧
    on_message msg = Some (mkEvent subj now data).
Proof.
  intros Ht. destruct (published_is_dispatched nc time_Now subj data b now b1 NewConsumer Ht)
    as [(msg & Hp & Hm & _) _]. exists msg. split; [|done]. rewrite Hp. unfold wrap_err.
  by destruct (nc_Publish nc subj msg b1) as [[] ?].
Qed.

(** One publication at one subscription. *)
Lemma publish_queued subj now data b b1 r b2 u s :
  time_Now b = (Ok now, b1) → NATSBus_Publish nc time_Now subj data b = (r, b2) →
  subs b !! u = Some s → plain s = true →
  subs b2 = subs b ∧
  (queued b2 u = queued b u ∨ s = subj ∧ queued b2 u = queued b u ++ [mkEvent subj now data]) ∧
  (reliable → s = subj → queued b2 u = queued b u ++ [mkEvent subj now data]).
Proof.
  intros Ht Hp Hu Hs. destruct (publish_message subj now data b b1 Ht) as (msg & E & Hm).
  rewrite Hp in E. cbn [snd] in E. destruct (Now_quiet _ _ _ Ht) as [Es Eq].
  destruct (nc_Publish nc subj msg b1) as [r' b2'] eqn:Hpub. cbn [snd] in E. subst b2'.
  destruct (Publish_at_most_once _ _ _ _ _ Hpub) as [Es2 Hpend]. split; [congruence|]. unfold queued. split.
  - destruct (Hpend u) as [->|[-> Hsub]]; rewrite Eq; [by left|]. rewrite Es in Hsub. right.
    split; [by apply Hsub|]. rewrite omap_app. cbn. by rewrite Hm.
  - intros Hrel ->. specialize (Hrel subj msg b1 u). rewrite Es, Hpub in Hrel. cbn [snd] in Hrel.
    rewrite (Hrel Hu), Eq, omap_app. cbn. by rewrite Hm.
Qed.

Lemma notices_handle subj e c :
  notices subj (handle e c) = notices subj c ++ published subj [e].
Proof.
  destruct e as [s t d]. unfold notices, handle, published. cbn [Consumer_log]. rewrite omap_app. f_equal. cbn.
  by case_decide.
Qed.

(** One delivery: the oldest event moves from the queue to the log. *)
Lemma deliver_effect c b u msg b' :
  well_queued (c, b) → u ∈ Consumer_subs c → nc_Next u b = Some (msg, b') →
  subs b' = subs b ∧ Consumer_subs (receive msg c) = Consumer_subs c ∧ (∀ v, v ≠ u → queued b' v = queued b v) ∧
  ∃ subj, subj ∈ subjects ∧ subs b !! u = Some subj ∧ Forall (λ e, Event_Subject e = subj) (queued b' u) ∧
    notices subj (receive msg c) ++ queued b' u = notices subj c ++ queued b u ∧
    ∀ s, s ≠ subj → notices s (receive msg c) = notices s c.
Proof.
  intros Hq Hu Hn. destruct (Next_message _ _ _ _ Hn) as (Es & Ep & Ev). destruct (Hq u Hu) as (subj & Hin & Hs & Hf).
  split; [done|]. split; [apply receive_subs|].
  split; [intros v Hv; unfold queued; by rewrite Ev|]. exists subj. split; [done|]. split; [done|].
  unfold queued in *. cbn [snd] in *. rewrite Ep in *. cbn in Hf |- *. unfold receive.
  destruct (on_message msg) as [e|]; [|done]. apply Forall_cons in Hf as [He Hf]. split; [done|]. split.
  - rewrite notices_handle, <-app_assoc. unfold published. by rewrite filter_cons_True.
  - intros s Hne. rewrite notices_handle. unfold published. rewrite filter_cons_False by congruence. apply app_nil_r.
Qed.

Lemma well_queued_publish c b subj now data b1 r b2 :
  well_queued (c, b) → time_Now b = (Ok now, b1) → NATSBus_Publish nc time_Now subj data b = (r, b2) →
  well_queued (c, b2).
Proof.
  intros Hq Ht Hp u Hu. destruct (Hq u Hu) as (s & Hin & Hs & Hf). cbn [fst snd] in *.
  destruct (publish_queued _ _ _ _ _ _ _ _ _ Ht Hp Hs (subjects_plain _ Hin)) as (Es & Hd & _).
  exists s. split; [done|]. split; [by rewrite Es|].
  destruct Hd as [->|[-> ->]]; [done|]. apply Forall_app. split; [done|]. by constructor.
Qed.

Lemma well_queued_deliver c b u msg b' :
  well_queued (c, b) → u ∈ Consumer_subs c → nc_Next u b = Some (msg, b') → well_queued (receive msg c, b').
Proof.
  intros Hq Hu Hn. destruct (deliver_effect c b u msg b' Hq Hu Hn) as (Es & Ec & Ev & subj & Hin & Hs & Hf & _).
  intros v Hv. cbn [fst snd] in *. rewrite Ec in Hv. destruct (decide (v = u)) as [->|Hne].
  - exists subj. by rewrite Es.
  - destruct (Hq v Hv) as (s & ? & ? & ?). exists s. by rewrite Es, Ev.
Qed.

(** Only subjects of the list are ever logged. *)
Lemma flow_other s evs s' subj :
  flow s evs s' → well_queued s → subj ∉ subjects → notices subj s'.1 = notices subj s.1.
Proof.
  intros Hf Hq Hns. induction Hf as [s|c b sb now data b1 r b2 evs s' Ht Hp Hf IH|c b u msg b' evs s' Hu Hn Hf IH]; [done|..].
  - by apply IH; eapply well_queued_publish.
  - rewrite IH by (exact (well_queued_deliver _ _ _ _ _ Hq Hu Hn)). cbn [fst].
    destruct (deliver_effect c b u msg b' Hq Hu Hn) as (_ & _ & _ & s & Hin & _ & _ & _ & Hoth).
    apply Hoth. intros ->. done.
Qed.

(** What is logged and still queued under a subject is what was before, and
    in order the publications of that subject that were not dropped. *)
Lemma flow_subject s evs s' u subj :
  flow s evs s' → well_queued s → u ∈ Consumer_subs s.1 → subs s.2 !! u = Some subj →
  (∀ v, v ∈ Consumer_subs s.1 → subs s.2 !! v = Some subj → v = u) →
  Consumer_subs s'.1 = Consumer_subs s.1 ∧
  ∃ got, got `sublist_of` published subj evs ∧ (reliable → got = published subj evs) ∧
    notices subj s'.1 ++ queued s'.2 u = notices subj s.1 ++ queued s.2 u ++ got.
Proof.
  intros Hf. induction Hf as [s|c b sb now data b1 r b2 evs s' Ht Hp Hf IH|c b v msg b' evs s' Hv Hn Hf IH];
    intros Hq Hu Hs Huniq; cbn [fst snd] in *.
  - split; [done|]. exists []. by rewrite app_nil_r.
  - destruct (Hq u Hu) as (s0 & Hin & Hs0 & _). cbn [snd] in Hs0. assert (s0 = subj) as -> by congruence.
    destruct (publish_queued _ _ _ _ _ _ _ _ _ Ht Hp Hs (subjects_plain _ Hin)) as (Es & Hd & Hrel).
    destruct IH as (Ec & got & Hsub & Hall & E); [by eapply well_queued_publish|done|by rewrite Es|by rewrite Es|].
    split; [done|]. unfold published in *. destruct (decide (subj = sb)) as [<-|Hne].
    + rewrite filter_cons_True by done.
      destruct Hd as [Hd|[_ Hd]].
      * exists got. split; [by constructor|]. split; [|by rewrite E, Hd].
        intros Hr. specialize (Hrel Hr eq_refl). rewrite Hd in Hrel. by apply (f_equal length) in Hrel as El;
          rewrite length_app in El; cbn in El; lia.
      * exists (mkEvent subj now data :: got). split; [by constructor|]. split; [intros Hr; f_equal; by apply Hall|].
        by rewrite E, Hd, <-!app_assoc.
    + rewrite filter_cons_False by (intros Heq; by apply Hne). exists got. split; [done|]. split; [done|].
      destruct Hd as [Hd|[? _]]; [by rewrite E, Hd|done].
  - destruct (deliver_effect c b v msg b' Hq Hv Hn) as (Es & Ec & Ev & s0 & Hin & Hs0 & Hf0 & Hmv & Hoth).
    destruct IH as (Ec' & got & Hsub & Hall & E);
      [exact (well_queued_deliver _ _ _ _ _ Hq Hv Hn)|by rewrite Ec|by rewrite Es|rewrite Es, Ec; exact Huniq|].
    split; [by rewrite Ec', Ec|]. exists got. split; [done|]. split; [done|]. rewrite E, !app_assoc. f_equal.
    destruct (decide (u = v)) as [<-|Hne].
    + assert (s0 = subj) as -> by congruence. exact Hmv.
    + rewrite (Ev u Hne). f_equal. apply Hoth. intros ->. apply Hne. symmetry. by apply Huniq.
Qed.

(** ** Starting *)

Lemma start_quiet subjs s s' :
  start_loop nc subjs s = (Ok tt, s') →
  (∀ subj, notices subj s'.1 = notices subj s.1) ∧
  ((∀ u, u ∈ Consumer_subs s.1 → pending s.2 u = [] ∧ is_Some (subs s.2 !! u)) →
   ∀ u, u ∈ Consumer_subs s'.1 → pending s'.2 u = []).
Proof.
  revert s. induction subjs as [|subj subjs IH]; intros [c b] Hr; cbn [start_loop] in Hr.
  { injection Hr as <-. split; [done|]. intros Hq u Hu. by apply Hq. }
  apply go_bind_Ok in Hr as (u & s1 & Hu & Hr). apply go_bind_Ok in Hr as ([] & s2 & Hm & Hr). injection Hm as <-.
  unfold on_bus, go_zoom, NATSBus_Subscribe, wrap_err in Hu. cbn [snd] in Hu.
  destruct (nc_Subscribe nc subj b) as [[u'| | |] b1] eqn:Hs; simplify_eq.
  destruct (Subscribe_Ok nc (subs:=subs) _ _ _ _ Hs) as [Hfresh Hs1]. destruct (Subscribe_pending _ _ _ _ Hs) as [Hp Hpo].
  destruct (IH _ Hr) as [Hn Hq]. split.
  - intros s. rewrite Hn. unfold notices. cbn [fst Consumer_log]. rewrite omap_app. cbn. apply app_nil_r.
  - intros Hq0. apply Hq. cbn [fst snd Consumer_subs]. rewrite Hs1. intros v Hv. destruct (decide (v = u)) as [->|Hne].
    + rewrite lookup_insert_eq. eauto.
    + rewrite lookup_insert_ne by done. rewrite Hpo by done. apply Hq0. set_solver.
Qed.

(** A consumer that has started: one empty, live subscription per subject. *)
Lemma started b s :
  Start nc (NewConsumer, b) = (Ok tt, s) →
  well_queued s ∧ (∀ subj, notices subj s.1 = []) ∧
  ∀ subj, subj ∈ subjects → ∃ u, u ∈ Consumer_subs s.1 ∧ subs s.2 !! u = Some subj ∧ queued s.2 u = [] ∧
    ∀ v, v ∈ Consumer_subs s.1 → subs s.2 !! v = Some subj → v = u.
Proof.
  intros Hs. destruct (start_loop_Ok nc subs _ _ _ Hs) as (us & Hl & Hnd & _ & Hcs & Hsub).
  destruct (start_quiet _ _ _ Hs) as [Hn Hp]. cbn [fst snd Consumer_subs NewConsumer app] in *.
  specialize (Hp ltac:(by intros ? ?%elem_of_nil)).
  assert (∀ u i, us !! i = Some u → ∃ subj, subjects !! i = Some subj ∧ subs s.2 !! u = Some subj) as Hlook.
  { intros u i Hi. destruct (lookup_lt_is_Some_2 subjects i) as [subj Hsj].
    { apply lookup_lt_Some in Hi. lia. }
    exists subj. split; [done|]. rewrite Hsub. apply lookup_union_Some_l. apply elem_of_list_to_map_1.
    - rewrite fst_zip by lia. done.
    - apply list_elem_of_lookup. exists i. apply lookup_zip_Some. done. }
  rewrite Hcs in *. split; [|split].
  - intros u Hu. rewrite Hcs in Hu. apply list_elem_of_lookup in Hu as Hi. destruct Hi as [i Hi].
    destruct (Hlook u i Hi) as (subj & Hsj & Hlk). exists subj. split; [by eapply list_elem_of_lookup_2|]. split; [done|].
    unfold queued. rewrite Hp by done. constructor.
  - intros subj. by rewrite Hn.
  - intros subj Hsj. apply list_elem_of_lookup in Hsj as [i Hi].
    destruct (lookup_lt_is_Some_2 us i) as [u Hu]; [apply lookup_lt_Some in Hi; lia|].
    destruct (Hlook u i Hu) as (subj' & Hi' & Hlk). simplify_eq. exists u.
    split; [by eapply list_elem_of_lookup_2|]. split; [done|].
    split; [unfold queued; by rewrite Hp by (by eapply list_elem_of_lookup_2)|].
    intros v Hv Hlv. apply list_elem_of_lookup in Hv as [j Hj]. destruct (Hlook v j Hj) as (subj'' & Hj' & Hlv').
    simplify_eq. assert (NoDup subjects) as Hsn by (apply (bool_decide_unpack _); vm_compute; exact I).
    assert (i = j) as -> by (by eapply NoDup_lookup). congruence.
Qed.

(** C17: Whatever services publish, however publications and deliveries
    interleave and whatever the broker drops: what the started consumer logs
    under a subject is a subsequence of what was published under that
    subject, each event with the time and the data of its publication and at
    most once; under a subject it does not list nothing is ever logged; and
    with a broker that drops nothing, once its queues are empty the log is
    exactly what was published, in order. *)
Theorem notices_are_publications b s0 evs s :
  Start nc (NewConsumer, b) = (Ok tt, s0) → flow s0 evs s →
  (∀ subj, notices subj s.1 `sublist_of` published subj evs) ∧
  (∀ subj, subj ∉ subjects → notices subj s.1 = []) ∧
  (reliable → (∀ u, u ∈ Consumer_subs s.1 → pending s.2 u = []) →
   ∀ subj, subj ∈ subjects → notices subj s.1 = published subj evs).
Proof.
  intros Hs Hf. destruct (started _ _ Hs) as (Hq & Hn & Hone).
  assert (∀ subj, subj ∉ subjects → notices subj s.1 = []) as Hoth.
  { intros subj Hns. by rewrite (flow_other _ _ _ _ Hf Hq Hns). }
  split; [|split; [exact Hoth|]].
  - intros subj. destruct (decide (subj ∈ subjects)) as [Hin|Hns]; [|rewrite Hoth by done; apply sublist_nil_l].
    destruct (Hone subj Hin) as (u & Hu & Hlk & Hq0 & Huq).
    destruct (flow_subject _ _ _ u subj Hf Hq Hu Hlk Huq) as (_ & got & Hsub & _ & E).
    rewrite Hn, Hq0 in E. cbn in E. rewrite <-E in Hsub. etrans; [|exact Hsub]. by apply sublist_inserts_r.
  - intros Hrel Hemp subj Hin. destruct (Hone subj Hin) as (u & Hu & Hlk & Hq0 & Huq).
    destruct (flow_subject _ _ _ u subj Hf Hq Hu Hlk Huq) as (Ec & got & _ & Hall & E).
    rewrite Hn, Hq0, (Hall Hrel) in E. unfold queued in E. rewrite Hemp in E by (by rewrite Ec).
    cbn in E. by rewrite app_nil_r in E.
Qed.
End flow.

(** ** A broker in memory *)
Section example.
Import ToyCodec.

Record qbroker := mkQbroker {
  qb_subs : gmap N string;
  qb_queue : N → list string;
}.
Definition q_conn : Conn qbroker := {|
  nc_Publish subj msg b :=
    (Ok tt, mkQbroker (qb_subs b)
              (λ u, if decide (qb_subs b !! u = Some subj) then qb_queue b u ++ [msg] else qb_queue b u));
  nc_Subscribe subj b :=
    let u := fresh (dom (qb_subs b)) in
    (Ok u, mkQbroker (<[u := subj]> (qb_subs b)) (λ v, if decide (v = u) then [] else qb_queue b v));
  nc_Unsubscribe u b := (Ok tt, mkQbroker (delete u (qb_subs b)) (qb_queue b)) |}.
Definition q_next (u : N) (b : qbroker) : option (string * qbroker) :=
  match qb_queue b u with
  | [] => None
  | msg :: rest => Some (msg, mkQbroker (qb_subs b) (λ v, if decide (v = u) then rest else qb_queue b v))
  end.
Definition q_time : go qbroker Z := λ b, (Ok 1700000000%Z, b).

#[local] Instance q_delivery : Delivery q_conn q_time qb_subs qb_queue q_next.
Proof.
  split.
  - split; [|done]. intros subj b u b' [= <- <-]. split; [|done]. apply not_elem_of_dom, is_fresh.
  - intros subj b u b' [= <- <-]. cbn. split; [by rewrite decide_True|]. intros v Hv. by rewrite decide_False.
  - by intros b r b' [= <- <-].
  - intros subj msg b r b' [= <- <-]. split; [done|]. intros u. cbn. case_decide as Hu; [right|by left].
    split; [done|]. intros s Hs. congruence.
  - intros u b msg b' Hn. unfold q_next in Hn. destruct (qb_queue b u) as [|m l] eqn:E; simplify_eq. cbn.
    split; [done|]. split; [by rewrite decide_True|]. intros v Hv. by rewrite decide_False.
Qed.

Lemma q_reliable : reliable q_conn qb_subs qb_queue.
Proof. intros subj msg b u Hu. cbn. by rewrite decide_True. Qed.

Definition q_start : Consumer * qbroker := (Start q_conn (NewConsumer, mkQbroker ∅ (λ _, []))).2.
(** The first subscription is the one on user.created. *)
Definition q_user : N := 0.
Definition q_data : json := JObj [("id", JStr "u1"); ("email", JStr "bob@example.com")].
Definition q_sent : qbroker := (NATSBus_Publish q_conn q_time SubjectUserCreated q_data q_start.2).2.
Definition q_message : string :=
  json_Marshal (Event_json (mkEvent SubjectUserCreated 1700000000 q_data)).
Definition q_end : Consumer * qbroker :=
  (receive q_message q_start.1, mkQbroker (qb_subs q_sent) (λ v, if decide (v = q_user) then [] else qb_queue q_sent v)).

Lemma q_start_ok : Start q_conn (NewConsumer, mkQbroker ∅ (λ _, [])) = (Ok tt, q_start).
Proof.
  unfold q_start. assert ((Start q_conn (NewConsumer, mkQbroker ∅ (λ _, []))).1 = Ok tt) as E by (vm_compute; reflexivity).
  rewrite <-E. apply surjective_pairing.
Qed.

Lemma q_subs_start : Consumer_subs q_start.1 = [0; 1; 2; 3; 4; 5]%N.
Proof. vm_compute. reflexivity. Qed.

Lemma q_queue_user : qb_queue q_sent 0%N = [q_message].
Proof. vm_compute. reflexivity. Qed.

Lemma q_queue_rest u : u ∈ [1; 2; 3; 4; 5]%N → qb_queue q_sent u = [].
Proof.
  assert (Forall (λ u, qb_queue q_sent u = []) [1; 2; 3; 4; 5]%N) as Hr by (repeat constructor; vm_compute; reflexivity).
  rewrite Forall_forall in Hr. apply Hr.
Qed.

Lemma q_flow : flow q_conn q_time q_next q_start [mkEvent SubjectUserCreated 1700000000 q_data] q_end.
Proof.
  rewrite (surjective_pairing q_start) at 1. eapply flow_publish; [reflexivity|apply surjective_pairing|].
  refine (flow_deliver _ _ _ _ _ q_user q_message q_end.2 _ _ _ _ (flow_done _ _ _ _)).
  - rewrite q_subs_start. left.
  - fold q_sent. unfold q_next, q_user. rewrite q_queue_user. reflexivity.
Qed.

Lemma notices_are_publications_witness :
  notices SubjectUserCreated q_end.1 = [mkEvent SubjectUserCreated 1700000000 q_data].
Proof.
  destruct (notices_are_publications q_conn q_time qb_subs qb_queue q_next _ _ _ _ q_start_ok q_flow) as (_ & _ & Hall).
  apply (Hall q_reliable); [|left].
  intros u Hu. cbn [snd q_end qb_queue]. case_decide as Hne; [done|].
  cbn [fst q_end] in Hu. rewrite receive_subs, q_subs_start in Hu. apply q_queue_rest. apply elem_of_cons in Hu as [->|Hu]; [by destruct Hne|exact Hu].
Defined.
End example.
