(* ===== verification/GatewaySecurity.v ===== *)
(** * What the gateway lets through

    The requests that reach the internal services carry only verified
    identities; tokens are granted only for registered credentials; an
    administrator's route is served only to an administrator's token. *)

From S2P Require Import Prelude Http Middleware Mux Auth RateLimit Proxy Gateway User UserService.
From Stdlib Require Import Ascii.

(** The bearer token of a request. *)
Definition bearer (r : Request) : option string :=
  CutPrefix "Bearer " (Header_Get (Req_Header r) "Authorization").

Section security.
Context `{JWTLib} {W : Type} (time_Now : go W Z) (net : string → Transport W) (g : Config (W:=W)).

(** What the world records: the requests sent on the network, which only
    the transports extend. *)
Class Recording (trace : W → list (string * Request)) : Prop := {
  rec_now : ∀ w, trace (time_Now w).2 = trace w;
  rec_limiter : ∀ l k w, cfg_RateLimit g = Some l → trace (Allow l k w).2 = trace w;
  rec_net : ∀ host q w, trace (net host q w).2 = trace w ++ [(host, q)];
}.

(** The world after the limiter was asked about [r]. *)
Definition limited_world (r : Request) (w : W) : W :=
  match cfg_RateLimit g with Some l => (Allow l (clientIP r) w).2 | None => w end.

(** [r], received in world [w], presents a token that verifies as [c] at the
    time the clock then shows. *)
Definition verified_in (w : W) (r : Request) (c : Claims) : Prop :=
  ∃ tok now, bearer r = Some tok ∧ (time_Now (limited_world r w)).1 = Ok now ∧
    Verify (cfg_Auth g) now tok = Ok c.

(** [q] carries the identity of the token that [r] presented: each of the
    two headers has the verified value, or is missing. *)
Definition carries (c : Claims) (q : Request) : Prop :=
  (Req_Header q !! HeaderRole = Some [Claims_Role c] ∨ Req_Header q !! HeaderRole = None) ∧
  (Req_Header q !! HeaderSubject = Some [Claims_Subject c] ∨ Req_Header q !! HeaderSubject = None).

Definition identified (r : Request) (c : Claims) : Request :=
  with_header r (Header_Set (Header_Set (Req_Header r) HeaderSubject (Claims_Subject c))
                   HeaderRole (Claims_Role c)).

Lemma director_header t r : Req_Header (proxy_director t r) = Req_Header r.
Proof. reflexivity. Qed.

Lemma outgoing_identity t r c : carries c (outgoing (proxy_director t) (identified r c)).
Proof.
  assert (Req_Header (identified r c) !! HeaderRole = Some [Claims_Role c]) as H1.
  { apply lookup_insert_eq. }
  assert (Req_Header (identified r c) !! HeaderSubject = Some [Claims_Subject c]) as H2.
  { cbn [identified with_header Req_Header]. rewrite Header_Set_lookup_ne by done. apply lookup_insert_eq. }
  split.
  - rewrite <-H1, <-(director_header t). apply outgoing_header. by apply (bool_decide_unpack _).
  - rewrite <-H2, <-(director_header t). apply outgoing_header. by apply (bool_decide_unpack _).
Qed.

(** An answer the gateway gives by itself: only the limiter and the clock
    were used, and the status is not 200; nothing is written before a panic. *)
Definition refused (r : Request) (s : hstate W) (out : res unit * hstate W) : Prop :=
  (hs_app out.2 = limited_world r (hs_app s) ∨ hs_app out.2 = (time_Now (limited_world r (hs_app s))).2) ∧
  (out.1 = Ok tt → unwritten s → rs_status (hs_resp out.2) ≠ Some 200%N) ∧
  (∀ m, out.1 = Panic m → hs_resp out.2 = hs_resp s).

Lemma refused_Error r s s1 code m :
  hs_resp s1 = hs_resp s → code ≠ 200%N →
  (hs_app s1 = limited_world r (hs_app s) ∨ hs_app s1 = (time_Now (limited_world r (hs_app s))).2) →
  refused r s (Error code m s1).
Proof.
  intros Hr Hc Ha. split; [exact Ha|]. split; [|done]. intros _ Hu.
  assert (unwritten s1) as Hu1 by (unfold unwritten; by rewrite Hr).
  destruct (JSON_run code (JObj [("error", JStr m)]) s1 Hu1) as (s2 & E & Hst & _).
  unfold Error. rewrite E. simpl. congruence.
Qed.

Lemma rate_limited_run r s :
  rate_limited g r s =
  (res_bind (match cfg_RateLimit g with Some l => (Allow l (clientIP r) (hs_app s)).1 | None => Ok true end)
     (λ ok, Ok (negb ok)),
   mkHstate (limited_world r (hs_app s)) (hs_resp s) (hs_watch s) (hs_log s) (hs_entropy s)).
Proof.
  unfold rate_limited, limited_world. destruct (cfg_RateLimit g) as [l|]; [|by destruct s].
  unfold go_bind. rewrite on_app_run. by destruct (Allow l _ _) as [[] w].
Qed.

(** The limiter, if there is one, lets [r] through. *)
Definition let_in (r : Request) (w : W) : Prop :=
  ∀ l, cfg_RateLimit g = Some l → (Allow l (clientIP r) w).1 = Ok true.

(** [authed] runs the wrapped handler for a verified token of a request the
    limiter lets through, or refuses. *)
Lemma authed_cases (next : Handler W) r s :
  (∃ c s2, let_in r (hs_app s) ∧ verified_in (hs_app s) r c ∧ hs_resp s2 = hs_resp s ∧
     hs_app s2 = (time_Now (limited_world r (hs_app s))).2 ∧
     authed time_Now g next r s = next (identified r c) s2) ∨
  refused r s (authed time_Now g next r s).
Proof.
  remember (authed time_Now g next r s) as out eqn:Hout.
  unfold authed in Hout. unfold go_bind at 1 in Hout. rewrite rate_limited_run in Hout.
  destruct (match cfg_RateLimit g with Some _ => _ | None => _ end) as [ok|e|m|] eqn:Hlim; cbn [res_bind] in Hout;
    [|subst out; right; split; [left; reflexivity|split; [discriminate|done]]..].
  destruct ok; cbn [negb] in Hout; [|subst out; right; apply refused_Error; [done|done|by left]].
  change (CutPrefix _ _) with (bearer r) in Hout.
  destruct (bearer r) as [tok|] eqn:Hb; [|subst out; right; apply refused_Error; [done|done|by left]].
  unfold go_bind at 1 in Hout. rewrite on_app_run in Hout. cbn [hs_app hs_resp hs_watch hs_log hs_entropy] in Hout.
  destruct (time_Now (limited_world r (hs_app s))) as [[now|e|m|] w] eqn:Hn; cbn [fst snd] in Hout;
    [|subst out; right; split; [right; by rewrite Hn|split; [discriminate|done]]..].
  unfold go_bind, go_try, go_res in Hout.
  destruct (Verify (cfg_Auth g) now tok) as [c|e|m|] eqn:Hv; subst out.
  - left. exists c. eexists. split; [intros l Hl; by rewrite Hl in Hlim|]. split; [exists tok, now; by rewrite Hn|]. split; [|split; [|reflexivity]]; done.
  - right. apply refused_Error; [done|done|right; by rewrite Hn].
  - right. split; [right; by rewrite Hn|split; [discriminate|done]].
  - right. split; [right; by rewrite Hn|split; [discriminate|done]].
Qed.

Lemma app_proxy (I : W → Prop) t r :
  (∀ w, I w → I (net (target_host t) (outgoing (proxy_director t) r) w).2) →
  app_triple I (newProxy net t r).
Proof.
  intros Hnet. unfold newProxy, ReverseProxy. apply app_bind.
  - apply app_try, app_on_app. intros w Hw. specialize (Hnet w Hw).
    by destruct (net _ _ w) as [[] w'].
  - intros [e|up]; [apply app_bind; auto with platform|].
    apply app_bind; [auto with platform|]. intros _. apply app_bind; [auto with platform|]. intros _.
    apply (triple_for True). intros v _. apply app_Write.
Qed.
End security.

Section gateway_claims.
Context `{JWTLib} {W : Type} (time_Now : go W Z) (net : string → Transport W) (g : Config (W:=W)).
Context (trace : W → list (string * Request)) `{!Recording time_Now net g trace}.

Lemma trace_limited r w : trace (limited_world g r w) = trace w.
Proof.
  unfold limited_world. destruct (cfg_RateLimit g) eqn:Hl; [|done]. by apply (rec_limiter time_Now net g).
Qed.

Lemma trace_now r w : trace (time_Now (limited_world g r w)).2 = trace w.
Proof. by rewrite (rec_now time_Now net g), trace_limited. Qed.

(** A proxied request adds itself to the trace. *)
Lemma trace_proxy t q s x :
  x ∈ trace (hs_app (newProxy net t q s).2) →
  x ∈ trace (hs_app s) ∨ x = (target_host t, outgoing (proxy_director t) q).
Proof.
  set (I := λ w, ∀ x, x ∈ trace w →
    x ∈ trace (hs_app s) ∨ x = (target_host t, outgoing (proxy_director t) q)).
  assert (I (hs_app (newProxy net t q s).2)) as HI; [|exact (HI x)].
  apply (triple_any True _ (λ h, I (hs_app h)) (λ h, I (hs_app h))); [|by left]. apply app_proxy.
  intros w Hw y. rewrite (rec_net time_Now net g).
  intros [Hy|Hy%list_elem_of_singleton]%elem_of_app; auto.
Qed.

(** What [authed] sends carries the verified identity. *)
Lemma trace_authed t r s x :
  x ∈ trace (hs_app (authed time_Now g (newProxy net t) r s).2) →
  x ∈ trace (hs_app s) ∨ ∃ c, verified_in time_Now g (hs_app s) r c ∧ carries c x.2.
Proof.
  destruct (authed_cases time_Now g (newProxy net t) r s) as [(c & s2 & _ & Hv & _ & Hs2 & ->)|[[->| ->] _]].
  - intros [Hx| ->]%trace_proxy; [|right; exists c; split; [done|apply outgoing_identity]].
    rewrite Hs2, trace_now in Hx. by left.
  - rewrite trace_limited. by left.
  - rewrite trace_now. by left.
Qed.

(** Granting a token sends nothing. *)
Lemma trace_issueToken r s : trace (hs_app (issueToken time_Now g r s).2) = trace (hs_app s).
Proof.
  apply (triple_any True _ (λ h, trace (hs_app h) = trace (hs_app s)) (λ h, trace (hs_app h) = trace (hs_app s)));
    [|done].
  change (app_triple (λ w, trace w = trace (hs_app s)) (issueToken time_Now g r)).
  unfold issueToken. destruct (DecodeJSON _ _); [|auto with platform|by intros ? ?|by intros ? ?].
  destruct (cfg_Clients g !! _); [|auto with platform]. case_match; [|auto with platform].
  apply app_bind; [|intros now; apply app_bind; [auto with platform|]; intros [e|t]; auto with platform].
  apply app_on_app. intros w Hw. rewrite <-(rec_now time_Now net g) in Hw.
  by destruct (time_Now w) as [[] w'].
Qed.

Lemma trace_gateway r s x :
  x ∈ trace (hs_app (Gateway_Handler time_Now net g r s).2) →
  x ∈ trace (hs_app s) ∨ ∃ c, verified_in time_Now g (hs_app s) r c ∧ carries c x.2.
Proof.
  unfold Gateway_Handler.
  destruct (mux_cases (gateway_routes time_Now net g) r s) as [(rt & m & Hrt & ->)| ->]; [|by left].
  repeat (apply elem_of_cons in Hrt as [->|Hrt]); [..|by apply elem_of_nil in Hrt]; cbn [snd];
    try exact (trace_authed _ (with_path_values r m) s x).
  - by left.
  - rewrite trace_issueToken. by left.
Qed.

(** C4: Every request the gateway, with its middleware, sends to an internal
    service, while it handles any client request whatsoever, is sent on behalf
    of a bearer token of that client request which verifies at the time it is
    handled, and its identity headers are those of that token or are missing:
    no header the client supplied under their names survives. *)
Theorem forwarded_identity_is_verified r s host q :
  (host, q) ∈ trace (hs_app (stack (Gateway_Handler time_Now net g) r s).2) →
  (host, q) ∈ trace (hs_app s) ∨
  ∃ c, verified_in time_Now g (hs_app s) r c ∧ carries c q.
Proof. rewrite stack_app. exact (trace_gateway (with_id r (stack_id r s)) (stack_start r s) (host, q)). Qed.
End gateway_claims.

Section token_claim.
Context `{JWTLaws} {W : Type} (time_Now : go W Z) (g : Config (W:=W)).

(** C12: A token is granted only for a registered client that presents its
    secret, and the token, when presented before it expires, verifies as
    that client with the role it is registered with. *)
Theorem token_only_for_credentials r s s' :
  unwritten s → issueToken time_Now g r s = (Ok tt, s') → rs_status (hs_resp s') = Some 200%N →
  ∃ m client now t,
    DecodeJSON r ["client_id"; "client_secret"] = Ok m ∧
    cfg_Clients g !! field m "client_id" = Some client ∧
    Client_Secret client = field m "client_secret" ∧
    rs_body (hs_resp s') = [token_json t] ∧ (time_Now (hs_app s)).1 = Ok now ∧
    ∀ later, (later + second ≤ now + auth_expiry (cfg_Auth g))%Z →
      ∃ c, Verify (cfg_Auth g) later (Token_AccessToken t) = Ok c ∧
        Claims_Subject c = field m "client_id" ∧ Claims_Role c = Client_Role client.
Proof.
  intros Hu Hr Hst. unfold issueToken in Hr.
  destruct (DecodeJSON _ _) as [m|e|p|]; [|by pose proof (Error_status _ _ _ _ _ Hu Hr Hst)|done|done].
  cbn [tokenRequest_of tokenRequest_ClientID tokenRequest_ClientSecret] in Hr.
  destruct (cfg_Clients g !! _) as [client|] eqn:Hc; [|by pose proof (Error_status _ _ _ _ _ Hu Hr Hst)].
  case_bool_decide as Hsec; [|by pose proof (Error_status _ _ _ _ _ Hu Hr Hst)].
  apply go_bind_Ok in Hr as (now & s1 & Hn & Hr). rewrite on_app_run in Hn. injection Hn as Hn <-.
  unfold go_bind, go_try, go_res in Hr.
  destruct (Issue _ _ _ _) as [t|e|p|] eqn:Hi; [| |done|done].
  - destruct (JSON_run 200 (token_json t) _ (unwritten_app s (time_Now (hs_app s)).2 Hu)) as (s2 & E & _ & Hb & _).
    rewrite E in Hr. simplify_eq. exists m, client, now, t. split; [done|]. split; [done|]. split; [done|].
    split; [done|]. split; [done|]. intros later Hl. destruct (Issue_Verify _ _ _ _ _ later Hi Hl) as (c & ? & ? & ?). eauto.
  - by pose proof (Error_status _ _ _ _ _ (unwritten_app s _ Hu) Hr Hst).
Qed.
End token_claim.

(** ** The administrator's route, end to end *)
Section admin.
Context `{JWTLaws} {W St X : Type} (time_Now : go W Z) (net : string → Transport W) (g : Config (W:=W)).
(** The user service behind the gateway. *)
Context (S : Store St) (uuid_NewString : go X string) (now_X : go X Z) (mail_ParseAddress : string → bool).
Context (get : W → ustate St X) (put : ustate St X → W → W).
Context (Hnet : net (target_host (cfg_User g)) =
                serve_upstream get put (stack (Routes S uuid_NewString now_X mail_ParseAddress))).
Context (Hpath : target_path (cfg_User g) = "").

Lemma gateway_users_route r :
  Req_Method r = "GET" → Req_Path r = "/api/v1/users" →
  Gateway_Handler time_Now net g r =
  authed time_Now g (newProxy net (cfg_User g)) (with_path_values r []).
Proof. destruct r as [mth pth qry hdr bdy rem pv rid hst]; cbn [Req_Method Req_Path]. intros -> ->. reflexivity. Qed.

Lemma service_users_route q :
  Req_Method q = "GET" → Req_Path q = "/users" →
  Routes S uuid_NewString now_X mail_ParseAddress q =
  RequireRole HeaderRole "admin" (list_users S) (with_path_values q []).
Proof. destruct q as [mth pth qry hdr bdy rem pv rid hst]; cbn [Req_Method Req_Path]. intros -> ->. reflexivity. Qed.

(** Without the role the service answers 403 and does nothing. *)
Lemma list_forbidden q w :
  Req_Method q = "GET" → Req_Path q = "/users" → Header_Get (Req_Header q) HeaderRole ≠ "admin" →
  ∃ up, serve_upstream get put (stack (Routes S uuid_NewString now_X mail_ParseAddress)) q w =
          (Ok up, put (get w) w) ∧ up_status up = 403%N.
Proof.
  intros Hm Hp Hr. unfold serve_upstream. rewrite stack_run. unfold Recovery.
  rewrite service_users_route by done. unfold RequireRole. cbn [with_path_values with_id Req_Header].
  rewrite bool_decide_false by done. eexists. split; [reflexivity|done].
Qed.

Lemma outgoing_users r h :
  Req_Method r = "GET" → Req_Path r = "/api/v1/users" →
  let q := outgoing (proxy_director (cfg_User g)) (with_header (with_path_values r []) h) in
  Req_Method q = "GET" ∧ Req_Path q = "/users".
Proof.
  destruct r as [mth pth qry hdr bdy rem pv rid hst]; cbn [Req_Method Req_Path]. intros -> ->. split; [reflexivity|].
  unfold outgoing, proxy_director, single_host_director. cbn [Req_Path with_path with_host with_header].
  rewrite Hpath. reflexivity.
Qed.

(** Sending on the response of the service keeps its status. *)
Lemma copy_body_status code l (t t' : hstate W) :
  rs_status (hs_resp t) = Some code → go_for l Write t = (Ok tt, t') → rs_status (hs_resp t') = Some code.
Proof.
  revert t. induction l as [|v l IH]; intros t Ht Hf; simpl in Hf; [by go_inv|].
  apply go_bind_Ok in Hf as ([] & t1 & H1 & Hf). injection H1 as <-. eapply IH; [|exact Hf].
  cbn. unfold write_header. rewrite Ht. cbn. done.
Qed.

(** Without the role admin, what comes back through the proxy is a 403. *)
Lemma proxy_forbidden r c s s' :
  unwritten s → Req_Method r = "GET" → Req_Path r = "/api/v1/users" → Claims_Role c ≠ RoleAdmin →
  newProxy net (cfg_User g) (identified (with_path_values r []) c) s = (Ok tt, s') →
  rs_status (hs_resp s') = Some 403%N.
Proof.
  intros Hu Hm Hp Hne Hr. unfold newProxy, ReverseProxy in Hr. rewrite Hnet in Hr.
  set (q := outgoing _ _) in Hr.
  destruct (outgoing_users r (Req_Header (identified (with_path_values r []) c)) Hm Hp) as [Hqm Hqp].
  assert (Header_Get (Req_Header q) HeaderRole ≠ "admin") as Hrole.
  { destruct (outgoing_identity (cfg_User g) (with_path_values r []) c) as [Hrole _].
    unfold Header_Get. change (CanonicalHeaderKey HeaderRole) with HeaderRole. fold q in Hrole.
    destruct Hrole as [->| ->]; done. }
  destruct (list_forbidden q (hs_app s) Hqm Hqp Hrole) as (up & Hup & H403).
  unfold go_bind at 1, go_try in Hr. rewrite on_app_run, Hup in Hr. cbn [fst snd] in Hr.
  apply go_bind_Ok in Hr as ([] & s3 & H3 & Hr). injection H3 as <-.
  apply go_bind_Ok in Hr as ([] & s4 & H4 & Hr). injection H4 as <-.
  rewrite H403 in Hr. eapply copy_body_status; [|exact Hr].
  cbn. unfold write_header. cbn [rs_status]. by rewrite (proj1 Hu).
Qed.

Lemma copy_body_runs l (t : hstate W) : ∃ t', go_for l Write t = (Ok tt, t').
Proof.
  revert t. induction l as [|v l IH]; intros t; [by eexists|]. cbn [go_for]. unfold go_bind. apply IH.
Qed.

(** A panic of the service does not cross the network. *)
Lemma proxy_no_panic q s m s' : newProxy net (cfg_User g) q s ≠ (Panic m, s').
Proof.
  unfold newProxy, ReverseProxy. rewrite Hnet. unfold go_bind at 1, go_try. rewrite on_app_run.
  unfold serve_upstream. destruct (stack _ _ _) as [[] s1]; cbn [fst snd]; [|done..].
  unfold go_bind at 1 2, set_resp, WriteHeader, go_modify.
  match goal with |- go_for ?l _ ?t ≠ _ => destruct (copy_body_runs l t) as [t' ->] end. done.
Qed.

(** Behind the middleware, the route answers 200 only for an administrator. *)
Lemma users_route_admin r s s' :
  unwritten s → Req_Method r = "GET" → Req_Path r = "/api/v1/users" →
  Gateway_Handler time_Now net g r s = (Ok tt, s') → rs_status (hs_resp s') = Some 200%N →
  ∃ c, verified_in time_Now g (hs_app s) r c ∧ Claims_Role c = RoleAdmin.
Proof.
  intros Hu Hm Hp Hr Hst. rewrite gateway_users_route in Hr by done.
  destruct (authed_cases time_Now g (newProxy net (cfg_User g)) (with_path_values r []) s)
    as [(c & s2 & _ & Hv & Hrs & _ & E)|[_ [Href _]]]; rewrite Hr in *; [|by destruct (Href eq_refl Hu)].
  exists c. split; [exact Hv|]. destruct (decide (Claims_Role c = RoleAdmin)) as [Ha|Hne]; [done|exfalso].
  assert (unwritten s2) as Hu2 by (unfold unwritten; by rewrite Hrs).
  pose proof (proxy_forbidden r c s2 s' Hu2 Hm Hp Hne (eq_sym E)). congruence.
Qed.

(** A panic on that route comes before anything is written. *)
Lemma users_route_panic r s m s1 :
  Req_Method r = "GET" → Req_Path r = "/api/v1/users" →
  Gateway_Handler time_Now net g r s = (Panic m, s1) → hs_resp s1 = hs_resp s.
Proof.
  intros Hm Hp Hr. rewrite gateway_users_route in Hr by done.
  destruct (authed_cases time_Now g (newProxy net (cfg_User g)) (with_path_values r []) s)
    as [(c & s2 & _ & _ & _ & _ & E)|[_ [_ Href]]]; rewrite Hr in *; [|by apply (Href m)].
  symmetry in E. by apply proxy_no_panic in E.
Qed.

(** C5: The list of users is served, through the gateway and the user service
    each behind its middleware, only to a request whose bearer token
    verifies, at the time the request is handled, with the role admin,
    whatever headers the client adds to it. *)
Theorem user_list_needs_admin_token r s s' :
  unwritten s → Req_Method r = "GET" → Req_Path r = "/api/v1/users" →
  stack (Gateway_Handler time_Now net g) r s = (Ok tt, s') → rs_status (hs_resp s') = Some 200%N →
  ∃ c, verified_in time_Now g (hs_app s) r c ∧ Claims_Role c = RoleAdmin.
Proof.
  intros Hu Hm Hp Hr Hst. apply stack_Ok in Hr as [(s1 & H1 & Hrs)|(m & s1 & H1 & Hrs)]; rewrite Hrs in Hst.
  - exact (users_route_admin (with_id r (stack_id r s)) (stack_start r s) s1 Hu Hm Hp H1 Hst).
  - pose proof (users_route_panic (with_id r (stack_id r s)) (stack_start r s) m s1 Hm Hp H1) as Hs1.
    assert (unwritten s1) as Hu1 by (unfold unwritten; by rewrite Hs1).
    destruct (JSON_run 500 (JObj [("error", JStr "internal error")]) s1 Hu1) as (s2 & E & H500 & _).
    unfold Error in Hst. rewrite E in Hst. simpl in Hst. congruence.
Qed.
End admin.

(** ** Behaviour at the edge that the comments do not mention *)
Section edges.

Definition from_addr (a : string) : Request :=
  mkRequest "GET" "/api/v1/users" [] ∅ (mkBody None 0%N) a [] None "gateway:8080".

(** The key of the per-client rate limit is the text before the first
    colon of the remote address: the host of an IPv4 client, but for an IPv6
    client only the first group of the address, so unrelated IPv6 clients
    share a limit. *)
Theorem clientIP_is_text_before_colon :
  (∀ host port path h b, Cut ":"%char host = None →
     clientIP (mkRequest "GET" path [] h b (host +:+ ":" +:+ port) [] None "") = host) ∧
  clientIP (from_addr "[2001:db8::1]:50000") = clientIP (from_addr "[2001:4860:4860::8888]:443") ∧
  clientIP (from_addr "[::1]:50000") = "[".
Proof.
  split; [|done]. intros host port path h b Hc. unfold clientIP. cbn [Req_RemoteAddr].
  assert (Cut ":"%char (host +:+ ":" +:+ port) = Some (host, port)) as ->; [|done].
  induction host as [|a host IH]; [done|]. cbn [Cut] in Hc. cbn [String.append Cut].
  change (String a host +:+ ":" +:+ port) with (String a (host +:+ ":" +:+ port)). cbn [Cut].
  destruct (Ascii.eqb a ":"%char); [done|]. destruct (Cut ":"%char host) as [[x y]|]; [done|].
  by rewrite IH.
Qed.

(** The public prefix is removed after the path has been joined to the
    upstream's own: an upstream without a base path sees its native paths,
    one with a base path sees the public path under it. *)
Theorem prefix_stripped_at_root_only r p host q :
  Req_Path r = "/api/v1" +:+ String "/"%char p →
  Req_Path (proxy_director (mkTarget "" q host) r) = String "/"%char p ∧
  Req_Path (proxy_director (mkTarget "/" q host) r) = String "/"%char p ∧
  Req_Path (proxy_director (mkTarget "/base" q host) r) = "/base" +:+ Req_Path r.
Proof.
  intros Hp. unfold proxy_director, single_host_director. cbn [Req_Path with_path with_host target_path].
  rewrite Hp. done.
Qed.

Lemma prefix_stripped_at_root_only_witness :
  Req_Path (proxy_director (mkTarget "" [] "user:8081") (from_addr "10.0.0.7:1")) = "/users".
Proof. apply (prefix_stripped_at_root_only (from_addr "10.0.0.7:1") "users" "user:8081" []). reflexivity. Defined.
End edges.

(** ** A running platform *)
Section platform.
Import ToyJWT.

(** The clock, the user service and the requests sent on the network. *)
Record pworld := mkPworld {
  pw_now : Z;
  pw_users : ustate MemStore N;
  pw_sent : list (string * Request);
}.

Definition pw_time : go pworld Z := λ w, (Ok (pw_now w), w).
Definition pw_put (u : ustate MemStore N) (w : pworld) : pworld := mkPworld (pw_now w) u (pw_sent w).
Definition pw_serve : Transport pworld :=
  serve_upstream pw_users pw_put (stack (Routes MemStore_store ex_uuid ex_now ex_mail)).
(** The same network with a tap on it. *)
Definition pw_tap (host : string) : Transport pworld := λ q w,
  let '(r, w') := pw_serve q w in (r, mkPworld (pw_now w') (pw_users w') (pw_sent w ++ [(host, q)])).

Definition ex_clients : gmap string Client :=
  <["admin-client" := mkClient "admin-secret" RoleAdmin]> {[ "user-client" := mkClient "user-secret" RoleUser ]}.
Definition ex_gateway : Config (W:=pworld) :=
  mkConfig ex_auth ex_clients (mkTarget "" [] "user:8081") (mkTarget "" [] "wallet:8082")
    (mkTarget "" [] "margin:8085") None.

Definition ex_world : pworld := mkPworld 0 (mkUstate {[ "u1" := ex_bob ]} 2%N []) [].
Definition ex_state : hstate pworld := mkHstate ex_world fresh_response [] [] [].

(** A request for the list of users with a token and a forged role. *)
Definition list_request (tok : string) : Request :=
  mkRequest "GET" "/api/v1/users" []
    (<["X-Auth-Role" := ["admin"]]> {[ "Authorization" := ["Bearer " +:+ tok] ]})
    (mkBody None 0%N) "10.0.0.7:50000" [] None "gateway:8080".

Definition user_token : string :=
  match Issue ex_auth 0 "user-client" RoleUser with Ok t => Token_AccessToken t | _ => "" end.
Definition admin_token : string :=
  match Issue ex_auth 0 "admin-client" RoleAdmin with Ok t => Token_AccessToken t | _ => "" end.

#[local] Instance pw_recording : Recording pw_time pw_tap ex_gateway pw_sent.
Proof.
  split; [done|done|]. intros host q w. unfold pw_tap. by destruct (pw_serve q w) as [r w'].
Qed.

(** A user's token does not list the users, forged header or not; an
    administrator's does. *)
Example forged_role_is_refused :
  rs_status (hs_resp (stack (Gateway_Handler pw_time (λ _, pw_serve) ex_gateway) (list_request user_token) ex_state).2)
    = Some 403%N ∧
  rs_status (hs_resp (stack (Gateway_Handler pw_time (λ _, pw_serve) ex_gateway) (list_request admin_token) ex_state).2)
    = Some 200%N.
Proof. split; vm_compute; reflexivity. Qed.

Definition sent_by (r : Request) : list (string * Request) :=
  pw_sent (hs_app (stack (Gateway_Handler pw_time pw_tap ex_gateway) r ex_state).2).

Lemma forwarded_identity_is_verified_witness :
  ∃ q, sent_by (list_request user_token) = [("user:8081", q)] ∧
    ∃ c, verified_in pw_time ex_gateway ex_world (list_request user_token) c ∧ carries c q.
Proof.
  destruct (sent_by (list_request user_token)) as [|[h q] [|]] eqn:E;
    [vm_compute in E; discriminate E| |vm_compute in E; discriminate E].
  assert (h = "user:8081") as -> by (vm_compute in E; congruence).
  exists q. split; [done|].
  pose proof (forwarded_identity_is_verified pw_time pw_tap ex_gateway pw_sent (list_request user_token)
    ex_state "user:8081" q) as Hf.
  fold (sent_by (list_request user_token)) in Hf. rewrite E in Hf.
  destruct (Hf (list_elem_of_here _ _)) as [Hin|Hc]; [|exact Hc].
  change (pw_sent (hs_app ex_state)) with (@nil (string * Request)) in Hin. apply elem_of_nil in Hin.
  destruct Hin.
Defined.

Definition token_request (id secret : string) : Request :=
  mkRequest "POST" "/api/v1/auth/token" [] ∅
    (mkBody (Some (JObj [("client_id", JStr id); ("client_secret", JStr secret)], 60%N)) 60%N)
    "10.0.0.7:50000" [] None "gateway:8080".

Lemma token_only_for_credentials_witness :
  ∃ t, rs_body (hs_resp (issueToken pw_time ex_gateway (token_request "admin-client" "admin-secret") ex_state).2) =
         [token_json t] ∧
    ∃ c, Verify ex_auth (second * 60) (Token_AccessToken t) = Ok c ∧ Claims_Role c = RoleAdmin.
Proof.
  set (run := issueToken pw_time ex_gateway (token_request "admin-client" "admin-secret") ex_state).
  assert (run = (Ok tt, run.2)) as E by (vm_compute; reflexivity).
  assert (rs_status (hs_resp run.2) = Some 200%N) as Hst by (vm_compute; reflexivity).
  destruct (token_only_for_credentials pw_time ex_gateway _ ex_state run.2 (conj eq_refl eq_refl) E Hst)
    as (m & client & now & t & Hm & Hc & _ & Hb & Hn & Hv).
  exists t. split; [exact Hb|]. injection Hn as <-.
  destruct (Hv (second * 60)%Z) as (c & Hc1 & _ & Hc2); [vm_compute; discriminate|].
  exists c. split; [exact Hc1|]. rewrite Hc2.
  assert (DecodeJSON (token_request "admin-client" "admin-secret") ["client_id"; "client_secret"] =
    Ok (<["client_secret" := "admin-secret"]> {[ "client_id" := "admin-client" ]})) as Hm' by (vm_compute; reflexivity).
  rewrite Hm' in Hm. injection Hm as <-. vm_compute in Hc. injection Hc as <-. reflexivity.
Defined.

Lemma user_list_needs_admin_token_witness :
  ∃ c, verified_in pw_time ex_gateway ex_world (list_request admin_token) c ∧ Claims_Role c = RoleAdmin.
Proof.
  set (run := stack (Gateway_Handler pw_time (λ _, pw_serve) ex_gateway) (list_request admin_token) ex_state).
  assert (run = (Ok tt, run.2)) as E by (vm_compute; reflexivity).
  apply (user_list_needs_admin_token pw_time (λ _, pw_serve) ex_gateway MemStore_store ex_uuid ex_now ex_mail
    pw_users pw_put eq_refl eq_refl (list_request admin_token) ex_state run.2 (conj eq_refl eq_refl) eq_refl eq_refl E).
  vm_compute. reflexivity.
Defined.
End platform.
