(* ===== verification/MarginService.v ===== *)
(** * The margin service (cmd/margin/main.go)

    The asset registry read from ASSETS_JSON and the HTTP handler around the
    engine.  [big.Rat.SetString] and the JSON text of the registry are read by
    the standard library: the parsers are parameters here. *)

From S2P Require Import Prelude Geth Rat Margin MarginRisk Http Mux.
From Stdlib Require Import QArith Qreduction Lqa.

(** [type assetJSON struct]. *)
Record assetJSON := mkAssetJSON {
  assetJSON_Symbol : string;
  assetJSON_Token : string;
  assetJSON_Decimals : N;
  assetJSON_CollateralFactor : string;
  assetJSON_PriceFeed : string;
}.

(** [(e *parseError) Error]. *)
Definition parseError (field value : string) : error := ErrorString ("invalid " +:+ field +:+ ": " +:+ value).

Definition Position_json (p : Position) : json :=
  JObj [("symbol", JStr (Position_Symbol p)); ("balance_raw", JStr (Position_BalanceRaw p));
        ("price_usd", JStr (Position_PriceUSD p)); ("value_usd", JStr (Position_ValueUSD p));
        ("collateral_factor", JStr (Position_CollateralFactor p)); ("weighted_usd", JStr (Position_WeightedUSD p))].
Definition Report_json (r : Report) : json :=
  JObj [("account", JStr (Report_Account r)); ("gross_collateral_usd", JStr (Report_GrossCollateralUSD r));
        ("weighted_collateral_usd", JStr (Report_WeightedCollateralUSD r)); ("debt_usd", JStr (Report_DebtUSD r));
        ("health_factor", JStr (Report_HealthFactor r)); ("status", JStr (Report_Status r));
        ("positions", JArr (Position_json <$> Report_Positions r))].

Section service.
Context `{Geth} {W : Type}.
(** [big.Rat.SetString]: [None] is the [false] return; and
    [json.Unmarshal] into a list of [assetJSON]. *)
Context (rat_SetString : string → option Q) (json_Unmarshal : string → res (list assetJSON)).

(** The loop of [loadAssets]. *)
Fixpoint load_all (ins : list assetJSON) : res (list Asset) :=
  match ins with
  | [] => Ok []
  | a :: ins' =>
      match rat_SetString (assetJSON_CollateralFactor a) with
      | None => Err (parseError "collateral_factor" (assetJSON_CollateralFactor a))
      | Some factor =>
          res_bind (load_all ins') (λ out,
            Ok (mkAsset (assetJSON_Symbol a) (HexToAddress (assetJSON_Token a)) (assetJSON_Decimals a)
                  factor (HexToAddress (assetJSON_PriceFeed a)) :: out))
      end
  end.

Definition loadAssets (raw : string) : res (list Asset) :=
  if bool_decide (raw = "") then Ok []
  else res_bind (json_Unmarshal raw) load_all.

(** The configuration of [main]. *)
Definition main_config (assets : list Asset) : Config := mkConfig assets (Qred (115 # 100)) (Qred (100 # 100)).

Definition marginHandler (engine : Engine (W:=W)) : Handler W := λ r,
  let address := PathValue r "address" in
  if IsHexAddress address then
    let d := Query_Get r "debt_usd" in
    match (if bool_decide (d = "") then Some 0%Q else rat_SetString d) with
    | None => Error 400 "invalid debt_usd"
    | Some debt =>
        let! res := go_try (on_app (Evaluate engine (HexToAddress address) debt)) in
        match res with
        | inl e =>
            do! log_append (LogWarn "evaluate failed") in
            Error 502 "could not evaluate margin (chain read failed)"
        | inr report => JSON 200 (Report_json report)
        end
    end
  else Error 400 "invalid address".

Definition margin_routes (engine : Engine (W:=W)) : list (route (W:=W)) :=
  [ (mkPattern (Some "GET") [Lit "healthz"], λ _, JSON 200 (JObj [("status", JStr "ok")]));
    (mkPattern (Some "GET") [Lit "margin"; Wild "address"], marginHandler engine) ].

(** The handler [main] serves. *)
Definition margin_handler (engine : Engine (W:=W)) : Handler W :=
  Chain (mux_serve (margin_routes engine)) [RequestID; Logger; Recovery].

Lemma margin_no_overlap engine : no_overlap (margin_routes engine).*1 = true.
Proof. reflexivity. Qed.

(** [loadAssets] keeps the order, and takes every factor the parser takes. *)
Lemma load_all_Ok ins out :
  load_all ins = Ok out →
  Forall2 (λ a x, rat_SetString (assetJSON_CollateralFactor a) = Some (Asset_CollateralFactor x) ∧
                  Asset_Symbol x = assetJSON_Symbol a ∧ Asset_Decimals x = assetJSON_Decimals a ∧
                  Asset_Token x = HexToAddress (assetJSON_Token a) ∧
                  Asset_PriceFeed x = HexToAddress (assetJSON_PriceFeed a)) ins out.
Proof.
  revert out. induction ins as [|a ins IH]; intros out Hl; cbn [load_all] in Hl; [simplify_eq; constructor|].
  destruct (rat_SetString _) as [f|] eqn:Hf; [|done].
  destruct (load_all ins) as [out'| | |]; simplify_eq/=. constructor; [done|]. by apply IH.
Qed.

(** C37: [loadAssets] on a registry: it succeeds exactly when every factor
    parses, the assets are the entries in order, field by field, and otherwise
    the error names the first factor that does not parse. *)
Theorem loadAssets_spec raw ins :
  raw ≠ "" → json_Unmarshal raw = Ok ins →
  match loadAssets raw with
  | Ok out => length out = length ins ∧
      Forall2 (λ a x, rat_SetString (assetJSON_CollateralFactor a) = Some (Asset_CollateralFactor x) ∧
                      Asset_Symbol x = assetJSON_Symbol a ∧ Asset_Decimals x = assetJSON_Decimals a ∧
                      Asset_Token x = HexToAddress (assetJSON_Token a) ∧
                      Asset_PriceFeed x = HexToAddress (assetJSON_PriceFeed a)) ins out
  | Err e => ∃ l a l', ins = l ++ a :: l' ∧ rat_SetString (assetJSON_CollateralFactor a) = None ∧
               e = parseError "collateral_factor" (assetJSON_CollateralFactor a) ∧
               Forall (λ b, is_Some (rat_SetString (assetJSON_CollateralFactor b))) l
  | _ => False
  end.
Proof.
  intros Hraw Hj. unfold loadAssets. rewrite bool_decide_false by done. rewrite Hj. cbn [res_bind].
  destruct (load_all ins) as [out|e|m|] eqn:Hl.
  - apply load_all_Ok in Hl. split; [symmetry; by eapply Forall2_length|exact Hl].
  - clear Hj. revert Hl. induction ins as [|a ins IH]; cbn [load_all]; [done|].
    destruct (rat_SetString _) as [f|] eqn:Hf.
    + destruct (load_all ins) as [out'|e'| |]; intros; simplify_eq/=.
      destruct (IH eq_refl) as (l & b & l' & -> & Hb & -> & Hall). exists (a :: l), b, l'.
      split; [done|]. split; [done|]. split; [done|]. constructor; [by rewrite Hf|done].
    + intros [= <-]. exists [], a, ins. done.
  - exfalso. clear Hj. revert Hl. induction ins as [|a ins IH]; cbn [load_all]; [done|].
    destruct (rat_SetString _); [|done]. destruct (load_all ins); naive_solver.
  - exfalso. clear Hj. revert Hl. induction ins as [|a ins IH]; cbn [load_all]; [done|].
    destruct (rat_SetString _); [|done]. destruct (load_all ins); naive_solver.
Qed.

(** C29: Every request for an account's margin is answered: 400 for an
    address or a debt that does not parse, 502 when a chain read fails, and
    otherwise 200 with the engine's report for that account and debt (no debt
    given means zero).  The handler does not panic. *)
Theorem margin_request_answered (engine : Engine (W:=W)) r s :
  SoundReader (Engine_reader engine) → SoundOracle (Engine_oracle engine) → unwritten s →
  ∃ s', marginHandler engine r s = (Ok tt, s') ∧
    let st := rs_status (hs_resp s') in let body := rs_body (hs_resp s') in
    let d := Query_Get r "debt_usd" in
    if negb (IsHexAddress (PathValue r "address")) then st = Some 400%N
    else match (if bool_decide (d = "") then Some 0%Q else rat_SetString d) with
         | None => st = Some 400%N
         | Some debt =>
             match Evaluate engine (HexToAddress (PathValue r "address")) debt (hs_app s) with
             | (Ok rep, w') => st = Some 200%N ∧ body = [Report_json rep] ∧ hs_app s' = w'
             | (_, w') => st = Some 502%N ∧ hs_app s' = w'
             end
         end.
Proof.
  intros Hr Ho Hu. unfold marginHandler.
  destruct (IsHexAddress _); cbn [negb].
  2: { destruct (JSON_run 400 (JObj [("error", JStr "invalid address")]) s Hu) as (s' & ? & ? & _). by exists s'. }
  destruct (if bool_decide _ then _ else _) as [debt|].
  2: { destruct (JSON_run 400 (JObj [("error", JStr "invalid debt_usd")]) s Hu) as (s' & ? & ? & _). by exists s'. }
  set (acct := HexToAddress _).
  pose proof (collect_returns engine acct (Config_Assets (Engine_cfg engine)) (hs_app s) Hr Ho) as Hret.
  unfold go_bind at 1, go_try. rewrite on_app_run.
  rewrite !Evaluate_reference_eq. unfold go_bind.
  destruct (collect _ _ _ _) as [[hs|e|m|] w']; try done; cbn [fst snd go_ret].
  - destruct (JSON_run 200 (Report_json (report_of (Engine_cfg engine) acct debt hs)) _ (unwritten_app s w' Hu))
      as (s' & ? & ? & ? & ?). by exists s'.
  - destruct (JSON_run 502 (JObj [("error", JStr "could not evaluate margin (chain read failed)")])
      (mkHstate w' (hs_resp s) (hs_watch s) (hs_log s ++ [LogWarn "evaluate failed"]) (hs_entropy s)) Hu)
      as (s' & ? & ? & _ & ?). by exists s'.
Qed.
End service.

(** ** Examples *)
Section examples.
Import Toy.

(** A parser for the few texts used here. *)
Definition ex_SetString (s : string) : option Q :=
  if bool_decide (s = "0.8") then Some (4 # 5)
  else if bool_decide (s = "5") then Some (5 # 1)
  else if bool_decide (s = "8000") then Some (8000 # 1)
  else None.
Definition ex_entry (factor : string) : assetJSON :=
  mkAssetJSON "WETH" "0x1" 18 factor "0xf1".
Definition ex_Unmarshal (raw : string) : res (list assetJSON) := Ok [ex_entry raw].

Lemma loadAssets_spec_witness :
  match loadAssets ex_SetString ex_Unmarshal "0.8" with
  | Ok out => length out = 1%nat
  | _ => False
  end.
Proof.
  pose proof (loadAssets_spec ex_SetString ex_Unmarshal "0.8" [ex_entry "0.8"] ltac:(done) eq_refl) as Hl.
  cbn in Hl. exact (proj1 Hl).
Defined.

Definition ex_engine (assets : list Asset) : Engine :=
  NewEngine (ChainBalanceReader_reader (test_reader (10 ^ 18) 0)) (ChainlinkOracle_oracle (test_oracle (10 ^ 18) 0))
    (main_config assets).

Definition ex_request (debt : string) : Request :=
  mkRequest "GET" "/margin/0xaa" [("debt_usd", debt)] ∅ (mkBody None 0%N) "10.0.0.7:50000" [("address", "0xaa")] None "".
Definition ex_hstate : hstate unit := mkHstate tt fresh_response [] [] [].

Lemma margin_request_answered_witness :
  ∃ s', marginHandler ex_SetString (ex_engine []) (ex_request "nonsense") ex_hstate = (Ok tt, s') ∧
    rs_status (hs_resp s') = Some 400%N.
Proof.
  exact (margin_request_answered ex_SetString (ex_engine []) (ex_request "nonsense") ex_hstate
    (chain_reader_sound (test_client (10 ^ 18) 0) (test_reader (10 ^ 18) 0) _ eq_refl)
    (chainlink_sound (test_client (10 ^ 18) 0) 8 (test_oracle (10 ^ 18) 0) _ eq_refl) (conj eq_refl eq_refl)).
Defined.

(** The range of a collateral factor is not checked: a registry that
    gives WETH the factor 5 is loaded, and an account whose 2000 USD of
    collateral stand against 8000 USD of debt is then reported healthy. *)
Theorem factor_above_one_is_accepted :
  ∃ assets, loadAssets ex_SetString ex_Unmarshal "5" = Ok assets ∧
    match Evaluate (ex_engine assets) acct 8000 tt with
    | (Ok rep, _) => Report_GrossCollateralUSD rep = "2000.00" ∧ Report_WeightedCollateralUSD rep = "10000.00" ∧
                     Report_Status rep = StatusHealthy
    | _ => False
    end.
Proof. eexists. split; [reflexivity|]. vm_compute. repeat split. Qed.
End examples.
