(* ===== verification/Startup.v ===== *)
(** * Configuration at startup (pkg/server, cmd: gateway, chainmonitor, wallet; internal/user)

    Environment variables and what the entry points make of them.  [os.Exit(1)]
    is an error result. *)

From S2P Require Import Prelude Rat Http Auth RateLimit RedisLimit Gateway.
From Stdlib Require Import Ascii QArith.
#[local] Close Scope Q_scope.

(** [os.Getenv]: an unset variable reads as the empty string. *)
Definition environment : Type := string → string.

(** [server.EnvOr]. *)
Definition EnvOr (env : environment) (key def : string) : string :=
  if bool_decide (env key = "") then def else env key.

(** ** [strconv] *)

Fixpoint is_digits (s : string) : bool :=
  match s with
  | EmptyString => true
  | String c s' => match digit_of c with Some _ => is_digits s' | None => false end
  end.

(** [strconv.ParseUint(s, 10, 64)]: [None] is a syntax or range error. *)
Definition ParseUint (s : string) : option N :=
  if negb (bool_decide (s = "")) && is_digits s && (digits_value s <? two64)%N then Some (digits_value s) else None.

(** [strconv.ParseInt(s, 10, bits)]. *)
Definition ParseInt (bits : Z) (s : string) : option Z :=
  let '(neg, d) := match s with
                   | String "+"%char d => (false, d)
                   | String "-"%char d => (true, d)
                   | _ => (false, s)
                   end in
  if negb (bool_decide (d = "")) && is_digits d then
    let v := Z.of_N (digits_value d) in
    let v := if neg : bool then (- v)%Z else v in
    if ((- 2 ^ (bits - 1) <=? v) && (v <? 2 ^ (bits - 1)))%Z then Some v else None
  else None.

(** cmd/chainmonitor: [envUint]; internal/user: [envInt32]. *)
Definition envUint (env : environment) (key : string) (def : N) : N :=
  if bool_decide (env key = "") then def else default def (ParseUint (env key)).
Definition envInt32 (env : environment) (key : string) (def : Z) : Z :=
  if bool_decide (env key = "") then def else default def (ParseInt 32 (env key)).
(** [envDuration], over the duration parser of package time. *)
Definition envDuration (ParseDuration : string → option Z) (env : environment) (key : string) (def : Z) : Z :=
  if bool_decide (env key = "") then def else default def (ParseDuration (env key)).

(** cmd/chainmonitor: [resolveStartBlock]; [head] is the outcome of reading
    the latest header. *)
Definition resolveStartBlock (env : environment) (head : res Z) : N :=
  let from_head := match head with
                   | Ok n => bigint_Uint64 n
                   | _ => 0%N
                   end in
  if bool_decide (env "START_BLOCK" = "") then from_head
  else match ParseUint (env "START_BLOCK") with
       | Some n => n
       | None => from_head
       end.

(** ** cmd/gateway *)

Definition defaultJWTSecret : string := "dev-insecure-secret-change-me".

(** The limiter [selectLimiter] picks; [ping] is the outcome of the startup
    PING to Redis. *)
Inductive limiter_choice :=
  | UseRedis (addr : string) (l : RedisRateLimiter)
  | UseMemory (l : RateLimiter).
Definition selectLimiter (env : environment) (ping : string → res unit) : res limiter_choice :=
  let perMin := if bool_decide (env "RATE_LIMIT_PER_MIN" = "") then 1200%Z
                else default 1200%Z (ParseInt 64 (env "RATE_LIMIT_PER_MIN")) in
  if bool_decide (env "REDIS_ADDR" = "") then Ok (UseMemory (NewRateLimiter 20 40))
  else res_bind (ping (env "REDIS_ADDR")) (λ _,
         Ok (UseRedis (env "REDIS_ADDR") (NewRedisRateLimiter perMin (60 * nanos)))).

(** What [main] of the gateway builds before it serves. *)
Record gateway_setup := mkSetup {
  setup_addr : string;
  setup_auth : Authenticator;
  setup_clients : gmap string Client;
  setup_urls : string * string * string;
  setup_limiter : limiter_choice;
}.

Definition gateway_main (env : environment) (ping : string → res unit) : res gateway_setup :=
  let jwtSecret := EnvOr env "JWT_SECRET" defaultJWTSecret in
  let production := bool_decide (EnvOr env "ENV" "development" = "production") in
  if production && bool_decide (jwtSecret = defaultJWTSecret)
  then Err (ErrorString "refusing to start: JWT_SECRET is the default in production")
  else
    let authn := NewAuthenticator jwtSecret "web3-event-platform" (3600 * second) in
    let clients := <[EnvOr env "USER_CLIENT_ID" "user-client" :=
                       mkClient (EnvOr env "USER_CLIENT_SECRET" "user-secret") RoleUser]>
                   (<[EnvOr env "ADMIN_CLIENT_ID" "admin-client" :=
                       mkClient (EnvOr env "ADMIN_CLIENT_SECRET" "admin-secret") RoleAdmin]> ∅) in
    res_bind (selectLimiter env ping) (λ lim,
      Ok (mkSetup (EnvOr env "GATEWAY_ADDR" ":8080") authn clients
            (EnvOr env "USER_URL" "http://localhost:8081", EnvOr env "WALLET_URL" "http://localhost:8082",
             EnvOr env "MARGIN_URL" "http://localhost:8085") lim)).

(** ** Properties *)

Lemma is_digits_spec s : all_digits s → is_digits s = true.
Proof. induction s as [|c s IH]; [done|]. intros [[d Hd] Hs]. cbn. rewrite Hd. by apply IH. Qed.

Lemma ParseUint_pretty n : (n < two64)%N → ParseUint (pretty n) = Some n.
Proof.
  intros Hn. unfold ParseUint. destruct (pretty_N_digits n) as [Hv Hd].
  rewrite Hv, is_digits_spec, bool_decide_false by (done || apply pretty_N_nonempty). cbn.
  by rewrite (proj2 (N.ltb_lt _ _) Hn).
Qed.

(** A number written in decimal in the environment is read back exactly,
    up to the largest uint64; anything that is not such a number, and an
    unset variable, gives the default, so the result is always a uint64. *)
Theorem envUint_spec env key def :
  (def < two64)%N →
  (∀ n, (n < two64)%N → env key = pretty n → envUint env key def = n) ∧
  (ParseUint (env key) = None → envUint env key def = def) ∧
  (envUint env key def < two64)%N.
Proof.
  intros Hdef. unfold envUint. split; [|split].
  - intros n Hn E. rewrite E, bool_decide_false by apply pretty_N_nonempty. by rewrite ParseUint_pretty.
  - intros E. case_bool_decide; [done|]. by rewrite E.
  - case_bool_decide; [done|]. unfold ParseUint. destruct (_ && _ && _) eqn:E; [|done]. cbn.
    apply andb_true_iff in E as [_ E]. by apply N.ltb_lt.
Qed.

(** A gateway that starts in production signs its tokens with a secret
    that is neither empty nor the published default; without production mode
    the check does not apply. *)
Theorem production_secret_is_set env ping c :
  env "ENV" = "production" → gateway_main env ping = Ok c →
  auth_secret (setup_auth c) = env "JWT_SECRET" ∧ env "JWT_SECRET" ≠ "" ∧ env "JWT_SECRET" ≠ defaultJWTSecret.
Proof.
  intros Hp Hm. unfold gateway_main in Hm.
  assert (EnvOr env "ENV" "development" = "production") as He by (unfold EnvOr; by rewrite Hp).
  rewrite (bool_decide_true _ He) in Hm. cbn [andb] in Hm.
  case_bool_decide as Hs; [done|]. destruct (selectLimiter env ping) as [lim| | |]; [|done..].
  cbn [res_bind] in Hm. simplify_eq. cbn [setup_auth auth_secret]. unfold EnvOr in *.
  case_bool_decide; [done|]. done.
Qed.

(** The clients a gateway knows are the two configured ones, and only the
    administrator's has the role admin; when both are given the same id, the
    user's entry wins and no client is an administrator. *)
Theorem only_admin_client_is_admin env ping c id client :
  gateway_main env ping = Ok c → setup_clients c !! id = Some client →
  let user_id := EnvOr env "USER_CLIENT_ID" "user-client" in
  (id = user_id ∧ client = mkClient (EnvOr env "USER_CLIENT_SECRET" "user-secret") RoleUser) ∨
  (id = EnvOr env "ADMIN_CLIENT_ID" "admin-client" ∧ id ≠ user_id ∧
   client = mkClient (EnvOr env "ADMIN_CLIENT_SECRET" "admin-secret") RoleAdmin).
Proof.
  intros Hm. unfold gateway_main in Hm. destruct (_ && _); [done|].
  destruct (selectLimiter env ping) as [lim| | |]; [|done..]. cbn [res_bind] in Hm. simplify_eq.
  cbn [setup_clients]. intros [[<- <-]|[Hne Hl]]%lookup_insert_Some; [by left|].
  apply lookup_insert_Some in Hl as [[<- <-]|[_ Hl]]; [by right|]. by rewrite lookup_empty in Hl.
Qed.

(** ** Examples *)
Section examples.
Definition ex_env (vars : list (string * string)) : environment := assoc_get vars.
Definition ex_ping (addr : string) : res unit := Ok tt.
Definition ex_prod : environment :=
  ex_env [("ENV", "production"); ("JWT_SECRET", "k3y"); ("CONFIRMATIONS", "12"); ("REDIS_ADDR", "redis:6379")].
Definition ex_setup : gateway_setup :=
  match gateway_main ex_prod ex_ping with
  | Ok c => c
  | _ => mkSetup "" (NewAuthenticator "" "" 0) ∅ ("", "", "") (UseMemory (NewRateLimiter 0 0))
  end.

Lemma envUint_spec_witness : envUint ex_prod "CONFIRMATIONS" 5 = 12%N.
Proof. apply (proj1 (envUint_spec ex_prod "CONFIRMATIONS" 5 ltac:(done))); reflexivity. Defined.

Lemma production_secret_is_set_witness : auth_secret (setup_auth ex_setup) = "k3y".
Proof.
  exact (proj1 (production_secret_is_set ex_prod ex_ping ex_setup ltac:(vm_compute; reflexivity)
    ltac:(vm_compute; reflexivity))).
Defined.

(** Without JWT_SECRET the gateway does not start in production. *)
Example default_secret_refused : ¬ is_Ok (gateway_main (ex_env [("ENV", "production")]) ex_ping).
Proof. vm_compute. auto. Qed.

Lemma only_admin_client_is_admin_witness :
  "admin-client" = EnvOr ex_prod "ADMIN_CLIENT_ID" "admin-client" ∧
  "admin-client" ≠ EnvOr ex_prod "USER_CLIENT_ID" "user-client".
Proof.
  destruct (only_admin_client_is_admin ex_prod ex_ping ex_setup "admin-client" (mkClient "admin-secret" RoleAdmin))
    as [[_ Hc]|(Hid & Hne & _)]; [vm_compute; reflexivity..|discriminate Hc|]. split; [exact Hid|exact Hne].
Defined.

Example start_block_choices :
  resolveStartBlock (ex_env [("START_BLOCK", "6000000")]) (Ok 7%Z) = 6000000%N ∧
  resolveStartBlock (ex_env [("START_BLOCK", "latest")]) (Ok 7%Z) = 7%N ∧
  resolveStartBlock (ex_env []) (Err (ErrorString "timeout")) = 0%N ∧
  envInt32 (ex_env [("DB_MAX_CONNS", "-3")]) "DB_MAX_CONNS" 20 = (-3)%Z ∧
  envInt32 (ex_env [("DB_MAX_CONNS", "4294967296")]) "DB_MAX_CONNS" 20 = 20%Z.
Proof. by vm_compute. Qed.
End examples.
