(* ===== verification/Process.v ===== *)
(** * Processes (pkg/server/server.go, pkg/events: Connect; the [NewPostgresStore] functions)

    A process opens what it needs one thing after the other, serves until a
    signal comes, and runs its deferred calls on the way out; [os.Exit(1)] is
    an error result and runs none of them.  The outcomes of dialling, of the
    schema statement and of listening are parameters. *)

From S2P Require Import Prelude Events Http Startup.

(** What is served: a handler and the state it starts on. *)
Record service := mkService {
  svc_State : Type;
  svc_start : svc_State;
  svc_handler : Handler svc_State;
}.

(** [http.Server] as [server.Run] sets it up; times in nanoseconds. *)
Record httpServer := mkServer {
  srv_Addr : string;
  srv_ReadHeaderTimeout : Z;
  srv_IdleTimeout : Z;
  srv_ReadTimeout : Z;
  srv_WriteTimeout : Z;
}.

(** What a process does to its surroundings, in order. *)
Inductive pevent :=
  | Opened (what : string)
  | Closed (what : string)
  | Serving (srv : httpServer) (svc : service)
  | ShuttingDown (timeout : Z).

(** A running process: the state of its background work and what it did. *)
Record process (X : Type) := mkProcess {
  pr_app : X;
  pr_trace : list pevent;
}.
Arguments mkProcess {X} _ _.
Arguments pr_app {X} _.
Arguments pr_trace {X} _.

(** [pgxpool.Config], the fields the user store sets. *)
Record poolConfig := mkPool {
  pool_dsn : string;
  pool_MaxConns : Z;
  pool_MinConns : Z;
  pool_MaxConnLifetime : Z;
  pool_MaxConnIdleTime : Z;
  pool_HealthCheckPeriod : Z;
}.

(** Outcomes of the calls into libraries at startup. *)
Record outside := mkOutside {
  nats_Connect : string → res unit;
  pgxpool_ParseConfig : string → res poolConfig;
  pgxpool_NewWithConfig : poolConfig → res unit;
  pool_Exec_schema : string → res unit;
  eth_Dial : string → res unit;
  eth_Head : string → res Z;
  ListenAndServe : httpServer → res unit;
  time_ParseDuration : string → option Z;
}.

Section process.
Context {X : Type} (out : outside).
Implicit Types (p : process X).

Definition sec : Z := 1000000000.

Definition note (e : pevent) : go (process X) unit :=
  go_modify (λ p, mkProcess (pr_app p) (pr_trace p ++ [e])).

(** Background work starts ([go f()]) or advances. *)
Definition set_app (x : X) : go (process X) unit := go_modify (λ p, mkProcess x (pr_trace p)).

(** [x, err := r; if err != nil { log.Error(failed, err); os.Exit(1) }]. *)
Definition must {A} (failed : string) (r : res A) : go (process X) A := wrap_err failed (go_res r).

(** The same for a call that opens [what]. *)
Definition opening {A} (what failed : string) (r : res A) : go (process X) A :=
  let! a := must failed r in do! note (Opened what) in go_ret a.

(** [defer cleanup()] in front of [body]: not run by [os.Exit]. *)
Definition defer (cleanup body : go (process X) unit) : go (process X) unit := λ p,
  match body p with
  | (Ok _, p') => cleanup p'
  | (Panic m, p') => (Panic m, (cleanup p').2)
  | r => r
  end.
(** [defer what.Close()]. *)
Definition deferring (what : string) : go (process X) unit → go (process X) unit := defer (note (Closed what)).

(** [server.Run]: [ListenAndServe] fails, which ends the process, or a signal
    comes; [http.ErrServerClosed] is not a failure. *)
Definition ErrServerClosed : string := "http: Server closed".
Definition server_of (addr : string) : httpServer := mkServer addr (5 * sec) (90 * sec) (15 * sec) (30 * sec).
Definition server_Run (addr : string) (h : service) : go (process X) unit :=
  let srv := server_of addr in
  do! note (Serving srv h) in
  do! must "server error"
        match ListenAndServe out srv with
        | Err e => if errors_Is e ErrServerClosed then Ok tt else Err e
        | r => r
        end in
  note (ShuttingDown (10 * sec)).

(** [events.Connect]. *)
Definition Connect (url : string) : res unit :=
  match nats_Connect out url with
  | Err e => Err (WrapError ("connect nats " +:+ quoted url) e)
  | r => r
  end.

(** The schema statement on a pool just opened: the pool is closed if it
    fails. *)
Definition apply_schema (dsn : string) : go (process X) unit :=
  do! note (Opened "postgres") in
  match pool_Exec_schema out dsn with
  | Ok _ => go_ret tt
  | Err e => do! note (Closed "postgres") in go_err (WrapError "apply schema" e)
  | Panic m => go_panic m
  | Diverge => λ p, (Diverge, p)
  end.

(** [chainmonitor.NewPostgresStore]; [pgxpool.New] parses and connects. *)
Definition chainmonitor_NewPostgresStore (dsn : string) : go (process X) unit :=
  do! must "connect postgres" (res_bind (pgxpool_ParseConfig out dsn) (pgxpool_NewWithConfig out)) in
  apply_schema dsn.

(** [user.NewPostgresStore]. *)
Definition user_NewPostgresStore (env : environment) (dsn : string) : go (process X) poolConfig :=
  let! cfg := must "parse dsn" (pgxpool_ParseConfig out dsn) in
  let cfg := mkPool (pool_dsn cfg) (envInt32 env "DB_MAX_CONNS" 20) (envInt32 env "DB_MIN_CONNS" 4)
               (3600 * sec) (30 * 60 * sec) (60 * sec) in
  do! must "connect postgres" (pgxpool_NewWithConfig out cfg) in
  do! apply_schema dsn in
  go_ret cfg.

(** ** The trace of a run that ends with a signal *)

(** If [c] ends normally it has appended exactly [l]. *)
Definition leaves {A} (c : go (process X) A) (l : list pevent) : Prop :=
  ∀ p a p', c p = (Ok a, p') → pr_trace p' = pr_trace p ++ l.

Lemma leaves_ret {A} (a : A) : leaves (go_ret a) [].
Proof. intros p b p' [= <- <-]. by rewrite app_nil_r. Qed.
Lemma leaves_note e : leaves (note e) [e].
Proof. by intros p a p' [= <- <-]. Qed.
Lemma leaves_set x : leaves (set_app x) [].
Proof. intros p a p' [= <- <-]. by rewrite app_nil_r. Qed.
Lemma leaves_must {A} m (r : res A) : leaves (must m r) [].
Proof. intros p a p' H. unfold must, wrap_err, go_res in H. destruct r; simplify_eq. by rewrite app_nil_r. Qed.
Lemma leaves_bind {A B} (c : go (process X) A) (k : A → go (process X) B) l l' :
  leaves c l → (∀ a, leaves (k a) l') → leaves (go_bind c k) (l ++ l').
Proof.
  intros Hc Hk p b p' (a & p1 & H1 & H2)%go_bind_Ok.
  by rewrite (Hk _ _ _ _ H2), (Hc _ _ _ H1), app_assoc.
Qed.
Lemma leaves_wrap {A} m (c : go (process X) A) l : leaves c l → leaves (wrap_err m c) l.
Proof. intros Hc p a p' H. unfold wrap_err in H. destruct (c p) as [[] ?] eqn:E; simplify_eq. by eapply Hc. Qed.
Lemma leaves_opening {A} what m (r : res A) : leaves (opening what m r) [Opened what].
Proof.
  apply (leaves_bind _ _ [] [Opened what]); [apply leaves_must|]. intros a.
  apply (leaves_bind _ _ [Opened what] []); [apply leaves_note|]. intros _. apply leaves_ret.
Qed.
Lemma leaves_defer cleanup body l l' :
  leaves body l → leaves cleanup l' → leaves (defer cleanup body) (l ++ l').
Proof.
  intros Hb Hc p a p' H. unfold defer in H. destruct (body p) as [[[]|e|m|] p1] eqn:E; simplify_eq.
  by rewrite (Hc _ _ _ H), (Hb _ _ _ E), app_assoc.
Qed.
Lemma leaves_deferring what body l : leaves body l → leaves (deferring what body) (l ++ [Closed what]).
Proof. intros Hb. apply leaves_defer; [exact Hb|apply leaves_note]. Qed.
Lemma leaves_server_Run addr h :
  leaves (server_Run addr h) [Serving (server_of addr) h; ShuttingDown (10 * sec)].
Proof.
  apply (leaves_bind _ _ [_] [_]); [apply leaves_note|]. intros _.
  apply (leaves_bind _ _ [] [_]); [apply leaves_must|]. intros _. apply leaves_note.
Qed.
Lemma leaves_apply_schema dsn : leaves (apply_schema dsn) [Opened "postgres"].
Proof.
  apply (leaves_bind _ _ [_] []); [apply leaves_note|]. intros _.
  destruct (pool_Exec_schema out dsn); [apply leaves_ret| | |]; intros p a p' H; [|done..].
  by apply go_bind_Ok in H as (? & ? & _ & H).
Qed.
Lemma leaves_chainmonitor_store dsn : leaves (chainmonitor_NewPostgresStore dsn) [Opened "postgres"].
Proof. apply (leaves_bind _ _ [] [_]); [apply leaves_must|]. intros _. apply leaves_apply_schema. Qed.
Lemma leaves_user_store env dsn : leaves (user_NewPostgresStore env dsn) [Opened "postgres"].
Proof.
  apply (leaves_bind _ _ [] [_]); [apply leaves_must|]. intros cfg.
  apply (leaves_bind _ _ [] [_]); [apply leaves_must|]. intros _.
  apply (leaves_bind _ _ [_] []); [apply leaves_apply_schema|]. intros _. apply leaves_ret.
Qed.

(** ** What holds of every process, however it ends

    [J] of the background work, and [P] of everything served so far. *)
Definition safe_process (J : X → Prop) (P : httpServer → service → Prop) p : Prop :=
  J (pr_app p) ∧ ∀ srv svc, Serving srv svc ∈ pr_trace p → P srv svc.

Section keeps.
Context (J : X → Prop) (P : httpServer → service → Prop).

Definition keeps {A} (c : go (process X) A) : Prop :=
  triple True (safe_process J P) c (λ _, safe_process J P) (safe_process J P).

Lemma keeps_bind {A B} (c : go (process X) A) (k : A → go (process X) B) :
  keeps c → (∀ a, keeps (k a)) → keeps (go_bind c k).
Proof. intros Hc Hk. eapply triple_bind; [exact Hc|]. intros a. apply Hk. Qed.
Lemma keeps_ret {A} (a : A) : keeps (go_ret a).
Proof. by intros p Hp. Qed.
Lemma keeps_err {A} e : keeps (A:=A) (go_err e).
Proof. by intros p Hp. Qed.
Lemma keeps_res {A} (r : res A) : keeps (go_res r).
Proof. intros p Hp. by destruct r. Qed.
Lemma keeps_wrap {A} m (c : go (process X) A) : keeps c → keeps (wrap_err m c).
Proof. intros Hc p Hp. specialize (Hc p Hp). unfold wrap_err. by destruct (c p) as [[] p']. Qed.
Lemma keeps_must {A} m (r : res A) : keeps (must m r).
Proof. apply keeps_wrap, keeps_res. Qed.
(** The continuation of a call that must succeed may rely on its result. *)
Lemma keeps_must_bind {A B} m (r : res A) (k : A → go (process X) B) :
  (∀ a, r = Ok a → keeps (k a)) → keeps (go_bind (must m r) k).
Proof.
  intros Hk. destruct r as [a|e|m'|]; [by apply Hk|by intros p Hp..].
Qed.
Lemma keeps_res_bind {A B} (r : res A) (k : A → go (process X) B) :
  (∀ a, r = Ok a → keeps (k a)) → keeps (go_bind (go_res r) k).
Proof. intros Hk. destruct r as [a|e|m|]; [by apply Hk|by intros p Hp..]. Qed.
Lemma keeps_note e :
  (∀ srv svc, e = Serving srv svc → P srv svc) → keeps (note e).
Proof.
  intros He p [Hj Hp]. split; [done|]. cbn [pr_trace]. intros srv svc [Hin|Hin%list_elem_of_singleton]%elem_of_app; auto.
Qed.
Lemma keeps_set x : J x → keeps (set_app x).
Proof. intros Hx p [_ Hp]. by split. Qed.
Lemma keeps_defer cleanup body : keeps cleanup → keeps body → keeps (defer cleanup body).
Proof.
  intros Hc Hb p Hp. specialize (Hb p Hp). unfold defer. destruct (body p) as [[[]|e|m|] p'].
  - by apply Hc.
  - done.
  - split; [done|]. apply (triple_any True _ _ (safe_process J P) p' Hc). apply Hb.
  - done.
Qed.
Lemma keeps_deferring what body : keeps body → keeps (deferring what body).
Proof. apply keeps_defer, keeps_note. by intros ? ?. Qed.
Lemma keeps_opening {A} what m (r : res A) : keeps (opening what m r).
Proof.
  apply keeps_bind; [apply keeps_must|]. intros a. apply keeps_bind; [by apply keeps_note|]. intros _. apply keeps_ret.
Qed.
Lemma keeps_server_Run addr h : P (server_of addr) h → keeps (server_Run addr h).
Proof.
  intros Hh. apply keeps_bind; [apply keeps_note; by intros ? ? [= <- <-]|]. intros _.
  apply keeps_bind; [apply keeps_must|]. intros _. by apply keeps_note.
Qed.
Lemma keeps_apply_schema dsn : keeps (apply_schema dsn).
Proof.
  apply keeps_bind; [by apply keeps_note|]. intros _.
  destruct (pool_Exec_schema out dsn); [apply keeps_ret| |by intros p Hp|by intros p Hp].
  apply keeps_bind; [by apply keeps_note|]. intros _. apply keeps_err.
Qed.
Lemma keeps_chainmonitor_store dsn : keeps (chainmonitor_NewPostgresStore dsn).
Proof. apply keeps_bind; [apply keeps_must|]. intros _. apply keeps_apply_schema. Qed.
Lemma keeps_user_store env dsn : keeps (user_NewPostgresStore env dsn).
Proof.
  apply keeps_bind; [apply keeps_must|]. intros cfg. apply keeps_bind; [apply keeps_must|]. intros _.
  apply keeps_bind; [apply keeps_apply_schema|]. intros _. apply keeps_ret.
Qed.

(** Reading it off a whole run from the start. *)
Lemma keeps_run {A} (c : go (process X) A) x : keeps c → J x → safe_process J P (c (mkProcess x [])).2.
Proof. intros Hc Hx. apply (triple_any True _ _ (safe_process J P) (mkProcess x []) Hc). by split; [|intros ? ? ?%elem_of_nil]. Qed.
End keeps.
End process.

#[export] Hint Resolve keeps_ret keeps_must keeps_wrap keeps_opening keeps_deferring keeps_chainmonitor_store
  keeps_user_store keeps_bind : platform.

(** The trace of an entry point, read off its text. *)
Ltac leaves_step :=
  lazymatch goal with
  | |- leaves (opening _ _ _) _ => apply leaves_opening
  | |- leaves (note _) _ => apply leaves_note
  | |- leaves (server_Run _ _ _) _ => apply leaves_server_Run
  | |- leaves (must _ _) _ => apply leaves_must
  | |- leaves (go_ret _) _ => apply leaves_ret
  | |- leaves (set_app _) _ => apply leaves_set
  | |- leaves (wrap_err _ (chainmonitor_NewPostgresStore _ _)) _ => apply leaves_wrap, leaves_chainmonitor_store
  | |- leaves (wrap_err _ (user_NewPostgresStore _ _ _)) _ => apply leaves_wrap, leaves_user_store
  | |- leaves (deferring _ _) _ => apply leaves_deferring
  | |- leaves (go_bind _ _) _ => eapply leaves_bind; [|intros ?]
  end.
Lemma leaves_eq {X A} (c : go (process X) A) l l' : leaves c l → l = l' → leaves c l'.
Proof. by intros H <-. Qed.
Ltac leaves_run := eapply leaves_eq; [repeat leaves_step|reflexivity].
