(* ===== verification/GatewayLimit.v ===== *)
(** * The rate limit of the deployed gateway, end to end

    What the in-process limiter (internal/gateway/ratelimit.go) bounds are the
    requests the gateway as [main] sets it up sends to the internal services:
    the limiter inside [authed] inside the router inside the middleware. *)

From S2P Require Import Prelude Http Middleware Mux Auth Float64 RateLimit RedisLimit Proxy Gateway GatewaySecurity.
From S2P Require Import Startup Process Entry.
From Stdlib Require Import QArith Lqa.
#[local] Close Scope Q_scope.

Section limit.
Context `{JWTLib} {W : Type} (time_Now : go W Z) (redis : string → RedisClient W) (net : string → Transport W).

(** The outside world: a clock that does not go back, and a record of what
    was sent on the network. *)
Class Clocked (clock : W → Z) (trace : W → list (string * Request)) : Prop := {
  clk_now : ∀ w, ∃ t, (time_Now w).1 = Ok t ∧ (clock w ≤ t)%Z ∧ clock (time_Now w).2 = t ∧
    trace (time_Now w).2 = trace w;
  clk_net : ∀ host q w, (clock w ≤ clock (net host q w).2)%Z ∧ trace (net host q w).2 = trace w ++ [(host, q)];
}.
Context (clock : W → Z) (trace : W → list (string * Request)) `{!Clocked clock trace}.

Abbreviation gw := (gworld (W:=W)).
Implicit Types (x : gw) (r : Request).

Context (l0 : RateLimiter) (g : Config (W:=gw)).
Hypothesis limited : cfg_RateLimit g = Some (limiter_of time_Now redis (UseMemory l0)).

Abbreviation handler := (stack (Gateway_Handler (on_outside time_Now) (λ host q, on_outside (net host q)) g)).

(** One request, from first byte to last. *)
Definition serve1 r x : gw := hs_app (handler r (mkHstate x fresh_response [] [] [])).2.
Definition serve (rs : list Request) x : gw := foldl (λ x r, serve1 r x) x rs.

Abbreviation sent x := (length (trace (gw_world x))).
Abbreviation now_of x := (clock (gw_world x)).

(** Requests sent upstream on behalf of the clients of one address. *)
Fixpoint sent_for (key : string) (rs : list Request) x : Z :=
  match rs with
  | [] => 0
  | r :: rs' =>
      (if bool_decide (clientIP r = key) then Z.of_nat (sent (serve1 r x)) - Z.of_nat (sent x) else 0) +
      sent_for key rs' (serve1 r x)
  end%Z.

(** Nothing but time passed. *)
Definition idle_step x x' : Prop :=
  gw_limiter x' = gw_limiter x ∧ trace (gw_world x') = trace (gw_world x) ∧ (now_of x ≤ now_of x')%Z.

(** The limiter was asked once, and at most one request was sent, none if it
    refused. *)
Definition asked (key : string) x x' : Prop := ∃ now,
  (now_of x ≤ now ≤ now_of x')%Z ∧ gw_limiter x' = (RateLimiter_Allow now key (gw_limiter x)).2 ∧
  (sent x ≤ sent x' ≤ sent x + if (RateLimiter_Allow now key (gw_limiter x)).1 then 1 else 0)%nat.

Lemma on_outside_run {A} (c : go W A) x :
  on_outside c x = ((c (gw_world x)).1, mkGworld (gw_limiter x) (c (gw_world x)).2).
Proof. unfold on_outside, go_zoom. by destruct (c (gw_world x)). Qed.

(** What the limiter does to the world. *)
Lemma limited_world_run r x : ∃ now,
  (now_of x ≤ now)%Z ∧ limited_world g r x =
    mkGworld (RateLimiter_Allow now (clientIP r) (gw_limiter x)).2 (time_Now (gw_world x)).2 ∧
  now_of (limited_world g r x) = now ∧ trace (gw_world (limited_world g r x)) = trace (gw_world x) ∧
  (let_in g r x → (RateLimiter_Allow now (clientIP r) (gw_limiter x)).1 = true).
Proof.
  destruct (clk_now (gw_world x)) as (now & Ht & Hle & Hc & Htr). exists now.
  assert (Allow (limiter_of time_Now redis (UseMemory l0)) (clientIP r) x =
    (Ok (RateLimiter_Allow now (clientIP r) (gw_limiter x)).1,
     mkGworld (RateLimiter_Allow now (clientIP r) (gw_limiter x)).2 (time_Now (gw_world x)).2)) as E.
  { cbn [Allow limiter_of]. unfold go_bind. rewrite on_outside_run, Ht. cbn [gw_limiter gw_world].
    by destruct (RateLimiter_Allow now (clientIP r) (gw_limiter x)). }
  assert (limited_world g r x = (Allow (limiter_of time_Now redis (UseMemory l0)) (clientIP r) x).2) as Ew
    by (unfold limited_world; by rewrite limited).
  rewrite Ew, E. cbn [snd gw_world]. split; [done|]. split; [done|]. split; [done|]. split; [done|].
  intros Hl. specialize (Hl _ limited). rewrite E in Hl. cbn [fst] in Hl. by injection Hl.
Qed.

(** The proxy makes one call on the network. *)
Lemma proxy_app t q (s : hstate gw) :
  hs_app (newProxy (λ host q, on_outside (net host q)) t q s).2 =
  (on_outside (net (target_host t) (outgoing (proxy_director t) q)) (hs_app s)).2.
Proof.
  unfold newProxy, ReverseProxy. unfold go_bind at 1. unfold go_try. rewrite on_app_run.
  destruct (on_outside (net (target_host t) (outgoing (proxy_director t) q)) (hs_app s)) as [o x'].
  set (I := λ x, x = x'). destruct o as [up|e|m|]; [..|done|done]; cbn [fst snd].
  - apply (triple_any True _ (λ h, I (hs_app h)) (λ h, I (hs_app h))); [|reflexivity].
    apply app_bind; [auto with platform|]. intros _. apply app_bind; [auto with platform|]. intros _.
    apply (triple_for True). intros v _. apply app_Write.
  - apply (triple_any True _ (λ h, I (hs_app h)) (λ h, I (hs_app h))); [|reflexivity].
    apply app_bind; auto with platform.
Qed.

Lemma authed_asks t r (s : hstate gw) :
  asked (clientIP r) (hs_app s)
    (hs_app (authed (on_outside time_Now) g (newProxy (λ host q, on_outside (net host q)) t) r s).2).
Proof.
  destruct (limited_world_run r (hs_app s)) as (now & Hle & Ew & Hc & Htr & Hin).
  assert (let x2 := (on_outside time_Now (limited_world g r (hs_app s))).2 in
    gw_limiter x2 = (RateLimiter_Allow now (clientIP r) (gw_limiter (hs_app s))).2 ∧
    trace (gw_world x2) = trace (gw_world (hs_app s)) ∧ (now ≤ now_of x2)%Z) as (L2 & T2 & C2).
  { cbv zeta. rewrite on_outside_run. cbn [snd gw_limiter gw_world].
    destruct (clk_now (gw_world (limited_world g r (hs_app s)))) as (t2 & _ & Hle2 & Hc2 & Htr2).
    rewrite Htr2, Htr, Hc2, Ew. cbn [gw_limiter]. split; [done|]. split; [done|]. lia. }
  cbv zeta in *. exists now.
  destruct (authed_cases (on_outside time_Now) g (newProxy (λ host q, on_outside (net host q)) t) r s)
    as [(c & s2 & Hl & _ & _ & Hs2 & ->)|[[->| ->] _]].
  - rewrite proxy_app, on_outside_run, Hs2. cbn [snd gw_limiter gw_world].
    destruct (clk_net (target_host t) (outgoing (proxy_director t) (identified r c))
      (gw_world (on_outside time_Now (limited_world g r (hs_app s))).2)) as [Hcn Htn].
    rewrite Htn, T2, L2, length_app, (Hin Hl). cbn [length]. split; [lia|]. split; [done|]. lia.
  - rewrite Ew at 2. cbn [gw_limiter]. rewrite Htr, Hc. split; [lia|]. split; [done|]. destruct (_ : bool); lia.
  - rewrite L2, T2. split; [lia|]. split; [done|]. destruct (_ : bool); lia.
Qed.

(** Handing out a token does not concern the limiter. *)
Lemma issueToken_idle r (s : hstate gw) :
  idle_step (hs_app s) (hs_app (issueToken (on_outside time_Now) g r s).2).
Proof.
  set (I := idle_step (hs_app s)).
  apply (triple_any True _ (λ h, I (hs_app h)) (λ h, I (hs_app h))); [|by split].
  change (app_triple I (issueToken (on_outside time_Now) g r)).
  unfold issueToken. destruct (DecodeJSON _ _); [|auto with platform|by intros ? ?|by intros ? ?].
  destruct (cfg_Clients g !! _); [|auto with platform]. case_match; [|auto with platform].
  apply app_bind; [|intros now; apply app_bind; [auto with platform|]; intros [e|t]; auto with platform].
  apply app_on_app. intros x (HL & HT & HC). rewrite on_outside_run.
  destruct (clk_now (gw_world x)) as (t & Ht & Hle & Hc & Htr). rewrite Ht.
  split; [done|]. cbn [gw_world]. rewrite Htr, Hc. split; [done|]. lia.
Qed.

(** A request concerns the limiter once or not at all. *)
Lemma request_step r x : asked (clientIP r) x (serve1 r x) ∨ idle_step x (serve1 r x).
Proof.
  unfold serve1. rewrite stack_app. set (s := stack_start r _). change x with (hs_app s).
  set (r' := with_id r _). change (clientIP r) with (clientIP r'). unfold Gateway_Handler.
  destruct (mux_cases (gateway_routes (on_outside time_Now) (λ host q, on_outside (net host q)) g) r' s)
    as [(rt & m & Hrt & ->)| ->]; [|right; by split].
  repeat (apply elem_of_cons in Hrt as [->|Hrt]); [..|by apply elem_of_nil in Hrt]; cbn [snd].
  - right. by split.
  - right. apply issueToken_idle.
  - left. exact (authed_asks _ (with_path_values r' m) s).
  - left. exact (authed_asks _ (with_path_values r' m) s).
  - left. exact (authed_asks _ (with_path_values r' m) s).
  - left. exact (authed_asks _ (with_path_values r' m) s).
  - left. exact (authed_asks _ (with_path_values r' m) s).
Qed.

Lemma ordered_from_le t t' reqs : (t ≤ t')%Z → ordered_from t' reqs → ordered_from t reqs.
Proof. intros Ht. destruct reqs as [|[now k] reqs]; [done|]. intros [? ?]. split; [lia|done]. Qed.

(** The requests the limiter saw while a sequence was served. *)
Lemma serve_history key rs x :
  ∃ reqs, ordered_from (now_of x) reqs ∧ (length reqs ≤ length rs)%nat ∧
    (run_requests reqs (gw_limiter x)).2 = gw_limiter (serve rs x) ∧
    (last_time (now_of x) reqs ≤ now_of (serve rs x))%Z ∧
    (sent_for key rs x ≤ allowed_count key reqs (run_requests reqs (gw_limiter x)).1)%Z.
Proof.
  revert x. induction rs as [|r rs IH]; intros x.
  { exists []. split; [done|]. split; [done|]. split; [done|]. split; [|done]. cbn. lia. }
  cbn [sent_for]. change (serve (r :: rs) x) with (serve rs (serve1 r x)).
  destruct (IH (serve1 r x)) as (reqs & Ho & Hl & Hr & Ht & Hs).
  destruct (request_step r x) as [(now & [Hn1 Hn2] & HL & Hsent)|(HL & HT & HC)].
  - exists ((now, clientIP r) :: reqs). rewrite HL in Hr, Hs. cbn [run_requests length ordered_from].
    destruct (RateLimiter_Allow now (clientIP r) (gw_limiter x)) as [ok rl1]. cbn [fst snd] in *.
    destruct (run_requests reqs rl1) as [oks rl2]. cbn [fst snd allowed_count] in *.
    split; [split; [done|by eapply ordered_from_le]|]. split; [lia|]. split; [done|]. split.
    + rewrite last_time_cons. destruct reqs as [|q reqs]; [cbn in *; lia|].
      unfold last_time in *. destruct (last (q :: reqs)) eqn:E; [done|by apply last_None in E].
    + case_bool_decide; destruct ok; cbn [andb]; lia.
  - exists reqs. rewrite HL in Hr, Hs. split; [by eapply ordered_from_le|]. split; [cbn; lia|]. split; [done|].
    split; [|case_bool_decide; rewrite ?HT; lia].
    destruct reqs as [|q reqs]; [cbn in *; lia|].
    unfold last_time in *. destruct (last (q :: reqs)) eqn:E; [done|by apply last_None in E].
Qed.

(** Over any stretch of requests, after any others, from a limiter just
    made. *)
Lemma forwarded_within_limit rate burst before rs x0 key :
  (0 <= rate)%Q → (1 <= burst)%Q → gw_limiter x0 = NewRateLimiter rate burst →
  let x := serve before x0 in
  (inject_Z (sent_for key rs x) <=
   burst + seconds_of (now_of (serve rs x) - now_of x) * rate + inject_Z (Z.of_nat (length rs)) * slack burst)%Q.
Proof.
  intros Hrate Hburst H0 x.
  destruct (serve_history key before x0) as (breqs & Hbo & _ & Hbr & Hbt & _).
  destruct (serve_history key rs x) as (reqs & Ho & Hl & Hr & Ht & Hs). fold x in Hbr, Hbt.
  rewrite H0 in Hbr.
  destruct (run_ok rate burst Hrate Hburst breqs _ _ (new_limiter_ok rate burst _) Hbo) as (Er & Eb & Hk).
  assert (limiter_ok rate burst (now_of x) (gw_limiter x)) as Hok.
  { rewrite <-Hbr. split; [done|]. split; [done|]. intros k b Hkb. destruct (Hk k b Hkb). split; [done|]. lia. }
  pose proof (count_window rate burst Hrate Hburst key reqs (now_of x) (gw_limiter x) Hok Ho) as Hw.
  pose proof (seconds_of_le (last_time (now_of x) reqs - now_of x) (now_of (serve rs x) - now_of x) ltac:(lia)) as Hsec.
  pose proof (Qmult_le_compat_r _ _ rate Hsec Hrate) as Hsr.
  assert (inject_Z (Z.of_nat (length reqs)) <= inject_Z (Z.of_nat (length rs)))%Q as Hn by (rewrite <-Zle_Qle; lia).
  pose proof (Qmult_le_compat_r _ _ (slack burst) Hn (slack_nonneg burst Hburst)) as Hsn.
  rewrite Zle_Qle in Hs. lra.
Qed.
End limit.

Section deployed.
Context `{JWTLib} {W : Type} (out : outside) (url_Parse : string → res Target).
Context (time_Now : go W Z) (redis : string → RedisClient W) (net : string → Transport W) (world : W).
Context (clock : W → Z) (trace : W → list (string * Request)) `{!Clocked time_Now net clock trace}.

(** C10: The gateway as it is deployed without Redis, whatever the rest of
    its environment: in any stretch of requests, after any others, it sends
    to the internal services at most 40 requests of one client address, plus
    20 per second of the stretch, plus [8 * 2^-53 * 40] per request of the
    stretch for the roundings of float64; requests of other addresses,
    refused ones and ones for tokens may come in between. *)
Theorem deployed_gateway_limit env srv svc :
  env "REDIS_ADDR" = "" →
  Serving srv svc ∈ pr_trace (gateway_process out url_Parse time_Now redis net world env (mkProcess tt [])).2 →
  ∃ lim g, svc = gateway_service time_Now redis net world lim g ∧
    ∀ before rs key,
      let x := serve time_Now net g before (limiter_start redis world lim) in
      (inject_Z (sent_for time_Now net trace g key rs x) <=
       40 + seconds_of (clock (gw_world (serve time_Now net g rs x)) - clock (gw_world x)) * 20 +
       inject_Z (Z.of_nat (length rs)) * slack 40)%Q.
Proof.
  intros Hr Hs. destruct (gateway_configured out url_Parse time_Now redis net world env srv svc Hs)
    as (_ & lim & g & -> & _ & _ & Hl & Hg).
  exists lim, g. split; [done|]. intros before rs key. unfold selectLimiter in Hl.
  rewrite (bool_decide_true _ Hr) in Hl. injection Hl as <-.
  by apply (forwarded_within_limit time_Now redis net clock trace (NewRateLimiter 20 40) g Hg 20 40).
Qed.
End deployed.

(** ** A gateway with a clock and a tapped network *)
Section example.
Import ToyJWT.

(** The clock ticks once a reading; upstreams answer 204. *)
Definition lw_time : go (Z * list (string * Request)) Z := λ w, (Ok (w.1 + 1)%Z, ((w.1 + 1)%Z, w.2)).
Definition lw_net (host : string) : Transport (Z * list (string * Request)) := λ q w,
  (Ok (mkUp 204%N ∅ []), (w.1, w.2 ++ [(host, q)])).
Definition lw_redis (addr : string) : RedisClient (Z * list (string * Request)) :=
  mkRedis _ (λ _ w, (Ok 1%Z, w)) (λ _ _ w, (Ok tt, w)) (λ w, (Ok tt, w)).

#[local] Instance lw_clocked : Clocked lw_time lw_net fst snd.
Proof.
  split.
  - intros w. exists (w.1 + 1)%Z. split; [done|]. split; [lia|done].
  - intros host q w. split; [reflexivity|done].
Qed.

Definition lw_env : environment := ex_env [("JWT_SECRET", "k3y")].
Definition lw_run : process unit :=
  (gateway_process (ex_outside false) ex_url lw_time lw_redis lw_net (0%Z, []) lw_env (mkProcess tt [])).2.

Lemma deployed_gateway_limit_witness :
  ∃ svc, Serving (server_of ":8080") svc ∈ pr_trace lw_run ∧
    ∃ lim g, svc = gateway_service lw_time lw_redis lw_net (0%Z, []) lim g ∧
      ∀ rs, let x := limiter_start lw_redis (0%Z, []) lim in
        (inject_Z (sent_for lw_time lw_net snd g "10.0.0.7" rs x) <=
         40 + seconds_of ((gw_world (serve lw_time lw_net g rs x)).1 - (gw_world x).1) * 20 +
         inject_Z (Z.of_nat (length rs)) * slack 40)%Q.
Proof.
  eexists. split; [left|].
  edestruct (deployed_gateway_limit (ex_outside false) ex_url lw_time lw_redis lw_net (0%Z, []) fst snd lw_env
    (server_of ":8080")) as (lim & g & E & Hall); [reflexivity|left|].
  exists lim, g. split; [exact E|]. intros rs. exact (Hall [] rs "10.0.0.7").
Defined.

(** Fifty requests at one instant: forty are sent. *)
Definition lw_auth : Authenticator := NewAuthenticator "k3y" "web3-event-platform" (3600 * second).
Definition lw_token : string :=
  match Issue lw_auth 0 "user-client" RoleUser with Ok t => Token_AccessToken t | _ => "" end.
Definition lw_gateway : Config (W:=gworld (W:=Z * list (string * Request))) :=
  mkConfig lw_auth ex_clients (mkTarget "" [] "user:8081") (mkTarget "" [] "wallet:8082")
    (mkTarget "" [] "margin:8085") (Some (limiter_of lw_time lw_redis (UseMemory (NewRateLimiter 20 40)))).
Example forty_of_fifty :
  sent_for lw_time lw_net snd lw_gateway "10.0.0.7" (replicate 50 (list_request lw_token))
    (limiter_start lw_redis (0%Z, []) (UseMemory (NewRateLimiter 20 40))) = 40%Z.
Proof. vm_compute. reflexivity. Qed.
End example.
