(* ===== verification/LoadTest.v ===== *)
(** * The load generator (loadtest/main.go)

    Workers send requests until the test's context expires, count what they
    get in two shared counters and hand in their latencies at the end;
    [report] prints the figures.  The goroutines are a step function over
    labels, one per shared access, so that a schedule is a list of labels and
    the theorems hold of every schedule.  Durations are nanoseconds. *)

From S2P Require Import Prelude Http Float64.
From Stdlib Require Import QArith.
#[local] Open Scope Z_scope.

(** ** One request *)

(** [*http.Request] as the client builds it. *)
Record clientRequest := mkClientRequest {
  creq_Method : string;
  creq_URL : string;
  creq_Header : headers;
}.

(** [http.NewRequest] with a valid method and no body: [url.Parse] decides. *)
Definition http_NewRequest (url_Parse : string → res string) (method url : string) : res clientRequest :=
  res_bind (url_Parse url) (λ u, Ok (mkClientRequest method u ∅)).

(** What [client.Do] gives: the status code of a response. *)
Definition exchange := clientRequest → res Z.

(** [do]. *)
Definition do_request (url_Parse : string → res string) (client_Do : exchange) (url token : string) : Z :=
  match http_NewRequest url_Parse "GET" url with
  | Ok req =>
      let req := if bool_decide (token = "") then req
                 else mkClientRequest (creq_Method req) (creq_URL req)
                        (Header_Set (creq_Header req) "Authorization" ("Bearer " +:+ token)) in
      match client_Do req with Ok code => code | _ => 0 end
  | _ => 0
  end.

(** [code >= 200 && code < 400]. *)
Definition success_code (code : Z) : bool := (200 <=? code) && (code <? 400).

(** ** The goroutines *)

(** The flags, and the [http.Client] built from them. *)
Record flags := mkFlags {
  flag_url : string;
  flag_c : Z;
  flag_d : Z;
  flag_token : string;
}.
Definition default_flags : flags := mkFlags "http://localhost:8080/healthz" 50 (15 * 1000000000) "".

Record httpClient := mkClient {
  client_Timeout : Z;
  client_MaxIdleConns : Z;
  client_MaxIdleConnsPerHost : Z;
}.
Definition client_of (f : flags) : httpClient :=
  mkClient (10 * 1000000000) (i64 (flag_c f * 2)) (i64 (flag_c f * 2)).

(** Where a worker is: before the test of the loop, in the request, past the
    loop, done.  It owns its [local] latencies. *)
Inductive worker :=
  | Looping (local : list Z)
  | Requesting (local : list Z)
  | Finishing (local : list Z)
  | Stopped.

#[export] Instance worker_eq_dec : EqDecision worker.
Proof. solve_decision. Defined.

(** The variables of [main].  [ls_history] is a ghost: every answered request
    with the code and the latency its worker measured. *)
Record lstate := mkLstate {
  ls_unspawned : nat;
  ls_workers : list worker;
  ls_ok : Z;
  ls_failed : Z;
  ls_latencies : list Z;
  ls_expired : bool;
  ls_history : list (Z * Z);
}.

Inductive label :=
  | Spawn
  | Test (i : nat)
  | Answer (i : nat) (client_Do : exchange) (lat : Z)
  | Merge (i : nat)
  | Expire.

Section load.
Context (url_Parse : string → res string) (f : flags).
Implicit Types (s : lstate) (w : worker).

(** Before the [for] loop that starts the workers. *)
Definition load_start : lstate := mkLstate (Z.to_nat (flag_c f)) [] 0 0 [] false [].

Definition set_worker s (i : nat) w : lstate :=
  mkLstate (ls_unspawned s) (<[i := w]> (ls_workers s)) (ls_ok s) (ls_failed s) (ls_latencies s) (ls_expired s)
    (ls_history s).

(** The body of the loop after [do]: the counters are atomic. *)
Definition count s (i : nat) (local : list Z) (code lat : Z) : lstate :=
  if success_code code then
    mkLstate (ls_unspawned s) (<[i := Looping (local ++ [lat])]> (ls_workers s)) (i64 (ls_ok s + 1)) (ls_failed s)
      (ls_latencies s) (ls_expired s) (ls_history s ++ [(code, lat)])
  else
    mkLstate (ls_unspawned s) (<[i := Looping local]> (ls_workers s)) (ls_ok s) (i64 (ls_failed s + 1))
      (ls_latencies s) (ls_expired s) (ls_history s ++ [(code, lat)]).

Definition lstep (l : label) s : option lstate :=
  match l with
  | Spawn =>
      match ls_unspawned s with
      | O => None
      | S n => Some (mkLstate n (ls_workers s ++ [Looping []]) (ls_ok s) (ls_failed s) (ls_latencies s)
                       (ls_expired s) (ls_history s))
      end
  | Test i =>
      match ls_workers s !! i with
      | Some (Looping local) => Some (set_worker s i (if ls_expired s then Finishing local else Requesting local))
      | _ => None
      end
  | Answer i client_Do lat =>
      match ls_workers s !! i with
      | Some (Requesting local) =>
          (* [time.Since] of a monotonic reading *)
          if (0 <=? lat) && (lat <? 2 ^ 63)
          then Some (count s i local (do_request url_Parse client_Do (flag_url f) (flag_token f)) lat)
          else None
      | _ => None
      end
  | Merge i =>
      match ls_workers s !! i with
      | Some (Finishing local) =>
          Some (mkLstate (ls_unspawned s) (<[i := Stopped]> (ls_workers s)) (ls_ok s) (ls_failed s)
                  (ls_latencies s ++ local) (ls_expired s) (ls_history s))
      | _ => None
      end
  | Expire =>
      if ls_expired s then None
      else Some (mkLstate (ls_unspawned s) (ls_workers s) (ls_ok s) (ls_failed s) (ls_latencies s) true (ls_history s))
  end.

Fixpoint schedule (ls : list label) s : option lstate :=
  match ls with
  | [] => Some s
  | l :: ls => lstep l s ≫= schedule ls
  end.

(** [wg.Wait()] returns here. *)
Definition finished s : bool := bool_decide (ls_unspawned s = 0%nat ∧ Forall (λ w, w = Stopped) (ls_workers s)).
End load.

(** ** The report *)

(** [sort.Slice(lat, ...)]. *)
#[export] Instance Zle_dec' : RelDecision Z.le := Z.le_dec.
Definition sort_latencies (lat : list Z) : list Z := merge_sort Z.le lat.

(** [pct]; [None] is the index panic. *)
Definition pct (sorted : list Z) (p : Z) : option Z :=
  match sorted with
  | [] => Some 0
  | _ =>
      let n := Z.of_nat (length sorted) in
      let idx := Z.quot (i64 (p * n)) 100 in
      let idx := if n <=? idx then n - 1 else idx in
      if idx <? 0 then None else sorted !! Z.to_nat idx
  end.

(** [Duration.Round] of the standard library. *)
Definition lessThanHalf (x y : Z) : bool := (x + x) mod 2 ^ 64 <? y.
Definition Duration_Round (d m : Z) : Z :=
  if m <=? 0 then d
  else
    let r := Z.rem d m in
    if d <? 0 then
      let r := - r in
      if lessThanHalf r m then i64 (d + r)
      else let d1 := i64 (i64 (d - m) + r) in if d1 <? d then d1 else - 2 ^ 63
    else if lessThanHalf r m then i64 (d - r)
    else let d1 := i64 (i64 (d + m) - r) in if d <? d1 then d1 else 2 ^ 63 - 1.

(** A float64 that [%.0f] prints: the quotient of a division may not be
    finite. *)
Inductive rate :=
  | Finite (x : Q)
  | Infinite
  | NotANumber.
Definition rps (ok elapsed : Z) : rate :=
  let secs := Duration_Seconds elapsed in
  if Qeq_bool secs 0 then if ok =? 0 then NotANumber else Infinite
  else Finite (fdiv (of_int ok) secs).
Inductive line :=
  | LineDuration (d : Z)
  | LineConcurrency (c : Z)
  | LineRequests (total ok failed : Z)
  | LineThroughput (r : rate)
  | LineLatency (p : Z) (d : Z)
  | NoteFailed (failed : Z).

Definition Millisecond : Z := 1000000.
Definition Microsecond : Z := 1000.

Definition latency_line (lat : list Z) (p : Z) : option line :=
  (λ v, LineLatency p (Duration_Round v Microsecond)) <$> pct lat p.

(** [report]: the lines printed; [None] is a panic. *)
Definition report (elapsed ok failed : Z) (lat : list Z) (c : Z) : option (list line) :=
  let total := i64 (ok + failed) in
  let lat := sort_latencies lat in
  latencies ← (if bool_decide (0 < length lat)%nat then mapM (latency_line lat) [50; 90; 99] else Some []);
  Some ([LineDuration (Duration_Round elapsed Millisecond); LineConcurrency c; LineRequests total ok failed;
         LineThroughput (rps ok elapsed)] ++ latencies ++
        if 0 <? failed then [NoteFailed failed] else []).

(** ** What a run is measured against *)

Definition good_latencies (h : list (Z * Z)) : list Z := snd <$> filter (λ x, success_code x.1 = true) h.
Definition successes (h : list (Z * Z)) : Z := Z.of_nat (length (filter (λ x, success_code x.1 = true) h)).
Definition failures (h : list (Z * Z)) : Z := Z.of_nat (length (filter (λ x, success_code x.1 = false) h)).

Definition local_of (w : worker) : list Z :=
  match w with
  | Looping l | Requesting l | Finishing l => l
  | Stopped => []
  end.

(** Samples at most [d], and a value that is a sample and bounds [p] percent
    of them. *)
Definition at_most (d : Z) (lat : list Z) : Z := Z.of_nat (length (filter (λ x, x ≤ d) lat)).
Definition covers (lat : list Z) (p v : Z) : Prop := v ∈ lat ∧ p * Z.of_nat (length lat) ≤ 100 * at_most v lat.

(** The shared variables agree with the requests answered so far. *)
Record load_inv (c : Z) (s : lstate) : Prop := {
  li_ok : ls_ok s = i64 (successes (ls_history s));
  li_failed : ls_failed s = i64 (failures (ls_history s));
  li_latencies : ls_latencies s ++ (ls_workers s ≫= local_of) ≡ₚ good_latencies (ls_history s);
  li_workers : (ls_unspawned s + length (ls_workers s))%nat = Z.to_nat c;
  li_range : Forall (λ x, 0 ≤ x.2 < 2 ^ 63) (ls_history s);
}.

(** Steps a worker can still take once the context has expired. *)
Definition worker_left (w : worker) : nat :=
  match w with
  | Requesting _ => 3
  | Looping _ => 2
  | Finishing _ => 1
  | Stopped => 0
  end.
Definition load_left (s : lstate) : nat := 3 * ls_unspawned s + sum_list_with worker_left (ls_workers s).

(** ** Percentiles *)

Lemma sorted_lookup_le (l : list Z) i j x y :
  StronglySorted Z.le l → l !! i = Some x → l !! j = Some y → (i ≤ j)%nat → x ≤ y.
Proof.
  intros Hs. revert i j. induction Hs as [|a l Hs IH Ha]; intros i j Hi Hj Hij; [done|].
  destruct i as [|i], j as [|j]; simpl in *; simplify_eq; [lia| |lia|].
  - rewrite Forall_forall in Ha. apply Ha. by eapply list_elem_of_lookup_2.
  - eapply IH; eauto. lia.
Qed.

Lemma filter_all (P : Z → Prop) `{∀ x, Decision (P x)} (l : list Z) : (∀ x, x ∈ l → P x) → filter P l = l.
Proof.
  induction l as [|a l IH]; intros Hl; [done|]. rewrite filter_cons, decide_True by (apply Hl; by left).
  f_equal. apply IH. intros x Hx. apply Hl. by right.
Qed.

Lemma at_most_prefix (l : list Z) i x :
  StronglySorted Z.le l → l !! i = Some x → Z.of_nat i + 1 ≤ at_most x l.
Proof.
  intros Hs Hi. unfold at_most. rewrite <-(take_drop (Datatypes.S i) l), filter_app, length_app.
  assert (filter (λ y, y ≤ x) (take (Datatypes.S i) l) = take (Datatypes.S i) l) as ->.
  { apply filter_all. intros y Hy.
    apply list_elem_of_lookup in Hy as [k Hk]. apply lookup_take_Some in Hk as [Hk Hlt].
    eapply sorted_lookup_le; eauto. lia. }
  rewrite length_take. apply lookup_lt_Some in Hi. lia.
Qed.

(** The index the source computes. *)
Definition pct_index (n p : Z) : Z := Z.min (n - 1) (p * n / 100).

Lemma pct_index_bounds n p : 0 < n → 0 ≤ p ≤ 100 → 0 ≤ pct_index n p < n ∧ p * n ≤ 100 * (pct_index n p + 1).
Proof.
  intros Hn Hp. unfold pct_index.
  pose proof (Z.div_mod (p * n) 100 ltac:(lia)). pose proof (Z.mod_pos_bound (p * n) 100 ltac:(lia)).
  pose proof (Z.div_pos (p * n) 100 ltac:(nia) ltac:(lia)). nia.
Qed.

Lemma pct_lookup l p :
  l ≠ [] → 0 ≤ p ≤ 100 → 100 * Z.of_nat (length l) < 2 ^ 63 →
  pct l p = l !! Z.to_nat (pct_index (Z.of_nat (length l)) p) ∧ is_Some (pct l p).
Proof.
  intros Hl Hp Hlen. unfold pct. destruct l as [|a l]; [done|]. set (L := a :: l) in *.
  assert (0 < Z.of_nat (length L)) as Hpos by (simpl; lia).
  destruct (pct_index_bounds (Z.of_nat (length L)) p Hpos Hp) as [Hi _]. cbv zeta.
  rewrite i64_id by nia. rewrite Z.quot_div_nonneg by nia.
  assert ((if Z.of_nat (length L) <=? p * Z.of_nat (length L) / 100 then Z.of_nat (length L) - 1
           else p * Z.of_nat (length L) / 100) = pct_index (Z.of_nat (length L)) p) as ->.
  { unfold pct_index. destruct (Z.leb_spec (Z.of_nat (length L)) (p * Z.of_nat (length L) / 100)); lia. }
  destruct (Z.ltb_spec (pct_index (Z.of_nat (length L)) p) 0); [lia|]. split; [done|].
  apply lookup_lt_is_Some. lia.
Qed.

Lemma sort_latencies_spec lat : sort_latencies lat ≡ₚ lat ∧ StronglySorted Z.le (sort_latencies lat).
Proof.
  split; [apply merge_sort_Permutation|]. apply Sorted_StronglySorted; [intros x y z; lia|].
  apply Sorted_merge_sort. intros x y. lia.
Qed.

(** A percentile of the sorted samples covers them; a higher percentile is
    not smaller. *)
Lemma pct_covers lat p :
  lat ≠ [] → 0 ≤ p ≤ 100 → 100 * Z.of_nat (length lat) < 2 ^ 63 →
  ∃ v, pct (sort_latencies lat) p = Some v ∧ covers lat p v.
Proof.
  intros Hl Hp Hlen. destruct (sort_latencies_spec lat) as [Hperm Hs].
  pose proof (Permutation_length Hperm) as El.
  assert (sort_latencies lat ≠ []) as Hne by (intros E; rewrite E in Hperm; by apply Permutation_nil in Hperm).
  destruct (pct_lookup _ p Hne Hp ltac:(lia)) as [E [v Hv]]. exists v. split; [done|].
  rewrite E in Hv. unfold covers. split.
  - rewrite <-Hperm. by eapply list_elem_of_lookup_2.
  - assert (at_most v (sort_latencies lat) = at_most v lat) as <- by (unfold at_most; by rewrite Hperm).
    pose proof (at_most_prefix _ _ _ Hs Hv). assert (0 < Z.of_nat (length lat)) by (destruct lat; simpl; [done|lia]).
    destruct (pct_index_bounds (Z.of_nat (length (sort_latencies lat))) p) as [Hb Hc]; lia.
Qed.

Lemma pct_mono lat p q v w :
  lat ≠ [] → 0 ≤ p ≤ q → q ≤ 100 → 100 * Z.of_nat (length lat) < 2 ^ 63 →
  pct (sort_latencies lat) p = Some v → pct (sort_latencies lat) q = Some w → v ≤ w.
Proof.
  intros Hl Hp Hq Hlen Hv Hw. destruct (sort_latencies_spec lat) as [Hperm Hs].
  pose proof (Permutation_length Hperm) as El.
  assert (sort_latencies lat ≠ []) as Hne by (intros E; rewrite E in Hperm; by apply Permutation_nil in Hperm).
  destruct (pct_lookup _ p Hne ltac:(lia) ltac:(lia)) as [Ep _].
  destruct (pct_lookup _ q Hne ltac:(lia) ltac:(lia)) as [Eq _]. rewrite Ep in Hv. rewrite Eq in Hw.
  eapply (sorted_lookup_le _ _ _ _ _ Hs Hv Hw). apply Z2Nat.inj_le; unfold pct_index.
  - assert (0 < Z.of_nat (length lat)) by (destruct lat; simpl; [done|lia]).
    pose proof (Z.div_pos (p * Z.of_nat (length (sort_latencies lat))) 100 ltac:(nia) ltac:(lia)). lia.
  - assert (0 < Z.of_nat (length lat)) by (destruct lat; simpl; [done|lia]).
    pose proof (Z.div_pos (q * Z.of_nat (length (sort_latencies lat))) 100 ltac:(nia) ltac:(lia)). lia.
  - pose proof (Z.div_le_mono (p * Z.of_nat (length (sort_latencies lat)))
                  (q * Z.of_nat (length (sort_latencies lat))) 100 ltac:(lia) ltac:(nia)). lia.
Qed.

(** Rounding moves a duration by at most half a unit. *)
Lemma Duration_Round_close d m :
  0 ≤ d < 2 ^ 63 → 0 < m < 2 ^ 62 → 2 * Z.abs (Duration_Round d m - d) ≤ m.
Proof.
  intros Hd Hm. unfold Duration_Round, lessThanHalf.
  destruct (Z.leb_spec m 0); [lia|]. cbv zeta. destruct (Z.ltb_spec d 0); [lia|].
  rewrite Z.rem_mod_nonneg by lia.
  pose proof (Z.mod_pos_bound d m ltac:(lia)). pose proof (Z.mod_le d m ltac:(lia) ltac:(lia)).
  rewrite (Z.mod_small (d mod m + d mod m)) by lia.
  destruct (Z.ltb_spec (d mod m + d mod m) m); [rewrite i64_id by lia; lia|].
  change (i64 (d + m) - d mod m) with (i64 (d + m) + - (d mod m)). rewrite i64_add_l.
  destruct (decide (d + m - d mod m < 2 ^ 63)) as [Hs|Hb].
  - rewrite i64_id by lia. destruct (Z.ltb_spec d (d + m + - (d mod m))); lia.
  - assert (i64 (d + m + - (d mod m)) = d + m + - (d mod m) - 2 ^ 64) as ->.
    { unfold i64. replace (d + m + - (d mod m) + 2 ^ 63) with (d + m - d mod m - 2 ^ 63 + 1 * 2 ^ 64) by lia.
      rewrite Z.mod_add by lia. rewrite Z.mod_small; lia. }
    destruct (Z.ltb_spec d (d + m + - (d mod m) - 2 ^ 64)); lia.
Qed.

Lemma covers_perm lat g (Hp : lat ≡ₚ g) p v : covers lat p v ↔ covers g p v.
Proof. unfold covers, at_most. by rewrite Hp. Qed.

(** The latency lines of samples that are the ok latencies in some order. *)
Lemma report_latencies lat g :
  lat ≡ₚ g → 100 * Z.of_nat (length g) < 2 ^ 63 → Forall (λ v, 0 ≤ v < 2 ^ 63) g →
  ∃ lines,
    (if bool_decide (0 < length (sort_latencies lat))%nat then mapM (latency_line (sort_latencies lat)) [50; 90; 99]
     else Some []) = Some lines ∧
    (g = [] ∧ lines = [] ∨
     ∃ v50 v90 v99, covers g 50 v50 ∧ covers g 90 v90 ∧ covers g 99 v99 ∧ v50 ≤ v90 ≤ v99 ∧
       lines = (λ '(p, v), LineLatency p (Duration_Round v Microsecond)) <$> [(50, v50); (90, v90); (99, v99)] ∧
       Forall (λ v, 2 * Z.abs (Duration_Round v Microsecond - v) ≤ Microsecond) [v50; v90; v99]).
Proof.
  intros Hp Hlen Hr. destruct (sort_latencies_spec lat) as [Hs _].
  pose proof (Permutation_length Hp) as El. pose proof (Permutation_length Hs) as El'.
  destruct (decide (g = [])) as [->|Hg].
  { exists []. rewrite bool_decide_eq_false_2; [by split; [|left]|]. cbn in El. lia. }
  assert (lat ≠ []) as Hne by (intros ->; destruct g; [done|by cbn in El]).
  rewrite bool_decide_eq_true_2 by (destruct lat; [done|cbn [length] in *; lia]).
  destruct (pct_covers lat 50 Hne ltac:(lia) ltac:(lia)) as (v50 & E50 & C50).
  destruct (pct_covers lat 90 Hne ltac:(lia) ltac:(lia)) as (v90 & E90 & C90).
  destruct (pct_covers lat 99 Hne ltac:(lia) ltac:(lia)) as (v99 & E99 & C99).
  rewrite (covers_perm _ _ Hp) in C50, C90, C99.
  eexists. split; [unfold latency_line; cbn; rewrite E50, E90, E99; reflexivity|right].
  exists v50, v90, v99. do 3 (split; [done|]). split; [split; eapply pct_mono; eauto; lia|]. split; [done|].
  assert (∀ p v, covers g p v → 2 * Z.abs (Duration_Round v Microsecond - v) ≤ Microsecond) as Hc.
  { intros p v [Hv _]. rewrite Forall_forall in Hr. apply Duration_Round_close; [by apply Hr|]. unfold Microsecond. lia. }
  repeat constructor; eauto.
Qed.

(** Fields of a state just built. *)
Ltac ls_fields := cbn [ls_unspawned ls_workers ls_ok ls_failed ls_latencies ls_expired ls_history set_worker].

(** ** Every schedule *)

Lemma history_snoc h code lat :
  successes (h ++ [(code, lat)]) = successes h + (if success_code code then 1 else 0) ∧
  failures (h ++ [(code, lat)]) = failures h + (if success_code code then 0 else 1) ∧
  good_latencies (h ++ [(code, lat)]) = good_latencies h ++ (if success_code code then [lat] else []).
Proof.
  unfold successes, failures, good_latencies. rewrite !filter_app, !length_app, fmap_app.
  destruct (success_code code) eqn:Eg; cbn; rewrite Eg; repeat case_decide; try done; cbn; repeat split; lia.
Qed.

Lemma history_length h : successes h + failures h = Z.of_nat (length h) ∧ Z.of_nat (length (good_latencies h)) = successes h.
Proof.
  split; [|unfold good_latencies, successes; by rewrite length_fmap].
  induction h as [|[code lat] h IH] using rev_ind; [done|].
  destruct (history_snoc h code lat) as (-> & -> & _). rewrite length_app. cbn [length]. destruct (success_code code); lia.
Qed.

Lemma load_left_insert (ws : list worker) i w w' :
  ws !! i = Some w →
  (sum_list_with worker_left (<[i := w']> ws) + worker_left w = sum_list_with worker_left ws + worker_left w')%nat.
Proof.
  intros Hi. rewrite insert_take_drop by (by eapply lookup_lt_Some).
  rewrite <-(take_drop_middle ws i w Hi) at 3. rewrite !sum_list_with_app. cbn [sum_list_with]. lia.
Qed.

Section runs.
Context (url_Parse : string → res string) (f : flags).
Implicit Types (s : lstate) (l : label).
Abbreviation step := (lstep url_Parse f).
Abbreviation run := (schedule url_Parse f).

Lemma load_inv_start : load_inv (flag_c f) (load_start f).
Proof. split; cbn; try done; lia. Qed.

Lemma load_inv_step l s s' : load_inv (flag_c f) s → step l s = Some s' → load_inv (flag_c f) s'.
Proof.
  intros [Hok Hf Hl Hw Hr] Hs. destruct l as [|i|i d lat|i|]; cbn [lstep] in Hs.
  - destruct (ls_unspawned s) as [|n] eqn:Eu; simplify_eq. split; ls_fields; try done.
    + rewrite bind_app. cbn. by rewrite !app_nil_r.
    + rewrite length_app. cbn. lia.
  - destruct (ls_workers s !! i) as [[local| | |]|] eqn:Ei; simplify_eq. split; ls_fields; try done; [|by rewrite length_insert].
    destruct (bind_insert local_of _ _ _ (if ls_expired s then Finishing local else Requesting local) Ei) as (rest & E1 & E2).
    rewrite E2, <-Hl, E1. by destruct (ls_expired s).
  - destruct (ls_workers s !! i) as [[|local| |]|] eqn:Ei; try done.
    destruct ((0 <=? lat) && (lat <? 2 ^ 63)) eqn:Elat; simplify_eq. apply andb_prop in Elat as [??].
    set (code := do_request _ _ _ _). destruct (history_snoc (ls_history s) code lat) as (H1 & H2 & H3).
    assert (Forall (λ x, 0 ≤ x.2 < 2 ^ 63) (ls_history s ++ [(code, lat)])) by (apply Forall_app; split; [done|]; constructor; cbn; [lia|done]).
    unfold count. destruct (success_code code); split; ls_fields; try done; rewrite ?H1, ?H2, ?H3, ?length_insert, ?Z.add_0_r, ?app_nil_r; try done;
      rewrite ?Hok, ?Hf, ?i64_add_l; try done.
    + destruct (bind_insert local_of _ _ _ (Looping (local ++ [lat])) Ei) as (rest & E1 & E2).
      rewrite E2, <-Hl, E1. cbn. solve_Permutation.
    + destruct (bind_insert local_of _ _ _ (Looping local) Ei) as (rest & E1 & E2). by rewrite E2, <-Hl, E1.
  - destruct (ls_workers s !! i) as [[| |local|]|] eqn:Ei; simplify_eq. split; ls_fields; try done; [|by rewrite length_insert].
    destruct (bind_insert local_of _ _ _ Stopped Ei) as (rest & E1 & E2). rewrite E2, <-Hl, E1. cbn. solve_Permutation.
  - destruct (ls_expired s); simplify_eq. by split.
Qed.

Lemma load_inv_run ls s s' : load_inv (flag_c f) s → run ls s = Some s' → load_inv (flag_c f) s'.
Proof.
  revert s. induction ls as [|l ls IH]; intros s Hi Hr; cbn in Hr; simplify_eq; [done|].
  destruct (step l s) as [s1|] eqn:E; [|done]. eapply IH; [|done]. by eapply load_inv_step.
Qed.

Lemma finished_locals s : finished s = true → ls_workers s ≫= local_of = [].
Proof.
  intros [_ Hw]%bool_decide_eq_true. induction Hw as [|w ws -> Hw IH]; [done|]. by rewrite bind_cons, IH.
Qed.

(** Once the context has expired, a step brings the end closer. *)
Lemma step_left l s s' : ls_expired s = true → step l s = Some s' → ls_expired s' = true ∧ (load_left s' < load_left s)%nat.
Proof.
  intros He Hs. destruct l as [|i|i d lat|i|]; cbn [lstep] in Hs; rewrite ?He in Hs.
  - destruct (ls_unspawned s) eqn:Eu; simplify_eq. split; [done|]. unfold load_left. cbn.
    rewrite sum_list_with_app, Eu. cbn. lia.
  - destruct (ls_workers s !! i) as [[local| | |]|] eqn:Ei; simplify_eq. split; [done|].
    pose proof (load_left_insert _ _ _ (Finishing local) Ei) as E. unfold load_left. cbn in *. lia.
  - destruct (ls_workers s !! i) as [[|local| |]|] eqn:Ei; try done. destruct (_ && _); simplify_eq.
    unfold count. destruct (success_code _); split; try done; unfold load_left; cbn.
    + pose proof (load_left_insert _ _ _ (Looping (local ++ [lat])) Ei) as E. cbn in *. lia.
    + pose proof (load_left_insert _ _ _ (Looping local) Ei) as E. cbn in *. lia.
  - destruct (ls_workers s !! i) as [[| |local|]|] eqn:Ei; simplify_eq. split; [done|].
    pose proof (load_left_insert _ _ _ Stopped Ei) as E. unfold load_left. cbn in *. lia.
  - done.
Qed.

(** A worker that is not done can move; a request in flight ends, with an
    error at the latest when the client times out. *)
Lemma step_progress s : finished s = false → ∃ l s', step l s = Some s'.
Proof.
  intros Hf%bool_decide_eq_false. destruct (ls_unspawned s) as [|n] eqn:Eu.
  - assert (¬ Forall (λ w, w = Stopped) (ls_workers s)) as Hn by (intros Hw; by apply Hf).
    assert (∃ i w, ls_workers s !! i = Some w ∧ w ≠ Stopped) as (i & w & Hi & Hw).
    { assert (Exists (λ w, w ≠ Stopped) (ls_workers s)) as Hx.
      { apply not_Forall_Exists; [intros w; apply _|]. done. }
      apply Exists_exists in Hx as (w & Hin & Hw). apply list_elem_of_lookup in Hin as [i Hi]. eauto. }
    destruct w as [local|local|local|]; [..|done].
    + exists (Test i). cbn. rewrite Hi. eauto.
    + exists (Answer i (λ _, Ok 200) 0). cbn. rewrite Hi. eauto.
    + exists (Merge i). cbn. rewrite Hi. eauto.
  - exists Spawn. cbn. rewrite Eu. eauto.
Qed.

Lemma run_left ls s s' : ls_expired s = true → run ls s = Some s' → (length ls + load_left s' ≤ load_left s)%nat.
Proof.
  revert s. induction ls as [|l ls IH]; intros s He Hr; cbn in Hr; simplify_eq; [cbn; lia|].
  destruct (step l s) as [s1|] eqn:E; [|done]. apply step_left in E as [He1 Hlt]; [|done].
  specialize (IH s1 He1 Hr). cbn [length]. lia.
Qed.

Lemma run_to_end s : ls_expired s = true → ∃ ls s', run ls s = Some s' ∧ finished s' = true.
Proof.
  remember (load_left s) as n eqn:En. revert s En. induction (lt_wf n) as [n _ IH]. intros s -> He.
  destruct (finished s) eqn:Ef; [by exists [], s|].
  destruct (step_progress s Ef) as (l & s1 & Hl). destruct (step_left l s s1 He Hl) as [He1 Hlt].
  destruct (IH _ Hlt s1 eq_refl He1) as (ls & s' & Hr & Hf). exists (l :: ls), s'. cbn. by rewrite Hl.
Qed.

(** C18: Whatever the interleaving of the workers and whatever the target
    answers, when the last worker has stopped the report does not panic and
    says what happened: every answered request is counted once, as ok or as
    failed; latency lines are there exactly when a request was ok, and the
    50th, 90th and 99th percentile are, to half a microsecond, latencies
    of ok requests that bound that share of the ok requests, in this
    order; the note is there exactly when a request failed. *)
Theorem report_matches_requests ls s elapsed :
  run ls (load_start f) = Some s → finished s = true →
  100 * Z.of_nat (length (ls_history s)) < 2 ^ 63 →
  let h := ls_history s in
  ∃ lines,
    report elapsed (ls_ok s) (ls_failed s) (ls_latencies s) (flag_c f) =
      Some ([LineDuration (Duration_Round elapsed Millisecond); LineConcurrency (flag_c f);
             LineRequests (Z.of_nat (length h)) (successes h) (failures h);
             LineThroughput (rps (successes h) elapsed)] ++ lines ++
            if 0 <? failures h then [NoteFailed (failures h)] else []) ∧
    (good_latencies h = [] ∧ lines = [] ∨
     ∃ v50 v90 v99,
       covers (good_latencies h) 50 v50 ∧ covers (good_latencies h) 90 v90 ∧ covers (good_latencies h) 99 v99 ∧
       v50 ≤ v90 ≤ v99 ∧
       lines = (λ '(p, v), LineLatency p (Duration_Round v Microsecond)) <$> [(50, v50); (90, v90); (99, v99)] ∧
       Forall (λ v, 2 * Z.abs (Duration_Round v Microsecond - v) ≤ Microsecond) [v50; v90; v99]).
Proof.
  intros Hr Hf Hlen h.
  destruct (load_inv_run _ _ _ load_inv_start Hr) as [Hok Hfd Hl _ Hrange].
  rewrite finished_locals, app_nil_r in Hl by done. fold h in Hok, Hfd, Hl, Hrange, Hlen.
  destruct (history_length h) as [Hsum Hgl]. assert (0 ≤ failures h ∧ 0 ≤ successes h) as [? ?] by (unfold failures, successes; lia).
  unfold report. rewrite Hok, Hfd, !i64_id by (rewrite ?i64_id; lia). rewrite Hsum.
  destruct (report_latencies (ls_latencies s) (good_latencies h) Hl) as (lines & Hm & Hc); [lia| |].
  { unfold good_latencies. apply Forall_fmap, Forall_forall. intros x [_ Hx]%list_elem_of_filter.
    by eapply (Forall_forall (λ x, 0 ≤ x.2 < 2 ^ 63)) in Hx. }
  cbv zeta. rewrite Hm. cbn [mbind option_bind]. by exists lines.
Qed.

(** C35: Once the test's time is up the load test ends: every schedule from
    there is finite, with a bound known at that moment, and none gets stuck
    before the last worker has handed in its latencies. *)
Theorem load_test_ends s :
  ls_expired s = true →
  (∀ ls s', run ls s = Some s' →
     (length ls ≤ load_left s)%nat ∧ (finished s' = true ∨ ∃ l s'', step l s' = Some s'')) ∧
  ∃ ls s', run ls s = Some s' ∧ finished s' = true.
Proof.
  intros He. split; [|by apply run_to_end]. intros ls s' Hr. pose proof (run_left _ _ _ He Hr). split; [lia|].
  destruct (finished s') eqn:Ef; [by left|right]. by apply step_progress.
Qed.
End runs.

(** ** A run of two workers *)

Module LoadExample.
Definition ex_parse : string → res string := λ u, Ok u.
Definition ex_flags : flags := mkFlags "http://gateway/healthz" 2 (15 * 1000000000) "tok".
(** The target answers 200 to a request that carries the token. *)
Definition ex_target : exchange := λ r,
  Ok (if bool_decide (Header_Get (creq_Header r) "Authorization" = "Bearer tok") then 200 else 401).
Definition ex_down : exchange := λ _, Err (ErrorString "connection refused").
Definition ex_labels : list label :=
  [Spawn; Test 0; Spawn; Test 1; Answer 0 ex_target 30000; Test 0; Answer 1 ex_down 5000; Test 1;
   Answer 1 ex_target 10000; Test 1; Expire; Answer 0 ex_target 20400; Test 0; Merge 0;
   Answer 1 ex_target 40000; Test 1; Merge 1].
Definition ex_end : lstate :=
  mkLstate 0 [Stopped; Stopped] 4 1 [30000; 20400; 10000; 40000] true
    [(200, 30000); (0, 5000); (200, 10000); (200, 20400); (200, 40000)].

Lemma ex_run : schedule ex_parse ex_flags ex_labels (load_start ex_flags) = Some ex_end.
Proof. vm_compute. reflexivity. Qed.

Example ex_report :
  report 15000400000 (ls_ok ex_end) (ls_failed ex_end) (ls_latencies ex_end) 2 =
  Some [LineDuration 15000000000; LineConcurrency 2; LineRequests 5 4 1; LineThroughput (rps 4 15000400000);
        LineLatency 50 30000; LineLatency 90 40000; LineLatency 99 40000; NoteFailed 1].
Proof. vm_compute. reflexivity. Qed.
End LoadExample.

Lemma report_matches_requests_witness :
  ∃ lines, report 15000400000 4 1 [30000; 20400; 10000; 40000] 2 =
    Some ([LineDuration (Duration_Round 15000400000 Millisecond); LineConcurrency 2; LineRequests 5 4 1;
           LineThroughput (rps 4 15000400000)] ++ lines ++ [NoteFailed 1]).
Proof.
  destruct (report_matches_requests LoadExample.ex_parse LoadExample.ex_flags LoadExample.ex_labels LoadExample.ex_end
              15000400000 LoadExample.ex_run eq_refl eq_refl) as (lines & E & _).
  exists lines. exact E.
Defined.

Lemma load_test_ends_witness :
  ∃ ls s', schedule LoadExample.ex_parse LoadExample.ex_flags ls
             (mkLstate 1 [Looping []; Requesting [10]; Stopped] 1 0 [] true [(200, 10)]) = Some s' ∧ finished s' = true.
Proof. apply load_test_ends. reflexivity. Defined.
